(* ===== verification/_CoqProject ===== *)
-Q . S2P
Prelude.v
Posix.v
IpcClient.v
IpcInterface.v
IpcLocks.v
WinIpc.v
StdMap.v
FileSys.v
Sha256.v
FileTransfer.v
Downloads.v
Watcher.v
Inotify.v
FsEvents.v
RdcWatcher.v
WatchInterface.v
WatchStop.v
JsonNumber.v
Doubles.v
Dtoa.v
DtoaSpec.v
DtoaFormat.v
JsonLexer.v
JsonValue.v
JsonParser.v
JsonSerializer.v
JsonStrings.v
JsonIntegers.v
JsonTokens.v
JsonRoundtrip.v
JsonTotal.v
JsonCompare.v
JsonAccess.v
JsonPointer.v
JsonFlatten.v
JsonPatch.v
JsonPatchSpec.v
JsonBinary.v
JsonReads.v
JsonMsgpack.v
JsonMsgpackSpec.v
JsonCbor.v
JsonCborSpec.v
JsonBson.v
JsonBsonSpec.v
JsonUbjson.v
JsonUbjsonSpec.v
JsonCallback.v
JsonCallbackSpec.v
Daemon.v
DaemonSpec.v
Announce.v
Replication.v
