(* ===== verification/Prelude.v ===== *)
(** * Verification of the C++ daemon of the P2P version-control system

    The daemon (src/src/backend/cpp) watches a directory, tells the Go
    coordinator about every change over a local socket, and moves file
    contents from and to local ports of the coordinator.  This library is a
    shallow embedding of its code: one Rocq definition per function or loop of
    the source, executable, with the theorems that make it correct.

    ** Parts of the program and where they are modelled

    - [Prelude]: bytes, machine integers with their wrap-around, the exception
      monad [res], strings, shared tactics and lemmas.
    - [Posix]: scripted sockets ([sock_read], [sock_write]), byte order,
      [stoi], [atoi].  A script is what the kernel answers, call by call.
    - [IpcClient]: class UnixIpcClient of ipc_client.cpp: connect, send,
      receive, disconnect, descriptors, the length-prefixed frames.
    - [IpcInterface]: the abstract class IpcClient of ipc_client.h as a type
      class with its laws; the daemon is modelled over it.
    - [IpcLocks]: the three mutexes of the client, the member functions as
      sequences of operations of interleaved threads (a step relation).
    - [WinIpc]: class WindowsIpcClient, the second instance of the interface.
    - [StdMap]: std::map with string keys as a sorted list, refined to [gmap].
    - [FileSys]: paths of std::filesystem, a file system of directories and
      regular files, file streams on a disk that may fail.
    - [Sha256]: sha256.cpp over a class for the OpenSSL digest context (a
      library outside the repository); its laws are the class [EVPLaws], and
      [RealSha256] is an executable instance, the witness that they hold.
    - [FileTransfer]: file_transfer.cpp: download, upload, chunked variants.
    - [Downloads]: the download as a thread that makes one file-system
      operation per step, and any number of such threads on one file system;
      schedules run them.
    - [Watcher], [Inotify], [FsEvents], [RdcWatcher]: the four watchers.  The
      last two have step relations for the watching thread and for [stop].
    - [WatchInterface]: the abstract class FileSystemWatcher of
      filesystem_watcher.h as a type class with its laws; the four watchers are
      its instances.
    - [WatchStop]: the watching threads of all four watchers interleaved with
      [stop], the inotify descriptor and the destructor: instances of one
      interface of systems that stop.
    - [JsonNumber], [Dtoa]: strtoull, strtoll, strtod, and the Grisu2 output of
      doubles (detail::dtoa_impl of nlohmann/json.hpp).
    - [Doubles], [DtoaSpec], [DtoaFormat]: the rounding intervals of doubles,
      the proof that the digits of Grisu2 lie inside them, the four formats.
    - [JsonLexer], [JsonValue], [JsonParser]: detail::lexer, the value type and
      the accessors the daemon calls, detail::parser with its SAX handler.
    - [JsonSerializer]: detail::serializer, with the accesses to its buffers.
    - [JsonStrings], [JsonIntegers], [JsonTokens], [JsonRoundtrip],
      [JsonTotal]: the theorems on JSON text.
    - [JsonCompare]: operator== and operator<=> of JSON values.
    - [JsonAccess]: element access, lookup, capacity and modifiers.
    - [JsonPointer], [JsonFlatten]: class json_pointer, its resolution in a
      value, flatten and unflatten; the proof that they are inverse.
    - [JsonPatch], [JsonPatchSpec]: patch, diff and merge_patch, and the
      theorems on them.
    - [JsonBinary], [JsonReads]: what the binary formats share: numbers in
      network order, float and double, SAX events and the handler that builds
      a value of them; the interface [BinaryFormat] of a writer and a reader,
      with the proof that what is written is read back.
    - [JsonMsgpack], [JsonMsgpackSpec], [JsonCbor], [JsonCborSpec]: MessagePack
      and CBOR, the two instances, and the theorems on them.
    - [JsonBson], [JsonBsonSpec]: BSON, with the pass that computes sizes.
    - [JsonUbjson], [JsonUbjsonSpec]: UBJSON, with counts and types.
    - [JsonCallback], [JsonCallbackSpec]: the handler that asks a callback which
      parts of a document to keep, with its pointers into the value it builds.
    - [Daemon], [DaemonSpec]: main.cpp: message handler, IPC worker, callback
      of the watcher, command line; and the theorems on them.
    - [Announce]: main.cpp over any watcher and any client, from the events of
      a watcher to the messages the coordinator receives.
    - [Replication]: a file from one daemon to another, through all of them.

    The daemon's threads meet in the IPC client and in the file system.  The
    worker receives frames ([IpcClient.receive]), parses them
    ([JsonParser.json_parse]) and handles them ([Daemon.handle_ipc_message]),
    which deletes a file or starts a transfer
    ([FileTransfer.handle_file_transfer]); the watcher's callback
    ([Daemon.on_event]) hashes the file ([Sha256.sha256_file]), writes a
    message ([JsonSerializer.json_dump]) and sends it ([IpcClient.send]).

    ** What the theorems show

    - Frames: what one end sends the other receives, however the kernel cuts
      the stream, for every implementation of the interface; [receive] accepts
      exactly framed messages; a broken stream disconnects; no descriptor
      leaks; two cases in which the framing is lost without a disconnection.
      The Windows client refines the Unix one except for messages of 2 GiB,
      which it cannot send, and at the end of a stream after a time-out.
    - Locks: no thread uses a descriptor that was closed since it was copied;
      the threads of the daemon do not deadlock; a lock-order inversion that
      threads of another program could meet.
    - Transfers: a completed download is the bytes received, with the expected
      size and hash; a failed one changes no file but the temporary one; with
      a peer that sends everything the download succeeds; paths without
      dot-dot stay in the watched directory; uploads send a prefix of the
      file; chunks in any order give the file.
    - Concurrent transfers: a download thread alone does what the function
      does, and it always ends; downloads to different places do not disturb
      each other, whatever the interleaving; two downloads of the same path
      can leave an empty file that was reported complete.
    - Watchers: one poll reports exactly the differences of two listings, the
      loop mirrors the directory; the kernel buffers of inotify and Windows
      are decoded to the paths the watches stand for; faults of restarting,
      trailing slashes and failed scans.
    - Stopping: [stop] of the macOS and Windows watchers returns in every
      schedule; that of the Linux watcher does unless its thread reads from a
      descriptor that was opened under the number of the closed one, which is
      possible; the thread of the polling watcher can use a destroyed object.
    - JSON: the parser ends on every input with a well-formed value or one of
      two exceptions; [dump] writes the text of a value exactly when its
      strings are UTF-8, without leaving its buffers; text that was written is
      read back, every finite double bit for bit.
    - JSON values: equality and order agree, and which values they compare;
      every sequence of modifiers keeps the invariant of the class; texts of
      pointers and pointers determine each other; what is stored through a
      pointer is found; a flattened value is restored; the difference of two
      values, applied as a patch to the first, gives the second; a merge patch
      does what its specification says, once as twice; four faults.
    - Binary formats: MessagePack and CBOR give back what was written, every
      double bit for bit, in CBOR whatever is done with tags; binary values
      come back with their subtype; both readers end on every input, whatever
      lengths it announces, and which exceptions they throw; a length that
      CBOR takes for an unknown one.  BSON: the size in front of a document is
      the number of its bytes, what is written is read back, the reader ends;
      a failure it does not report.  UBJSON: what is written with or without
      counts and types is read back; the reader ends, but a few bytes make it
      emit any number of values.
    - Parsing with a callback: the handler uses no pointer that does not point
      to a value; its result is the document without what the callback
      rejects, but for discarded members that it leaves in objects.
    - Announcements: for every watcher and every client, the events of a
      watcher reach the coordinator in their order, one message for each that
      is not ignored, and the callback throws for none with a UTF-8 name.
    - Daemon: the worker handles the coordinator's messages in order; the only
      effect of their handling on the file system is the removal of the node a
      message names; a transfer starts with the parameters of its message,
      however its text is written and whatever else it carries; a file
      change is reported with the true size, hash and mode; which events are
      ignored; when the callback throws; a path that leaves the directory.
    - Replication: a file one daemon announces and another one is asked to
      download arrives with its size, hash and mode, and does arrive when the
      coordinators relay the bytes and the disk takes them.

    ** Bounds and fuel

    Loops that are not structural have fuel that is proved or chosen above the
    number of rounds: socket loops by the weight of the script, file loops by
    the length of the file, the scanner's loops by the characters left
    ([lex_left]), the parser by the length of the input plus three
    ([json_parse_total] shows it never runs out), the binary readers by the
    length of the input plus one ([msgpack_total], [cbor_total], [bson_total]
    and [ubjson_total] show it; the loops of UBJSON over a given count have this
    count as their fuel, since its values may take no bytes), integer output by
    the number of digits of 64 bits, [grisu2_round] by ten (a decimal digit),
    the fractional digits by twenty ([fractional_digits_spec] shows that the
    loop ends before, since its distance reaches 2^60).

    ** What is not modelled

    Hashing a file is one step of a download thread; other threads cannot
    change the file between two of its blocks.  Console output, JSON values of
    binary type (they are events of the binary readers), BJData (a variant of
    UBJSON for arrays of several dimensions), comments and trailing commas in
    JSON text (the daemon does not allow them), callbacks of the parser that
    change values, iterators and the conversions of nlohmann/json the daemon
    does not use, locales other than "C", the Go coordinator (but for the port
    it derives from the socket path) and the Java frontend.  The file
    system is a POSIX one without symbolic links; the transfers are those of the
    POSIX build, which sets permissions. *)

From Stdlib Require Export ZArith Lia Ascii String.
From stdpp Require Export base numbers strings gmap list.

#[global] Open Scope Z_scope.
#[global] Open Scope list_scope.

(** ** Notations *)

Declare Scope p2p_scope.
Delimit Scope p2p_scope with p2p.
#[global] Open Scope p2p_scope.

(** A [std::string] is a sequence of bytes; a byte is an [ascii]. *)
Abbreviation str := (list ascii).

(** A C++ string literal. *)
Notation "$ s" := (list_ascii_of_string s%string)
  (at level 1, s at level 0, format "$ s") : p2p_scope.

(** The length of a C++ container, as the (mathematical) value of its
    [size()]. *)
Definition zlen {A} (l : list A) : Z := Z.of_nat (length l).

(** ** Bytes and machine integers *)

(** [ord c] is the value of the byte as an [unsigned char]; [chr z] is the
    conversion of an integer to a byte, modulo 256. *)
Definition ord (c : ascii) : Z := Z.of_N (N_of_ascii c).

Definition chr (z : Z) : ascii := ascii_of_N (Z.to_N (z mod 256)).

(** Conversions to the machine widths: unsigned types wrap around, the
    conversion to a signed type is the two's complement one. *)
Definition u8 (z : Z) : Z := z mod 2 ^ 8.
Definition u32 (z : Z) : Z := z mod 2 ^ 32.
Definition u64 (z : Z) : Z := z mod 2 ^ 64.
Definition i32 (z : Z) : Z := (z + 2 ^ 31) mod 2 ^ 32 - 2 ^ 31.
Definition i64 (z : Z) : Z := (z + 2 ^ 63) mod 2 ^ 64 - 2 ^ 63.

(** ** C++ exceptions *)

(** The exceptions the modelled code throws or lets through, with the
    identifiers the JSON library gives its own. *)
Inductive exn :=
  | parse_error (id : Z)
  | type_error (id : Z)
  | out_of_range (id : Z)
  | other_error (id : Z)
  | std_invalid_argument
  | std_out_of_range
  | filesystem_error.

(** The result of a computation that returns a value or throws. *)
Inductive res (A : Type) :=
  | Ok (a : A)
  | Throw (e : exn).
Arguments Ok {A} a.
Arguments Throw {A} e.

#[export] Instance exn_eq_dec : EqDecision exn.
Proof. solve_decision. Defined.

#[export] Instance res_ret : MRet res := fun A a => Ok a.
#[export] Instance res_bind : MBind res := fun A B f m =>
  match m with Ok a => f a | Throw e => Throw e end.
#[export] Instance res_fmap : FMap res := fun A B f m =>
  match m with Ok a => Ok (f a) | Throw e => Throw e end.

(** ** Strings *)

(** [str_eqb s t] is [s == t] of the source, [last_byte s] is [s.back()]. *)
Definition str_eqb (s t : str) : bool := bool_decide (s = t).

Definition last_byte (s : str) : option ascii := last s.

(** [substr s pos] is [s.substr(pos)] for [pos <= size()]. *)
Definition substr (s : str) (pos : nat) : str := drop pos s.

(** [starts_with p s] is [s.compare(0, p.size(), p) == 0]. *)
Fixpoint starts_with (p s : str) : bool :=
  match p, s with
  | [], _ => true
  | a :: p', b :: s' => Ascii.eqb a b && starts_with p' s'
  | _ :: _, [] => false
  end.

(** [contains p s] is [s.find(p) != std::string::npos]. *)
Fixpoint contains (p s : str) : bool :=
  starts_with p s || match s with [] => false | _ :: s' => contains p s' end.

(** The order of [std::less<std::string>]: lexicographic on unsigned bytes. *)
Fixpoint str_ltb (s t : str) : bool :=
  match s, t with
  | _, [] => false
  | [], _ :: _ => true
  | a :: s', b :: t' =>
      if ord a <? ord b then true
      else if ord b <? ord a then false
      else str_ltb s' t'
  end.

(** All the bytes, for proofs by enumeration. *)
Definition all_bytes : str := map ascii_of_nat (seq 0 256).

(** ** Automation *)

Create HintDb p2p.
Create Rewrite HintDb p2p.

(** Splits boolean conjunctions, disjunctions and comparisons found in the
    hypotheses into propositions. *)
Ltac bool_hyps :=
  repeat match goal with
  | H : _ && _ = true |- _ => apply andb_prop in H; destruct H
  | H : negb _ = true |- _ => apply negb_true_iff in H
  | H : negb _ = false |- _ => apply negb_false_iff in H
  | H : (_ <? _) = true |- _ => apply Z.ltb_lt in H
  | H : (_ <? _) = false |- _ => apply Z.ltb_ge in H
  | H : (_ <=? _) = true |- _ => apply Z.leb_le in H
  | H : (_ <=? _) = false |- _ => apply Z.leb_gt in H
  | H : (_ =? _) = true |- _ => apply Z.eqb_eq in H
  | H : (_ =? _) = false |- _ => apply Z.eqb_neq in H
  | H : bool_decide _ = true |- _ => apply bool_decide_eq_true in H
  | H : bool_decide _ = false |- _ => apply bool_decide_eq_false in H
  end.

(** Case analysis on the scrutinee of the first [match] or [if] of the goal,
    or of a hypothesis. *)
Ltac case_match_goal :=
  match goal with
  | |- context [match ?x with _ => _ end] => destruct x eqn:?
  end.

(** Discharges a closed, decidable goal by evaluation. *)
Ltac by_compute :=
  repeat split; vm_compute;
  first [ reflexivity | discriminate | (intro; discriminate) | lia | done ].

Ltac zsolve := unfold zlen in *; simpl length in *; lia.

(** ** Lemmas on bytes *)

Lemma ord_range c : 0 <= ord c < 256.
Proof.
  unfold ord. pose proof (N_ascii_bounded c). lia.
Qed.

Lemma chr_ord c : chr (ord c) = c.
Proof.
  unfold chr. rewrite Z.mod_small by apply ord_range.
  unfold ord. rewrite N2Z.id. apply ascii_N_embedding.
Qed.

Lemma ord_chr z : ord (chr z) = z mod 256.
Proof.
  unfold ord, chr. pose proof (Z.mod_pos_bound z 256 ltac:(lia)).
  rewrite N_ascii_embedding by lia. lia.
Qed.

Lemma ord_chr_small z : 0 <= z < 256 -> ord (chr z) = z.
Proof. intros. rewrite ord_chr. by apply Z.mod_small. Qed.

Lemma ord_inj c d : ord c = ord d -> c = d.
Proof. intros H. by rewrite <- (chr_ord c), <- (chr_ord d), H. Qed.

Lemma elem_all_bytes c : c ∈ all_bytes.
Proof.
  apply list_elem_of_fmap. exists (nat_of_ascii c).
  split; [symmetry; apply ascii_nat_embedding|].
  apply elem_of_seq. pose proof (nat_ascii_bounded c). lia.
Qed.

(** A boolean property of bytes holds of all of them when it holds of the 256
    bytes of the enumeration. *)
Lemma bytes_forallb (P : ascii -> bool) :
  forallb P all_bytes = true -> forall c, P c = true.
Proof.
  rewrite forallb_forall. intros H c. apply H, list_elem_of_In, elem_all_bytes.
Qed.

(** ** Lemmas on machine integers *)

Lemma u32_small z : 0 <= z < 2 ^ 32 -> u32 z = z.
Proof. intros. by apply Z.mod_small. Qed.

Lemma u32_range z : 0 <= u32 z < 2 ^ 32.
Proof. apply Z.mod_pos_bound. lia. Qed.

Lemma u64_small z : 0 <= z < 2 ^ 64 -> u64 z = z.
Proof. intros. by apply Z.mod_small. Qed.

Lemma i32_small z : - 2 ^ 31 <= z < 2 ^ 31 -> i32 z = z.
Proof. intros. unfold i32. rewrite Z.mod_small; lia. Qed.

Lemma i32_range z : - 2 ^ 31 <= i32 z < 2 ^ 31.
Proof. unfold i32. pose proof (Z.mod_pos_bound (z + 2 ^ 31) (2 ^ 32)). lia. Qed.

Lemma i64_small z : - 2 ^ 63 <= z < 2 ^ 63 -> i64 z = z.
Proof. intros. unfold i64. rewrite Z.mod_small; lia. Qed.

Lemma i64_range z : - 2 ^ 63 <= i64 z < 2 ^ 63.
Proof. unfold i64. pose proof (Z.mod_pos_bound (z + 2 ^ 63) (2 ^ 64)). lia. Qed.

(** ** Lemmas on lists and strings *)

Lemma zlen_nonneg {A} (l : list A) : 0 <= zlen l.
Proof. unfold zlen. lia. Qed.

Lemma zlen_app {A} (l k : list A) : zlen (l ++ k) = zlen l + zlen k.
Proof. unfold zlen. rewrite length_app. lia. Qed.

Lemma zlen_cons {A} (x : A) l : zlen (x :: l) = zlen l + 1.
Proof. unfold zlen. simpl. lia. Qed.

Lemma zlen_nil {A} : zlen (@nil A) = 0.
Proof. done. Qed.

Lemma str_eqb_eq s t : str_eqb s t = true <-> s = t.
Proof. apply bool_decide_eq_true. Qed.

Lemma str_eqb_refl s : str_eqb s s = true.
Proof. by apply str_eqb_eq. Qed.

Lemma starts_with_app p s : starts_with p (p ++ s) = true.
Proof. induction p; simpl; [done|]. by rewrite Ascii.eqb_refl. Qed.

Lemma starts_with_true p s : starts_with p s = true <-> exists t, s = p ++ t.
Proof.
  split; [|intros [t ->]; apply starts_with_app].
  revert s. induction p as [|a p IH]; intros s; simpl; [by eexists|].
  destruct s as [|b s]; [done|]. intros [->%Ascii.eqb_eq Hs]%andb_prop.
  destruct (IH _ Hs) as [t ->]. by eexists.
Qed.

Lemma contains_true p s :
  contains p s = true <-> exists u v, s = u ++ p ++ v.
Proof.
  split.
  - induction s as [|a s IH]; simpl.
    + rewrite orb_false_r. intros [t Ht]%starts_with_true. by exists [], t.
    + intros [[t Ht]%starts_with_true|H]%orb_prop.
      * by exists [], t.
      * destruct (IH H) as (u & v & ->). by exists (a :: u), v.
  - intros (u & v & ->). induction u as [|a u IH]; simpl.
    + destruct (p ++ v) eqn:E; simpl; rewrite <- ?E, starts_with_app; done.
    + rewrite IH. apply orb_true_r.
Qed.

Lemma str_ltb_irrefl s : str_ltb s s = false.
Proof. induction s as [|a s IH]; simpl; [done|]. by rewrite Z.ltb_irrefl. Qed.

Lemma str_ltb_trans s t u :
  str_ltb s t = true -> str_ltb t u = true -> str_ltb s u = true.
Proof.
  revert t u. induction s as [|a s IH]; intros [|b t] [|c u]; simpl; try done.
  destruct (Z.ltb_spec (ord a) (ord b)), (Z.ltb_spec (ord b) (ord a)),
    (Z.ltb_spec (ord b) (ord c)), (Z.ltb_spec (ord c) (ord b)),
    (Z.ltb_spec (ord a) (ord c)), (Z.ltb_spec (ord c) (ord a));
    intros; try done; try lia; eauto.
Qed.

Lemma str_ltb_total s t : str_ltb s t = false -> str_ltb t s = false -> s = t.
Proof.
  revert t. induction s as [|a s IH]; intros [|b t]; simpl; try done.
  destruct (Z.ltb_spec (ord a) (ord b)), (Z.ltb_spec (ord b) (ord a)); try done.
  intros. f_equal; [apply ord_inj; lia|eauto].
Qed.

#[export] Hint Resolve ord_range zlen_nonneg u32_range str_ltb_trans : p2p.
#[export] Hint Rewrite @zlen_app @zlen_cons @zlen_nil chr_ord : p2p.
