(* ===== verification/Posix.v ===== *)
(** * The operating-system and C-library calls the daemon uses

    - [strtol], [std::stoi] and [atoi] on strings;
    - network byte order ([htonl]/[ntohl] composed with the object
      representation of a [uint32_t], which is big-endian on every host);
    - connected stream sockets.  What the peer and the kernel do is a script:
      a list of the outcomes of the successive calls.  A [read] takes at most
      the bytes asked for from the chunk at the head of the script and leaves
      the rest of the chunk there; a [write] accepts at most the number of
      bytes the head of the script says.  Every finite run of a socket is some
      script, so a theorem for all scripts is a theorem for every split of the
      stream into partial reads and writes, and for every time-out or error
      between them.  When the script is used up the peer has closed the
      connection: [read] returns 0 and [write] fails. *)

From S2P Require Import Prelude.

(** ** Strings to integers *)

(** [isspace] of the C locale. *)
Definition is_space (c : ascii) : bool :=
  let z := ord c in (z =? 32) || ((9 <=? z) && (z <=? 13)).

Definition is_digit (c : ascii) : bool := (48 <=? ord c) && (ord c <=? 57).

Definition digit_val (c : ascii) : Z := ord c - 48.

Fixpoint skip_space (s : str) : str :=
  match s with
  | c :: s' => if is_space c then skip_space s' else s
  | [] => []
  end.

(** The longest prefix of digits. *)
Fixpoint digits_of (s : str) : str :=
  match s with
  | c :: s' => if is_digit c then c :: digits_of s' else []
  | [] => []
  end.

Definition dec_value (ds : str) : Z :=
  fold_left (fun acc c => acc * 10 + digit_val c) ds 0.

(** [strtol(s, &end, 10)] before the clamping to [long]: [None] when no
    conversion is done. *)
Definition strtol_raw (s : str) : option Z :=
  let s1 := skip_space s in
  let '(neg, s2) :=
    match s1 with
    | c :: s' => if ord c =? 45 then (true, s')
                 else if ord c =? 43 then (false, s') else (false, s1)
    | [] => (false, s1)
    end in
  match digits_of s2 with
  | [] => None
  | ds => Some (if neg : bool then - dec_value ds else dec_value ds)
  end.

Definition LONG_MAX : Z := 2 ^ 63 - 1.
Definition LONG_MIN : Z := - 2 ^ 63.
Definition INT_MAX : Z := 2 ^ 31 - 1.
Definition INT_MIN : Z := - 2 ^ 31.

(** [std::stoi(s)]: throws when there is no number or it is not an [int]. *)
Definition stoi (s : str) : res Z :=
  match strtol_raw s with
  | None => Throw std_invalid_argument
  | Some v => if (INT_MIN <=? v) && (v <=? INT_MAX) then Ok v
              else Throw std_out_of_range
  end.

(** [atoi(s)] as the C libraries implement it: [(int) strtol(s, NULL, 10)],
    with [strtol] clamping to the range of [long]. *)
Definition atoi (s : str) : Z :=
  match strtol_raw s with
  | None => 0
  | Some v => i32 (Z.max LONG_MIN (Z.min LONG_MAX v))
  end.

(** ** Network byte order *)

Definition be32_encode (v : Z) : str :=
  [chr (Z.shiftr v 24); chr (Z.shiftr v 16); chr (Z.shiftr v 8); chr v].

Definition be32_decode (b : str) : Z :=
  fold_left (fun acc c => acc * 256 + ord c) b 0.

Arguments be32_encode : simpl never.
Arguments be32_decode : simpl never.

(** ** Stream sockets *)

(** What happens at the receiving end of a socket. *)
Inductive read_ev :=
  | RData (b : str)   (* bytes arrive; no byte: the peer shut down *)
  | RTimeout          (* SO_RCVTIMEO expires: -1, EAGAIN *)
  | RError.           (* -1 with another errno *)

Inductive rd_result :=
  | RdBytes (b : str)          (* read returned [length b] *)
  | RdErr (eagain : bool).     (* read returned -1 *)

Definition sock_read (count : nat) (s : list read_ev) : rd_result * list read_ev :=
  match s with
  | [] => (RdBytes [], [])
  | RTimeout :: s' => (RdErr true, s')
  | RError :: s' => (RdErr false, s')
  | RData b :: s' =>
      (RdBytes (take count b),
       match drop count b with [] => s' | rest => RData rest :: s' end)
  end.

(** What happens at the sending end. *)
Inductive write_ev :=
  | WAccept (n : nat)  (* the kernel takes at most [n] bytes *)
  | WTimeout           (* SO_SNDTIMEO expires: -1, EAGAIN *)
  | WError.            (* -1 with another errno *)

Record wsock := WSock { w_script : list write_ev; w_sent : str }.

Inductive wr_result :=
  | WrBytes (n : nat)          (* write returned [n] *)
  | WrErr (eagain : bool).     (* write returned -1 *)

Definition sock_write (buf : str) (w : wsock) : wr_result * wsock :=
  match w_script w with
  | [] => (WrErr false, w)
  | WTimeout :: s' => (WrErr true, WSock s' (w_sent w))
  | WError :: s' => (WrErr false, WSock s' (w_sent w))
  | WAccept n :: s' =>
      let k := Nat.min n (length buf) in
      (WrBytes k, WSock s' (w_sent w ++ take k buf))
  end.

(** ** The stream a receiving script delivers *)

(** A script up to its split into chunks: the bytes and the events between
    them, in order. *)
Inductive tok := TByte (c : ascii) | TEof | TTimeout | TError.

Definition ev_toks (e : read_ev) : list tok :=
  match e with
  | RData [] => [TEof]
  | RData b => TByte <$> b
  | RTimeout => [TTimeout]
  | RError => [TError]
  end.

Definition toks (s : list read_ev) : list tok := s ≫= ev_toks.

(** Two scripts are equivalent when they deliver the same stream. *)
Definition same_stream (s s' : list read_ev) : Prop := toks s = toks s'.

#[export] Instance same_stream_equiv : Equivalence same_stream.
Proof.
  unfold same_stream. split; red; intros; congruence.
Qed.

(** ** Lemmas *)

Lemma length_be32_encode v : length (be32_encode v) = 4%nat.
Proof. done. Qed.

Lemma be32_decode_encode v : 0 <= v < 2 ^ 32 -> be32_decode (be32_encode v) = v.
Proof.
  intros H. unfold be32_decode, be32_encode. simpl.
  rewrite !ord_chr, !Z.shiftr_div_pow2 by lia.
  change (2 ^ 24) with 16777216. change (2 ^ 16) with 65536.
  change (2 ^ 8) with 256. Z.div_mod_to_equations. lia.
Qed.

Lemma be32_decode_range b : length b = 4%nat -> 0 <= be32_decode b < 2 ^ 32.
Proof.
  destruct b as [|c1 [|c2 [|c3 [|c4 []]]]]; try done. intros _.
  unfold be32_decode. simpl.
  pose proof (ord_range c1). pose proof (ord_range c2).
  pose proof (ord_range c3). pose proof (ord_range c4). lia.
Qed.

Lemma be32_encode_decode b : length b = 4%nat -> be32_encode (be32_decode b) = b.
Proof.
  destruct b as [|c1 [|c2 [|c3 [|c4 []]]]]; try done. intros _.
  unfold be32_decode, be32_encode. simpl.
  pose proof (ord_range c1). pose proof (ord_range c2).
  pose proof (ord_range c3). pose proof (ord_range c4).
  rewrite !Z.shiftr_div_pow2 by lia.
  change (2 ^ 24) with 16777216. change (2 ^ 16) with 65536. change (2 ^ 8) with 256.
  repeat f_equal; apply ord_inj; rewrite ord_chr; Z.div_mod_to_equations; lia.
Qed.

Lemma toks_app s s' : toks (s ++ s') = toks s ++ toks s'.
Proof. apply bind_app. Qed.

Lemma toks_data b s : b <> [] -> toks (RData b :: s) = (TByte <$> b) ++ toks s.
Proof. by destruct b. Qed.

(** What a read returns was at the head of the stream, and is no longer than
    asked. *)
Lemma sock_read_toks count s b s' :
  sock_read count s = (RdBytes b, s') -> b <> [] -> toks s = (TByte <$> b) ++ toks s'.
Proof.
  destruct s as [|[d| |] s]; simpl; [by intros [= <-]| |done..].
  intros [= <- <-] Hb. destruct d as [|x d]; [by destruct count|].
  destruct (drop count (x :: d)) as [|y r] eqn:E.
  - f_equal. f_equal. rewrite <- (take_drop count (x :: d)) at 1. by rewrite E, app_nil_r.
  - rewrite toks_data by done. rewrite app_assoc, <- fmap_app, <- E, take_drop. done.
Qed.

Lemma sock_read_length count s b s' :
  sock_read count s = (RdBytes b, s') -> (length b <= count)%nat.
Proof.
  destruct s as [|[d| |] s]; simpl; [by intros [= <-]; simpl; lia| |done..].
  intros [= <- _]. rewrite length_take. lia.
Qed.

(** A read of [count > 0] bytes returns a non-empty prefix of the bytes that
    come next in the stream, whatever the chunks. *)
Lemma sock_read_bytes count s c t :
  (0 < count)%nat ->
  toks s = TByte c :: t ->
  exists b s',
    sock_read count s = (RdBytes b, s') /\ b <> [] /\ (length b <= count)%nat /\
    toks s = (TByte <$> b) ++ toks s'.
Proof.
  intros Hc Ht. destruct (sock_read count s) as [[b|e] s'] eqn:E.
  - exists b, s'. assert (Hb : b <> []).
    { destruct s as [|[[|x d]| |] s]; try done. simpl in E. injection E as <- _.
      destruct count; [lia|done]. }
    split_and!; [done..|by eapply sock_read_length|by eapply sock_read_toks].
  - by destruct s as [|[[|x d]| |] s].
Qed.

(** The stream begins with a byte. *)
Definition byte_first (t : list tok) : bool :=
  match t with TByte _ :: _ => true | _ => false end.

Lemma bytes_prefix (x bs : str) u t :
  (TByte <$> x) ++ u = (TByte <$> bs) ++ t ->
  (length x <= length bs)%nat \/ byte_first t = false ->
  exists y, bs = x ++ y /\ u = (TByte <$> y) ++ t.
Proof.
  revert bs. induction x as [|a x IH]; intros [|b bs] H Hl; simpl in *.
  1,2: by eexists.
  - rewrite <- H in Hl. destruct Hl; [lia|done].
  - injection H as -> H. destruct (IH _ H) as (y & -> & ->); [|by exists y].
    destruct Hl; [left; lia|by right].
Qed.

(** A read takes a non-empty prefix of the bytes [bs] that come next, when
    it asks for no more of them, or when no other byte follows them. *)
Lemma sock_read_prefix count s bs t :
  (0 < count)%nat -> bs <> [] ->
  toks s = (TByte <$> bs) ++ t ->
  (count <= length bs)%nat \/ byte_first t = false ->
  exists c b y s',
    sock_read count s = (RdBytes (c :: b), s') /\ bs = (c :: b) ++ y /\
    (S (length b) <= count)%nat /\ toks s' = (TByte <$> y) ++ t.
Proof.
  intros Hc Hbs Ht Hor. destruct bs as [|a bs]; [done|].
  destruct (sock_read_bytes count s a ((TByte <$> bs) ++ t)) as (b & s' & E & Hb & Hl & Hs);
    [done..|].
  rewrite Ht in Hs. symmetry in Hs. apply bytes_prefix in Hs as (y & Hy & Hs').
  - destruct b as [|c b]; [done|]. by exists c, b, y, s'.
  - destruct Hor; [left; lia|by right].
Qed.

Lemma sock_read_timeout count s t :
  toks s = TTimeout :: t ->
  exists s', sock_read count s = (RdErr true, s') /\ toks s' = t.
Proof.
  intros Ht. destruct s as [|[[|]| |] s]; try done.
  injection Ht as <-. by exists s.
Qed.

Lemma sock_read_error count s t :
  toks s = TError :: t ->
  exists s', sock_read count s = (RdErr false, s') /\ toks s' = t.
Proof.
  intros Ht. destruct s as [|[[|]| |] s]; try done.
  injection Ht as <-. by exists s.
Qed.

Lemma sock_read_eof count s t :
  (0 < count)%nat -> toks s = TEof :: t ->
  exists s', sock_read count s = (RdBytes [], s') /\ toks s' = t.
Proof.
  intros Hc Ht. destruct s as [|[[|]| |] s]; try done.
  injection Ht as <-. exists s. by destruct count.
Qed.

Lemma sock_read_end count s :
  toks s = [] -> sock_read count s = (RdBytes [], []).
Proof. by destruct s as [|[[|]| |] s]. Qed.

(** A write sends a prefix of its buffer, of the length it returns. *)
Lemma sock_write_sent buf w n w' :
  sock_write buf w = (WrBytes n, w') ->
  (n <= length buf)%nat /\ w_sent w' = w_sent w ++ take n buf.
Proof.
  unfold sock_write. destruct (w_script w) as [|[k| |] s]; intros [= <- <-].
  simpl. split; [lia|done].
Qed.

Lemma sock_write_err buf w e w' :
  sock_write buf w = (WrErr e, w') -> w_sent w' = w_sent w.
Proof.
  unfold sock_write. by destruct (w_script w) as [|[k| |] s]; intros [= <- <-].
Qed.

Lemma sock_write_script buf w r w' :
  sock_write buf w = (r, w') -> w_script w = [] \/ (length (w_script w') < length (w_script w))%nat.
Proof.
  unfold sock_write. destruct (w_script w) as [|[k| |] s]; intros [= <- <-];
    [by left|right; simpl; lia..].
Qed.

Lemma digits_of_digits s : Forall (fun c => is_digit c = true) (digits_of s).
Proof.
  induction s as [|c s IH]; simpl; [constructor|].
  destruct (is_digit c) eqn:E; [by constructor|constructor].
Qed.
