(* ===== verification/IpcClient.v ===== *)
(** * The IPC client of the daemon (src/src/backend/cpp/src/ipc_client.cpp)

    [getIpcTcpPort], and the class [UnixIpcClient]: its descriptor, the
    descriptors it has open, the connected socket as the receiving and sending
    scripts of [Posix], and one definition per member function.  The mutexes
    are the subject of [IpcLocks]; here each member function is one step.

    The wire format is a 4-byte big-endian length followed by the message. *)

From S2P Require Import Prelude Posix.

(** ** getIpcTcpPort *)

(** The environment variable IPC_TCP_PORT, [None] when it is not set. *)
Definition getIpcTcpPort (env : option str) : Z :=
  match env with
  | Some ((_ :: _) as e) =>
      match stoi e with
      | Ok port => if (0 <? port) && (port <=? 65535) then port else -1
      | Throw _ => -1
      end
  | _ => -1
  end.

(** ** Socket loops shared by the member functions *)

(** [while (totalWritten < len) { n = ::write(...); if (n <= 0) return false;
    totalWritten += n; }] on the [len] bytes [buf]; the fuel is the number of
    bytes, since every round that continues writes at least one. *)
Fixpoint send_loop (fuel : nat) (buf : str) (w : wsock) : bool * wsock :=
  match buf, fuel with
  | [], _ => (true, w)
  | _, O => (false, w)
  | _, S fuel' =>
      match sock_write buf w with
      | (WrErr _, w') => (false, w')
      | (WrBytes O, w') => (false, w')
      | (WrBytes n, w') => send_loop fuel' (drop n buf) w'
      end
  end.

Inductive loop_result :=
  | LDone (b : str)        (* all the bytes were read *)
  | LEof                   (* a read returned 0 *)
  | LErr (eagain : bool)   (* a read returned -1 *)
  | LFuel.                 (* fuel exhausted: never the case, see [recv_loop_no_fuel] *)

(** [while (totalRead < len) { n = ::read(...); ... totalRead += n; }], with
    [need] bytes still to read and [acc] the bytes read so far. *)
Fixpoint recv_loop (fuel need : nat) (acc : str) (s : list read_ev)
  : loop_result * list read_ev :=
  match need, fuel with
  | O, _ => (LDone acc, s)
  | _, O => (LFuel, s)
  | _, S fuel' =>
      match sock_read need s with
      | (RdErr eagain, s') => (LErr eagain, s')
      | (RdBytes [], s') => (LEof, s')
      | (RdBytes b, s') => recv_loop fuel' (need - length b) (acc ++ b) s'
      end
  end.

(** [len == 0 || len > 1 * 1024 * 1024] *)
Definition bad_length (len : Z) : bool := (len =? 0) || (1 * 1024 * 1024 <? len).

(** The bytes [send] puts on the wire for a message: the length as a
    [uint32_t] in network byte order, then that many bytes of the message. *)
Definition netLen (m : str) : Z := u32 (zlen m).

Definition frame (m : str) : str :=
  be32_encode (netLen m) ++ take (Z.to_nat (netLen m)) m.

Arguments frame : simpl never.

(** ** UnixIpcClient *)

Inductive family := AF_INET | AF_UNIX.
Inductive sockaddr := SockIn (port : Z) | SockUn (path : str).

(** The answers of the kernel to one [connect]: the descriptor [socket]
    returns (negative on failure), whether [connect] succeeds, and the
    connected stream. *)
Record net_os := NetOs {
  os_socket : family -> Z;
  os_connect : sockaddr -> bool;
  os_rx : list read_ev;
  os_tx : list write_ev
}.

Record client := Client {
  socketFd : Z;               (* socketFd_ *)
  open_fds : gset Z;          (* descriptors opened and not closed yet *)
  bad_close : bool;           (* a descriptor that was not open was closed *)
  peer : option sockaddr;
  rcvtimeo : Z;               (* SO_RCVTIMEO, seconds; 0 for none *)
  rx : list read_ev;
  tx : wsock
}.

Definition new_client : client := Client (-1) ∅ false None 0 [] (WSock [] []).

Definition isConnected (c : client) : bool := 0 <=? socketFd c.

(** [::close(fd)] *)
Definition close_fd (fd : Z) (c : client) : client :=
  Client (socketFd c) (open_fds c ∖ {[fd]})
         (bad_close c || negb (bool_decide (fd ∈ open_fds c)))
         None 0 [] (WSock [] (w_sent (tx c))).

Definition set_fd (fd : Z) (c : client) : client :=
  Client fd (open_fds c) (bad_close c) (peer c) (rcvtimeo c) (rx c) (tx c).

Definition set_rx (s : list read_ev) (c : client) : client :=
  Client (socketFd c) (open_fds c) (bad_close c) (peer c) (rcvtimeo c) s (tx c).

Definition set_tx (w : wsock) (c : client) : client :=
  Client (socketFd c) (open_fds c) (bad_close c) (peer c) (rcvtimeo c) (rx c) w.

Definition disconnectLocked (c : client) : client :=
  if 0 <=? socketFd c then set_fd (-1) (close_fd (socketFd c) c) else c.

Definition disconnect (c : client) : client := disconnectLocked c.

Definition disconnectOnError (c : client) : client := disconnectLocked c.

(** [std::strncpy(addr.sun_path, path.c_str(), sizeof(addr.sun_path) - 1)]
    into a zeroed buffer of 108 bytes. *)
Fixpoint c_str (s : str) : str :=
  match s with
  | c :: s' => if ord c =? 0 then [] else c :: c_str s'
  | [] => []
  end.

Definition sun_path (path : str) : str := take 107 (c_str path).

(** [socket], [connect] and [setsockopt], the same in both branches of
    [connect]. *)
Definition open_socket (os : net_os) (f : family) (addr : sockaddr) (c : client)
  : bool * client :=
  let fd := os_socket os f in
  let c := set_fd fd c in
  if fd <? 0 then (false, c)
  else
    let c := Client fd (open_fds c ∪ {[fd]}) (bad_close c) None 0 [] (WSock [] []) in
    if negb (os_connect os addr) then (false, set_fd (-1) (close_fd fd c))
    else (true, Client fd (open_fds c) (bad_close c) (Some addr) 3
                       (os_rx os) (WSock (os_tx os) [])).

Definition connect (env : option str) (os : net_os) (path : str) (c : client)
  : bool * client :=
  let c := disconnectLocked c in
  let tcpPort := getIpcTcpPort env in
  if 0 <? tcpPort then open_socket os AF_INET (SockIn tcpPort) c
  else open_socket os AF_UNIX (SockUn (sun_path path)) c.

Definition send (message : str) (c : client) : bool * client :=
  if socketFd c <? 0 then (false, c)
  else
    let len := netLen message in
    let '(ok, w) := send_loop 4 (be32_encode len) (tx c) in
    if negb ok then (false, set_tx w c)
    else
      let '(ok, w) := send_loop (Z.to_nat len) (take (Z.to_nat len) message) w in
      (ok, set_tx w c).

(** [receive]: [None] is the return value [false]. *)
Definition receive (c : client) : option str * client :=
  if socketFd c <? 0 then (None, c)
  else
    match recv_loop 4 4 [] (rx c) with
    | (LErr true, s) => (None, set_rx s c)
    | (LErr false, s) => (None, disconnectOnError (set_rx s c))
    | (LEof, s) => (None, disconnectOnError (set_rx s c))
    | (LFuel, s) => (None, set_rx s c)
    | (LDone hdr, s) =>
        let len := be32_decode hdr in
        if bad_length len then (None, set_rx s c)
        else
          match recv_loop (Z.to_nat len) (Z.to_nat len) [] s with
          | (LDone message, s) => (Some message, set_rx s c)
          | (LFuel, s) => (None, set_rx s c)
          | (_, s) => (None, disconnectOnError (set_rx s c))
          end
    end.

(** ** Sequences of calls *)

Inductive op :=
  | OpConnect (env : option str) (os : net_os) (path : str)
  | OpSend (m : str)
  | OpReceive
  | OpDisconnect.

Definition step (o : op) (c : client) : client :=
  match o with
  | OpConnect env os path => snd (connect env os path c)
  | OpSend m => snd (send m c)
  | OpReceive => snd (receive c)
  | OpDisconnect => disconnect c
  end.

Definition run (ops : list op) (c : client) : client := fold_left (fun c o => step o c) ops c.

(** The messages sent one after the other, all of them successfully or not. *)
Fixpoint send_all (ms : list str) (c : client) : bool * client :=
  match ms with
  | [] => (true, c)
  | m :: ms' =>
      let '(ok, c') := send m c in
      if ok then send_all ms' c' else (false, c')
  end.

(** The results of [n] calls of [receive]. *)
Fixpoint receive_n (n : nat) (c : client) : list (option str) * client :=
  match n with
  | O => ([], c)
  | S n' =>
      let '(r, c1) := receive c in
      let '(rs, c2) := receive_n n' c1 in
      (r :: rs, c2)
  end.

(** A message [receive] accepts. *)
Definition sendable (m : str) : Prop := 1 <= zlen m <= 1048576.

(** The descriptors of a client: its connected one and no other, and no
    descriptor closed twice. *)
Definition fd_inv (c : client) : Prop :=
  open_fds c = (if 0 <=? socketFd c then {[socketFd c]} else ∅) /\ bad_close c = false.

(** ** Lemmas: the sending loop *)

(** What [send_loop] puts on the wire is a prefix of the buffer, the whole of
    it exactly when it returns [true]. *)
Lemma send_loop_sent fuel buf w ok w' :
  (length buf <= fuel)%nat ->
  send_loop fuel buf w = (ok, w') ->
  exists k, (k <= length buf)%nat /\ w_sent w' = w_sent w ++ take k buf /\
    (ok = true <-> k = length buf).
Proof.
  revert buf w. induction fuel as [|fuel IH]; intros [|c buf] w Hf; simpl in *.
  1,3: intros [= <- <-]; exists 0%nat; rewrite app_nil_r; split_and!; [lia|done|done].
  - lia.
  - destruct (sock_write (c :: buf) w) as [[[|n]|e] w1] eqn:E.
    + intros [= <- <-]. apply sock_write_sent in E as [_ E].
      exists 0%nat. split_and!; [lia|done|]. split; [done|simpl; lia].
    + apply sock_write_sent in E as [Hn E]. simpl in Hn. intros H.
      apply IH in H as (k & Hk & Hs & Hok); [|simpl; rewrite length_drop; lia].
      simpl in Hk. rewrite length_drop in Hk. exists (S n + k)%nat. split_and!.
      * simpl. lia.
      * rewrite Hs, E, <- app_assoc. f_equal. simpl. f_equal.
        rewrite <- (take_drop n buf) at 3.
        rewrite take_app_add' by (rewrite length_take; lia). done.
      * rewrite Hok. simpl. rewrite length_drop. lia.
    + intros [= <- <-]. apply sock_write_err in E.
      exists 0%nat. split_and!; [lia|by rewrite app_nil_r|]. split; [done|simpl; lia].
Qed.

(** When the kernel accepts at least one byte per call and there are as many
    calls as bytes, the loop sends everything. *)
Lemma send_loop_accepts buf w :
  (length buf <= length (w_script w))%nat ->
  Forall (fun e => exists n, e = WAccept (S n)) (w_script w) ->
  exists w', send_loop (length buf) buf w = (true, w') /\
    Forall (fun e => exists n, e = WAccept (S n)) (w_script w') /\
    (length (w_script w) - length buf <= length (w_script w'))%nat.
Proof.
  remember (length buf) as fuel eqn:Hfuel.
  assert (Hb : (length buf <= fuel)%nat) by lia. clear Hfuel.
  revert buf w Hb. induction fuel as [|fuel IH]; intros [|c buf] w Hb Hl Hs; simpl in *.
  1,3: exists w; split_and!; [done|done|lia].
  - lia.
  - unfold sock_write. destruct w as [[|e s] sent]; simpl in *; [lia|].
    inversion Hs as [|? ? [n ->] Hs']; subst.
    rewrite <- Nat.succ_min_distr. simpl.
    destruct (IH (drop (n `min` length buf) buf)
      (WSock s (sent ++ c :: take (n `min` length buf) buf))) as (w' & -> & H1 & H2);
      simpl; rewrite ?length_drop; [lia|lia|done|].
    exists w'. split_and!; [done|done|]. simpl in H2. lia.
Qed.

(** ** Lemmas: the receiving loop *)

Lemma recv_loop_no_fuel fuel need acc s s' :
  (need <= fuel)%nat -> recv_loop fuel need acc s <> (LFuel, s').
Proof.
  revert need acc s. induction fuel as [|fuel IH]; intros [|need] acc s Hf; simpl; try done.
  - lia.
  - destruct (sock_read (S need) s) as [[[|c b]|e] s1]; try done.
    apply IH. simpl. lia.
Qed.

(** The loop reads exactly the bytes it needs, whatever the chunks. *)
Lemma recv_loop_done fuel bs acc s t :
  (length bs <= fuel)%nat ->
  toks s = (TByte <$> bs) ++ t ->
  exists s', recv_loop fuel (length bs) acc s = (LDone (acc ++ bs), s') /\ toks s' = t.
Proof.
  revert bs acc s. induction fuel as [|fuel IH]; intros bs acc s Hf Ht.
  - destruct bs; [|simpl in *; lia]. exists s. by rewrite app_nil_r.
  - destruct bs as [|a bs]; [exists s; by rewrite app_nil_r|].
    simpl recv_loop.
    destruct (sock_read_prefix (length (a :: bs)) s (a :: bs) t)
      as (c & b & y & s1 & E & Hbs & Hl & Hs); [simpl; lia|done..|by left|].
    simpl in E. rewrite E. rewrite Hbs in *. simpl in Hf. rewrite length_app in Hf.
    destruct (IH y (acc ++ c :: b) s1) as (s' & E' & Ht'); [lia|done|].
    exists s'. split; [|done]. apply (f_equal length) in Hbs. simpl in Hbs.
    rewrite length_app in Hbs.
    replace (S (length bs) - length (c :: b))%nat with (length y) by (simpl; lia).
    by rewrite E', <- app_assoc.
Qed.

(** How the loop ends when fewer bytes than needed come before [e]. *)
Definition stop_result (e : option tok) : loop_result :=
  match e with
  | Some TTimeout => LErr true
  | Some TError => LErr false
  | _ => LEof
  end.

(** The stream after the token that stops the loop. *)
Definition stops (t : list tok) (e : option tok) (t' : list tok) : Prop :=
  match t with
  | [] => e = None /\ t' = []
  | TByte _ :: _ => False
  | x :: u => e = Some x /\ t' = u
  end.

Lemma recv_loop_stop fuel need bs acc s t e t' :
  (need <= fuel)%nat -> (length bs < need)%nat ->
  toks s = (TByte <$> bs) ++ t -> stops t e t' ->
  exists s', recv_loop fuel need acc s = (stop_result e, s') /\ toks s' = t'.
Proof.
  revert need bs acc s. induction fuel as [|fuel IH]; intros need bs acc s Hf Hb Ht Hst;
    [lia|]. destruct need as [|need]; [lia|]. simpl recv_loop.
  destruct bs as [|c bs].
  - simpl in Ht. destruct t as [|x t]; simpl in Hst.
    + destruct Hst as [-> ->]. rewrite sock_read_end by done. by exists [].
    + destruct x; [done|..]; destruct Hst as [-> ->].
      * destruct (sock_read_eof (S need) s t) as (s' & -> & ?); [lia|done|]. by exists s'.
      * destruct (sock_read_timeout (S need) s t) as (s' & -> & ?); [done|]. by exists s'.
      * destruct (sock_read_error (S need) s t) as (s' & -> & ?); [done|]. by exists s'.
  - destruct (sock_read_prefix (S need) s (c :: bs) t)
      as (d & b & y & s1 & E & Hbs & Hl & Hs); [lia|done..| |].
    { right. by destruct t as [|[] t]. }
    rewrite E. apply (IH _ y); [simpl; lia| |done..].
    rewrite Hbs in Hb. simpl in Hb. rewrite length_app in Hb. simpl. lia.
Qed.

(** Conversely, what the loop returns was at the head of the stream. *)
Lemma recv_loop_sound fuel need acc s b s' :
  recv_loop fuel need acc s = (LDone b, s') ->
  exists bs, b = acc ++ bs /\ length bs = need /\ toks s = (TByte <$> bs) ++ toks s'.
Proof.
  revert need acc s. induction fuel as [|fuel IH]; intros [|need] acc s; simpl; try done.
  1,2: intros [= <- <-]; exists []; by rewrite app_nil_r.
  destruct s as [|[[|c d]| |] s]; try done. intros H.
  simpl sock_read in H. cbv iota beta in H. simpl take in H. cbv iota in H.
  apply IH in H as (bs & -> & Hl & Ht).
  exists ((c :: take need d) ++ bs). split_and!; [by rewrite app_assoc| |].
  - rewrite length_app. simpl length in Hl |- *. rewrite length_take in Hl |- *. lia.
  - rewrite fmap_app, <- app_assoc, <- Ht.
    destruct (drop need d) as [|a l] eqn:E; rewrite !toks_data by done.
    + f_equal. f_equal. f_equal. rewrite <- (take_drop need d) at 1.
      by rewrite E, app_nil_r.
    + rewrite app_assoc, <- fmap_app. f_equal. simpl. by rewrite <- E, take_drop.
Qed.

(** ** Lemmas: one frame *)

Lemma netLen_sendable m : sendable m -> netLen m = zlen m.
Proof. intros [? ?]. apply u32_small. lia. Qed.

Lemma frame_sendable m : sendable m -> frame m = be32_encode (zlen m) ++ m.
Proof.
  intros Hm. unfold frame. rewrite netLen_sendable by done.
  unfold zlen. rewrite Nat2Z.id, take_ge; done.
Qed.

Lemma bad_length_false len : bad_length len = false <-> (len <> 0 /\ len <= 1048576).
Proof. unfold bad_length. rewrite orb_false_iff, Z.eqb_neq, Z.ltb_ge. lia. Qed.

Lemma send_connected m c ok c' :
  send m c = (ok, c') -> socketFd c' = socketFd c.
Proof.
  unfold send. destruct (socketFd c <? 0); [by intros [= _ <-]|].
  destruct (send_loop 4 _ _) as [[] w]; simpl; [|by intros [= _ <-]].
  destruct (send_loop (Z.to_nat _) _ _) as [ok' w']. by intros [= _ <-].
Qed.

(** A successful [send] puts exactly one frame on the wire. *)
Lemma send_frame m c c' :
  send m c = (true, c') -> w_sent (tx c') = w_sent (tx c) ++ frame m.
Proof.
  unfold send, frame. destruct (socketFd c <? 0); [done|].
  destruct (send_loop 4 _ _) as [ok1 w1] eqn:E1.
  apply send_loop_sent in E1 as (k1 & Hk1 & Hs1 & Hok1); [|done].
  destruct ok1; [|done]. simpl negb. cbv iota.
  destruct (send_loop (Z.to_nat _) _ _) as [ok2 w2] eqn:E2.
  apply send_loop_sent in E2 as (k2 & Hk2 & Hs2 & Hok2);
    [|rewrite length_take; lia].
  intros [= -> <-]. simpl. rewrite Hs2, Hs1, <- app_assoc. f_equal.
  rewrite (proj1 Hok1 eq_refl), (proj1 Hok2 eq_refl), !take_ge by done. done.
Qed.

(** [receive] on a stream that starts with a frame. *)
Lemma receive_frame m c t :
  isConnected c = true -> sendable m ->
  toks (rx c) = (TByte <$> frame m) ++ t ->
  exists s, receive c = (Some m, set_rx s c) /\ toks s = t.
Proof.
  intros Hc Hm Ht. rewrite frame_sendable in Ht by done.
  rewrite fmap_app, <- app_assoc in Ht. unfold receive, isConnected in *.
  rewrite Z.ltb_antisym, Hc. simpl negb. cbv iota.
  destruct (recv_loop_done 4 (be32_encode (zlen m)) [] (rx c) ((TByte <$> m) ++ t))
    as (s1 & E1 & Ht1); [done..|].
  rewrite length_be32_encode in E1. rewrite E1. rewrite app_nil_l.
  destruct Hm as [Hm1 Hm2]. rewrite be32_decode_encode by lia.
  rewrite (proj2 (bad_length_false _)) by lia.
  unfold zlen. rewrite Nat2Z.id.
  destruct (recv_loop_done (length m) m [] s1 t) as (s2 & E2 & Ht2); [done..|].
  rewrite E2. by exists s2.
Qed.

(** Conversely, a message [receive] returns was framed at the head of the
    stream. *)
Lemma receive_sound c m c' :
  receive c = (Some m, c') ->
  isConnected c = true /\ sendable m /\ c' = set_rx (rx c') c /\
  toks (rx c) = (TByte <$> frame m) ++ toks (rx c').
Proof.
  unfold receive. destruct (socketFd c <? 0) eqn:Hfd; [done|].
  destruct (recv_loop 4 4 [] (rx c)) as [[hdr| |[]|] s1] eqn:E1; try done.
  apply recv_loop_sound in E1 as (h & -> & Hh & Ht1). simpl app in *.
  destruct (bad_length (be32_decode h)) eqn:Hbad; [done|].
  apply bad_length_false in Hbad.
  destruct (recv_loop (Z.to_nat _) _ [] s1) as [[b| |[]|] s2] eqn:E2; try done.
  apply recv_loop_sound in E2 as (bs & -> & Hbs & Ht2). intros [= <- <-].
  pose proof (be32_decode_range h Hh).
  assert (Hz : zlen bs = be32_decode h) by (unfold zlen; lia).
  assert (Hm : sendable bs) by (unfold sendable; lia).
  assert (Hs : toks (rx c) = (TByte <$> frame bs) ++ toks s2).
  { rewrite frame_sendable, Hz, fmap_app, <- app_assoc by done.
    rewrite be32_encode_decode by done. by rewrite Ht1, Ht2. }
  refine (conj _ (conj Hm (conj eq_refl Hs))).
  unfold isConnected. rewrite Z.ltb_antisym in Hfd. by apply negb_false_iff.
Qed.

(** ** Lemmas: how [receive] fails *)

(** Fewer than four bytes before a time-out: the bytes are lost and the
    connection is kept. *)
Lemma receive_header_timeout c bs t :
  isConnected c = true -> (length bs < 4)%nat ->
  toks (rx c) = (TByte <$> bs) ++ TTimeout :: t ->
  exists s, receive c = (None, set_rx s c) /\ toks s = t.
Proof.
  intros Hc Hl Ht. unfold receive, isConnected in *.
  rewrite Z.ltb_antisym, Hc. simpl negb. cbv iota.
  destruct (recv_loop_stop 4 4 bs [] (rx c) (TTimeout :: t) (Some TTimeout) t)
    as (s & -> & Hs); [lia|done..|]. by exists s.
Qed.

(** A header that announces a length [receive] refuses: only the header is
    consumed. *)
Lemma receive_bad_length c len t :
  isConnected c = true -> 0 <= len < 2 ^ 32 -> bad_length len = true ->
  toks (rx c) = (TByte <$> be32_encode len) ++ t ->
  exists s, receive c = (None, set_rx s c) /\ toks s = t.
Proof.
  intros Hc Hl Hb Ht. unfold receive, isConnected in *.
  rewrite Z.ltb_antisym, Hc. simpl negb. cbv iota.
  destruct (recv_loop_done 4 (be32_encode len) [] (rx c) t) as (s & E & Hs); [done..|].
  rewrite length_be32_encode in E. rewrite E, app_nil_l, be32_decode_encode, Hb by done.
  by exists s.
Qed.

Lemma disconnectOnError_fd c : 0 <= socketFd c -> socketFd (disconnectOnError c) = -1.
Proof.
  intros H. unfold disconnectOnError, disconnectLocked.
  apply Z.leb_le in H. by rewrite H.
Qed.

(** The end of the stream or an error in the header, and any interruption in
    the body, close the connection. *)
Lemma receive_header_closes c bs t e t' :
  isConnected c = true -> (length bs < 4)%nat ->
  toks (rx c) = (TByte <$> bs) ++ t -> stops t e t' -> e <> Some TTimeout ->
  fst (receive c) = None /\ socketFd (snd (receive c)) = -1.
Proof.
  intros Hc Hl Ht Hst He. unfold receive, isConnected in *.
  rewrite Z.ltb_antisym, Hc. simpl negb. cbv iota. apply Z.leb_le in Hc.
  destruct (recv_loop_stop 4 4 bs [] (rx c) t e t') as (s & -> & Hs); [lia|done..|].
  destruct e as [[]|]; try done; simpl; (split; [done|by apply disconnectOnError_fd]).
Qed.

Lemma receive_body_closes c len bs t e t' :
  isConnected c = true -> 0 <= len -> bad_length len = false -> zlen bs < len ->
  toks (rx c) = (TByte <$> be32_encode len) ++ (TByte <$> bs) ++ t -> stops t e t' ->
  fst (receive c) = None /\ socketFd (snd (receive c)) = -1.
Proof.
  intros Hc Hlen Hbad Hl Ht Hst. unfold receive, isConnected, zlen in *.
  rewrite Z.ltb_antisym, Hc. simpl negb. cbv iota. apply Z.leb_le in Hc.
  destruct (recv_loop_done 4 (be32_encode len) [] (rx c) ((TByte <$> bs) ++ t))
    as (s & E & Hs); [done..|].
  pose proof (proj1 (bad_length_false _) Hbad).
  rewrite length_be32_encode in E. rewrite E, app_nil_l, be32_decode_encode, Hbad by lia.
  destruct (recv_loop_stop (Z.to_nat len) (Z.to_nat len) bs [] s t e t')
    as (s' & -> & Hs'); [lia|lia|done..|].
  destruct e as [[]|]; try done; simpl; (split; [done|by apply disconnectOnError_fd]).
Qed.

(** ** Lemmas: descriptors *)

Lemma disconnectLocked_inv c :
  fd_inv c -> fd_inv (disconnectLocked c) /\ isConnected (disconnectLocked c) = false.
Proof.
  unfold fd_inv, disconnectLocked, isConnected. intros [Hfds Hbad].
  destruct (0 <=? socketFd c) eqn:E; simpl; [|by rewrite E].
  rewrite Hfds, Hbad. rewrite bool_decide_true by set_solver.
  split; [split; [set_solver|done]|done].
Qed.

Lemma open_socket_inv os f addr c :
  fd_inv c -> isConnected c = false -> fd_inv (snd (open_socket os f addr c)).
Proof.
  unfold fd_inv, isConnected, open_socket. intros [Hfds Hbad] Hc.
  rewrite Hc in Hfds. destruct (os_socket os f <? 0) eqn:E; simpl.
  - apply Z.ltb_lt in E. replace (0 <=? os_socket os f) with false by lia. done.
  - apply Z.ltb_ge in E. replace (0 <=? os_socket os f) with true by lia.
    destruct (os_connect os addr); simpl; rewrite Hfds, Hbad.
    + replace (0 <=? os_socket os f) with true by lia. split; [set_solver|done].
    + rewrite bool_decide_true by set_solver. split; [set_solver|done].
Qed.

Lemma fd_inv_proj c c' :
  socketFd c' = socketFd c -> open_fds c' = open_fds c -> bad_close c' = bad_close c ->
  fd_inv c -> fd_inv c'.
Proof. unfold fd_inv. by intros -> -> ->. Qed.

Lemma receive_inv c : fd_inv c -> fd_inv (snd (receive c)).
Proof.
  intros H. unfold receive. destruct (socketFd c <? 0); [done|].
  assert (Hset : forall s, fd_inv (set_rx s c)) by (intros; by apply (fd_inv_proj c)).
  assert (Hdis : forall s, fd_inv (disconnectOnError (set_rx s c)))
    by (intros; by apply disconnectLocked_inv).
  destruct (recv_loop 4 4 [] (rx c)) as [[hdr| |[]|] s]; simpl; try done.
  destruct (bad_length (be32_decode hdr)); [done|].
  destruct (recv_loop _ _ [] s) as [[b| |[]|] s']; simpl; auto.
Qed.

Lemma send_inv m c : fd_inv c -> fd_inv (snd (send m c)).
Proof.
  intros H. unfold send. destruct (socketFd c <? 0); [done|].
  destruct (send_loop 4 _ _) as [[] w]; simpl; [|by apply (fd_inv_proj c)].
  destruct (send_loop (Z.to_nat _) _ _) as [ok' w']. by apply (fd_inv_proj c).
Qed.

Lemma step_inv o c : fd_inv c -> fd_inv (step o c).
Proof.
  intros H. destruct o; simpl.
  - unfold connect. destruct (disconnectLocked_inv c H).
    destruct (0 <? getIpcTcpPort env); by apply open_socket_inv.
  - by apply send_inv.
  - by apply receive_inv.
  - by apply disconnectLocked_inv.
Qed.

Lemma send_all_sent ms c c' :
  send_all ms c = (true, c') -> w_sent (tx c') = w_sent (tx c) ++ concat (frame <$> ms).
Proof.
  revert c. induction ms as [|m ms IH]; intros c; simpl.
  - intros [= ->]. by rewrite app_nil_r.
  - destruct (send m c) as [[] c1] eqn:E; [|done]. intros H%IH.
    by rewrite H, (send_frame _ _ _ E), <- app_assoc.
Qed.

Lemma receive_n_frames ms c t :
  isConnected c = true -> Forall sendable ms ->
  toks (rx c) = (TByte <$> concat (frame <$> ms)) ++ t ->
  exists s, receive_n (length ms) c = (Some <$> ms, set_rx s c) /\ toks s = t.
Proof.
  revert c. induction ms as [|m ms IH]; intros c Hc Hms Ht; simpl.
  - exists (rx c). by destruct c.
  - inversion Hms; subst. simpl in Ht. rewrite fmap_app, <- app_assoc in Ht.
    destruct (receive_frame m c _ Hc ltac:(done) Ht) as (s & -> & Hs).
    destruct (IH (set_rx s c)) as (s' & -> & Hs'); [done..|]. by exists s'.
Qed.

(** ** Properties *)

(** The round trip of the framing.  A message of 1 to 1048576 bytes that
    [send] reports as sent is on the wire as one frame, and a client whose
    incoming stream starts with that frame, split into reads in any way,
    [receive]s exactly that message, stays connected and has consumed exactly
    the frame. *)
Theorem send_receive_roundtrip m a a' b t :
  sendable m -> send m a = (true, a') ->
  isConnected b = true ->
  toks (rx b) = (TByte <$> drop (length (w_sent (tx a))) (w_sent (tx a'))) ++ t ->
  exists s, receive b = (Some m, set_rx s b) /\ toks s = t.
Proof.
  intros Hm Hs Hb Ht. rewrite (send_frame _ _ _ Hs), drop_app_length in Ht.
  by apply receive_frame.
Qed.

(** Order.  The messages of a successful sequence of [send]s are what the
    same number of [receive]s return, in the order they were sent, and nothing
    of the stream after them is consumed. *)
Theorem send_all_receive_n ms a a' b t :
  Forall sendable ms -> send_all ms a = (true, a') -> w_sent (tx a) = [] ->
  isConnected b = true -> toks (rx b) = (TByte <$> w_sent (tx a')) ++ t ->
  exists s, receive_n (length ms) b = (Some <$> ms, set_rx s b) /\ toks s = t.
Proof.
  intros Hms Hs H0 Hb Ht. rewrite (send_all_sent _ _ _ Hs), H0 in Ht.
  by apply receive_n_frames.
Qed.

(** C35: what [receive] returns.  It returns a message exactly when the client
    is connected and the stream starts with the frame of a message of 1 to
    1048576 bytes; then it returns that message and leaves the client as it
    was but for the frame consumed. *)
Theorem receive_iff_framed c m t :
  (exists s, receive c = (Some m, set_rx s c) /\ toks s = t) <->
  (isConnected c = true /\ sendable m /\ toks (rx c) = (TByte <$> frame m) ++ t).
Proof.
  split.
  - intros (s & (Hc & Hm & _ & Ht)%receive_sound & <-). done.
  - intros (Hc & Hm & Ht). by apply receive_frame.
Qed.

(** Liveness of [send].  When the kernel takes at least one byte per
    [write], for as many calls as the frame has bytes, [send] returns true. *)
Theorem send_succeeds m c :
  isConnected c = true ->
  (length (frame m) <= length (w_script (tx c)))%nat ->
  Forall (fun e => exists n, e = WAccept (S n)) (w_script (tx c)) ->
  fst (send m c) = true.
Proof.
  intros Hc Hl Hs. unfold send, isConnected, frame in *.
  rewrite Z.ltb_antisym, Hc. simpl negb. cbv iota. rewrite length_app in Hl.
  destruct (send_loop_accepts (be32_encode (netLen m)) (tx c)) as (w & E & Hw & Hlw);
    [lia|done|].
  rewrite length_be32_encode in E, Hl, Hlw. rewrite E. simpl negb. cbv iota.
  destruct (send_loop_accepts (take (Z.to_nat (netLen m)) m) w) as (w' & E' & _);
    [lia|done|].
  replace (Z.to_nat (netLen m)) with (length (take (Z.to_nat (netLen m)) m)) at 1.
  { by rewrite E'. }
  rewrite length_take. unfold netLen, u32, zlen.
  pose proof (Z.mod_le (Z.of_nat (length m)) (2 ^ 32)). lia.
Qed.

(** A stream that breaks closes the connection.  When the stream ends or
    fails inside the header, or ends, fails or times out inside the body,
    [receive] returns false and the client is disconnected. *)
Theorem receive_broken_disconnects c len hs bs t e t' :
  isConnected c = true -> stops t e t' ->
  (toks (rx c) = (TByte <$> hs) ++ t /\ (length hs < 4)%nat /\ e <> Some TTimeout \/
   toks (rx c) = (TByte <$> be32_encode len) ++ (TByte <$> bs) ++ t /\
     1 <= len <= 1048576 /\ zlen bs < len) ->
  fst (receive c) = None /\ isConnected (snd (receive c)) = false.
Proof.
  intros Hc Hst Hcase. enough (fst (receive c) = None /\ socketFd (snd (receive c)) = -1) as [? H]
    by (unfold isConnected; by rewrite H).
  destruct Hcase as [(Ht & Hl & He)|(Ht & Hl & Hb)].
  - by eapply receive_header_closes.
  - eapply (receive_body_closes c len); [done|lia|apply bad_length_false; lia|done..].
Qed.

(** C36: the descriptors.  After any sequence of [connect], [send], [receive]
    and [disconnect] calls on a new client, whatever the kernel answers, the
    only descriptor open is the connected one, and no descriptor was closed
    twice. *)
Theorem run_no_fd_leak ops : fd_inv (run ops new_client).
Proof.
  assert (H : fd_inv new_client) by done. revert H. generalize new_client.
  induction ops as [|o ops IH]; simpl; [done|]. intros c Hc. by apply IH, step_inv.
Qed.

(** A time-out inside the length prefix loses the framing.  The 1 to 3
    bytes already read are dropped, [receive] returns false and the client
    stays connected, so the rest of the prefix and the body are what the next
    [receive] reads as a prefix. *)
Theorem receive_timeout_in_header_desyncs c m k t :
  isConnected c = true -> sendable m -> (0 < k < 4)%nat ->
  toks (rx c) = (TByte <$> take k (frame m)) ++ TTimeout :: (TByte <$> drop k (frame m)) ++ t ->
  exists s, receive c = (None, set_rx s c) /\ isConnected (set_rx s c) = true /\
    toks s = (TByte <$> drop k (frame m)) ++ t.
Proof.
  intros Hc Hm Hk Ht.
  destruct (receive_header_timeout c (take k (frame m)) ((TByte <$> drop k (frame m)) ++ t))
    as (s & E & Hs); [done|rewrite length_take; lia|done|].
  by exists s.
Qed.

(** A frame of length 0 or above 1 MiB loses the framing.  [receive]
    returns false with the client still connected and the body unread, so the
    next [receive] reads the body as a length prefix. *)
Theorem receive_oversized_desyncs c len body t :
  isConnected c = true -> 0 <= len < 2 ^ 32 -> (len = 0 \/ 1048576 < len) ->
  toks (rx c) = (TByte <$> be32_encode len ++ body) ++ t ->
  exists s, receive c = (None, set_rx s c) /\ isConnected (set_rx s c) = true /\
    toks s = (TByte <$> body) ++ t.
Proof.
  intros Hc Hl Hbad Ht. rewrite fmap_app, <- app_assoc in Ht.
  destruct (receive_bad_length c len ((TByte <$> body) ++ t)) as (s & E & Hs); [done..| |done|].
  - apply not_false_is_true. intros [? ?]%bad_length_false. lia.
  - by exists s.
Qed.

(** [getIpcTcpPort] returns a TCP port or -1, and a decimal port number in
    range is returned as it is. *)
Theorem getIpcTcpPort_range env :
  getIpcTcpPort env = -1 \/ 1 <= getIpcTcpPort env <= 65535.
Proof.
  unfold getIpcTcpPort. destruct env as [[|c e]|]; auto.
  destruct (stoi (c :: e)) as [p|]; auto.
  destruct ((0 <? p) && (p <=? 65535)) eqn:E; auto. bool_hyps. lia.
Qed.

(** ** Witnesses *)

Definition demo_client (s : list read_ev) (w : list write_ev) : client :=
  Client 3 {[3]} false None 3 s (WSock w []).

Lemma send_receive_roundtrip_witness :
  exists s,
    receive (demo_client [RData (chr <$> [0; 0]); RData (chr <$> [0; 2; 104]); RData [chr 105]] [])
    = (Some $"hi", set_rx s (demo_client
        [RData (chr <$> [0; 0]); RData (chr <$> [0; 2; 104]); RData [chr 105]] [])) /\ toks s = [].
Proof.
  apply (send_receive_roundtrip $"hi" (demo_client [] [WAccept 3; WAccept 9; WAccept 1; WAccept 9])
    (snd (send $"hi" (demo_client [] [WAccept 3; WAccept 9; WAccept 1; WAccept 9])))); by_compute.
Defined.

Lemma send_all_receive_n_witness :
  exists s,
    receive_n 2 (demo_client [RData (frame $"a" ++ [chr 0]); RData (drop 1 (frame $"bc"))] [])
    = ([Some $"a"; Some $"bc"], set_rx s (demo_client
        [RData (frame $"a" ++ [chr 0]); RData (drop 1 (frame $"bc"))] [])) /\ toks s = [].
Proof.
  apply (send_all_receive_n [ $"a"; $"bc" ]
    (demo_client [] [WAccept 9; WAccept 9; WAccept 9; WAccept 9])
    (snd (send_all [ $"a"; $"bc" ] (demo_client [] [WAccept 9; WAccept 9; WAccept 9; WAccept 9])))).
  - repeat constructor; by_compute.
  - by_compute.
  - by_compute.
  - by_compute.
  - by_compute.
Defined.

Lemma send_succeeds_witness :
  fst (send $"ok" (demo_client [] (replicate 6 (WAccept 1)))) = true.
Proof.
  apply send_succeeds; [by_compute|vm_compute; lia|].
  repeat constructor; by eexists.
Defined.

Lemma receive_broken_disconnects_witness :
  fst (receive (demo_client [RData (be32_encode 5); RData $"ab"; RTimeout] [])) = None /\
  isConnected (snd (receive (demo_client [RData (be32_encode 5); RData $"ab"; RTimeout] []))) = false.
Proof.
  apply (receive_broken_disconnects _ 5 [] $"ab" [TTimeout] (Some TTimeout) []).
  - by_compute.
  - by_compute.
  - right. by_compute.
Defined.

Lemma receive_timeout_in_header_desyncs_witness :
  exists s,
    receive (demo_client [RData (take 2 (frame $"hi")); RTimeout; RData (drop 2 (frame $"hi"))] [])
    = (None, set_rx s (demo_client
        [RData (take 2 (frame $"hi")); RTimeout; RData (drop 2 (frame $"hi"))] [])) /\
    isConnected (set_rx s (demo_client
        [RData (take 2 (frame $"hi")); RTimeout; RData (drop 2 (frame $"hi"))] [])) = true /\
    toks s = (TByte <$> drop 2 (frame $"hi")) ++ [].
Proof.
  apply (receive_timeout_in_header_desyncs _ $"hi" 2 []); [by_compute|by_compute|lia|by_compute].
Defined.

Lemma receive_oversized_desyncs_witness :
  exists s,
    receive (demo_client [RData (be32_encode 1048577 ++ $"xy")] [])
    = (None, set_rx s (demo_client [RData (be32_encode 1048577 ++ $"xy")] [])) /\
    isConnected (set_rx s (demo_client [RData (be32_encode 1048577 ++ $"xy")] [])) = true /\
    toks s = (TByte <$> $"xy") ++ [].
Proof.
  apply (receive_oversized_desyncs _ 1048577 $"xy" []); [by_compute|lia|lia|by_compute].
Defined.
