(* ===== verification/IpcInterface.v ===== *)
(** * The interface of the IPC clients (src/src/backend/cpp/include/ipc_client.h)

    The abstract class [IpcClient] with what the daemon relies on.  The daemon
    is modelled over this interface; [UnixIpcClient] (here) and
    [WindowsIpcClient] (in [WinIpc]) implement it. *)

From S2P Require Import Prelude Posix IpcClient.

(** ** The interface IpcClient *)

Class IpcChannel (C : Type) := {
  chan_os : Type;  (* what the system answers to one [connect] *)
  chan_connect : option str -> chan_os -> str -> C -> bool * C;
  chan_disconnect : C -> C;
  chan_connected : C -> bool;
  chan_send : str -> C -> bool * C;
  chan_receive : C -> option str * C;
  chan_rx : C -> list read_ev;
  chan_tx : C -> wsock;
}.

(** What the callers rely on: [send] writes one frame, [receive] returns the
    message of the frame at the head of the stream and nothing else, and
    [disconnect] disconnects. *)
Class IpcChannelLaws (C : Type) `{IpcChannel C} := {
  chan_send_frame m c c' :
    chan_send m c = (true, c') -> w_sent (chan_tx c') = w_sent (chan_tx c) ++ frame m;
  chan_send_connected m c : chan_connected (chan_send m c).2 = chan_connected c;
  chan_receive_frame m c t :
    chan_connected c = true -> sendable m -> toks (chan_rx c) = (TByte <$> frame m) ++ t ->
    exists c', chan_receive c = (Some m, c') /\ chan_connected c' = true /\ toks (chan_rx c') = t;
  chan_receive_sound c m c' :
    chan_receive c = (Some m, c') ->
    chan_connected c = true /\ sendable m /\ toks (chan_rx c) = (TByte <$> frame m) ++ toks (chan_rx c');
  chan_disconnect_closed c : chan_connected (chan_disconnect c) = false;
}.

(** Calls of [send] until one fails, and of [receive]. *)
Fixpoint chan_send_all {C} `{IpcChannel C} (ms : list str) (c : C) : bool * C :=
  match ms with
  | [] => (true, c)
  | m :: ms' => let '(ok, c') := chan_send m c in if ok then chan_send_all ms' c' else (false, c')
  end.

Fixpoint chan_receive_n {C} `{IpcChannel C} (n : nat) (c : C) : list (option str) * C :=
  match n with
  | O => ([], c)
  | S n' =>
      let '(r, c1) := chan_receive c in
      let '(rs, c2) := chan_receive_n n' c1 in (r :: rs, c2)
  end.

#[export] Instance unix_channel : IpcChannel client :=
  {| chan_os := net_os; chan_connect := connect; chan_disconnect := disconnect; chan_connected := isConnected;
     chan_send := send; chan_receive := receive; chan_rx := rx; chan_tx := tx |}.

#[export] Instance unix_channel_laws : IpcChannelLaws client.
Proof.
  split; simpl.
  - apply send_frame.
  - intros m c. unfold isConnected. destruct (send m c) as [ok c'] eqn:E. simpl. by rewrite (send_connected m c ok c' E).
  - intros m c t Hc Hm Ht. destruct (receive_frame m c t Hc Hm Ht) as (s & E & Hs).
    by exists (set_rx s c).
  - intros c m c' H. destruct (receive_sound c m c' H) as (? & ? & _ & ?). done.
  - intros c. unfold disconnect, disconnectLocked, isConnected. destruct (0 <=? socketFd c) eqn:E; [done|exact E].
Qed.

(** ** Sequences of messages *)

Lemma chan_send_all_sent {C} `{IpcChannelLaws C} ms (c c' : C) :
  chan_send_all ms c = (true, c') -> w_sent (chan_tx c') = w_sent (chan_tx c) ++ concat (frame <$> ms).
Proof.
  revert c. induction ms as [|m ms IH]; intros c; simpl; [intros [= ->]; by rewrite app_nil_r|].
  destruct (chan_send m c) as [[] c1] eqn:E; [|done]. intros Hs%IH.
  by rewrite Hs, (chan_send_frame _ _ _ E), <- app_assoc.
Qed.

Lemma chan_receive_n_frames {C} `{IpcChannelLaws C} ms (c : C) t :
  chan_connected c = true -> Forall sendable ms -> toks (chan_rx c) = (TByte <$> concat (frame <$> ms)) ++ t ->
  exists c', chan_receive_n (length ms) c = (Some <$> ms, c') /\ chan_connected c' = true /\ toks (chan_rx c') = t.
Proof.
  revert c. induction ms as [|m ms IH]; intros c Hc Hms Ht; simpl; [by exists c|].
  apply Forall_cons in Hms as [Hm Hms]. simpl in Ht. rewrite fmap_app, <- app_assoc in Ht.
  destruct (chan_receive_frame m c _ Hc Hm Ht) as (c1 & -> & Hc1 & Ht1).
  destruct (IH c1 Hc1 Hms Ht1) as (c2 & -> & Hc2 & Ht2). by exists c2.
Qed.

