(* ===== verification/IpcLocks.v ===== *)
(** * The locks of the IPC client (src/src/backend/cpp/src/ipc_client.cpp)

    The member functions of [UnixIpcClient] run in several threads: the IPC
    worker receives and reconnects, the watcher's callbacks send.  Here a
    member function is the sequence of its operations on the three mutexes and
    on the shared descriptor, and the threads interleave one operation at a
    time.  The bytes transferred are the subject of [IpcClient]. *)

From stdpp Require Import relations.
From S2P Require Import Prelude.

(** ** Operations *)

Inductive mutex := sendMutex | recvMutex | stateMutex.

#[export] Instance mutex_eq_dec : EqDecision mutex.
Proof. solve_decision. Defined.

Definition mutex_to_nat (m : mutex) : nat :=
  match m with sendMutex => 0 | recvMutex => 1 | stateMutex => 2 end%nat.
Definition mutex_of_nat (n : nat) : mutex :=
  match n with 0 => sendMutex | 1 => recvMutex | _ => stateMutex end%nat.

#[export] Instance mutex_countable : Countable mutex.
Proof. refine (inj_countable' mutex_to_nat mutex_of_nat _). by intros []. Defined.

Inductive act :=
  | Lock (m : mutex)              (* the constructor of a lock_guard *)
  | Unlock (m : mutex)            (* its destructor *)
  | CopyFd                        (* fd = socketFd_ *)
  | ReturnUnlessOpen (m : mutex)  (* if (fd < 0) return false, which unlocks m *)
  | Io                            (* one read or write on fd *)
  | CloseFd                       (* disconnectLocked() *)
  | OpenFd.                       (* socketFd_ = ::socket(...) *)

(** ** Member functions *)

(** A call with the branches it takes: whether [::connect] succeeds, how many
    times the loops read or write, whether [receive] ends in
    [disconnectOnError]. *)
Inductive call :=
  | CConnect (ok : bool)
  | CSend (writes : nat)
  | CReceive (reads : nat) (error : bool)
  | CDisconnect
  | CIsConnected.

Definition code_disconnectOnError : list act :=
  [Lock sendMutex; Lock stateMutex; CloseFd; Unlock stateMutex; Unlock sendMutex].

(** [lock_guard]s are released in the reverse order. *)
Definition with_all_locks (body : list act) : list act :=
  [Lock sendMutex; Lock recvMutex; Lock stateMutex] ++ body ++
  [Unlock stateMutex; Unlock recvMutex; Unlock sendMutex].

(** The prologue of [send] and [receive]: the descriptor is copied under
    [stateMutex_]. *)
Definition copy_fd (m : mutex) : list act :=
  [Lock m; Lock stateMutex; CopyFd; Unlock stateMutex; ReturnUnlessOpen m].

Definition code (c : call) : list act :=
  match c with
  | CConnect ok => with_all_locks ([CloseFd; OpenFd] ++ if ok then [] else [CloseFd])
  | CSend n => copy_fd sendMutex ++ replicate n Io ++ [Unlock sendMutex]
  | CReceive n error =>
      copy_fd recvMutex ++ replicate n Io ++ (if error then code_disconnectOnError else []) ++ [Unlock recvMutex]
  | CDisconnect => with_all_locks [CloseFd]
  | CIsConnected => [Lock stateMutex; CopyFd; Unlock stateMutex]
  end.

(** ** Threads *)

(** What is left of the current call, the calls after it, the mutexes held and
    the local variable [fd]. *)
Record thread := Thread { t_code : list act; t_calls : list call; t_held : gset mutex; t_fd : Z }.

Record lock_conf := LockConf { c_fd : Z; c_open : gset Z; c_threads : list thread }.

Definition free (m : mutex) (ts : list thread) : Prop := forall t, t ∈ ts -> m ∉ t_held t.

(** One operation of one thread. *)
Inductive lock_step : lock_conf -> lock_conf -> Prop :=
  | step_call i ts fd op c cs h l :
      ts !! i = Some (Thread [] (c :: cs) h l) ->
      lock_step (LockConf fd op ts) (LockConf fd op (<[i := Thread (code c) cs h l]> ts))
  | step_lock i ts fd op m r cs h l :
      ts !! i = Some (Thread (Lock m :: r) cs h l) -> free m ts ->
      lock_step (LockConf fd op ts) (LockConf fd op (<[i := Thread r cs ({[m]} ∪ h) l]> ts))
  | step_unlock i ts fd op m r cs h l :
      ts !! i = Some (Thread (Unlock m :: r) cs h l) ->
      lock_step (LockConf fd op ts) (LockConf fd op (<[i := Thread r cs (h ∖ {[m]}) l]> ts))
  | step_copy i ts fd op r cs h l :
      ts !! i = Some (Thread (CopyFd :: r) cs h l) ->
      lock_step (LockConf fd op ts) (LockConf fd op (<[i := Thread r cs h fd]> ts))
  | step_closed i ts fd op m r cs h l :
      ts !! i = Some (Thread (ReturnUnlessOpen m :: r) cs h l) -> l < 0 ->
      lock_step (LockConf fd op ts) (LockConf fd op (<[i := Thread [Unlock m] cs h l]> ts))
  | step_opened i ts fd op m r cs h l :
      ts !! i = Some (Thread (ReturnUnlessOpen m :: r) cs h l) -> 0 <= l ->
      lock_step (LockConf fd op ts) (LockConf fd op (<[i := Thread r cs h l]> ts))
  | step_io i ts fd op r cs h l :
      ts !! i = Some (Thread (Io :: r) cs h l) ->
      lock_step (LockConf fd op ts) (LockConf fd op (<[i := Thread r cs h l]> ts))
  | step_close i ts fd op r cs h l :
      ts !! i = Some (Thread (CloseFd :: r) cs h l) ->
      lock_step (LockConf fd op ts)
        (LockConf (if 0 <=? fd then -1 else fd) (if 0 <=? fd then op ∖ {[fd]} else op) (<[i := Thread r cs h l]> ts))
  | step_open i ts fd op fd' r cs h l :
      ts !! i = Some (Thread (OpenFd :: r) cs h l) -> fd' ∉ op ->
      lock_step (LockConf fd op ts)
        (LockConf fd' (if 0 <=? fd' then {[fd']} ∪ op else op) (<[i := Thread r cs h l]> ts)).

(** Threads that make the given calls, on a client that is not connected. *)
Definition start (calls : list (list call)) : lock_conf :=
  LockConf (-1) ∅ ((fun cs => Thread [] cs ∅ (-1)) <$> calls).

Definition finished (t : thread) : Prop := t_code t = [] /\ t_calls t = [].

(** Nothing can happen although some thread is not done. *)
Definition deadlocked (c : lock_conf) : Prop :=
  (exists t, t ∈ c_threads c /\ ~ finished t) /\ forall c', ~ lock_step c c'.

(** ** The lock discipline *)

(** What is known of the local [fd]: nothing, that it is the descriptor of the
    client, that it is an open one; or that the client has none. *)
Inductive fd_state := Stale | Copied | Checked | Closed.

(** Whether the mutexes [h] keep other threads from changing the descriptor. *)
Definition guarded (h : gset mutex) (s : fd_state) : bool :=
  match s with
  | Stale => true
  | _ => bool_decide (sendMutex ∈ h) || bool_decide (recvMutex ∈ h)
  end.

Definition all_held (h : gset mutex) : bool :=
  bool_decide (sendMutex ∈ h) && bool_decide (recvMutex ∈ h) && bool_decide (stateMutex ∈ h).

(** A check of the operations left against the mutexes held: no mutex is
    locked twice or while [stateMutex] is held, only held ones are unlocked and
    all of them are in the end; the shared descriptor is read under
    [stateMutex] and changed under all three mutexes; a descriptor is used only
    while [sendMutex] or [recvMutex], held since it was copied, guards it. *)
Fixpoint disciplined (r : list act) (h : gset mutex) (s : fd_state) : bool :=
  guarded h s &&
  match r with
  | [] => bool_decide (h = ∅)
  | Lock m :: r' =>
      bool_decide (m ∉ h) && bool_decide (stateMutex ∉ h) && disciplined r' ({[m]} ∪ h) s
  | Unlock m :: r' =>
      bool_decide (m ∈ h) &&
      (disciplined r' (h ∖ {[m]}) s || disciplined r' (h ∖ {[m]}) Stale)
  | CopyFd :: r' =>
      bool_decide (stateMutex ∈ h) && (disciplined r' h Copied || disciplined r' h Stale)
  | ReturnUnlessOpen m :: r' =>
      bool_decide (h = {[m]}) && match s with Copied => disciplined r' h Checked | _ => false end
  | Io :: r' => match s with Checked => disciplined r' h Checked | _ => false end
  | CloseFd :: r' => all_held h && (disciplined r' h Closed || disciplined r' h Stale)
  | OpenFd :: r' => all_held h && match s with Closed => disciplined r' h Stale | _ => false end
  end.

(** The meaning of [fd_state] for a client with descriptor [fd]. *)
Definition fd_known (s : fd_state) (fd l : Z) : Prop :=
  match s with
  | Stale => True
  | Copied => l = fd
  | Checked => l = fd /\ 0 <= fd
  | Closed => fd < 0
  end.

Definition thread_ok (fd : Z) (t : thread) : Prop :=
  exists s, disciplined (t_code t) (t_held t) s = true /\ fd_known s fd (t_fd t).

(** No mutex has two owners. *)
Definition exclusive (ts : list thread) : Prop :=
  forall i j t u, i <> j -> ts !! i = Some t -> ts !! j = Some u -> t_held t ## t_held u.

(** The invariant of the client: every thread follows the discipline, and the
    only descriptor open is the one of the client. *)
Definition locks_ok (c : lock_conf) : Prop :=
  (forall i t, c_threads c !! i = Some t -> thread_ok (c_fd c) t) /\ exclusive (c_threads c) /\
  c_open c = if 0 <=? c_fd c then {[c_fd c]} else ∅.

(** ** Lemmas: the member functions follow the discipline *)

Lemma disciplined_io n r h : disciplined r h Checked = true -> disciplined (replicate n Io ++ r) h Checked = true.
Proof.
  intros H. assert (Hg : guarded h Checked = true) by (destruct r as [|[] ?]; simpl in H; by apply andb_prop in H as [? _]).
  induction n as [|n IH]; [done|]. cbn [replicate app disciplined]. by rewrite Hg, IH.
Qed.

Lemma code_disciplined c : disciplined (code c) ∅ Stale = true.
Proof.
  destruct c as [[]|n|n e| |]; [vm_compute; reflexivity|vm_compute; reflexivity| | |vm_compute; reflexivity|vm_compute; reflexivity].
  - cbn [code copy_fd app disciplined].
    rewrite (disciplined_io n [Unlock sendMutex]) by (vm_compute; reflexivity). vm_compute. reflexivity.
  - cbn [code copy_fd app disciplined].
    rewrite (disciplined_io n ((if e then code_disconnectOnError else []) ++ [Unlock recvMutex]))
      by (destruct e; vm_compute; reflexivity). vm_compute. reflexivity.
Qed.

(** ** Lemmas: the invariant is preserved *)

Lemma exclusive_shrink ts i t t' :
  exclusive ts -> ts !! i = Some t -> t_held t' ⊆ t_held t -> exclusive (<[i := t']> ts).
Proof.
  intros He Hi Hsub j k u v Hjk Hj Hk.
  apply list_lookup_insert_Some in Hj as [(<- & <- & _)|[Hij Hj]];
    apply list_lookup_insert_Some in Hk as [(<- & <- & _)|[Hik Hk]]; try done.
  - specialize (He i k t v Hjk Hi Hk). set_solver.
  - specialize (He j i u t Hjk Hj Hi). set_solver.
  - by apply (He j k).
Qed.

Lemma exclusive_grow ts i t m t' :
  exclusive ts -> ts !! i = Some t -> free m ts -> t_held t' = {[m]} ∪ t_held t -> exclusive (<[i := t']> ts).
Proof.
  intros He Hi Hm Hh j k u v Hjk Hj Hk.
  assert (Hfree : forall x u, ts !! x = Some u -> m ∉ t_held u) by (intros x w Hw; apply Hm; by eapply list_elem_of_lookup_2).
  apply list_lookup_insert_Some in Hj as [(<- & <- & _)|[Hij Hj]];
    apply list_lookup_insert_Some in Hk as [(<- & <- & _)|[Hik Hk]]; try done.
  - specialize (He i k t v Hjk Hi Hk). specialize (Hfree k v Hk). set_solver.
  - specialize (He j i u t Hjk Hj Hi). specialize (Hfree j u Hj). set_solver.
  - by apply (He j k).
Qed.

Lemma disciplined_guarded r h s : disciplined r h s = true -> guarded h s = true.
Proof. destruct r as [|[] r]; simpl; intros H; by apply andb_prop in H as [? _]. Qed.

(** While one thread holds all the mutexes the others know nothing of the
    descriptor, so that it can be changed. *)
Lemma others_stale ts i t fd fd' j u :
  exclusive ts -> ts !! i = Some t -> all_held (t_held t) = true -> j <> i -> ts !! j = Some u ->
  thread_ok fd u -> thread_ok fd' u.
Proof.
  intros He Hi Ha Hji Hj (s & Hd & _). unfold all_held in Ha. bool_hyps.
  pose proof (He j i u t Hji Hj Hi) as Hdis.
  apply disciplined_guarded in Hd as Hg. destruct s; [by exists Stale|..]; exfalso; simpl in Hg;
    apply orb_prop in Hg as [Hg|Hg]; bool_hyps; set_solver.
Qed.

Lemma threads_ok_insert fd (ts : list thread) i t' :
  (forall j u, j <> i -> ts !! j = Some u -> thread_ok fd u) -> thread_ok fd t' ->
  forall j u, <[i := t']> ts !! j = Some u -> thread_ok fd u.
Proof. intros Ho Ht j u Hj. apply list_lookup_insert_Some in Hj as [(<- & <- & _)|[? ?]]; [done|]. by apply (Ho j). Qed.

(** A thread that keeps the descriptor and takes no mutex. *)
Lemma locks_ok_local fd op ts i t t' :
  locks_ok (LockConf fd op ts) -> ts !! i = Some t -> t_held t' ⊆ t_held t -> thread_ok fd t' ->
  locks_ok (LockConf fd op (<[i := t']> ts)).
Proof.
  intros (Hok & He & Ho) Hi Hsub Ht. split_and!; [|by eapply exclusive_shrink|done]. simpl in *.
  apply threads_ok_insert; [|done]. intros j u _. apply Hok.
Qed.

(** Case analysis on a disjunction of two checks. *)
Ltac either_check :=
  match goal with H : disciplined _ _ _ || disciplined _ _ _ = true |- _ => apply orb_prop in H as [H|H] end.

Lemma step_locks_ok c c' : lock_step c c' -> locks_ok c -> locks_ok c'.
Proof.
  intros Hs Hinv. pose proof Hinv as (Hok & He & Ho). simpl in *.
  destruct Hs as [i ts fd op c cs h l Hi|i ts fd op m r cs h l Hi Hm|i ts fd op m r cs h l Hi|i ts fd op r cs h l Hi
    |i ts fd op m r cs h l Hi Hl|i ts fd op m r cs h l Hi Hl|i ts fd op r cs h l Hi|i ts fd op r cs h l Hi
    |i ts fd op fd' r cs h l Hi Hf]; simpl in *;
    destruct (Hok i _ Hi) as (s & Hd & Hk); simpl in Hd, Hk.
  - eapply locks_ok_local; [done|done|done|]. bool_hyps. subst h. exists Stale. split; [apply code_disciplined|done].
  - bool_hyps. split_and!; simpl; [|by eapply exclusive_grow|done].
    apply threads_ok_insert; [intros j u _; apply Hok|]. by exists s.
  - bool_hyps. eapply locks_ok_local; [done|done|simpl; set_solver|].
    either_check; [by exists s|by exists Stale].
  - bool_hyps. eapply locks_ok_local; [done|done|done|]. either_check; [by exists Copied|by exists Stale].
  - eapply locks_ok_local; [done|done|done|]. bool_hyps. subst h. exists Stale. split; [|done].
    cbn [t_code t_held disciplined guarded]. rewrite bool_decide_true by set_solver.
    rewrite difference_diag_L. by rewrite bool_decide_true.
  - eapply locks_ok_local; [done|done|done|]. bool_hyps. destruct s; try done. exists Checked. split; [done|].
    simpl in *. lia.
  - eapply locks_ok_local; [done|done|done|]. bool_hyps. destruct s; try done. by exists Checked.
  - bool_hyps. split_and!; simpl.
    + apply threads_ok_insert.
      * intros j u Hj Hu. eapply others_stale; [exact He|exact Hi|done|done|done|by apply (Hok j)].
      * either_check; [exists Closed|by exists Stale]. split; [done|].
        simpl. destruct (Z.leb_spec 0 fd); lia.
    + by eapply exclusive_shrink.
    + destruct (Z.leb_spec 0 fd); [|rewrite (proj2 (Z.leb_gt 0 fd)) by lia; done]. rewrite Ho. simpl. set_solver.
  - bool_hyps. destruct s; try done. simpl in Hk. split_and!; simpl.
    + apply threads_ok_insert; [|by exists Stale].
      intros j u Hj Hu. eapply others_stale; [exact He|exact Hi|done|done|done|by apply (Hok j)].
    + by eapply exclusive_shrink.
    + rewrite (proj2 (Z.leb_gt 0 fd)) in Ho by lia. rewrite Ho. destruct (0 <=? fd'); set_solver.
Qed.

Lemma start_locks_ok calls : locks_ok (start calls).
Proof.
  split_and!; simpl; [| |done].
  - intros i t Hi. apply list_lookup_fmap_Some in Hi as (cs & -> & _). exists Stale. split; [|done].
    simpl. by rewrite bool_decide_true.
  - intros i j t u _ Hi Hj. apply list_lookup_fmap_Some in Hi as (cs & -> & _). set_solver.
Qed.

Lemma reachable_locks_ok calls c : rtc lock_step (start calls) c -> locks_ok c.
Proof.
  intros H. pose proof (start_locks_ok calls) as Hs. revert Hs. induction H as [|c1 c2 c3 H12 _ IH]; [done|].
  intros H1. apply IH. by eapply step_locks_ok.
Qed.

(** ** Schedules *)

(** The operation of thread [i]; [fd'] is what [::socket] returns. *)
Definition run_thread (fd' : Z) (i : nat) (c : lock_conf) : option lock_conf :=
  let '(LockConf fd op ts) := c in
  match ts !! i with
  | Some (Thread [] (a :: cs) h l) => Some (LockConf fd op (<[i := Thread (code a) cs h l]> ts))
  | Some (Thread (Lock m :: r) cs h l) =>
      if forallb (fun t => bool_decide (m ∉ t_held t)) ts
      then Some (LockConf fd op (<[i := Thread r cs ({[m]} ∪ h) l]> ts)) else None
  | Some (Thread (Unlock m :: r) cs h l) => Some (LockConf fd op (<[i := Thread r cs (h ∖ {[m]}) l]> ts))
  | Some (Thread (CopyFd :: r) cs h l) => Some (LockConf fd op (<[i := Thread r cs h fd]> ts))
  | Some (Thread (ReturnUnlessOpen m :: r) cs h l) =>
      Some (LockConf fd op (<[i := Thread (if l <? 0 then [Unlock m] else r) cs h l]> ts))
  | Some (Thread (Io :: r) cs h l) => Some (LockConf fd op (<[i := Thread r cs h l]> ts))
  | Some (Thread (CloseFd :: r) cs h l) =>
      Some (LockConf (if 0 <=? fd then -1 else fd) (if 0 <=? fd then op ∖ {[fd]} else op) (<[i := Thread r cs h l]> ts))
  | Some (Thread (OpenFd :: r) cs h l) =>
      if bool_decide (fd' ∉ op) then Some (LockConf fd' (if 0 <=? fd' then {[fd']} ∪ op else op) (<[i := Thread r cs h l]> ts))
      else None
  | _ => None
  end.

Fixpoint run_schedule (fd' : Z) (sched : list nat) (c : lock_conf) : option lock_conf :=
  match sched with
  | [] => Some c
  | i :: sched' => c' ← run_thread fd' i c; run_schedule fd' sched' c'
  end.

Lemma free_iff m ts : forallb (fun t => bool_decide (m ∉ t_held t)) ts = true <-> free m ts.
Proof.
  unfold free. rewrite forallb_forall. split; intros H t Ht.
  - specialize (H t (proj1 (list_elem_of_In _ _) Ht)). by apply bool_decide_eq_true in H.
  - apply bool_decide_eq_true. apply H. by apply list_elem_of_In.
Qed.

Lemma run_thread_step fd' i c c' : run_thread fd' i c = Some c' -> lock_step c c'.
Proof.
  destruct c as [fd op ts]. unfold run_thread. destruct (ts !! i) as [[[|a r] cs h l]|] eqn:Hi; [|destruct a|done].
  - destruct cs as [|a cs]; [done|]. intros [= <-]. by apply step_call.
  - destruct (forallb _ ts) eqn:Hf; [|done]. intros [= <-]. apply step_lock; [done|by apply free_iff].
  - intros [= <-]. by apply step_unlock.
  - intros [= <-]. by eapply step_copy.
  - intros [= <-]. destruct (Z.ltb_spec l 0); [by eapply step_closed|by eapply step_opened].
  - intros [= <-]. by apply step_io.
  - intros [= <-]. by apply step_close.
  - case_bool_decide; [|done]. intros [= <-]. by apply step_open.
Qed.

Lemma run_schedule_steps fd' sched c c' : run_schedule fd' sched c = Some c' -> rtc lock_step c c'.
Proof.
  revert c. induction sched as [|i sched IH]; intros c; simpl; [by intros [= ->]|].
  destruct (run_thread fd' i c) as [c1|] eqn:E; [|done]. intros H. eapply rtc_l; [by eapply run_thread_step|by apply IH].
Qed.

(** ** Lemmas: progress *)

(** A thread that is not done can run, or waits for a mutex of another one. *)
Lemma run_or_wait c i t :
  locks_ok c -> c_threads c !! i = Some t -> ~ finished t ->
  (exists c', lock_step c c') \/
  exists m r, t_code t = Lock m :: r /\ exists j u, j <> i /\ c_threads c !! j = Some u /\ m ∈ t_held u.
Proof.
  intros (Hok & He & Ho) Hi Hf. destruct (run_thread (-1) i c) as [c'|] eqn:E; [left; by eexists; eapply run_thread_step|].
  right. destruct c as [fd op ts]. simpl in *. destruct (Hok i t Hi) as (s & Hd & _).
  unfold run_thread in E. rewrite Hi in E. destruct t as [[|a r] cs h l]; simpl in *.
  { destruct cs; [|done]. exfalso. by apply Hf. }
  destruct a; try done.
  - bool_hyps. destruct (forallb _ ts) eqn:Hfree; [done|]. exists m, r. split; [done|].
    apply not_true_iff_false in Hfree. destruct (decide (Exists (fun t => m ∈ t_held t) ts)) as [Hex|Hno].
    + apply Exists_exists in Hex as (u & Hu & Hm). apply list_elem_of_lookup_1 in Hu as (j & Hj).
      exists j, u. split_and!; try done. intros ->. rewrite Hi in Hj. by simplify_eq.
    + exfalso. apply Hfree, free_iff. intros u Hu Hm. apply Hno, Exists_exists. by exists u.
  - exfalso. rewrite Ho in E. destruct (Z.leb_spec 0 fd); case_bool_decide; set_solver by lia.
Qed.

(** The owner of a mutex is not done, and the owner of [stateMutex] does not
    wait. *)
Lemma owner_unfinished c i t m :
  locks_ok c -> c_threads c !! i = Some t -> m ∈ t_held t -> ~ finished t.
Proof.
  intros (Hok & _) Hi Hm [Hc _]. destruct (Hok i t Hi) as (s & Hd & _). rewrite Hc in Hd. simpl in Hd. bool_hyps. set_solver.
Qed.

Lemma state_owner_runs c i t :
  locks_ok c -> c_threads c !! i = Some t -> stateMutex ∈ t_held t -> exists c', lock_step c c'.
Proof.
  intros Hinv Hi Hm. destruct (run_or_wait c i t Hinv Hi) as [?|(m & r & Hc & _)]; [by eapply owner_unfinished|done|].
  destruct Hinv as (Hok & _). destruct (Hok i t Hi) as (s & Hd & _). rewrite Hc in Hd. simpl in Hd. by bool_hyps.
Qed.

(** A thread that only sends. *)
Definition sender_call (c : call) : bool :=
  match c with CSend _ | CIsConnected => true | _ => false end.

Definition sender (t : thread) : Prop :=
  Forall (fun a => a <> Lock recvMutex) (t_code t) /\ Forall (fun c => sender_call c = true) (t_calls t) /\
  recvMutex ∉ t_held t.

Lemma sender_code c : sender_call c = true -> Forall (fun a => a <> Lock recvMutex) (code c).
Proof.
  destruct c as [[]|n| | |]; try done; intros _; cbn [code copy_fd app].
  - repeat (constructor; [done|]). apply Forall_app. split; [by apply Forall_replicate|by repeat constructor].
  - by repeat constructor.
Qed.

(** All threads but the first only send. *)
Definition senders (c : lock_conf) : Prop := forall i t, c_threads c !! S i = Some t -> sender t.

Lemma step_senders c c' : lock_step c c' -> senders c -> senders c'.
Proof.
  intros Hs Hsend k u Hk.
  assert (Hins : forall (i : nat) t t' (ts : list thread), ts !! i = Some t -> (forall j v, ts !! S j = Some v -> sender v) ->
    (sender t -> sender t') -> <[i := t']> ts !! S k = Some u -> sender u).
  { intros i t t' ts Hi Hall Himp Hu. apply list_lookup_insert_Some in Hu as [(-> & <- & _)|[_ Hu]]; [|by apply (Hall k)].
    apply Himp. by apply (Hall k). }
  destruct Hs; simpl in *; (match goal with H : _ !! _ = Some (Thread _ _ _ _) |- _ => eapply (Hins _ _ _ _ H Hsend); [|exact Hk] end); unfold sender; simpl;
    intros (Hc & Hcs & Hh); try apply Forall_cons in Hc as [Hc0 Hc]; split_and!; try done.
  - apply Forall_cons in Hcs as [Hc' _]. by apply sender_code.
  - by apply Forall_cons in Hcs as [_ ?].
  - intros [Hm%elem_of_singleton|?]%elem_of_union; [|done]. by subst m.
  - set_solver.
  - by repeat constructor.
Qed.

Lemma start_senders worker others :
  Forall (Forall (fun c => sender_call c = true)) others -> senders (start (worker :: others)).
Proof.
  intros H i t Hi. simpl in Hi. apply list_lookup_fmap_Some in Hi as (cs & -> & Hi).
  split_and!; simpl; [by apply Forall_nil|by eapply (Forall_lookup_1 _ _ _ _ H)|set_solver].
Qed.

(** ** Theorems *)

(** C10: no thread ever reads or writes a descriptor that is not open.
    Whatever member functions any number of threads call and however they
    interleave, the only descriptor open is the one of the client, and a
    thread that is about to read or write does so on that descriptor: it
    cannot have been closed, or replaced by a reconnection, since the thread
    copied it. *)
Theorem io_on_open_descriptor calls c :
  rtc lock_step (start calls) c ->
  c_open c = (if 0 <=? c_fd c then {[c_fd c]} else ∅) /\
  forall i t r, c_threads c !! i = Some t -> t_code t = Io :: r -> t_fd t = c_fd c /\ t_fd t ∈ c_open c.
Proof.
  intros H. destruct (reachable_locks_ok calls c H) as (Hok & He & Ho). split; [done|].
  intros i t r Hi Hc. destruct (Hok i t Hi) as (s & Hd & Hk). rewrite Hc in Hd. simpl in Hd. bool_hyps.
  destruct s; try done. destruct Hk as [-> Hfd]. rewrite Ho, (proj2 (Z.leb_le 0 _)) by done. set_solver.
Qed.

(** C18: the threads of the daemon do not deadlock.  One thread connects,
    receives and disconnects, as the IPC worker does and the main thread after
    joining it, any number of threads send and test the connection, as the
    callbacks of the watchers do: as long as some call is left, some thread
    can run. *)
Theorem daemon_no_deadlock worker others c :
  Forall (Forall (fun c => sender_call c = true)) others ->
  rtc lock_step (start (worker :: others)) c -> ~ deadlocked c.
Proof.
  intros Hoth Hr [(t & Ht & Hf) Hstuck]. pose proof (reachable_locks_ok _ _ Hr) as Hinv.
  assert (Hsend : senders c).
  { pose proof (start_senders worker others Hoth) as Hs. clear -Hr Hs.
    induction Hr as [|c1 c2 c3 H12 _ IH]; [done|]. by eapply IH, step_senders. }
  assert (Hwait : forall i t, c_threads c !! i = Some t -> ~ finished t ->
    exists m r, t_code t = Lock m :: r /\ (m ∉ t_held t) /\ exists j u, j <> i /\ c_threads c !! j = Some u /\ m ∈ t_held u).
  { intros i u Hi Hu. destruct (run_or_wait c i u Hinv Hi Hu) as [[c' Hc']|(m & r & Hc & Hj)]; [by apply Hstuck in Hc'|].
    exists m, r. split_and!; try done. destruct Hinv as (Hok & _). destruct (Hok i u Hi) as (s & Hd & _).
    rewrite Hc in Hd. simpl in Hd. by bool_hyps. }
  assert (Hrecv : forall i t r, c_threads c !! i = Some t -> t_code t = Lock recvMutex :: r -> i = 0%nat).
  { intros [|i] u r Hi Hc; [done|]. destruct (Hsend i u Hi) as (Hn & _). rewrite Hc in Hn. by apply Forall_cons in Hn as [? _]. }
  assert (Hown : forall i t, c_threads c !! i = Some t -> recvMutex ∈ t_held t -> i = 0%nat).
  { intros [|i] u Hi Hm; [done|]. by destruct (Hsend i u Hi) as (_ & _ & ?). }
  assert (Hstate : forall i t, c_threads c !! i = Some t -> stateMutex ∉ t_held t).
  { intros i u Hi Hm. destruct (state_owner_runs c i u Hinv Hi Hm) as [c' Hc']. by apply Hstuck in Hc'. }
  apply list_elem_of_lookup_1 in Ht as (i & Hi).
  assert (Hnorecv : forall i t r, c_threads c !! i = Some t -> t_code t = Lock recvMutex :: r ->
    forall j u, j <> i -> c_threads c !! j = Some u -> recvMutex ∈ t_held u -> False).
  { intros i' t' r Hi' Hc j u Hj Hu Hm. pose proof (Hrecv _ _ _ Hi' Hc). pose proof (Hown _ _ Hu Hm). lia. }
  destruct (Hwait i t Hi Hf) as ([] & r & Hc & Hn & j & u & Hj & Hu & Hm).
  - destruct (Hwait j u Hu) as ([] & r' & Hc' & Hn' & k & v & Hk & Hv & Hm'); [by eapply owner_unfinished|..]; [done| |].
    + exact (Hnorecv j u r' Hu Hc' k v Hk Hv Hm').
    + exact (Hstate k v Hv Hm').
  - exact (Hnorecv i t r Hi Hc j u Hj Hu Hm).
  - exact (Hstate j u Hu Hm).
Qed.

Module IpcLocksDemo.

(** One thread connects, receives and meets an error while another one calls
    [disconnect]. *)
Definition two_threads : list (list call) := [[CConnect true; CReceive 1 true]; [CDisconnect]].

(** The first thread runs up to the error, the second one locks [sendMutex]. *)
Definition crossed : list nat := replicate 16 0%nat ++ [1; 1]%nat.

Definition crossed_conf : lock_conf :=
  LockConf 3 {[3]}
    [Thread (code_disconnectOnError ++ [Unlock recvMutex]) [] {[recvMutex]} 3;
     Thread (drop 1 (code CDisconnect)) [] {[sendMutex]} (-1)].

Lemma crossed_reached : run_schedule 3 crossed (start two_threads) = Some crossed_conf.
Proof. vm_compute. reflexivity. Qed.

(** [receive] and [disconnect] lock [sendMutex] and [recvMutex] in
    opposite orders.  When a call of [receive] meets an error while another
    thread is in [disconnect] (or [connect]), each waits for the mutex of the
    other and neither ever returns. *)
Theorem receive_disconnect_deadlock : exists c, rtc lock_step (start two_threads) c /\ deadlocked c.
Proof.
  exists crossed_conf. split; [exact (run_schedule_steps _ _ _ _ crossed_reached)|]. split.
  - eexists. split; [by left|]. by intros [? _].
  - intros c' Hs. unfold crossed_conf in Hs.
    inversion Hs as [| ? ? ? ? m r cs h l Hi Hfree| | | | | | |]; subst; simpl in *;
      repeat match goal with
      | H : [_; _] !! ?i = Some _ |- _ => destruct i as [|[|i]]; simpl in H; simplify_eq
      end.
    + apply (Hfree (Thread (drop 1 (code CDisconnect)) [] {[sendMutex]} (-1))); simpl; set_solver.
    + apply (Hfree (Thread (code_disconnectOnError ++ [Unlock recvMutex]) [] {[recvMutex]} 3)); simpl; set_solver.
Qed.

(** A worker that receives with an error and two callbacks. *)
Lemma io_on_open_descriptor_witness :
  exists c, rtc lock_step (start two_threads) c /\
    c_open c = (if 0 <=? c_fd c then {[c_fd c]} else ∅) /\
    forall i t r, c_threads c !! i = Some t -> t_code t = Io :: r -> t_fd t = c_fd c /\ t_fd t ∈ c_open c.
Proof.
  exists crossed_conf.
  assert (H : rtc lock_step (start two_threads) crossed_conf) by exact (run_schedule_steps _ _ _ _ crossed_reached).
  split; [exact H|]. exact (io_on_open_descriptor two_threads crossed_conf H).
Defined.

Lemma daemon_no_deadlock_witness :
  ~ deadlocked (start ([CConnect true; CReceive 2 true] :: [[CIsConnected; CSend 3]; [CSend 1]])).
Proof.
  apply (daemon_no_deadlock [CConnect true; CReceive 2 true] [[CIsConnected; CSend 3]; [CSend 1]]).
  - repeat constructor.
  - apply rtc_refl.
Defined.
End IpcLocksDemo.
