(* ===== verification/WinIpc.v ===== *)
(** * The IPC client on Windows (src/src/backend/cpp/src/ipc_client.cpp)

    The class [WindowsIpcClient]: the same member functions over WinSock, with
    [WSAStartup] and [WSACleanup], a TCP port derived from the socket path, and
    the error code of the thread that [WSAGetLastError] returns.  A [SOCKET] is
    an unsigned 64-bit handle.  The length of [::send] is an [int]: what is left
    of a message is converted to it.  The class implements the interface
    [IpcChannel] as the Unix client does. *)

From S2P Require Import Prelude Posix IpcClient IpcInterface.

(** ** WinSock *)

Definition INVALID_SOCKET : Z := u64 (-1).

(** The answers to one [connect]: whether [WSAStartup] succeeds, the handle
    [socket] returns, whether [connect] succeeds, the connected stream, and
    whether the last error of the thread is WSAETIMEDOUT afterwards. *)
Record win_os := WinOs {
  wos_startup : bool;
  wos_socket : Z;
  wos_connect : sockaddr -> bool;
  wos_rx : list read_ev;
  wos_tx : list write_ev;
  wos_timed_out : bool
}.

Record win_client := WinClient {
  socket : Z;              (* socket_ *)
  open_sockets : gset Z;   (* handles opened and not closed yet *)
  startups : Z;            (* WSAStartup calls without their WSACleanup *)
  bad_closesocket : bool;  (* a handle that was not open was closed *)
  wpeer : option sockaddr;
  wrcvtimeo : Z;           (* SO_RCVTIMEO, milliseconds; 0 for none *)
  wrx : list read_ev;
  wtx : wsock;
  timed_out : bool         (* WSAGetLastError() == WSAETIMEDOUT *)
}.

Definition new_win_client : win_client :=
  WinClient (u64 (-1)) ∅ 0 false None 0 [] (WSock [] []) false.

(** [socket_ != INVALID_SOCKET && socket_ != -1] *)
Definition valid (s : Z) : bool := negb (s =? INVALID_SOCKET) && negb (s =? u64 (-1)).

Definition win_isConnected (c : win_client) : bool := valid (socket c).

(** [closesocket(socket_); socket_ = -1; WSACleanup();] *)
Definition win_close (c : win_client) : win_client :=
  WinClient (u64 (-1)) (open_sockets c ∖ {[socket c]}) (startups c - 1)
    (bad_closesocket c || negb (bool_decide (socket c ∈ open_sockets c)))
    None 0 [] (WSock [] (w_sent (wtx c))) (timed_out c).

Definition win_disconnectLocked (c : win_client) : win_client :=
  if valid (socket c) then win_close c else c.

Definition win_disconnect (c : win_client) : win_client := win_disconnectLocked c.

Definition win_disconnectOnError (c : win_client) : win_client := win_disconnectLocked c.

(** ** The derived port *)

(** [h = (h ^ static_cast<unsigned char>(c)) * 16777619] for every character. *)
Definition fnv1a (path : str) : Z :=
  fold_left (fun h c => u32 (Z.lxor h (ord c) * 16777619)) path 2166136261.

Definition derived_port (path : str) : Z := 10000 + fnv1a path mod 20000.

Definition win_port (env : option str) (path : str) : Z :=
  let port := getIpcTcpPort env in if port <? 0 then derived_port path else port.

(** The coordinator's end, [deriveFallbackPort] of pkg/ipc/ipc_server.go: the
    loop over the indices of the path. *)
Fixpoint go_hash_loop (n i : nat) (h : Z) (path : str) : Z :=
  match n with
  | O => h
  | S n' => go_hash_loop n' (S i) (u32 (Z.lxor h (ord (nth i path zero)) * 16777619)) path
  end.

Definition deriveFallbackPort (path : str) : Z :=
  10000 + go_hash_loop (length path) 0 2166136261 path mod 20000.

(** ** Member functions *)

Definition win_connect (env : option str) (os : win_os) (path : str) (c : win_client) : bool * win_client :=
  let c := win_disconnectLocked c in
  if negb (wos_startup os) then (false, c)
  else
    let s := wos_socket os in
    if s =? INVALID_SOCKET then
      (false, WinClient s (open_sockets c) (startups c) (bad_closesocket c) (wpeer c) (wrcvtimeo c) (wrx c) (wtx c) false)
    else
      let c := WinClient s (open_sockets c ∪ {[s]}) (startups c + 1) (bad_closesocket c) None 0 [] (WSock [] []) (timed_out c) in
      let addr := SockIn (win_port env path) in
      if negb (wos_connect os addr) then
        let c := win_close c in
        (false, WinClient (socket c) (open_sockets c) (startups c) (bad_closesocket c) (wpeer c) (wrcvtimeo c)
                  (wrx c) (wtx c) false)
      else
        (true, WinClient s (open_sockets c) (startups c) (bad_closesocket c) (Some addr) 3000
                 (wos_rx os) (WSock (wos_tx os) []) (wos_timed_out os)).

Definition win_set_tx (w : wsock) (c : win_client) : win_client :=
  WinClient (socket c) (open_sockets c) (startups c) (bad_closesocket c) (wpeer c) (wrcvtimeo c) (wrx c) w (timed_out c).

(** [::send(sock, buf, len, 0)]: [len] is converted to [int], and a negative
    length is refused. *)
Definition win_write (buf : str) (w : wsock) : wr_result * wsock :=
  if i32 (zlen buf) <? 0 then (WrErr false, w) else sock_write buf w.

(** The loops of [send]. *)
Fixpoint win_send_loop (fuel : nat) (buf : str) (w : wsock) : bool * wsock :=
  match buf, fuel with
  | [], _ => (true, w)
  | _, O => (false, w)
  | _, S fuel' =>
      match win_write buf w with
      | (WrErr _, w') => (false, w')
      | (WrBytes O, w') => (false, w')
      | (WrBytes n, w') => win_send_loop fuel' (drop n buf) w'
      end
  end.

Definition win_send (message : str) (c : win_client) : bool * win_client :=
  if socket c =? INVALID_SOCKET then (false, c)
  else
    let len := netLen message in
    let '(ok, w) := win_send_loop 4 (be32_encode len) (wtx c) in
    if negb ok then (false, win_set_tx w c)
    else
      let '(ok, w) := win_send_loop (Z.to_nat len) (take (Z.to_nat len) message) w in
      (ok, win_set_tx w c).

(** The stream after a receiving loop, and the error code it leaves: a failed
    [::recv] sets it, a successful one and the end of the stream do not. *)
Definition after_recv (r : loop_result) (s : list read_ev) (c : win_client) : win_client :=
  WinClient (socket c) (open_sockets c) (startups c) (bad_closesocket c) (wpeer c) (wrcvtimeo c) s (wtx c)
    (match r with LErr timeout => timeout | _ => timed_out c end).

(** [receive]: in the header, [n <= 0] closes the connection unless
    [WSAGetLastError()] is WSAETIMEDOUT; in the body it always does. *)
Definition win_receive (c : win_client) : option str * win_client :=
  if socket c =? INVALID_SOCKET then (None, c)
  else
    let '(r, s) := recv_loop 4 4 [] (wrx c) in
    let c := after_recv r s c in
    match r with
    | LErr _ | LEof => (None, if timed_out c then c else win_disconnectOnError c)
    | LFuel => (None, c)
    | LDone hdr =>
        let len := be32_decode hdr in
        if bad_length len then (None, c)
        else
          let '(r, s) := recv_loop (Z.to_nat len) (Z.to_nat len) [] s in
          let c := after_recv r s c in
          match r with
          | LDone message => (Some message, c)
          | LFuel => (None, c)
          | _ => (None, win_disconnectOnError c)
          end
    end.

Inductive win_op :=
  | WinConnect (env : option str) (os : win_os) (path : str)
  | WinSend (m : str)
  | WinReceive
  | WinDisconnect.

Definition win_step (o : win_op) (c : win_client) : win_client :=
  match o with
  | WinConnect env os path => snd (win_connect env os path c)
  | WinSend m => snd (win_send m c)
  | WinReceive => snd (win_receive c)
  | WinDisconnect => win_disconnect c
  end.

Definition win_run (ops : list win_op) (c : win_client) : win_client := fold_left (fun c o => win_step o c) ops c.

(** ** The Windows client seen as a Unix one *)

Definition as_unix (c : win_client) : client :=
  Client (if valid (socket c) then 0 else -1) (if valid (socket c) then {[0]} else ∅) false
    (wpeer c) (wrcvtimeo c / 1000) (wrx c) (wtx c).

(** The resources: the handle of the client is the only one open, and
    [WSAStartup] is called once more than [WSACleanup] exactly while it is. *)
Definition win_inv (c : win_client) : Prop :=
  open_sockets c = (if valid (socket c) then {[socket c]} else ∅) /\
  startups c = (if valid (socket c) then 1 else 0) /\ bad_closesocket c = false.

#[export] Instance win_channel : IpcChannel win_client :=
  {| chan_os := win_os; chan_connect := win_connect; chan_disconnect := win_disconnect;
     chan_connected := win_isConnected; chan_send := win_send; chan_receive := win_receive;
     chan_rx := wrx; chan_tx := wtx |}.

(** ** Lemmas *)

Lemma valid_spec s : valid s = negb (s =? INVALID_SOCKET).
Proof. unfold valid. change (u64 (-1)) with INVALID_SOCKET. by destruct (s =? INVALID_SOCKET). Qed.

Lemma as_unix_fd c : (socketFd (as_unix c) <? 0) = (socket c =? INVALID_SOCKET).
Proof. simpl. rewrite valid_spec. by destruct (socket c =? INVALID_SOCKET). Qed.

Lemma as_unix_connected c : isConnected (as_unix c) = win_isConnected c.
Proof. unfold isConnected, win_isConnected. simpl. by destruct (valid (socket c)). Qed.

Lemma as_unix_disconnect c : as_unix (win_disconnectLocked c) = disconnectLocked (as_unix c).
Proof.
  unfold win_disconnectLocked, disconnectLocked, as_unix. simpl. destruct (valid (socket c)) eqn:E; simpl.
  - unfold set_fd, close_fd. simpl. rewrite difference_diag_L, bool_decide_true by set_solver. done.
  - by rewrite E.
Qed.

Lemma as_unix_after r s c : as_unix (after_recv r s c) = set_rx s (as_unix c).
Proof. done. Qed.

(** Below 2 GiB the loop is that of the Unix client, above it sends nothing. *)
Lemma win_send_loop_small fuel buf w : zlen buf < 2 ^ 31 -> win_send_loop fuel buf w = send_loop fuel buf w.
Proof.
  revert buf w. induction fuel as [|fuel IH]; intros buf w Hb; [done|]. destruct buf as [|x buf]; [done|]. cbn [win_send_loop send_loop].
  unfold win_write. pose proof (zlen_nonneg (x :: buf)). rewrite i32_small, (proj2 (Z.ltb_ge _ _)) by lia.
  destruct (sock_write (x :: buf) w) as [[n|e] w']; [|done]. destruct n as [|n]; [done|]. apply IH.
  unfold zlen in *. rewrite length_drop. simpl length in *. lia.
Qed.

Lemma win_send_loop_large fuel buf w : 2 ^ 31 <= zlen buf < 2 ^ 32 -> win_send_loop fuel buf w = (false, w).
Proof.
  intros Hb. destruct buf as [|x buf]; [unfold zlen in Hb; simpl length in Hb; lia|]. destruct fuel as [|fuel]; [done|]. cbn [win_send_loop]. unfold win_write.
  rewrite (proj2 (Z.ltb_lt _ _)); [done|]. unfold i32. Z.div_mod_to_equations. lia.
Qed.

Lemma netLen_taken m : zlen (take (Z.to_nat (netLen m)) m) = netLen m.
Proof.
  unfold netLen, u32. pose proof (zlen_nonneg m). pose proof (Z.mod_pos_bound (zlen m) (2 ^ 32) eq_refl).
  pose proof (Z.mod_le (zlen m) (2 ^ 32) ltac:(lia) ltac:(lia)). unfold zlen in *. rewrite length_take. lia.
Qed.

(** The header is sent as by the Unix client. *)
Lemma win_send_header len w : win_send_loop 4 (be32_encode len) w = send_loop 4 (be32_encode len) w.
Proof. apply win_send_loop_small. unfold zlen. simpl. lia. Qed.

(** [send] of the two clients. *)
Lemma win_send_unix m c : netLen m < 2 ^ 31 -> send m (as_unix c) = ((win_send m c).1, as_unix (win_send m c).2).
Proof.
  intros Hm. unfold send, win_send. rewrite as_unix_fd. destruct (socket c =? INVALID_SOCKET); [done|].
  change (tx (as_unix c)) with (wtx c). cbv zeta. rewrite win_send_header. destruct (send_loop 4 _ _) as [[] w]; [|done]. cbn [negb].
  rewrite win_send_loop_small by by rewrite netLen_taken. by destruct (send_loop (Z.to_nat _) _ _).
Qed.

(** A message that cannot be sent: at most its header is. *)
Lemma win_send_large m c :
  2 ^ 31 <= netLen m -> (win_send m c).1 = false /\ exists n, w_sent (wtx (win_send m c).2) = w_sent (wtx c) ++ take n (be32_encode (netLen m)).
Proof.
  intros Hm. unfold win_send. destruct (socket c =? INVALID_SOCKET); [split; [done|exists 0%nat; by rewrite app_nil_r]|].
  cbv zeta. rewrite win_send_header. destruct (send_loop 4 _ _) as [ok w] eqn:E1. apply send_loop_sent in E1 as (k & _ & Hs & _); [|done].
  destruct ok; cbn [negb]; [|split; [done|by exists k]]. rewrite win_send_loop_large.
  - split; [done|]. exists k. exact Hs.
  - rewrite netLen_taken. split; [done|]. unfold netLen, u32. by apply Z.mod_pos_bound.
Qed.

(** [receive] of the two clients, unless the stream ends in a header after a
    time-out. *)
Lemma win_receive_unix c :
  timed_out c = false \/ (recv_loop 4 4 [] (wrx c)).1 <> LEof ->
  receive (as_unix c) = ((win_receive c).1, as_unix (win_receive c).2).
Proof.
  intros Ht. unfold receive, win_receive. rewrite as_unix_fd. destruct (socket c =? INVALID_SOCKET); [done|].
  change (rx (as_unix c)) with (wrx c). destruct (recv_loop 4 4 [] (wrx c)) as [[hdr| |[]|] s]; simpl in *; try done.
  - destruct (bad_length _); [done|].
    destruct (recv_loop (Z.to_nat _) _ [] s) as [[b| |e|] s']; simpl; try done;
      f_equal; symmetry; apply (as_unix_disconnect (after_recv _ s' (after_recv (LDone hdr) s c))).
  - destruct Ht as [-> |?]; [|done]. simpl. f_equal. symmetry. apply (as_unix_disconnect (after_recv LEof s c)).
  - f_equal. symmetry. apply (as_unix_disconnect (after_recv (LErr false) s c)).
Qed.

Lemma go_hash_fold path h :
  forall pre, go_hash_loop (length path) (length pre) h (pre ++ path) =
    fold_left (fun h c => u32 (Z.lxor h (ord c) * 16777619)) path h.
Proof.
  revert h. induction path as [|c path IH]; intros h pre; [done|]. cbn [length go_hash_loop fold_left].
  rewrite nth_middle, <- (IH _ (pre ++ [c])), length_app, <- app_assoc. cbn [length]. by rewrite Nat.add_1_r.
Qed.

Lemma win_disconnect_inv c : win_inv c -> win_inv (win_disconnectLocked c) /\ valid (socket (win_disconnectLocked c)) = false.
Proof.
  intros (Ho & Hs & Hb). unfold win_inv, win_disconnectLocked. destruct (valid (socket c)) eqn:E; simpl; [|by rewrite E].
  rewrite Ho, Hs, Hb, bool_decide_true by set_solver. split_and!; [|done..]. apply difference_diag_L.
Qed.

Lemma win_inv_proj c c' :
  socket c' = socket c -> open_sockets c' = open_sockets c -> startups c' = startups c ->
  bad_closesocket c' = bad_closesocket c -> win_inv c -> win_inv c'.
Proof. unfold win_inv. by intros -> -> -> ->. Qed.

Lemma win_connect_inv env os path c : win_inv c -> win_inv (win_connect env os path c).2.
Proof.
  intros Hc. destruct (win_disconnect_inv c Hc) as [(Ho & Hs & Hb) Hv]. unfold win_connect.
  set (c1 := win_disconnectLocked c) in *. rewrite Hv in Ho, Hs.
  destruct (wos_startup os); [|simpl; unfold win_inv; by rewrite Hv]. simpl.
  destruct (Z.eqb_spec (wos_socket os) INVALID_SOCKET) as [E|E]; simpl.
  { unfold win_inv. simpl. by rewrite E. }
  assert (Hval : valid (wos_socket os) = true) by (rewrite valid_spec; by rewrite (proj2 (Z.eqb_neq _ _) E)).
  destruct (wos_connect os _); unfold win_inv; simpl; rewrite Ho, Hs, Hb.
  - rewrite Hval. split_and!; [set_solver|lia|done].
  - rewrite bool_decide_true by set_solver. split_and!; [set_solver|lia|done].
Qed.

Lemma win_step_inv o c : win_inv c -> win_inv (win_step o c).
Proof.
  intros Hc. destruct o; simpl; [by apply win_connect_inv|..|by apply win_disconnect_inv].
  - unfold win_send. destruct (socket c =? INVALID_SOCKET); [done|].
    destruct (win_send_loop 4 _ _) as [[] w]; simpl; [|by apply (win_inv_proj c)].
    destruct (win_send_loop (Z.to_nat _) _ _) as [ok' w']. by apply (win_inv_proj c).
  - unfold win_receive. destruct (socket c =? INVALID_SOCKET); [done|].
    assert (Hset : forall r s c, win_inv c -> win_inv (after_recv r s c)) by (intros r s c'; by apply (win_inv_proj c')).
    destruct (recv_loop 4 4 [] (wrx c)) as [r s]. cbv zeta.
    destruct r as [hdr| | |]; [|case_match|case_match|]; simpl; try (by apply Hset); try (by apply win_disconnect_inv, Hset).
    destruct (bad_length _); [by apply Hset|].
    destruct (recv_loop (Z.to_nat _) _ [] s) as [[b| |e|] s']; simpl; try (by apply Hset, Hset);
      apply win_disconnect_inv; by apply Hset, Hset.
Qed.

(** ** The implementation of the interface *)

#[export] Instance win_channel_laws : IpcChannelLaws win_client.
Proof.
  split; simpl.
  - intros m c c' E. destruct (Z.lt_ge_cases (netLen m) (2 ^ 31)) as [Hm|Hm]; [|by destruct (win_send_large m c Hm) as [Hf _]; rewrite E in Hf].
    pose proof (win_send_unix m c Hm) as Hu. rewrite E in Hu. by apply (send_frame m (as_unix c)) in Hu.
  - intros m c. unfold win_send. destruct (socket c =? INVALID_SOCKET); [done|]. cbv zeta.
    destruct (win_send_loop 4 _ _) as [[] w]; [|done]. cbn [negb]. by destruct (win_send_loop (Z.to_nat _) _ _).
  - intros m c t Hc Hm Ht. rewrite <- as_unix_connected in Hc.
    destruct (receive_frame m (as_unix c) t Hc Hm Ht) as (s & E & Hs).
    rewrite win_receive_unix in E.
    + destruct (win_receive c) as [r c']. cbn [fst snd] in E.
      assert (Hr : r = Some m) by exact (f_equal fst E).
      assert (Hc' : as_unix c' = set_rx s (as_unix c)) by exact (f_equal snd E).
      exists c'. split; [by rewrite Hr|]. rewrite <- as_unix_connected.
      change (wrx c') with (rx (as_unix c')). by rewrite Hc'.
    + right. destruct (recv_loop 4 4 [] (wrx c)) as [r s'] eqn:Er. simpl. intros Hr. subst r.
      unfold receive in E. change (rx (as_unix c)) with (wrx c) in E. rewrite Er in E. by destruct (socketFd _ <? 0).
  - intros c m c' E. destruct (receive_sound (as_unix c) m (as_unix c')) as (Hc & Hm & _ & Ht).
    + rewrite win_receive_unix; [by rewrite E|]. right. intros Hr. unfold win_receive in E.
      destruct (socket c =? INVALID_SOCKET); [done|]. destruct (recv_loop 4 4 [] (wrx c)) as [r s]. simpl in Hr. by subst r.
    + by rewrite <- as_unix_connected.
  - intros c. unfold win_disconnect. rewrite <- as_unix_connected, as_unix_disconnect.
    exact (chan_disconnect_closed (as_unix c)).
Qed.

(** A [receive] that times out, and one at the end of the stream after it. *)
Lemma win_receive_timeout c t :
  win_isConnected c = true -> toks (wrx c) = TTimeout :: t ->
  exists s, win_receive c = (None, after_recv (LErr true) s c) /\ toks s = t.
Proof.
  unfold win_isConnected. rewrite valid_spec. intros Hc%negb_true_iff Ht.
  destruct (recv_loop_stop 4 4 [] [] (wrx c) (TTimeout :: t) (Some TTimeout) t) as (s & E & Hs); [lia|simpl; lia|done..|].
  exists s. unfold win_receive. rewrite Hc, E. done.
Qed.

Lemma win_receive_stale c :
  win_isConnected c = true -> timed_out c = true -> toks (wrx c) = [] ->
  exists s, win_receive c = (None, after_recv LEof s c) /\ toks s = [].
Proof.
  unfold win_isConnected. rewrite valid_spec. intros Hc%negb_true_iff Htime Ht.
  destruct (recv_loop_stop 4 4 [] [] (wrx c) [] None []) as (s & E & Hs); [lia|simpl; lia|done..|].
  exists s. unfold win_receive. rewrite Hc, E. cbn [stop_result after_recv timed_out]. by rewrite Htime.
Qed.

Lemma win_receive_n_stale n c :
  win_isConnected c = true -> timed_out c = true -> toks (wrx c) = [] ->
  exists c', chan_receive_n n c = (replicate n None, c') /\ win_isConnected c' = true.
Proof.
  revert c. induction n as [|n IH]; intros c Hc Htime Ht; [by exists c|].
  destruct (win_receive_stale c Hc Htime Ht) as (s & E & Hs). cbn [chan_receive_n chan_receive win_channel]. rewrite E.
  destruct (IH (after_recv LEof s c)) as (c' & -> & Hc'); [done..|]. by exists c'.
Qed.

(** ** Theorems *)


(** After a time-out the Windows client never notices that the peer has
    closed the connection.  [::recv] returns 0 at the end of the stream and
    sets no error, so [WSAGetLastError()] still is WSAETIMEDOUT from the last
    idle period: every later [receive] returns false at once with the client
    still connected, and the worker never reconnects. *)
Theorem win_eof_after_timeout c n :
  win_isConnected c = true -> toks (wrx c) = [TTimeout] ->
  exists c', chan_receive_n (S n) c = (replicate (S n) None, c') /\ win_isConnected c' = true.
Proof.
  intros Hc Ht. destruct (win_receive_timeout c [] Hc Ht) as (s & E & Hs).
  cbn [chan_receive_n chan_receive win_channel]. rewrite E.
  destruct (win_receive_n_stale n (after_recv (LErr true) s c)) as (c' & -> & Hc'); [done..|]. by exists c'.
Qed.

(** The port of the Windows client when IPC_TCP_PORT is not set is the port
    the coordinator listens on for the same socket path, between 10000 and
    29999. *)
Theorem derived_port_agrees path :
  win_port None path = deriveFallbackPort path /\ 10000 <= win_port None path <= 29999.
Proof.
  unfold win_port, derived_port, deriveFallbackPort, fnv1a. simpl getIpcTcpPort. cbv zeta. change (-1 <? 0) with true. cbv iota.
  split; [|pose proof (Z.mod_pos_bound (fold_left (fun h c => u32 (Z.lxor h (ord c) * 16777619)) path 2166136261) 20000); lia].
  by rewrite <- (go_hash_fold path 2166136261 []).
Qed.

(** WinSock is started and cleaned up in pairs.  After any sequence of
    calls, whatever the system answers, the only handle open is that of a
    connected client, no handle was closed twice, and [WSAStartup] has been
    called once more than [WSACleanup] exactly while the client is connected. *)
Theorem win_run_balanced ops : win_inv (win_run ops new_win_client).
Proof.
  assert (H : win_inv new_win_client) by done. revert H. generalize new_win_client. unfold win_run.
  induction ops as [|o ops IH]; simpl; [done|]. intros c Hc. by apply IH, win_step_inv.
Qed.

(** ** Witnesses *)

Module WinIpcDemo.

Definition demo (s : list read_ev) (w : list write_ev) : win_client :=
  WinClient 388 {[388]} 1 false None 3000 s (WSock w []) false.

Definition unix_sender : client :=
  Client 3 {[3]} false None 3 [] (WSock [WAccept 9; WAccept 9; WAccept 1; WAccept 3; WAccept 9] []).

(** A Unix client sends two messages to a Windows one. *)
Definition win_receiver : win_client :=
  demo [RData (frame $"a" ++ [chr 0]); RData (drop 1 (frame $"bc")); RTimeout] [].



Lemma win_eof_after_timeout_witness :
  exists c', chan_receive_n 5 (demo [RTimeout] []) = (replicate 5 None, c') /\ win_isConnected c' = true.
Proof. apply (win_eof_after_timeout (demo [RTimeout] []) 4); reflexivity. Defined.

Example derived_port_default : win_port None $"/tmp/p2p_sync.sock" = 10000 + fnv1a $"/tmp/p2p_sync.sock" mod 20000.
Proof. reflexivity. Qed.
End WinIpcDemo.
