(* ===== verification/StdMap.v ===== *)
(** * std::map with std::string keys

    A [std::map<std::string, V>] is the list of its entries in iteration order:
    the keys increase strictly for [std::less<std::string>].  The operations
    used by the program are [find], [operator[] =] (insert or assign) and
    [erase]; they keep the order, and refine the operations of the finite map
    the entries denote.  The JSON objects and the table of known files of the
    polling watcher are such maps. *)

From Stdlib Require Import Sorting.Sorted.
From S2P Require Import Prelude.

Section StdMap.
Context {V : Type}.
Implicit Types (m : list (str * V)) (k : str) (v : V).

(** [m.find(k)] *)
Fixpoint map_find k m : option V :=
  match m with
  | [] => None
  | (k', v) :: m' =>
      if str_ltb k' k then map_find k m'
      else if str_ltb k k' then None else Some v
  end.

(** [m[k] = v] *)
Fixpoint map_assign k v m : list (str * V) :=
  match m with
  | [] => [(k, v)]
  | (k', v') :: m' =>
      if str_ltb k' k then (k', v') :: map_assign k v m'
      else if str_ltb k k' then (k, v) :: m
      else (k', v) :: m'
  end.

(** [m.erase(k)] *)
Fixpoint map_erase k m : list (str * V) :=
  match m with
  | [] => []
  | (k', v') :: m' =>
      if str_ltb k' k then (k', v') :: map_erase k m'
      else if str_ltb k k' then m else m'
  end.

Definition key_lt (e e' : str * V) : Prop := str_ltb e.1 e'.1 = true.

(** The class invariant: strictly increasing keys. *)
Definition map_sorted m : Prop := StronglySorted key_lt m.

(** The finite map the entries denote. *)
Definition to_gmap m : gmap str V := list_to_map m.

Lemma str_ltb_asym s t : str_ltb s t = true -> str_ltb t s = false.
Proof.
  intros H. destruct (str_ltb t s) eqn:E; [|done].
  pose proof (str_ltb_trans _ _ _ H E) as H'. by rewrite str_ltb_irrefl in H'.
Qed.

(** The three cases of the comparison of two keys. *)
Lemma str_cmp s t :
  (str_ltb s t = true /\ str_ltb t s = false /\ s <> t) \/
  (str_ltb s t = false /\ str_ltb t s = false /\ s = t) \/
  (str_ltb s t = false /\ str_ltb t s = true /\ s <> t).
Proof.
  destruct (str_ltb s t) eqn:E.
  - left. split_and!; [done|by apply str_ltb_asym|]. intros ->.
    by rewrite str_ltb_irrefl in E.
  - right. destruct (str_ltb t s) eqn:E'.
    + right. split_and!; [done..|]. intros ->. by rewrite str_ltb_irrefl in E'.
    + left. split_and!; [done..|]. by apply str_ltb_total.
Qed.

Lemma map_sorted_cons k v m :
  map_sorted ((k, v) :: m) <-> map_sorted m /\ Forall (fun e => str_ltb k e.1 = true) m.
Proof.
  split; [intros H; by apply StronglySorted_inv in H|].
  intros [? ?]. by constructor.
Qed.

Lemma map_find_lt k m :
  Forall (fun e => str_ltb k e.1 = true) m -> map_find k m = None.
Proof.
  destruct m as [|[k' v'] m]; [done|]. simpl. intros H.
  inversion H as [|? ? E]; subst. simpl in E. by rewrite (str_ltb_asym _ _ E), E.
Qed.

Lemma map_find_cons k k' v m :
  map_sorted ((k', v) :: m) ->
  map_find k ((k', v) :: m) = if decide (k = k') then Some v else map_find k m.
Proof.
  intros [Hs Hf]%map_sorted_cons. simpl.
  destruct (str_cmp k k') as [(E1 & E2 & Hne)|[(E1 & E2 & ->)|(E1 & E2 & Hne)]]; rewrite E2, ?E1.
  - rewrite decide_False by done. symmetry. apply map_find_lt.
    eapply Forall_impl; [exact Hf|]. simpl. intros e He. by eapply str_ltb_trans.
  - by rewrite decide_True.
  - by rewrite decide_False.
Qed.

(** [find] is the lookup of the finite map. *)
Lemma map_find_gmap m k : map_sorted m -> map_find k m = to_gmap m !! k.
Proof.
  induction m as [|[k' v] m IH]; intros Hs; [done|].
  rewrite map_find_cons by done. apply map_sorted_cons in Hs as [Hs _].
  unfold to_gmap in *. simpl. rewrite lookup_insert. rewrite IH by done.
  destruct (decide (k = k')), (decide (k' = k)); naive_solver.
Qed.

Lemma map_assign_keys k v m e :
  e ∈ map_assign k v m -> e = (k, v) \/ e ∈ m \/ exists v', e = (k, v') .
Proof.
  induction m as [|[k' v'] m IH]; simpl; [set_solver|].
  destruct (str_cmp k k') as [(E1 & E2 & Hne)|[(E1 & E2 & ->)|(E1 & E2 & Hne)]]; rewrite E2, ?E1;
    set_solver.
Qed.

Lemma map_assign_forall (P : str -> Prop) k v m :
  P k -> Forall (fun e => P e.1) m -> Forall (fun e => P e.1) (map_assign k v m).
Proof.
  intros Hk Hm. rewrite Forall_forall in Hm |- *. intros e [->|[He|[v' ->]]]%map_assign_keys;
    [done|by apply Hm|done].
Qed.

Lemma map_assign_sorted k v m : map_sorted m -> map_sorted (map_assign k v m).
Proof.
  induction m as [|[k' v'] m IH]; intros Hs; simpl; [by repeat constructor|].
  pose proof Hs as [Hs' Hf]%map_sorted_cons.
  destruct (str_cmp k k') as [(E1 & E2 & Hne)|[(E1 & E2 & ->)|(E1 & E2 & Hne)]]; rewrite E2, ?E1.
  - apply map_sorted_cons. split; [done|]. constructor; [done|].
    eapply Forall_impl; [exact Hf|]. simpl. intros e He. by eapply str_ltb_trans.
  - by apply map_sorted_cons.
  - apply map_sorted_cons. split; [by apply IH|].
    by apply (map_assign_forall (fun x => str_ltb k' x = true)).
Qed.

(** [m[k] = v] is the insertion of the finite map. *)
Lemma map_assign_gmap k v m :
  map_sorted m -> to_gmap (map_assign k v m) = <[k := v]> (to_gmap m).
Proof.
  induction m as [|[k' v'] m IH]; intros Hs; simpl; [done|].
  pose proof Hs as [Hs' Hf]%map_sorted_cons. unfold to_gmap in *.
  destruct (str_cmp k k') as [(E1 & E2 & Hne)|[(E1 & E2 & ->)|(E1 & E2 & Hne)]]; rewrite E2, ?E1.
  - done.
  - simpl. by rewrite insert_insert_eq.
  - simpl. rewrite IH by done. by rewrite insert_insert_ne.
Qed.

Lemma map_erase_subset k m e : e ∈ map_erase k m -> e ∈ m.
Proof.
  induction m as [|[k' v'] m IH]; simpl; [done|].
  destruct (str_ltb k' k); [set_solver|]. destruct (str_ltb k k'); set_solver.
Qed.

Lemma map_erase_sorted k m : map_sorted m -> map_sorted (map_erase k m).
Proof.
  induction m as [|[k' v'] m IH]; intros Hs; simpl; [done|].
  pose proof Hs as [Hs' Hf]%map_sorted_cons.
  destruct (str_ltb k' k); [|by destruct (str_ltb k k')].
  apply map_sorted_cons. split; [by apply IH|].
  rewrite Forall_forall in Hf |- *. intros e He. by apply Hf, (map_erase_subset k).
Qed.

(** [m.erase(k)] is the deletion of the finite map. *)
Lemma map_erase_gmap k m :
  map_sorted m -> to_gmap (map_erase k m) = delete k (to_gmap m).
Proof.
  induction m as [|[k' v'] m IH]; intros Hs; simpl; [by rewrite delete_empty|].
  pose proof Hs as [Hs' Hf]%map_sorted_cons. unfold to_gmap in *.
  destruct (str_cmp k k') as [(E1 & E2 & Hne)|[(E1 & E2 & ->)|(E1 & E2 & Hne)]]; rewrite E2, ?E1.
  - rewrite delete_id; [done|]. rewrite <- (map_find_gmap ((k', v') :: m)) by done.
    simpl. by rewrite E2, E1.
  - simpl. rewrite delete_insert_eq. rewrite delete_id; [done|].
    rewrite <- (map_find_gmap m) by done. by apply map_find_lt.
  - simpl. rewrite IH by done. by rewrite delete_insert_ne.
Qed.

(** A sorted list of entries is determined by the finite map. *)
Lemma to_gmap_inj m m' :
  map_sorted m -> map_sorted m' -> to_gmap m = to_gmap m' -> m = m'.
Proof.
  intros Hs Hs' Heq.
  assert (Hf : forall k, map_find k m = map_find k m')
    by (intros; rewrite !map_find_gmap, Heq; done).
  clear Heq. revert m' Hs' Hf. induction m as [|[k v] m IH]; intros [|[k' v'] m'] Hs' Hf.
  - done.
  - specialize (Hf k'). rewrite map_find_cons, decide_True in Hf by done. done.
  - specialize (Hf k). rewrite map_find_cons, decide_True in Hf by done. done.
  - pose proof Hs as [Hsm Hm]%map_sorted_cons. pose proof Hs' as [Hsm' Hm']%map_sorted_cons.
    assert (k = k') as <-.
    { destruct (str_cmp k k') as [(E1 & E2 & Hne)|[(E1 & E2 & ->)|(E1 & E2 & Hne)]]; [|done|].
      - specialize (Hf k). rewrite map_find_cons, decide_True in Hf by done.
        simpl in Hf. by rewrite E2, E1 in Hf.
      - specialize (Hf k'). rewrite (map_find_cons k' k'), decide_True in Hf by done.
        simpl in Hf. by rewrite E1, E2 in Hf. }
    pose proof (Hf k) as Hv. rewrite !map_find_cons, !decide_True in Hv by done.
    injection Hv as <-. f_equal. apply IH; [done|done|]. intros k1. specialize (Hf k1).
    rewrite !map_find_cons in Hf by done. destruct (decide (k1 = k)) as [->|]; [|done].
    by rewrite !map_find_lt.
Qed.

(** Laws of assignment that need no order of the keys. *)
Lemma map_find_assigned k v m : map_find k (map_assign k v m) = Some v.
Proof.
  induction m as [|[k' v'] m IH]; simpl; [by rewrite str_ltb_irrefl|]. destruct (str_ltb k' k) eqn:E1; [simpl; by rewrite E1|].
  destruct (str_ltb k k') eqn:E2; simpl; [by rewrite str_ltb_irrefl|by rewrite E1, E2].
Qed.

Lemma map_assign_twice k v w m : map_assign k v (map_assign k w m) = map_assign k v m.
Proof.
  induction m as [|[k' v'] m IH]; simpl; [by rewrite str_ltb_irrefl|]. destruct (str_ltb k' k) eqn:E1; [simpl; by rewrite E1, IH|].
  destruct (str_ltb k k') eqn:E2; simpl; [by rewrite str_ltb_irrefl|by rewrite E1, E2].
Qed.

Lemma map_assign_same k v m : map_find k m = Some v -> map_assign k v m = m.
Proof.
  induction m as [|[k' v'] m IH]; [done|]. simpl. destruct (str_ltb k' k); [intros H; by rewrite IH|]. destruct (str_ltb k k'); [done|]. by intros [= ->].
Qed.

Lemma map_find_assign_eq k v m : map_sorted m -> map_find k (map_assign k v m) = Some v.
Proof. intros _. apply map_find_assigned. Qed.

Lemma map_find_assign_ne k k' v m :
  map_sorted m -> k <> k' -> map_find k' (map_assign k v m) = map_find k' m.
Proof.
  intros. rewrite !map_find_gmap, map_assign_gmap by eauto using map_assign_sorted.
  by apply lookup_insert_ne.
Qed.

Lemma map_find_erase k k' m :
  map_sorted m -> map_find k' (map_erase k m) = if decide (k = k') then None else map_find k' m.
Proof.
  intros. rewrite !map_find_gmap, map_erase_gmap by eauto using map_erase_sorted.
  apply lookup_delete.
Qed.

(** Assigning a key above all others appends. *)
Lemma map_assign_last k v m :
  Forall (fun e => str_ltb e.1 k = true) m -> map_assign k v m = m ++ [(k, v)].
Proof.
  induction m as [|[k' v'] m IH]; simpl; [done|].
  intros H. inversion H as [|? ? E]; subst. simpl in E. rewrite E. by rewrite IH.
Qed.

Lemma map_find_elem k v m : map_sorted m -> (k, v) ∈ m <-> map_find k m = Some v.
Proof.
  intros Hs. induction m as [|[k' v'] m IH]; [set_solver|].
  rewrite map_find_cons by done. pose proof Hs as [Hs' Hf]%map_sorted_cons.
  rewrite elem_of_cons, IH by done. destruct (decide (k = k')) as [->|]; [|naive_solver].
  split; [|naive_solver]. intros [[= ->]|H]; [done|]. by rewrite map_find_lt in H.
Qed.

(** The keys before an entry of a sorted map are below its key. *)
Lemma sorted_app_below acc m k v : map_sorted (acc ++ (k, v) :: m) -> Forall (fun e => str_ltb e.1 k = true) acc.
Proof.
  induction acc as [|[k1 y] acc IH]; [constructor|]. intros [Hs Hf]%map_sorted_cons. constructor; [|by apply IH].
  rewrite Forall_forall in Hf. apply (Hf (k, v)). apply elem_of_app. right. by left.
Qed.

End StdMap.

#[export] Hint Resolve map_assign_sorted map_erase_sorted : p2p.
