(* ===== verification/FileSys.v ===== *)
(** * std::filesystem and file streams, as far as the daemon uses them

    Paths are the native strings of [fs::path] on POSIX systems.  The file
    system is a finite map from the canonical location of a node (the names
    from the root) to the node.  A path is resolved the way the kernel does,
    one name after the other, each prefix being an existing directory.

    Not modelled: symbolic links, permission checks of the kernel and path
    length limits.  What a full or failing disk does to a file stream is the
    argument [disk] of the operations that write. *)

From S2P Require Import Prelude.

(** ** fs::path *)

Definition slash : ascii := chr 47.

(** [a / b]: [b] alone when it is absolute, otherwise [b] after [a] and one
    separator when [a] has a filename. *)
Definition path_append (a b : str) : str :=
  match b with
  | c :: _ => if Ascii.eqb c slash then b else
      match last a with
      | Some d => if Ascii.eqb d slash then a ++ b else a ++ slash :: b
      | None => b
      end
  | [] =>
      match last a with
      | Some d => if Ascii.eqb d slash then a else a ++ [slash]
      | None => []
      end
  end.

(** The components between separators; there is always at least one. *)
Fixpoint split_slash (p : str) : list str :=
  match p with
  | [] => [[]]
  | c :: p' =>
      if Ascii.eqb c slash then [] :: split_slash p'
      else match split_slash p' with
           | w :: ws => (c :: w) :: ws
           | [] => [[c]]
           end
  end.

Fixpoint strip_slashes (r : str) : str :=
  match r with
  | c :: r' => if Ascii.eqb c slash then strip_slashes r' else r
  | [] => []
  end.

(** The reversed path without its last component, separators included. *)
Fixpoint drop_name (r : str) : str :=
  match r with
  | c :: r' => if Ascii.eqb c slash then r else drop_name r'
  | [] => []
  end.

(** [p.parent_path()] *)
Definition parent_path (p : str) : str :=
  match drop_name (reverse p) with
  | [] => []
  | r => match strip_slashes r with
         | [] => [slash]
         | q => reverse q
         end
  end.

(** ** The file system *)

Record file := File { f_content : str; f_mode : Z; f_mtime : Z }.

Inductive node := NDir (mode : Z) | NFile (f : file).

Abbreviation loc := (list str).

Record fsys := FS {
  fs_nodes : gmap loc node;
  fs_cwd : loc;       (* working directory of the process *)
  fs_now : Z          (* time stamp of what is written now, in nanoseconds *)
}.

Definition set_nodes (n : gmap loc node) (f : fsys) : fsys := FS n (fs_cwd f) (fs_now f).

(** The parent of a location; the parent of the root is the root. *)
Definition parent_loc (l : loc) : loc := take (length l - 1) l.

Definition is_dir_at (f : fsys) (l : loc) : bool :=
  match l with
  | [] => true
  | _ => match fs_nodes f !! l with Some (NDir _) => true | _ => false end
  end.

Definition is_dot (c : str) : bool := str_eqb c [] || str_eqb c $".".

Fixpoint walk (f : fsys) (cur : loc) (comps : list str) : option loc :=
  match comps with
  | [] => Some cur
  | c :: cs =>
      if negb (is_dir_at f cur) then None
      else if is_dot c then walk f cur cs
      else if str_eqb c $".." then walk f (parent_loc cur) cs
      else walk f (cur ++ [c]) cs
  end.

(** Where the resolution of a path starts: the root or the working
    directory. *)
Definition start_loc (f : fsys) (p : str) : loc :=
  match p with
  | c :: _ => if Ascii.eqb c slash then [] else fs_cwd f
  | [] => fs_cwd f
  end.

(** The location a path names, [None] when a prefix is not a directory. *)
Definition resolve (f : fsys) (p : str) : option loc :=
  match p with
  | [] => None
  | _ => walk f (start_loc f p) (split_slash p)
  end.

(** Whether the resolution fails because a prefix is a regular file (ENOTDIR)
    rather than missing (ENOENT). *)
Fixpoint walk_notdir (f : fsys) (cur : loc) (comps : list str) : bool :=
  match comps with
  | [] => false
  | c :: cs =>
      if negb (is_dir_at f cur) then
        match fs_nodes f !! cur with Some _ => true | None => false end
      else if is_dot c then walk_notdir f cur cs
      else if str_eqb c $".." then walk_notdir f (parent_loc cur) cs
      else walk_notdir f (cur ++ [c]) cs
  end.

Definition resolve_notdir (f : fsys) (p : str) : bool :=
  match p with
  | [] => false
  | _ => walk_notdir f (start_loc f p) (split_slash p)
  end.

Definition node_at (f : fsys) (p : str) : option node :=
  l ← resolve f p; match l with [] => Some (NDir 493) | _ => fs_nodes f !! l end.

(** [fs::exists(p)], [fs::is_directory(p)] *)
Definition fs_exists (f : fsys) (p : str) : bool :=
  match node_at f p with Some _ => true | None => false end.

Definition fs_is_directory (f : fsys) (p : str) : bool :=
  match node_at f p with Some (NDir _) => true | _ => false end.

(** The regular file a path names. *)
Definition file_at (f : fsys) (p : str) : option file :=
  match node_at f p with Some (NFile x) => Some x | _ => None end.

(** [fs::create_directories(p)]: creates the missing directories one after the
    other; [false] when it throws, on the empty path or when a component is a
    file. *)
Fixpoint mkdirs (f : fsys) (cur : loc) (comps : list str) : bool * fsys :=
  match comps with
  | [] => (true, f)
  | c :: cs =>
      if is_dot c then mkdirs f cur cs
      else if str_eqb c $".." then mkdirs f (parent_loc cur) cs
      else
        match fs_nodes f !! (cur ++ [c]) with
        | Some (NDir _) => mkdirs f (cur ++ [c]) cs
        | Some (NFile _) => (false, f)
        | None => mkdirs (set_nodes (<[cur ++ [c] := NDir 493]> (fs_nodes f)) f) (cur ++ [c]) cs
        end
  end.

Definition create_directories (f : fsys) (p : str) : bool * fsys :=
  match p with
  | [] => (false, f)
  | _ => mkdirs f (start_loc f p) (split_slash p)
  end.

(** [fs::remove(p)]: nothing when there is no such node, throws on a directory
    that is not empty. *)
Definition has_child (f : fsys) (l : loc) : bool :=
  existsb (fun e => bool_decide (parent_loc e.1 = l /\ e.1 <> l)) (map_to_list (fs_nodes f)).

Definition fs_remove (f : fsys) (p : str) : res fsys :=
  match resolve f p with
  | None => if resolve_notdir f p then Throw filesystem_error else Ok f
  | Some l =>
      match node_at f p with
      | None => Ok f
      | Some (NFile _) => Ok (set_nodes (delete l (fs_nodes f)) f)
      | Some (NDir _) =>
          if has_child f l then Throw filesystem_error
          else Ok (set_nodes (delete l (fs_nodes f)) f)
      end
  end.

(** [fs::rename(p, q)] of a regular file [p]: replaces a file [q], throws when
    [p] is missing, [q] is a directory or its parent does not exist. *)
Definition fs_rename (f : fsys) (p q : str) : res fsys :=
  match resolve f p, resolve f q with
  | Some lp, Some lq =>
      match file_at f p with
      | None => Throw filesystem_error
      | Some x =>
          if fs_is_directory f q then Throw filesystem_error
          else Ok (set_nodes (<[lq := NFile x]> (delete lp (fs_nodes f))) f)
      end
  | _, _ => Throw filesystem_error
  end.

(** [fs::permissions(p, mode)], with the mask [perms::mask] of 07777. *)
Definition fs_permissions (f : fsys) (p : str) (mode : Z) : res fsys :=
  match resolve f p with
  | None => Throw filesystem_error
  | Some l =>
      match node_at f p with
      | None => Throw filesystem_error
      | Some (NDir _) => Ok (set_nodes (<[l := NDir (Z.land mode 4095)]> (fs_nodes f)) f)
      | Some (NFile x) =>
          Ok (set_nodes (<[l := NFile (File (f_content x) (Z.land mode 4095) (f_mtime x))]>
                (fs_nodes f)) f)
      end
  end.

(** ** File streams *)

(** [std::ifstream(p, binary)]: the bytes that can be read.  A directory can be
    opened, and nothing can be read from it. *)
Definition ifstream_open (f : fsys) (p : str) : option str :=
  match node_at f p with
  | Some (NFile x) => Some (f_content x)
  | Some (NDir _) => Some []
  | None => None
  end.

(** [file.read(buffer, n)]: the bytes read ([gcount] is their number) and the
    rest of the file. *)
Definition stream_read (n : nat) (rest : str) : str * str := (take n rest, drop n rest).

(** What the disk does to the writes of one stream: the [k]-th [write] of the
    stream fails when [disk_fail = Some k] (after storing some of its bytes),
    and [disk_lost] trailing bytes are lost when the buffer is flushed by
    [close]. *)
Record disk := Disk { disk_fail : option (nat * nat); disk_lost : nat }.

Definition good_disk : disk := Disk None 0.

(** The location [std::ofstream(p, binary)] creates or truncates. *)
Definition open_trunc (f : fsys) (p : str) : option (loc * fsys) :=
  match resolve f p with
  | None | Some [] => None
  | Some l =>
      if negb (is_dir_at f (parent_loc l)) then None
      else
        match fs_nodes f !! l with
        | Some (NDir _) => None
        | Some (NFile x) =>
            Some (l, set_nodes (<[l := NFile (File [] (f_mode x) (fs_now f))]> (fs_nodes f)) f)
        | None =>
            Some (l, set_nodes (<[l := NFile (File [] 420 (fs_now f))]> (fs_nodes f)) f)
        end
  end.

(** [std::ofstream(p, binary | in | out)]: an existing file, not truncated. *)
Definition open_existing (f : fsys) (p : str) : option (loc * fsys) :=
  match resolve f p with
  | None => None
  | Some l =>
      match fs_nodes f !! l with
      | Some (NFile _) => Some (l, f)
      | _ => None
      end
  end.

(** Bytes [data] stored at offset [pos] of a content; the gap before [pos], if
    any, reads as zeros. *)
Definition write_at (content : str) (pos : nat) (data : str) : str :=
  take pos (content ++ replicate (pos - length content) (chr 0))
    ++ data ++ drop (pos + length data) content.

Definition file_content (f : fsys) (l : loc) : str :=
  match fs_nodes f !! l with Some (NFile x) => f_content x | _ => [] end.

Definition set_content (f : fsys) (l : loc) (c : str) : fsys :=
  match fs_nodes f !! l with
  | Some (NFile x) =>
      set_nodes (<[l := NFile (File c (f_mode x) (fs_now f))]> (fs_nodes f)) f
  | _ => f
  end.

(** The [k]-th [write] of a stream, at offset [pos]: whether [fail()] is false
    afterwards. *)
Definition stream_write (d : disk) (k : nat) (l : loc) (pos : nat) (data : str) (f : fsys)
  : bool * fsys :=
  match disk_fail d with
  | Some (k', n) =>
      if Nat.eqb k k' then (false, set_content f l (write_at (file_content f l) pos (take n data)))
      else (true, set_content f l (write_at (file_content f l) pos data))
  | None => (true, set_content f l (write_at (file_content f l) pos data))
  end.

(** [close()]: what the last flush does not store is lost, and not reported. *)
Definition stream_close (d : disk) (l : loc) (f : fsys) : fsys :=
  let c := file_content f l in
  set_content f l (take (length c - disk_lost d) c).

(** ** Lemmas: directories and resolution *)

(** Two file systems with the same directories resolve paths alike. *)
Definition dirs_agree (f f' : fsys) : Prop :=
  fs_cwd f = fs_cwd f' /\ forall l, is_dir_at f l = is_dir_at f' l.

#[export] Instance dirs_agree_equiv : Equivalence dirs_agree.
Proof.
  split; red; unfold dirs_agree; [done|naive_solver|].
  intros f g h [-> H1] [-> H2]. split; [done|]. intros. by rewrite H1.
Qed.

Lemma walk_agree f f' cur cs : dirs_agree f f' -> walk f cur cs = walk f' cur cs.
Proof.
  intros [_ H]. revert cur. induction cs as [|c cs IH]; intros cur; simpl; [done|].
  rewrite H. repeat case_match; auto.
Qed.

#[export] Instance resolve_proper : Proper (dirs_agree ==> (=) ==> (=)) resolve.
Proof.
  intros f f' H p ? <-. destruct p as [|c p]; [done|]. unfold resolve, start_loc.
  destruct H as [Hc Hd] eqn:E. rewrite Hc. by apply walk_agree.
Qed.

(** Changing what is stored at a location that is not a directory, into
    something that is not a directory, changes no directory. *)
Lemma agree_update (f : fsys) (l : loc) (g : gmap loc node -> gmap loc node) :
  l <> [] -> is_dir_at f l = false ->
  is_dir_at (set_nodes (g (fs_nodes f)) f) l = false ->
  (forall l', l' <> l -> g (fs_nodes f) !! l' = fs_nodes f !! l') ->
  dirs_agree f (set_nodes (g (fs_nodes f)) f).
Proof.
  intros Hl Hd Hd' Hg. split; [done|]. intros l'. destruct (decide (l' = l)) as [->|Hne].
  - by rewrite Hd, Hd'.
  - unfold is_dir_at. simpl. by rewrite Hg.
Qed.

Lemma agree_insert_file (f : fsys) (l : loc) x :
  l <> [] -> is_dir_at f l = false ->
  dirs_agree f (set_nodes (<[l := NFile x]> (fs_nodes f)) f).
Proof.
  intros Hl Hd. apply (agree_update f l); [done..| |].
  - unfold is_dir_at. simpl. rewrite lookup_insert_eq. by destruct l.
  - intros l' Hne. by apply lookup_insert_ne.
Qed.

Lemma agree_delete_file (f : fsys) (l : loc) :
  l <> [] -> is_dir_at f l = false ->
  dirs_agree f (set_nodes (delete l (fs_nodes f)) f).
Proof.
  intros Hl Hd. apply (agree_update f l); [done..| |].
  - unfold is_dir_at. simpl. rewrite lookup_delete_eq. by destruct l.
  - intros l' Hne. by apply lookup_delete_ne.
Qed.

Lemma not_dir_at (f : fsys) (l : loc) x : l <> [] -> fs_nodes f !! l = Some (NFile x) -> is_dir_at f l = false.
Proof. intros Hl H. unfold is_dir_at. rewrite H. by destruct l. Qed.

Lemma node_at_loc f p l :
  resolve f p = Some l -> l <> [] -> node_at f p = fs_nodes f !! l.
Proof. intros H Hl. unfold node_at. rewrite H. simpl. by destruct l. Qed.

Lemma file_at_loc f p l x :
  resolve f p = Some l -> l <> [] -> fs_nodes f !! l = Some (NFile x) -> file_at f p = Some x.
Proof. intros H Hl Hn. unfold file_at. by rewrite (node_at_loc _ _ l), Hn. Qed.

(** A file of the file system is at its location. *)
Lemma set_content_nodes f l c x :
  fs_nodes f !! l = Some (NFile x) ->
  set_content f l c = set_nodes (<[l := NFile (File c (f_mode x) (fs_now f))]> (fs_nodes f)) f.
Proof. intros H. unfold set_content. by rewrite H. Qed.

(** ** Lemmas: content *)

Lemma write_at_end content data :
  write_at content (length content) data = content ++ data.
Proof.
  unfold write_at. rewrite Nat.sub_diag. simpl. rewrite app_nil_r.
  rewrite take_ge, drop_ge by lia. by rewrite app_nil_r.
Qed.

Lemma length_write_at content pos data :
  length (write_at content pos data) = Nat.max (length content) (pos + length data).
Proof.
  unfold write_at. rewrite !length_app, length_take, length_app, length_replicate, length_drop.
  lia.
Qed.

(** The byte at each offset after a write. *)
Lemma lookup_write_at content pos data i :
  write_at content pos data !! i =
    if decide (i < pos)%nat then
      (if decide (i < length content)%nat then content !! i else Some (chr 0))
    else if decide (i < pos + length data)%nat then data !! (i - pos)%nat
    else content !! i.
Proof.
  unfold write_at.
  assert (Hl : length (take pos (content ++ replicate (pos - length content) (chr 0))) = pos)
    by (rewrite length_take, length_app, length_replicate; lia).
  destruct (decide (i < pos)%nat) as [Hi|Hi].
  - rewrite lookup_app_l by lia. rewrite lookup_take_lt by done.
    destruct (decide (i < length content)%nat).
    + by rewrite lookup_app_l.
    + rewrite lookup_app_r by lia. apply lookup_replicate_2. lia.
  - rewrite lookup_app_r by lia. rewrite Hl.
    destruct (decide (i < pos + length data)%nat).
    + by rewrite lookup_app_l by lia.
    + rewrite lookup_app_r by lia. rewrite lookup_drop. f_equal. lia.
Qed.

(** ** Lemmas: paths *)

Lemma split_slash_nonempty p : split_slash p <> [].
Proof.
  induction p as [|c p IH]; simpl; [done|]. destruct (Ascii.eqb c slash); [done|].
  by destruct (split_slash p).
Qed.

(** Text without separator after a path belongs to its last component. *)
Lemma split_slash_suffix p s :
  slash ∉ s ->
  exists ws w, split_slash p = ws ++ [w] /\ split_slash (p ++ s) = ws ++ [w ++ s].
Proof.
  intros Hs. induction p as [|c p (ws & w & E1 & E2)].
  - exists [], []. split; [done|]. simpl. induction s as [|c s IH]; [done|]. simpl.
    rewrite (proj2 (Ascii.eqb_neq c slash)) by set_solver.
    by rewrite IH by set_solver.
  - simpl. destruct (Ascii.eqb c slash).
    + exists ([] :: ws), w. by rewrite E1, E2.
    + rewrite E1, E2. destruct ws as [|w0 ws]; simpl.
      * by exists [], (c :: w).
      * by exists ((c :: w0) :: ws), w.
Qed.

Lemma walk_app f cur a b : walk f cur (a ++ b) = walk f cur a ≫= fun c => walk f c b.
Proof.
  revert cur. induction a as [|c a IH]; intros cur; simpl; [done|].
  repeat case_match; simpl; auto.
Qed.

(** The location of [dest ++ ".tmp"] is next to or below the one of [dest],
    and is never the same. *)
Lemma resolve_suffix f p s lp lt :
  slash ∉ s -> (3 <= length s)%nat ->
  resolve f p = Some lp -> resolve f (p ++ s) = Some lt -> lt <> lp /\ lt <> [].
Proof.
  intros Hs Hl Hp Ht. destruct p as [|c p]; [done|].
  destruct (split_slash_suffix (c :: p) s Hs) as (ws & w & E1 & E2).
  unfold resolve in Hp, Ht. simpl app in Ht, E2. cbv iota in Hp, Ht.
  change (start_loc f (c :: p ++ s)) with (start_loc f (c :: p)) in Ht.
  rewrite E1, walk_app in Hp. rewrite E2, walk_app in Ht.
  destruct (walk f (start_loc f (c :: p)) ws) as [cur|]; [|done].
  simpl in Hp, Ht. destruct (is_dir_at f cur); [|done]. simpl in Hp, Ht.
  assert (Hlen : (3 <= length (w ++ s))%nat) by (rewrite length_app; lia).
  unfold is_dot, str_eqb in Ht.
  do 3 (rewrite bool_decide_false in Ht by (intros E; rewrite E in Hlen; simpl in Hlen; lia)).
  simpl in Ht. injection Ht as <-. split; [|by destruct cur].
  destruct (is_dot w); [injection Hp as <-|].
  { intros E%(f_equal length). rewrite length_app in E. simpl in E. lia. }
  destruct (str_eqb w _); injection Hp as <-.
  - intros E%(f_equal length). unfold parent_loc in E. rewrite length_app, length_take in E.
    simpl in E. lia.
  - intros E%app_inv_head. injection E as E%(f_equal length). rewrite length_app in E. lia.
Qed.

(** ** Lemmas: what the operations leave alone *)

(** At [l], [f'] has what [f] has, or a new directory. *)
Definition adds_dir_at (f f' : fsys) (l : loc) : Prop :=
  fs_nodes f' !! l = fs_nodes f !! l \/
  (fs_nodes f !! l = None /\ exists m, fs_nodes f' !! l = Some (NDir m)).

Lemma adds_dir_at_eq f f' f'' l :
  adds_dir_at f f' l -> fs_nodes f'' !! l = fs_nodes f' !! l -> adds_dir_at f f'' l.
Proof. unfold adds_dir_at. intros H ->. done. Qed.

Lemma mkdirs_adds f cur cs l :
  adds_dir_at f (snd (mkdirs f cur cs)) l /\ fs_cwd (snd (mkdirs f cur cs)) = fs_cwd f /\
  fs_now (snd (mkdirs f cur cs)) = fs_now f.
Proof.
  revert f cur. induction cs as [|c cs IH]; intros f cur; simpl; [by repeat split; left|].
  destruct (is_dot c); [apply IH|]. destruct (str_eqb c _); [apply IH|].
  destruct (fs_nodes f !! (cur ++ [c])) as [[m|x]|] eqn:E; [apply IH|by repeat split; left|].
  destruct (IH (set_nodes (<[cur ++ [c] := NDir 493]> (fs_nodes f)) f) (cur ++ [c]))
    as (Ha & Hc & Hn).
  split; [|by split]. unfold adds_dir_at in *. simpl in Ha. rewrite lookup_insert in Ha.
  destruct (decide (cur ++ [c] = l)) as [<-|Hne]; [|done].
  right. split; [done|]. destruct Ha as [->|[Ha _]]; [by eexists|done].
Qed.

Lemma create_directories_adds f p l :
  adds_dir_at f (snd (create_directories f p)) l /\
  fs_cwd (snd (create_directories f p)) = fs_cwd f /\
  fs_now (snd (create_directories f p)) = fs_now f.
Proof. destruct p; [by repeat split; left|]. apply mkdirs_adds. Qed.

Lemma fs_remove_other f p f' l :
  fs_remove f p = Ok f' -> resolve f p <> Some l -> fs_nodes f' !! l = fs_nodes f !! l.
Proof.
  unfold fs_remove. destruct (resolve f p) as [lp|] eqn:E.
  - intros H Hl. assert (lp <> l) by congruence.
    destruct (node_at f p) as [[m|x]|].
    + destruct (has_child f lp); [done|]. injection H as <-. by apply lookup_delete_ne.
    + injection H as <-. by apply lookup_delete_ne.
    + by injection H as <-.
  - destruct (resolve_notdir f p); [done|]. by intros [= <-].
Qed.

(** ** A file system with a file of given content at a location *)

Definition with_file (f : fsys) (l : loc) (c : str) (m : Z) : fsys :=
  set_nodes (<[l := NFile (File c m (fs_now f))]> (fs_nodes f)) f.

Lemma file_content_with f l c m : file_content (with_file f l c m) l = c.
Proof. unfold file_content, with_file. simpl. by rewrite lookup_insert_eq. Qed.

Lemma set_content_with f l c m c' : set_content (with_file f l c m) l c' = with_file f l c' m.
Proof.
  unfold set_content, with_file. simpl. rewrite lookup_insert_eq. unfold set_nodes. simpl.
  by rewrite insert_insert_eq.
Qed.

Lemma with_file_agree (f : fsys) (l : loc) c m :
  l <> [] -> is_dir_at f l = false -> dirs_agree f (with_file f l c m).
Proof. apply agree_insert_file. Qed.

Lemma open_trunc_spec f p l f' :
  open_trunc f p = Some (l, f') ->
  resolve f p = Some l /\ l <> [] /\ is_dir_at f l = false /\
  exists m, f' = with_file f l [] m.
Proof.
  unfold open_trunc. destruct (resolve f p) as [[|c l0]|] eqn:E; [done| |done].
  destruct (is_dir_at f (parent_loc (c :: l0))); [|done]. simpl negb. cbv iota.
  unfold is_dir_at. destruct (fs_nodes f !! (c :: l0)) as [[m|x]|] eqn:En; [done|..];
    intros [= <- <-]; rewrite En; split_and!; try done; by eexists.
Qed.

Section WithFile.
Variables (f : fsys) (l : loc) (p : str).
Hypothesis Hres : resolve f p = Some l.
Hypothesis Hl : l <> [].
Hypothesis Hdir : is_dir_at f l = false.

Lemma resolve_with q c m : resolve (with_file f l c m) q = resolve f q.
Proof. symmetry. apply resolve_proper; [by apply with_file_agree|done]. Qed.

Lemma file_at_with c m : file_at (with_file f l c m) p = Some (File c m (fs_now f)).
Proof.
  apply (file_at_loc _ _ l); [by rewrite resolve_with|done|]. apply lookup_insert_eq.
Qed.

Lemma ifstream_with c m : ifstream_open (with_file f l c m) p = Some c.
Proof.
  unfold ifstream_open. rewrite (node_at_loc _ _ l); [|by rewrite resolve_with|done].
  unfold with_file. simpl. by rewrite lookup_insert_eq.
Qed.

Lemma fs_remove_with c m :
  fs_remove (with_file f l c m) p = Ok (set_nodes (delete l (fs_nodes f)) f).
Proof.
  unfold fs_remove. rewrite resolve_with, Hres.
  rewrite (node_at_loc _ _ l); [|by rewrite resolve_with|done].
  unfold with_file. simpl. rewrite lookup_insert_eq. unfold set_nodes. simpl.
  by rewrite delete_insert_eq.
Qed.

Lemma node_at_with q lq c m :
  resolve f q = Some lq -> lq <> l -> node_at (with_file f l c m) q = node_at f q.
Proof.
  intros Hq Hne. unfold node_at. rewrite resolve_with, Hq. simpl. destruct lq; [done|].
  by apply lookup_insert_ne.
Qed.

(** Renaming the file over another path. *)
Lemma fs_rename_with q lq c m :
  resolve f q = Some lq -> lq <> l ->
  fs_rename (with_file f l c m) p q =
    if fs_is_directory f q then Throw filesystem_error
    else Ok (set_nodes (<[lq := NFile (File c m (fs_now f))]> (delete l (fs_nodes f))) f).
Proof.
  intros Hq Hne. unfold fs_rename. rewrite !resolve_with, Hres, Hq, file_at_with.
  unfold fs_is_directory. rewrite (node_at_with q lq) by done.
  destruct (node_at f q) as [[?|?]|]; try done; unfold with_file, set_nodes; simpl;
    by rewrite delete_insert_eq.
Qed.
End WithFile.

(** Directories that exist already are left alone, also after a change of
    files. *)
Lemma mkdirs_agree f g cur cs :
  mkdirs f cur cs = (true, f) -> dirs_agree f g -> mkdirs g cur cs = (true, g).
Proof.
  intros Hf [_ Hd]. revert cur Hf. induction cs as [|c cs IH]; intros cur Hf; simpl in *; [done|].
  destruct (is_dot c); [by apply IH|]. destruct (str_eqb c _); [by apply IH|].
  destruct (fs_nodes f !! (cur ++ [c])) as [[m|x]|] eqn:E.
  - specialize (Hd (cur ++ [c])). unfold is_dir_at in Hd.
    destruct (cur ++ [c]) as [|y l] eqn:El; [by destruct cur|]. rewrite E in Hd.
    destruct (fs_nodes g !! (y :: l)) as [[m'|x']|]; [|done..]. by apply IH.
  - done.
  - destruct (mkdirs_adds (set_nodes (<[cur ++ [c] := NDir 493]> (fs_nodes f)) f) (cur ++ [c]) cs
      (cur ++ [c])) as [Ha _].
    rewrite Hf in Ha. unfold adds_dir_at in Ha. simpl in Ha. rewrite E, lookup_insert_eq in Ha.
    naive_solver.
Qed.

Lemma create_directories_agree f g p :
  create_directories f p = (true, f) -> dirs_agree f g -> create_directories g p = (true, g).
Proof.
  destruct p as [|c p]; [done|]. unfold create_directories, start_loc. intros Hf Hg.
  destruct Hg as [Hc Hd] eqn:Eg. rewrite <- Hc. by eapply mkdirs_agree.
Qed.

(** A scratch file that is created, written and removed leaves no trace. *)
Lemma scratch_file f l p c m :
  resolve f p = Some l -> l <> [] -> fs_nodes f !! l = None ->
  fs_remove (with_file f l c m) p = Ok f.
Proof.
  intros Hr Hl Hn. assert (is_dir_at f l = false) by (unfold is_dir_at; rewrite Hn; by destruct l).
  rewrite (fs_remove_with f l) by done. rewrite delete_id by done. by destruct f.
Qed.

(** ** Lemmas: paths below a directory *)

Lemma split_slash_app a b : split_slash (a ++ slash :: b) = split_slash a ++ split_slash b.
Proof.
  induction a as [|c a IH]; [done|]. simpl. rewrite IH.
  destruct (Ascii.eqb c slash); [done|].
  by destruct (split_slash a) eqn:E; [apply split_slash_nonempty in E|].
Qed.

(** Without a dot-dot component, a walk only goes down. *)
Lemma walk_down f cur cs l :
  Forall (fun c => c <> $"..") cs -> walk f cur cs = Some l -> cur `prefix_of` l.
Proof.
  intros Hcs. revert cur. induction Hcs as [|c cs Hc _ IH]; intros cur; simpl.
  - by intros [= ->].
  - destruct (is_dir_at f cur); [|done]. simpl.
    destruct (is_dot c); [apply IH|].
    destruct (str_eqb c _) eqn:E; [by apply str_eqb_eq in E|].
    intros H%IH. etransitivity; [|exact H]. by apply prefix_app_r.
Qed.

Lemma resolve_split_app f a b :
  a ++ slash :: b <> [] ->
  resolve f (a ++ slash :: b) =
    walk f (start_loc f (a ++ slash :: b)) (split_slash a) ≫= fun cur => walk f cur (split_slash b).
Proof.
  intros H. unfold resolve. destruct (a ++ slash :: b) eqn:E; [done|]. rewrite <- E.
  by rewrite split_slash_app, walk_app.
Qed.

(** A relative path without dot-dot components. *)
Definition confined (rel : str) : Prop :=
  head rel <> Some slash /\ Forall (fun c => c <> $"..") (split_slash rel).

#[global] Instance confined_dec (rel : str) : Decision (confined rel).
Proof. apply _. Defined.

(** Below a directory, the path of a relative path splits there. *)
Lemma path_append_split base rel :
  base <> [] -> head rel <> Some slash ->
  exists b0, path_append base rel = b0 ++ slash :: rel /\ (base = b0 \/ base = b0 ++ [slash]).
Proof.
  intros Hb Hh. destruct (last base) as [d|] eqn:El; [|by apply last_None in El].
  assert (Happ : path_append base rel = if Ascii.eqb d slash then base ++ rel else base ++ slash :: rel).
  { unfold path_append. rewrite El. destruct rel as [|c rel].
    - destruct (Ascii.eqb d slash); by rewrite ?app_nil_r.
    - simpl in Hh. destruct (Ascii.eqb_spec c slash) as [->|]; [done|]. done. }
  rewrite Happ. destruct (Ascii.eqb_spec d slash) as [Hd|_]; [|by exists base; auto].
  subst d. apply last_Some in El as [b0 ->]. exists b0. rewrite <- app_assoc. auto.
Qed.

Lemma start_loc_prefix f a b : a <> [] -> start_loc f (a ++ b) = start_loc f a.
Proof. by destruct a. Qed.

(** The directory of the base is where the walk along the relative path
    starts. *)
Lemma walk_base f base b0 lb :
  resolve f base = Some lb -> (base = b0 \/ base = b0 ++ [slash]) ->
  (forall rel, start_loc f (b0 ++ slash :: rel) = start_loc f base) /\
  walk f (start_loc f base) (split_slash b0) = Some lb.
Proof.
  intros Hb [-> | ->].
  - destruct b0 as [|c b0]; [done|]. done.
  - split; [intros rel; by destruct b0|]. rewrite resolve_split_app in Hb by by destruct b0.
    destruct (walk f _ (split_slash b0)) as [cur|]; [|done]. simpl in Hb.
    by destruct (is_dir_at f cur).
Qed.

(** A confined path below an existing directory names a location inside it. *)
Lemma resolve_inside f base rel lb l :
  confined rel -> resolve f base = Some lb -> resolve f (path_append base rel) = Some l ->
  lb `prefix_of` l.
Proof.
  intros [Hh Hcs] Hb Hl. destruct (path_append_split base rel) as (b0 & E & Hb0);
    [by intros -> | done|].
  destruct (walk_base f base b0 lb Hb Hb0) as [Hst Hw].
  rewrite E, resolve_split_app in Hl by by destruct b0.
  rewrite Hst, Hw in Hl. by eapply walk_down.
Qed.

(** ** Lemmas: directories created below a directory *)

Lemma drop_name_spec r :
  exists n, r = n ++ drop_name r /\ (slash ∉ n) /\
    (drop_name r = [] \/ exists q, drop_name r = slash :: q).
Proof.
  induction r as [|c r (n & E & Hn & Hd)]; simpl.
  - exists []. split_and!; [done|set_solver|by left].
  - destruct (Ascii.eqb_spec c slash) as [-> | Hc].
    + exists []. split_and!; [done|set_solver|eauto].
    + exists (c :: n). split_and!; [by rewrite E at 1|set_solver|done].
Qed.

Lemma strip_slashes_spec r :
  exists k, r = replicate k slash ++ strip_slashes r.
Proof.
  induction r as [|c r [k E]]; [by exists 0%nat|]. simpl.
  destruct (Ascii.eqb_spec c slash) as [-> | Hc]; [exists (S k); simpl; by f_equal|by exists 0%nat].
Qed.

(** The directories of [parent_path p] are the components of [p] but the
    last. *)
Lemma mkdirs_dots f cur n cs ds :
  mkdirs f cur (cs ++ replicate n [] ++ ds) = mkdirs f cur (cs ++ ds).
Proof.
  revert f cur. induction cs as [|c cs IH]; intros f cur; simpl.
  - induction n as [|n IHn]; [done|]. simpl. exact IHn.
  - rewrite !IH. destruct (fs_nodes f !! (cur ++ [c])) as [[?|?]|]; by rewrite ?IH.
Qed.

Lemma split_slash_name n : slash ∉ n -> split_slash n = [n].
Proof.
  induction n as [|c n IH]; intros H; [done|]. simpl. apply not_elem_of_cons in H as [H1 H2].
  rewrite IH by done. by destruct (Ascii.eqb_spec c slash) as [-> |].
Qed.

Lemma split_slash_slashes k q : split_slash (replicate k slash ++ q) = replicate k [] ++ split_slash q.
Proof. induction k as [|k IH]; [done|]. simpl. by rewrite IH. Qed.

Lemma parent_components p :
  parent_path p = [] \/
  exists cs n name, split_slash p = cs ++ replicate n [] ++ [name] /\
    (forall f, start_loc f (parent_path p) = start_loc f p) /\
    exists k, split_slash (parent_path p) = cs ++ replicate k [].
Proof.
  unfold parent_path. destruct (drop_name_spec (reverse p)) as (n & E & Hn & [Hd | [q Hd]]).
  { rewrite Hd. by left. }
  right. rewrite Hd in *. destruct (strip_slashes_spec (slash :: q)) as [k Ek].
  assert (Ep : p = reverse (strip_slashes (slash :: q)) ++ replicate k slash ++ reverse n).
  { rewrite <- (reverse_involutive p), E. rewrite Ek at 1.
    rewrite !reverse_app, reverse_replicate.
    by rewrite <- app_assoc. }
  assert (Hk : k <> 0%nat).
  { intros ->. simpl in Ek. destruct (Ascii.eqb_spec slash slash); [|done].
    assert (length (strip_slashes q) <= length q)%nat.
    { destruct (strip_slashes_spec q) as [k' E']. rewrite E' at 2. rewrite length_app. lia. }
    apply (f_equal length) in Ek. simpl in Ek. lia. }
  destruct k as [|k]; [done|].
  assert (Hn' : slash ∉ reverse n) by (rewrite elem_of_reverse; done).
  exists (split_slash (reverse (strip_slashes (slash :: q)))), k, (reverse n). split_and!.
  - rewrite Ep at 1. simpl replicate. rewrite <- app_comm_cons, split_slash_app. f_equal.
    by rewrite split_slash_slashes, split_slash_name.
  - intros f. rewrite Ep. destruct (strip_slashes (slash :: q)) as [|c s] eqn:Es; [done|].
    rewrite start_loc_prefix; [done|]. intros H%(f_equal length). by rewrite length_reverse in H.
  - destruct (strip_slashes (slash :: q)) as [|c s]; [by exists 1%nat|].
    exists 0%nat. by rewrite app_nil_r.
Qed.

(** Walking through existing directories creates nothing. *)
Lemma mkdirs_walk f cur a b l :
  walk f cur a = Some l -> is_dir_at f l = true -> mkdirs f cur (a ++ b) = mkdirs f l b.
Proof.
  revert cur. induction a as [|c a IH]; intros cur; simpl; [by intros [= ->]|].
  destruct (is_dir_at f cur) eqn:Ed; [|done]. simpl.
  destruct (is_dot c); [apply IH|]. destruct (str_eqb c _); [apply IH|].
  intros Hw Hl. assert (Hc : is_dir_at f (cur ++ [c]) = true).
  { destruct a as [|c' a]; simpl in Hw; [by injection Hw as ->|]. by destruct (is_dir_at f (cur ++ [c])). }
  rewrite <- (IH _ Hw Hl). unfold is_dir_at in Hc.
  destruct (cur ++ [c]) eqn:E; [by destruct cur|]. by destruct (fs_nodes f !! _) as [[?|?]|].
Qed.

Lemma mkdirs_inside f cur cs l :
  Forall (fun c => c <> $"..") cs -> ~ cur `prefix_of` l ->
  fs_nodes (snd (mkdirs f cur cs)) !! l = fs_nodes f !! l.
Proof.
  intros Hcs. revert f cur. induction Hcs as [|c cs Hc _ IH]; intros f cur Hl; [done|]. simpl.
  destruct (is_dot c); [by apply IH|]. destruct (str_eqb c _) eqn:E; [by apply str_eqb_eq in E|].
  assert (Hl' : ~ (cur ++ [c]) `prefix_of` l).
  { intros H. apply Hl. etransitivity; [|exact H]. by apply prefix_app_r. }
  destruct (fs_nodes f !! (cur ++ [c])) as [[m|x]|]; [by apply IH|done|].
  rewrite IH by done. simpl. apply lookup_insert_ne. intros <-. by apply Hl'.
Qed.

(** The directories of a path below an existing directory are created from
    there on. *)
Lemma create_directories_below f base rel lb :
  head rel <> Some slash -> resolve f base = Some lb -> is_dir_at f lb = true ->
  exists rs x, split_slash rel = rs ++ [x] /\
    (create_directories f (parent_path (path_append base rel)) = (false, f) \/
     create_directories f (parent_path (path_append base rel)) = mkdirs f lb rs).
Proof.
  intros Hh Hb Hd. destruct (path_append_split base rel) as (b0 & E & Hb0); [by intros -> | done|].
  destruct (walk_base f base b0 lb Hb Hb0) as [Hst Hw].
  destruct (exists_last (split_slash_nonempty rel)) as (rs & x & Er). exists rs, x. split; [done|].
  destruct (parent_components (path_append base rel)) as [-> | (cs & n & name & Es & Hs & k & Ek)];
    [by left|].
  assert (Hm : create_directories f (parent_path (path_append base rel)) =
    (match parent_path (path_append base rel) with [] => (false, f)
     | _ => mkdirs f (start_loc f base) (cs ++ replicate k [] ++ []) end)).
  { unfold create_directories. rewrite Hs, Ek, E, Hst, app_nil_r. done. }
  rewrite Hm. destruct (parent_path _); [by left|]. right.
  rewrite mkdirs_dots, <- (mkdirs_dots _ _ n).
  rewrite E, split_slash_app, Er, !app_assoc in Es. apply app_inj_tail in Es as [Es _].
  rewrite app_nil_r, <- Es. by rewrite (mkdirs_walk f _ _ _ lb).
Qed.

(** Creating the directories for a confined path only changes what is inside
    the base directory. *)
Lemma create_directories_inside f base rel lb l :
  confined rel -> resolve f base = Some lb -> is_dir_at f lb = true -> ~ lb `prefix_of` l ->
  fs_nodes (snd (create_directories f (parent_path (path_append base rel)))) !! l = fs_nodes f !! l.
Proof.
  intros [Hh Hcs] Hb Hd Hl. destruct (create_directories_below f base rel lb Hh Hb Hd) as (rs & x & Er & [-> | ->]);
    [done|]. rewrite Er in Hcs. apply mkdirs_inside; [|done]. by apply Forall_app in Hcs as [? _].
Qed.

(** Paths that resolve still do after directories were added. *)
Lemma resolve_adds f g p l :
  (forall l, adds_dir_at f g l) -> fs_cwd g = fs_cwd f ->
  resolve f p = Some l -> resolve g p = Some l.
Proof.
  intros Ha Hc. destruct p as [|c p]; [done|]. unfold resolve, start_loc. rewrite Hc.
  generalize (if Ascii.eqb c slash then [] else fs_cwd f). generalize (split_slash (c :: p)).
  intros cs cur. revert cur. induction cs as [|d cs IH]; intros cur; [done|]. simpl.
  destruct (is_dir_at f cur) eqn:Ed; [|done]. assert (is_dir_at g cur = true) as ->.
  { unfold is_dir_at in *. destruct cur as [|x cur]; [done|].
    destruct (Ha (x :: cur)) as [-> | [Hn _]]; [done|]. by rewrite Hn in Ed. }
  simpl. repeat case_match; auto.
Qed.
