(* ===== verification/Sha256.v ===== *)
(** * SHA-256 of strings and files (src/src/backend/cpp/src/sha256.cpp)

    The digest itself is OpenSSL's, code outside the repository: the class
    [EVP] has the calls the program makes, and [EVPLaws] what the program
    relies on, that updating with the pieces of a message one after the other
    is updating with the whole message.  [RealSha256] is an instance that
    computes SHA-256. *)

From S2P Require Import Prelude FileSys.

(** ** The OpenSSL digest context *)

Class EVP := {
  evp_ctx : Type;
  evp_init : evp_ctx;                          (* EVP_DigestInit_ex(ctx, EVP_sha256()) *)
  evp_update : evp_ctx -> str -> evp_ctx;      (* EVP_DigestUpdate *)
  evp_final : evp_ctx -> str                   (* EVP_DigestFinal_ex: the digest bytes *)
}.

Class EVPLaws (E : EVP) : Prop := {
  evp_update_app : forall c a b, evp_update (evp_update c a) b = evp_update c (a ++ b);
  evp_final_length : forall c, length (evp_final c) = 32%nat
}.

(** ** Hexadecimal output *)

Definition hex_digit (n : Z) : ascii := chr (if n <? 10 then 48 + n else 87 + n).

(** [ss << std::hex << (int)b] for a byte: no leading zero. *)
Definition hex_int (n : Z) : str :=
  if n <? 16 then [hex_digit n] else [hex_digit (n / 16); hex_digit (n mod 16)].

(** [std::setw(w)] with [std::setfill('0')] *)
Definition pad_zero (w : nat) (s : str) : str := replicate (w - length s) (chr 48) ++ s.

Definition to_hex (digest : str) : str := digest ≫= fun b => pad_zero 2 (hex_int (ord b)).

Section Sha256.
Context {E : EVP}.

(** [crypto::sha256]; [ctx_ok] tells whether [EVP_MD_CTX_new] succeeds. *)
Definition sha256 (ctx_ok : bool) (input : str) : str :=
  if negb ctx_ok then [] else to_hex (evp_final (evp_update evp_init input)).

(** [while (file.read(buffer, 4096)) EVP_DigestUpdate(ctx, buffer, gcount);
    EVP_DigestUpdate(ctx, buffer, gcount);]  A [read] is true when it got all
    the bytes asked for; [fuel] is above the number of blocks. *)
Fixpoint hash_loop (fuel : nat) (rest : str) (ctx : evp_ctx) : evp_ctx :=
  match fuel with
  | O => ctx
  | S fuel' =>
      let '(buffer, rest') := stream_read 4096 rest in
      if Nat.eqb (length buffer) 4096 then hash_loop fuel' rest' (evp_update ctx buffer)
      else evp_update ctx buffer
  end.

(** [crypto::sha256_file]: [None] is the return value [false]. *)
Definition sha256_file (ctx_ok : bool) (f : fsys) (path : str) : option str :=
  match ifstream_open f path with
  | None => None
  | Some content =>
      if negb ctx_ok then None
      else Some (to_hex (evp_final (hash_loop (S (length content)) content evp_init)))
  end.
End Sha256.

(** ** Lemmas *)

Lemma to_hex_byte c : length (pad_zero 2 (hex_int (ord c))) = 2%nat.
Proof.
  unfold pad_zero, hex_int. destruct (ord c <? 16); reflexivity.
Qed.

Lemma to_hex_cons c d : to_hex (c :: d) = pad_zero 2 (hex_int (ord c)) ++ to_hex d.
Proof. done. Qed.

Lemma length_to_hex d : length (to_hex d) = (2 * length d)%nat.
Proof.
  induction d as [|c d IH]; [done|].
  rewrite to_hex_cons, length_app, IH, to_hex_byte. simpl. lia.
Qed.

(** The value of a lower-case hexadecimal digit. *)
Definition hex_val (c : ascii) : Z := if ord c <? 58 then ord c - 48 else ord c - 87.

Fixpoint of_hex (s : str) : str :=
  match s with
  | a :: b :: s' => chr (16 * hex_val a + hex_val b) :: of_hex s'
  | _ => []
  end.

Lemma of_hex_byte c s : of_hex (pad_zero 2 (hex_int (ord c)) ++ s) = c :: of_hex s.
Proof.
  assert (H : forall c, match pad_zero 2 (hex_int (ord c)) with
              | [a; b] => Ascii.eqb (chr (16 * hex_val a + hex_val b)) c
              | _ => false end = true) by (apply bytes_forallb; vm_compute; reflexivity).
  specialize (H c). destruct (pad_zero 2 (hex_int (ord c))) as [|a [|b []]]; try done.
  apply Ascii.eqb_eq in H. simpl. by rewrite H.
Qed.

Lemma of_hex_to_hex d : of_hex (to_hex d) = d.
Proof.
  induction d as [|c d IH]; [done|]. rewrite to_hex_cons, of_hex_byte. by f_equal.
Qed.

#[export] Instance to_hex_inj : Inj (=) (=) to_hex.
Proof. intros a b H. by rewrite <- (of_hex_to_hex a), H, of_hex_to_hex. Qed.

Section Sha256Facts.
Context {E : EVP} {L : EVPLaws E}.

(** The loop over blocks of 4096 bytes is one update with the content. *)
Lemma hash_loop_whole fuel rest ctx :
  (length rest < fuel)%nat -> hash_loop fuel rest ctx = evp_update ctx rest.
Proof.
  revert rest ctx. induction fuel as [|fuel IH]; intros rest ctx Hf; [lia|].
  cbn [hash_loop stream_read].
  destruct (Nat.eqb_spec (length (take 4096 rest)) 4096) as [Hl|Hl].
  - rewrite length_take in Hl.
    rewrite IH by (rewrite length_drop; lia).
    by rewrite evp_update_app, take_drop.
  - rewrite length_take in Hl. rewrite take_ge by lia. done.
Qed.

Lemma sha256_file_whole f p content :
  ifstream_open f p = Some content -> sha256_file true f p = Some (sha256 true content).
Proof.
  intros H. unfold sha256_file, sha256. rewrite H. simpl negb. cbv iota.
  rewrite hash_loop_whole by lia. done.
Qed.

(** ** Properties *)

(** C39: hashing a file block by block gives the hash of its content: for a
    file of any size, [sha256_file] returns what [sha256] returns for the
    bytes of the file, a string of 64 characters. *)
Theorem sha256_file_is_sha256 f p content :
  ifstream_open f p = Some content ->
  sha256_file true f p = Some (sha256 true content) /\ length (sha256 true content) = 64%nat.
Proof.
  intros H. split; [by apply sha256_file_whole|].
  unfold sha256. simpl. rewrite length_to_hex, evp_final_length. done.
Qed.

(** Comparing the hexadecimal strings is comparing the digests: two
    contents have the same [sha256] string exactly when their digests are the
    same bytes. *)
Theorem sha256_eq_iff_digest_eq a b :
  sha256 true a = sha256 true b <->
  evp_final (evp_update evp_init a) = evp_final (evp_update evp_init b).
Proof. unfold sha256. simpl. split; [apply (inj to_hex)|congruence]. Qed.
End Sha256Facts.

(** ** An instance that computes SHA-256 *)

Module RealSha256.

(** The primes below [n], the integer cube root by bisection on [bits] bits,
    and the constants of the standard: 32 bits of the fractional parts of the
    cube roots of the first 64 primes and of the square roots of the first
    eight. *)
Definition is_prime (n : nat) : bool :=
  forallb (fun d => negb (Nat.eqb (n mod d) 0)) (seq 2 (n - 2)).

Definition primes (n : nat) : list Z := Z.of_nat <$> List.filter is_prime (seq 2 (n - 2)).

Fixpoint cube_root (bits : nat) (x r : Z) : Z :=
  match bits with
  | O => r
  | S b =>
      let r' := r + Z.shiftl 1 (Z.of_nat b) in
      cube_root b x (if r' * r' * r' <=? x then r' else r)
  end.

Definition K : list Z := Eval vm_compute in
  (fun p => u32 (cube_root 40 (Z.shiftl p 96) 0)) <$> primes 312.

Definition H0 : list Z := Eval vm_compute in
  (fun p => u32 (Z.sqrt (Z.shiftl p 64))) <$> take 8 (primes 20).

Definition rotr (n x : Z) : Z := Z.lor (Z.shiftr x n) (u32 (Z.shiftl x (32 - n))).
Definition s0 (x : Z) := Z.lxor (Z.lxor (rotr 7 x) (rotr 18 x)) (Z.shiftr x 3).
Definition s1 (x : Z) := Z.lxor (Z.lxor (rotr 17 x) (rotr 19 x)) (Z.shiftr x 10).
Definition S0 (x : Z) := Z.lxor (Z.lxor (rotr 2 x) (rotr 13 x)) (rotr 22 x).
Definition S1 (x : Z) := Z.lxor (Z.lxor (rotr 6 x) (rotr 11 x)) (rotr 25 x).
Definition Ch (x y z : Z) := Z.lxor (Z.land x y) (Z.land (Z.lxor x (2 ^ 32 - 1)) z).
Definition Maj (x y z : Z) := Z.lxor (Z.lxor (Z.land x y) (Z.land x z)) (Z.land y z).

(** The message schedule, most recent word first. *)
Fixpoint schedule (n : nat) (w : list Z) : list Z :=
  match n with
  | O => w
  | S n' =>
      let at' i := nth i w 0 in
      schedule n' (u32 (s1 (at' 1%nat) + at' 6%nat + s0 (at' 14%nat) + at' 15%nat) :: w)
  end.

Definition round (st : list Z) (kw : Z * Z) : list Z :=
  match st with
  | [a; b; c; d; e; f; g; h] =>
      let t1 := u32 (h + S1 e + Ch e f g + kw.1 + kw.2) in
      let t2 := u32 (S0 a + Maj a b c) in
      [u32 (t1 + t2); a; b; c; u32 (d + t1); e; f; g]
  | _ => st
  end.

Definition word (b : str) : Z := fold_left (fun acc c => acc * 256 + ord c) b 0.

Fixpoint words (n : nat) (b : str) : list Z :=
  match n with
  | O => []
  | S n' => word (take 4 b) :: words n' (drop 4 b)
  end.

Definition compress (st : list Z) (block : str) : list Z :=
  let w := reverse (schedule 48 (reverse (words 16 block))) in
  zip_with (fun x y => u32 (x + y)) st (fold_left round (zip K w) st).

Fixpoint blocks (n : nat) (b : str) (st : list Z) : list Z :=
  match n with
  | O => st
  | S n' => blocks n' (drop 64 b) (compress st (take 64 b))
  end.

Definition be_bytes (n : nat) (v : Z) : str :=
  (fun i => chr (Z.shiftr v (8 * Z.of_nat i))) <$> reverse (seq 0 n).

Definition pad (m : str) : str :=
  m ++ chr 128 :: replicate (Z.to_nat ((55 - zlen m) mod 64)) (chr 0) ++ be_bytes 8 (8 * zlen m).

Definition digest (m : str) : str :=
  let p := pad m in
  take 32 (concat (be_bytes 4 <$> blocks (length p / 64) p H0) ++ replicate 32 (chr 0)).

#[local] Instance evp : EVP := {|
  evp_ctx := str; evp_init := []; evp_update := fun c d => c ++ d; evp_final := digest |}.

#[local] Instance evp_laws : EVPLaws evp.
Proof.
  split.
  - intros c a b. symmetry. apply app_assoc.
  - intros c. simpl. unfold digest. rewrite length_take, length_app, length_replicate. lia.
Qed.

(** The vectors of src/src/backend/cpp/tests/test_sha256.cpp. *)
Example sha256_empty :
  sha256 true [] = $"e3b0c44298fc1c149afbf4c8996fb92427ae41e4649b934ca495991b7852b855".
Proof. vm_compute. reflexivity. Qed.

Example sha256_abc :
  sha256 true $"abc" = $"ba7816bf8f01cfea414140de5dae2223b00361a396177a9cb410ff61f20015ad".
Proof. vm_compute. reflexivity. Qed.

Example sha256_message_digest :
  sha256 true $"message digest" =
  $"f7846f55cf23e14eebeab5b4e1550cad5b509e3348fbc4efa3a1413d393cb650".
Proof. vm_compute. reflexivity. Qed.

Definition demo_fs : fsys :=
  FS {[ [ $"w" ] := NDir 493; [ $"w"; $"a.txt" ] := NFile (File $"abc" 420 7) ]} [] 9.

Lemma sha256_file_is_sha256_witness :
  sha256_file true demo_fs $"/w/a.txt" = Some (sha256 true $"abc") /\
  length (sha256 true $"abc") = 64%nat.
Proof. apply (sha256_file_is_sha256 (L := evp_laws)). vm_compute. reflexivity. Defined.

End RealSha256.
