(* ===== verification/FileTransfer.v ===== *)
(** * File transfers (src/src/backend/cpp/src/file_transfer.cpp)

    [handle_file_transfer] connects to a local port of the coordinator and
    downloads a file from it or uploads a file to it; the chunked variants
    write or send one file in chunks.  The file system is threaded through;
    what the kernel, the peer, the disk and OpenSSL's allocator answer is the
    record [tr_os].  The value returned is the message the function logs
    last. *)

From S2P Require Import Prelude Posix FileSys Sha256.

(** ** Outcomes and environment *)

Inductive outcome :=
  | SocketFailed            (* "Failed to create transfer socket" *)
  | BadAddress              (* "Invalid transfer address" *)
  | ConnectFailed           (* "Failed to connect to port" *)
  | BadExpectedSize         (* "Invalid expected_size" *)
  | TmpOpenFailed           (* "Failed to open temp file" *)
  | SizeMismatch (got : Z)  (* "Size mismatch" *)
  | HashMismatch            (* "Hash mismatch" *)
  | DownloadComplete
  | DownloadException
  | UploadNotFound          (* "Upload file not found" *)
  | UploadOpenFailed        (* "Failed to open" *)
  | UploadComplete (sent : Z)
  | NoDirection             (* neither "download" nor "upload": nothing logged *)
  | Escaped.                (* an exception leaves the function *)

#[global] Instance outcome_eq_dec : EqDecision outcome.
Proof. solve_decision. Defined.

(** How the body of one direction is left: by [closeSocket(sock_fd); return],
    by reaching the end of the function, which closes the socket, or by an
    exception no handler catches. *)
Inductive exit := CloseReturn | FallThrough | Raised.

Record tr_os := TrOs {
  tr_socket : bool;              (* socket() succeeds *)
  tr_pton : bool;                (* inet_pton() succeeds *)
  tr_connect : Z -> bool;        (* connect() to a local port succeeds *)
  tr_rx : list read_ev;
  tr_tx : list write_ev;
  tr_disk : disk;
  tr_ctx : bool                  (* EVP_MD_CTX_new() succeeds *)
}.

Definition tmp_of (dest : str) : str := dest ++ $".tmp".

Section FileTransfer.
Context {E : EVP}.

(** ** Download *)

(** The number of steps a receiving script can make. *)
Definition ev_weight (e : read_ev) : nat :=
  match e with RData b => S (length b) | _ => 1 end.

Definition rx_weight (s : list read_ev) : nat := sum_list_with ev_weight s.

(** [while (total_received < expected_size) ...]: the [k]-th write of the
    stream open at [l]. *)
Fixpoint download_loop (fuel : nat) (d : disk) (l : loc) (expected_size total_received : Z)
    (k : nat) (s : list read_ev) (f : fsys) : Z * fsys :=
  match fuel with
  | O => (total_received, f)
  | S fuel' =>
      if negb (total_received <? expected_size) then (total_received, f)
      else
        let to_read := Z.min 4096 (expected_size - total_received) in
        if to_read <=? 0 then (total_received, f)
        else
          match sock_read (Z.to_nat to_read) s with
          | (RdErr _, _) => (total_received, f)
          | (RdBytes [], _) => (total_received, f)
          | (RdBytes buffer, s') =>
              let '(ok, f') := stream_write d k l (Z.to_nat total_received) buffer f in
              if negb ok then (total_received, f')
              else download_loop fuel' d l expected_size (total_received + zlen buffer)
                     (S k) s' f'
          end
  end.

(** [catch (const std::exception& e)] of the download. *)
Definition download_catch (tmp : str) (f : fsys) : exit * outcome * fsys :=
  if fs_exists f tmp then
    match fs_remove f tmp with
    | Ok f' => (FallThrough, DownloadException, f')
    | Throw _ => (Raised, Escaped, f)
    end
  else (FallThrough, DownloadException, f).

(** [fs::remove(tmp_path); closeSocket(sock_fd); return;] inside the [try]. *)
Definition discard (why : outcome) (tmp : str) (f : fsys) : exit * outcome * fsys :=
  match fs_remove f tmp with
  | Ok f' => (CloseReturn, why, f')
  | Throw _ => download_catch tmp f
  end.

(** [!expected_hash.empty()] and the hash is computed and differs. *)
Definition hash_differs (ctx_ok : bool) (f : fsys) (path expected_hash : str) : bool :=
  negb (str_eqb expected_hash []) &&
  match sha256_file ctx_ok f path with
  | Some actual_hash => negb (str_eqb actual_hash expected_hash)
  | None => false
  end.

(** [fs::permissions(dest_path, mode)] when [mode > 0], its exception caught.
    This step is compiled on POSIX systems only, those whose paths FileSys.v
    models. *)
Definition apply_mode (f : fsys) (dest : str) (mode : Z) : fsys :=
  if 0 <? mode then
    match fs_permissions f dest mode with Ok f' => f' | Throw _ => f end
  else f.

Definition download (os : tr_os) (dest : str) (expected_size : Z) (expected_hash : str)
    (mode : Z) (f : fsys) : exit * outcome * fsys :=
  let tmp := tmp_of dest in
  let '(ok, f) := create_directories f (parent_path dest) in
  if negb ok then download_catch tmp f
  else
    match open_trunc f tmp with
    | None => (CloseReturn, TmpOpenFailed, f)
    | Some (l, f) =>
        let '(total_received, f) :=
          download_loop (S (rx_weight (tr_rx os))) (tr_disk os) l expected_size 0 0 (tr_rx os) f in
        let f := stream_close (tr_disk os) l f in
        if negb (total_received =? expected_size) then discard (SizeMismatch total_received) tmp f
        else if hash_differs (tr_ctx os) f tmp expected_hash then discard HashMismatch tmp f
        else
          match fs_rename f tmp dest with
          | Throw _ => download_catch tmp f
          | Ok f => (FallThrough, DownloadComplete, apply_mode f dest mode)
          end
    end.

(** ** Upload *)

(** [while (written < bytes) { n = writeSocket(...); if (n < 0) break;
    written += n; }]: the number of bytes written. *)
Fixpoint write_loop (fuel : nat) (buf : str) (written : nat) (w : wsock) : nat * wsock :=
  match fuel with
  | O => (written, w)
  | S fuel' =>
      if negb (Nat.ltb written (length buf)) then (written, w)
      else
        match sock_write (drop written buf) w with
        | (WrErr _, w') => (written, w')
        | (WrBytes n, w') => write_loop fuel' buf (written + n) w'
        end
  end.

(** [while (total_sent < expected_size) ...], with blocks of at most [block]
    bytes. *)
Fixpoint upload_loop (fuel : nat) (block : Z) (expected_size total_sent : Z) (rest : str)
    (w : wsock) : Z * wsock :=
  match fuel with
  | O => (total_sent, w)
  | S fuel' =>
      if negb (total_sent <? expected_size) then (total_sent, w)
      else
        let to_read := Z.min block (expected_size - total_sent) in
        let '(buffer, rest') := stream_read (Z.to_nat to_read) rest in
        if Nat.eqb (length buffer) 0 then (total_sent, w)
        else
          let '(written, w') := write_loop (S (length (w_script w))) buffer 0 w in
          if Nat.ltb written (length buffer) then (total_sent, w')
          else upload_loop fuel' block expected_size (total_sent + Z.of_nat written) rest' w'
  end.

Definition upload (os : tr_os) (dest : str) (expected_size : Z) (f : fsys)
  : exit * outcome * wsock :=
  let w := WSock (tr_tx os) [] in
  if negb (fs_exists f dest) then (CloseReturn, UploadNotFound, w)
  else
    match ifstream_open f dest with
    | None => (CloseReturn, UploadOpenFailed, w)
    | Some content =>
        let '(total_sent, w) := upload_loop (S (length content)) 4096 expected_size 0 content w in
        (FallThrough, UploadComplete total_sent, w)
    end.

(** ** handle_file_transfer *)

Record tr_result := TrResult {
  r_out : outcome;
  r_fs : fsys;
  r_sent : str;       (* bytes written to the socket *)
  r_closes : nat      (* calls of [closeSocket] *)
}.

Definition closes (e : exit) : nat := match e with Raised => 0 | _ => 1 end.

Definition handle_file_transfer (os : tr_os) (watch_path rel_path : str) (port : Z)
    (direction : str) (expected_size : Z) (expected_hash : str) (mode : Z) (f : fsys)
  : tr_result :=
  if negb (tr_socket os) then TrResult SocketFailed f [] 0
  else if negb (tr_pton os) then TrResult BadAddress f [] 1
  else if negb (tr_connect os (port mod 2 ^ 16)) then TrResult ConnectFailed f [] 1
  else if expected_size <? 0 then TrResult BadExpectedSize f [] 1
  else
    let dest_path := path_append watch_path rel_path in
    if str_eqb direction $"download" then
      let '(e, o, f') := download os dest_path expected_size expected_hash mode f in
      TrResult o f' [] (closes e)
    else if str_eqb direction $"upload" then
      let '(e, o, w) := upload os dest_path expected_size f in
      TrResult o f (w_sent w) (closes e)
    else TrResult NoDirection f [] 1.

(** ** Chunked transfers *)

Inductive chunk_outcome :=
  | ChunkChecksumMismatch
  | ChunkOpenFailed
  | ChunkWriteFailed
  | ChunkStored
  | ChunkFileMismatch
  | ChunkFileComplete
  | ChunkException
  | ChunkEscaped.

(** The hash of the chunk, computed through a scratch file next to the
    temporary one: [None] when removing the scratch file throws. *)
Definition chunk_hash (ctx_ok : bool) (d : disk) (tmp chunk_data : str) (f : fsys)
  : option (str * fsys) :=
  let tmp_hash_path := tmp ++ $".chk" in
  let f :=
    match open_trunc f tmp_hash_path with
    | Some (l, f) => stream_close d l (snd (stream_write d 0 l 0 chunk_data f))
    | None => f
    end in
  let actual := match sha256_file ctx_ok f tmp_hash_path with Some h => h | None => [] end in
  match fs_remove f tmp_hash_path with
  | Ok f => Some (actual, f)
  | Throw _ => None
  end.

Definition handle_chunked_file_download (ctx_ok : bool) (d_chk d : disk) (watch_path rel_path : str)
    (chunk_data : str) (offset : Z) (chunk_checksum : str) (is_last : bool)
    (expected_hash : str) (f : fsys) : chunk_outcome * fsys :=
  let dest_path := path_append watch_path rel_path in
  let tmp_path := tmp_of dest_path in
  match chunk_hash ctx_ok d_chk tmp_path chunk_data f with
  | None => (ChunkEscaped, f)
  | Some (actual_chunk_hash, f) =>
      if negb (str_eqb actual_chunk_hash chunk_checksum) then (ChunkChecksumMismatch, f)
      else
        let '(ok, f) := create_directories f (parent_path dest_path) in
        if negb ok then (ChunkException, f)
        else
          match (match open_existing f tmp_path with
                 | Some r => Some r
                 | None => open_trunc f tmp_path
                 end) with
          | None => (ChunkOpenFailed, f)
          | Some (l, f) =>
              if offset <? 0 then (ChunkWriteFailed, f)
              else
                let '(ok, f) := stream_write d 0 l (Z.to_nat offset) chunk_data f in
                if negb ok then (ChunkWriteFailed, f)
                else
                  let f := stream_close d l f in
                  if negb is_last then (ChunkStored, f)
                  else if hash_differs ctx_ok f tmp_path expected_hash then
                    match fs_remove f tmp_path with
                    | Ok f => (ChunkFileMismatch, f)
                    | Throw _ => (ChunkException, f)
                    end
                  else
                    match fs_rename f tmp_path dest_path with
                    | Ok f => (ChunkFileComplete, f)
                    | Throw _ => (ChunkException, f)
                    end
          end
  end.

Definition CHUNK_SIZE : Z := 16 * 1024 * 1024.

(** [handle_chunked_file_upload]: [None] when the file cannot be opened; the
    flag tells a completed loop from a write error.  The loop differs from the
    one of [upload]: a failed write returns from the function. *)
Fixpoint chunked_upload_loop (fuel : nat) (file_size total_sent : Z) (rest : str) (w : wsock)
  : bool * Z * wsock :=
  match fuel with
  | O => (true, total_sent, w)
  | S fuel' =>
      if negb (total_sent <? file_size) then (true, total_sent, w)
      else
        let to_read := Z.min CHUNK_SIZE (file_size - total_sent) in
        let '(buffer, rest') := stream_read (Z.to_nat to_read) rest in
        if Nat.eqb (length buffer) 0 then (true, total_sent, w)
        else
          let '(written, w') := write_loop (S (length (w_script w))) buffer 0 w in
          if Nat.ltb written (length buffer) then (false, total_sent, w')
          else chunked_upload_loop fuel' file_size (total_sent + Z.of_nat written) rest' w'
  end.

Definition handle_chunked_file_upload (watch_path rel_path : str) (file_size start_offset : Z)
    (w : wsock) (f : fsys) : option (bool * Z * wsock) :=
  match ifstream_open f (path_append watch_path rel_path) with
  | None => None
  | Some content =>
      let rest := if start_offset <? 0 then [] else drop (Z.to_nat start_offset) content in
      Some (chunked_upload_loop (S (length content)) file_size start_offset rest w)
  end.

End FileTransfer.

(** ** Lemmas: the download loop *)

Lemma stream_write_with d k f l c m data :
  exists (ok : bool) (n : nat), stream_write d k l (length c) data (with_file f l c m) =
    (ok, with_file f l (c ++ (if ok then data else take n data)) m) /\
    (disk_fail d = None -> ok = true).
Proof.
  unfold stream_write. rewrite file_content_with.
  destruct (disk_fail d) as [[k' n]|].
  - destruct (Nat.eqb k k'); [exists false, n|exists true, 0%nat];
      rewrite set_content_with, write_at_end; done.
  - exists true, 0%nat. by rewrite set_content_with, write_at_end.
Qed.

Lemma rx_weight_read count s c b s' :
  sock_read count s = (RdBytes (c :: b), s') -> (rx_weight s' < rx_weight s)%nat.
Proof.
  destruct s as [|[d| |] s]; try done. simpl. intros [= Ht <-].
  destruct (drop count d) as [|x r] eqn:E; simpl; [lia|].
  assert (length (x :: r) + length (c :: b) = length d)%nat as H.
  { rewrite <- E, <- Ht, <- length_app. rewrite <- (take_drop count d) at 3.
    rewrite !length_app. lia. }
  simpl in H. unfold rx_weight. lia.
Qed.

(** Whatever happens, the loop only changes the content of the open file, and
    when it has received as many bytes as expected, they are the next bytes of
    the stream. *)
Lemma download_loop_sound fuel d l expected total k s f c m :
  zlen c = total -> total <= expected ->
  exists (total' : Z) (c' : str),
    download_loop fuel d l expected total k s (with_file f l c m) = (total', with_file f l c' m) /\
    total' <= expected /\
    (total' = expected ->
     exists (bs : str) t,
       c' = c ++ bs /\ zlen bs = expected - total /\ toks s = (TByte <$> bs) ++ t).
Proof.
  revert total k s c. induction fuel as [|fuel IH]; intros total k s c Hc Hle.
  { exists total, c. split_and!; [done..|]. intros ->. exists [], (toks s).
    rewrite app_nil_r, zlen_nil. split_and!; [done|lia|done]. }
  cbn [download_loop]. destruct (Z.ltb_spec total expected) as [Hlt|Hge]; simpl negb; cbv iota.
  2:{ exists total, c. split_and!; [done..|]. intros ->. exists [], (toks s).
      rewrite app_nil_r, zlen_nil. split_and!; [done|lia|done]. }
  assert (Hstop : exists total' c', (total, with_file f l c m) = (total', with_file f l c' m) /\
    total' <= expected /\ (total' = expected -> exists (bs : str) t, c' = c ++ bs /\
      zlen bs = expected - total /\ toks s = (TByte <$> bs) ++ t))
    by (exists total, c; split_and!; [done..|lia]).
  destruct (Z.leb_spec (Z.min 4096 (expected - total)) 0); [lia|].
  destruct (sock_read (Z.to_nat (Z.min 4096 (expected - total))) s) as [[[|a b]|e] s'] eqn:E;
    [done| |done]. clear Hstop.
  destruct (stream_write_with d k f l c m (a :: b)) as (ok & n & Ew & _).
  replace (Z.to_nat total) with (length c) by (unfold zlen in Hc; lia). rewrite Ew.
  destruct ok; simpl negb; cbv iota.
  2:{ eexists total, _. split_and!; [done|lia|lia]. }
  pose proof (sock_read_toks _ _ _ _ E ltac:(done)) as Ht.
  assert (Hlen : zlen (a :: b) <= expected - total).
  { pose proof (sock_read_length _ _ _ _ E). unfold zlen. lia. }
  destruct (IH (total + zlen (a :: b)) (S k) s' (c ++ a :: b)) as (total' & c' & Ed & Hle' & Hex);
    [rewrite zlen_app; lia|lia|].
  exists total', c'. split_and!; [done|done|]. intros Heq.
  destruct (Hex Heq) as (bs & t & -> & Hbs & Hs').
  exists ((a :: b) ++ bs), t. rewrite <- app_assoc, zlen_app. split_and!; [done|lia|].
  rewrite Ht, Hs', fmap_app. by rewrite <- app_assoc.
Qed.

(** When the stream delivers the expected bytes and the disk takes them, the
    loop stores them all. *)
Lemma download_loop_complete fuel d l expected total k s f c m bs t :
  disk_fail d = None -> (rx_weight s < fuel)%nat ->
  zlen c = total -> zlen bs = expected - total -> toks s = (TByte <$> bs) ++ t ->
  download_loop fuel d l expected total k s (with_file f l c m) =
    (expected, with_file f l (c ++ bs) m).
Proof.
  intros Hd. revert total k s c bs.
  induction fuel as [|fuel IH]; intros total k s c bs Hw Hc Hbs Ht; [lia|].
  cbn [download_loop]. destruct (Z.ltb_spec total expected) as [Hlt|Hge]; simpl negb; cbv iota.
  2:{ destruct bs; [|rewrite zlen_cons in Hbs; pose proof (zlen_nonneg bs); lia].
      rewrite app_nil_r. rewrite zlen_nil in Hbs. f_equal. lia. }
  destruct (Z.leb_spec (Z.min 4096 (expected - total)) 0); [lia|].
  destruct (sock_read_prefix (Z.to_nat (Z.min 4096 (expected - total))) s bs t)
    as (a & b & y & s' & E & Hy & Hl & Hs'); [lia| |done|left; unfold zlen in *; lia|].
  { intros ->. rewrite zlen_nil in Hbs. lia. }
  rewrite E. destruct (stream_write_with d k f l c m (a :: b)) as (ok & n & Ew & Hok).
  replace (Z.to_nat total) with (length c) by (unfold zlen in Hc; lia). rewrite Ew, Hok by done.
  simpl negb. cbv iota. pose proof (rx_weight_read _ _ _ _ _ E). rewrite (IH _ _ _ _ y).
  - rewrite Hy. by rewrite <- app_assoc.
  - lia.
  - rewrite zlen_app. lia.
  - rewrite Hy, zlen_app in Hbs. lia.
  - done.
Qed.

(** ** Lemmas: the end of a download *)

Lemma slash_not_in_tmp : slash ∉ $".tmp".
Proof. by_compute || (apply (bool_decide_unpack _); vm_compute; done). Qed.

(** The mode of a downloaded file. *)
Definition final_mode (mode m : Z) : Z := if 0 <? mode then Z.land mode 4095 else m.

Section DownloadFacts.
Context {E : EVP}.
Variables (f1 : fsys) (dest : str) (lt : loc).
Hypothesis Htmp : resolve f1 (tmp_of dest) = Some lt.
Hypothesis Hlt : lt <> [].
Hypothesis Hnd : is_dir_at f1 lt = false.

(** The file system without the temporary file. *)
Definition cleaned : fsys := set_nodes (delete lt (fs_nodes f1)) f1.

(** The file system with the temporary file moved over [ld]. *)
Definition moved (ld : loc) (c : str) (m : Z) : fsys :=
  set_nodes (<[ld := NFile (File c m (fs_now f1))]> (delete lt (fs_nodes f1))) f1.

Lemma discard_with why c m :
  discard why (tmp_of dest) (with_file f1 lt c m) = (CloseReturn, why, cleaned).
Proof. unfold discard. by rewrite (fs_remove_with f1 lt). Qed.

Lemma download_catch_with c m :
  download_catch (tmp_of dest) (with_file f1 lt c m) = (FallThrough, DownloadException, cleaned).
Proof.
  unfold download_catch, fs_exists.
  rewrite (node_at_loc _ _ lt); [|by rewrite resolve_with|done].
  unfold with_file at 1. simpl. rewrite lookup_insert_eq.
  by rewrite (fs_remove_with f1 lt).
Qed.

Lemma is_dir_at_resolved f p l :
  resolve f p = Some l -> fs_is_directory f p = is_dir_at f l.
Proof.
  intros H. unfold fs_is_directory, node_at, is_dir_at. rewrite H. simpl. by destruct l.
Qed.

Lemma moved_agree ld c m :
  ld <> [] -> is_dir_at f1 ld = false -> dirs_agree f1 (moved ld c m).
Proof.
  intros Hld Hdd. split; [done|]. intros l. unfold is_dir_at, moved. simpl.
  destruct l as [|x l]; [done|].
  rewrite lookup_insert. destruct (decide (ld = x :: l)) as [<-|].
  { unfold is_dir_at in Hdd. by destruct ld. }
  rewrite lookup_delete. destruct (decide (lt = x :: l)) as [<-|]; [|done].
  unfold is_dir_at in Hnd. by destruct lt.
Qed.

Lemma apply_mode_moved ld c m mode :
  resolve f1 dest = Some ld -> ld <> [] -> is_dir_at f1 ld = false ->
  apply_mode (moved ld c m) dest mode = moved ld c (final_mode mode m).
Proof.
  intros Hd Hld Hdd. unfold apply_mode, final_mode. destruct (0 <? mode); [|done].
  assert (Hr : resolve (moved ld c m) dest = Some ld).
  { rewrite <- Hd. symmetry. apply resolve_proper; [by apply moved_agree|done]. }
  unfold fs_permissions. rewrite Hr, (node_at_loc _ _ ld) by done.
  unfold moved, set_nodes. simpl. rewrite lookup_insert_eq. by rewrite insert_insert_eq.
Qed.

(** The end of the download once the loop and [close] have left [c] in the
    temporary file. *)
Definition finish (os : tr_os) (expected_size : Z) (expected_hash : str) (mode total : Z)
    (f : fsys) : exit * outcome * fsys :=
  if negb (total =? expected_size) then discard (SizeMismatch total) (tmp_of dest) f
  else if hash_differs (tr_ctx os) f (tmp_of dest) expected_hash then
    discard HashMismatch (tmp_of dest) f
  else
    match fs_rename f (tmp_of dest) dest with
    | Throw _ => download_catch (tmp_of dest) f
    | Ok f => (FallThrough, DownloadComplete, apply_mode f dest mode)
    end.

(** Its three kinds of results. *)
Lemma finish_cases os size hash mode total c m :
  (exists e o, finish os size hash mode total (with_file f1 lt c m) = (e, o, cleaned) /\
     o <> DownloadComplete /\ e <> Raised) \/
  (exists ld, resolve f1 dest = Some ld /\ ld <> [] /\ is_dir_at f1 ld = false /\ ld <> lt /\
     finish os size hash mode total (with_file f1 lt c m) =
       (FallThrough, DownloadComplete, moved ld c (final_mode mode m)) /\
     total = size /\ hash_differs (tr_ctx os) (with_file f1 lt c m) (tmp_of dest) hash = false).
Proof.
  unfold finish. destruct (Z.eqb_spec total size) as [Hs|]; simpl negb; cbv iota.
  2:{ left. rewrite discard_with. by eexists _, _. }
  destruct (hash_differs _ _ _ _) eqn:Hh.
  { left. rewrite discard_with. by eexists _, _. }
  destruct (resolve f1 dest) as [ld|] eqn:Hd.
  - destruct (resolve_suffix f1 dest $".tmp" ld lt) as [Hne _];
      [apply slash_not_in_tmp|simpl; lia|done|done|].
    rewrite (fs_rename_with f1 lt _ Htmp Hlt Hnd dest ld) by done.
    rewrite (is_dir_at_resolved _ _ _ Hd). destruct (is_dir_at f1 ld) eqn:Hdd.
    + left. rewrite download_catch_with. by eexists _, _.
    + right. assert (ld <> []) by (intros ->; done).
      exists ld. split_and!; try done. f_equal. by apply apply_mode_moved.
  - left. unfold fs_rename. rewrite !(resolve_with f1 lt) by done. rewrite Htmp, Hd.
    rewrite download_catch_with. by eexists _, _.
Qed.
End DownloadFacts.

Section DownloadTheorems.
Context {E : EVP}.

(** A download that opens its temporary file is the loop, [close] and
    [finish]. *)
Lemma download_opened os dest size hash mode f f1 lt f2 :
  create_directories f (parent_path dest) = (true, f1) ->
  open_trunc f1 (tmp_of dest) = Some (lt, f2) ->
  download os dest size hash mode f =
    let '(total, f3) := download_loop (S (rx_weight (tr_rx os))) (tr_disk os) lt size 0 0
                          (tr_rx os) f2 in
    finish dest os size hash mode total (stream_close (tr_disk os) lt f3).
Proof. intros H1 H2. unfold download, finish. rewrite H1. simpl negb. cbv iota. by rewrite H2. Qed.

Lemma stream_close_with d l f c m :
  stream_close d l (with_file f l c m) = with_file f l (take (length c - disk_lost d) c) m.
Proof. unfold stream_close. by rewrite file_content_with, set_content_with. Qed.

(** What a download that does not complete leaves. *)
Lemma download_incomplete os dest size hash mode f e o f' l :
  0 <= size -> download os dest size hash mode f = (e, o, f') -> o <> DownloadComplete ->
  resolve (snd (create_directories f (parent_path dest))) (tmp_of dest) <> Some l ->
  fs_nodes f' !! l = fs_nodes (snd (create_directories f (parent_path dest))) !! l.
Proof.
  intros Hsize Hdl Ho Hl.
  destruct (create_directories f (parent_path dest)) as [ok f1] eqn:Hc. simpl in *.
  destruct ok.
  2:{ unfold download in Hdl. rewrite Hc in Hdl. simpl in Hdl. unfold download_catch in Hdl.
      destruct (fs_exists f1 (tmp_of dest)); [|by injection Hdl as _ _ <-].
      destruct (fs_remove f1 (tmp_of dest)) eqn:Hr; injection Hdl as _ _ <-; [|done].
      by eapply fs_remove_other. }
  destruct (open_trunc f1 (tmp_of dest)) as [[lt f2]|] eqn:Ho2.
  2:{ unfold download in Hdl. rewrite Hc in Hdl. simpl in Hdl. rewrite Ho2 in Hdl.
      by injection Hdl as _ _ <-. }
  rewrite (download_opened _ _ _ _ _ _ f1 lt f2) in Hdl by done.
  apply open_trunc_spec in Ho2 as (Hres & Hlt & Hnd & m & ->).
  destruct (download_loop_sound (S (rx_weight (tr_rx os))) (tr_disk os) lt size 0 0 (tr_rx os)
    f1 [] m) as (total & c & Hloop & _); [done|done|].
  rewrite Hloop, stream_close_with in Hdl.
  destruct (finish_cases f1 dest lt Hres Hlt Hnd os size hash mode total
    (take (length c - disk_lost (tr_disk os)) c) m) as [(e' & o' & Hf & _)|(ld & _ & _ & _ & _ & Hf & _)];
    rewrite Hf in Hdl; injection Hdl as <- <- <-; [|done].
  unfold cleaned. simpl. apply lookup_delete_ne. congruence.
Qed.

(** What a completed download leaves. *)
Lemma download_completed os dest size hash mode f e f' :
  0 <= size -> download os dest size hash mode f = (e, DownloadComplete, f') ->
  exists f1 lt ld bs c m t,
    create_directories f (parent_path dest) = (true, f1) /\
    resolve f1 (tmp_of dest) = Some lt /\ resolve f1 dest = Some ld /\ ld <> lt /\
    toks (tr_rx os) = (TByte <$> bs) ++ t /\ zlen bs = size /\
    c = take (length bs - disk_lost (tr_disk os)) bs /\
    f' = moved f1 lt ld c (final_mode mode m) /\ resolve f' dest = Some ld /\ ld <> [] /\
    resolve f' (tmp_of dest) = Some lt /\
    hash_differs (tr_ctx os) (with_file f1 lt c m) (tmp_of dest) hash = false /\
    ifstream_open (with_file f1 lt c m) (tmp_of dest) = Some c.
Proof.
  intros Hsize Hdl.
  destruct (create_directories f (parent_path dest)) as [ok f1] eqn:Hc.
  destruct ok.
  2:{ unfold download in Hdl. rewrite Hc in Hdl. simpl in Hdl. unfold download_catch in Hdl.
      destruct (fs_exists f1 (tmp_of dest)); [|done].
      by destruct (fs_remove f1 (tmp_of dest)). }
  destruct (open_trunc f1 (tmp_of dest)) as [[lt f2]|] eqn:Ho2.
  2:{ unfold download in Hdl. rewrite Hc in Hdl. simpl in Hdl. by rewrite Ho2 in Hdl. }
  rewrite (download_opened _ _ _ _ _ _ f1 lt f2) in Hdl by done.
  apply open_trunc_spec in Ho2 as (Hres & Hlt & Hnd & m & ->).
  destruct (download_loop_sound (S (rx_weight (tr_rx os))) (tr_disk os) lt size 0 0 (tr_rx os)
    f1 [] m) as (total & c & Hloop & _ & Hbs); [done|done|].
  rewrite Hloop, stream_close_with in Hdl.
  destruct (finish_cases f1 dest lt Hres Hlt Hnd os size hash mode total
    (take (length c - disk_lost (tr_disk os)) c) m)
    as [(e' & o' & Hf & Ho & _)|(ld & Hd & Hld & Hdd & Hne & Hf & Htot & Hh)];
    rewrite Hf in Hdl; [congruence|]. injection Hdl as _ <-.
  destruct (Hbs Htot) as (bs & t & -> & Hlen & Ht). simpl app in *.
  exists f1, lt, ld, bs, (take (length bs - disk_lost (tr_disk os)) bs), m, t.
  split_and!; try done; [lia| | |by apply (ifstream_with f1 lt)].
  - rewrite <- Hd. symmetry. apply resolve_proper; [by eapply moved_agree|done].
  - rewrite <- Hres. symmetry. apply resolve_proper; [by eapply moved_agree|done].
Qed.
End DownloadTheorems.

(** ** Lemmas: uploads *)

Lemma write_loop_sent fuel buf written w n w' :
  (written <= length buf)%nat ->
  write_loop fuel buf written w = (n, w') ->
  (written <= n <= length buf)%nat /\
  w_sent w' = w_sent w ++ take (n - written) (drop written buf).
Proof.
  revert written w. induction fuel as [|fuel IH]; intros written w Hw; simpl.
  { intros [= <- <-]. rewrite Nat.sub_diag, app_nil_r. split; [lia|done]. }
  destruct (Nat.ltb_spec written (length buf)); simpl.
  2:{ intros [= <- <-]. rewrite Nat.sub_diag, app_nil_r. split; [lia|done]. }
  destruct (sock_write (drop written buf) w) as [[k|e] w1] eqn:Es.
  - apply sock_write_sent in Es as [Hk Es]. rewrite length_drop in Hk. intros H1.
    apply IH in H1 as [Hn Hs]; [|lia]. split; [lia|].
    rewrite Hs, Es, <- app_assoc. f_equal.
    rewrite <- drop_drop, take_take_drop. f_equal. lia.
  - intros [= <- <-]. apply sock_write_err in Es. rewrite Nat.sub_diag, app_nil_r.
    split; [lia|done].
Qed.

(** The kernel takes at least one byte at each call. *)
Definition accepting (w : list write_ev) : Prop :=
  Forall (fun e => exists n, e = WAccept (S n)) w.

Lemma write_loop_accepts fuel buf written w :
  (written <= length buf)%nat -> (length (w_script w) < fuel)%nat ->
  accepting (w_script w) -> (length buf - written <= length (w_script w))%nat ->
  exists w', write_loop fuel buf written w = (length buf, w') /\ accepting (w_script w') /\
    (length (w_script w) - (length buf - written) <= length (w_script w'))%nat.
Proof.
  revert written w. induction fuel as [|fuel IH]; intros written w Hw Hf Ha Hl; [lia|]. simpl.
  destruct (Nat.ltb_spec written (length buf)); simpl.
  2:{ exists w. split_and!; [f_equal; lia|done|lia]. }
  unfold sock_write. destruct w as [[|e s] sent]; simpl in *; [lia|].
  inversion Ha as [|? ? [n ->] Hs']; subst. rewrite length_drop.
  assert (Hk : (1 <= S n `min` (length buf - written) <= length buf - written)%nat) by lia.
  revert Hk. generalize (S n `min` (length buf - written))%nat. intros k Hk.
  destruct (IH (written + k)%nat (WSock s (sent ++ take k (drop written buf))))
    as (w' & Hw' & H1 & H2); simpl in *; [lia|lia|done|lia|].
  exists w'. split_and!; [done|done|lia].
Qed.

(** The bytes an upload puts on the wire are a prefix of what it was asked to
    send. *)
Lemma upload_loop_sent fuel block expected total rest w total' w' :
  0 < block -> 0 <= total ->
  upload_loop fuel block expected total rest w = (total', w') ->
  exists k, w_sent w' = w_sent w ++ take k (take (Z.to_nat (expected - total)) rest) /\
    total <= total' /\ total' - total <= Z.of_nat k /\
    (k <= length (take (Z.to_nat (expected - total)) rest))%nat.
Proof.
  intros Hb. revert total rest w. induction fuel as [|fuel IH]; intros total rest w Ht;
    cbn [upload_loop stream_read].
  { intros [= <- <-]. exists 0%nat. rewrite app_nil_r. split_and!; [done|lia..]. }
  destruct (Z.ltb_spec total expected); cbn [negb];
    [|intros [= <- <-]; exists 0%nat; rewrite app_nil_r; split_and!; [done|lia..]].
  set (q := Z.to_nat (Z.min block (expected - total))).
  destruct (Nat.eqb_spec (length (take q rest)) 0);
    [intros [= <- <-]; exists 0%nat; rewrite app_nil_r; split_and!; [done|lia..]|].
  destruct (write_loop (S (length (w_script w))) (take q rest) 0 w) as [n1 w1] eqn:Ew.
  apply write_loop_sent in Ew as [Hn1 Hs1]; [|lia]. rewrite Nat.sub_0_r, drop_0 in Hs1.
  rewrite length_take in Hn1, n.
  assert (Hpre : take n1 (take q rest) = take n1 (take (Z.to_nat (expected - total)) rest))
    by (rewrite !take_take; f_equal; lia).
  destruct (Nat.ltb_spec n1 (length (take q rest))) as [Hlt|Hge]; rewrite length_take in *.
  - intros [= <- <-]. exists n1. rewrite Hs1, Hpre. split_and!; [done|lia..].
  - intros H1. apply IH in H1 as (k & Hs & Hle & Hk & Hkl); [|lia].
    exists (n1 + k)%nat. rewrite Hs, Hs1, <- app_assoc, Hpre. split_and!; [|lia|lia|].
    + f_equal. rewrite <- (take_take_drop _ n1 k). f_equal. f_equal.
      assert (Hd : drop q rest = drop n1 rest).
      { destruct (le_lt_dec q (length rest)); [f_equal; lia|]. rewrite !drop_ge; [done|lia..]. }
      rewrite Hd, take_drop_commute. f_equal. f_equal. lia.
    + rewrite length_take, length_drop in *. lia.
Qed.

(** With a peer that takes everything, the whole of what was asked for is
    sent, and counted. *)
Lemma upload_loop_complete fuel block expected total rest w :
  0 < block -> 0 <= total -> (length rest < fuel)%nat ->
  accepting (w_script w) -> (length rest <= length (w_script w))%nat ->
  exists w', upload_loop fuel block expected total rest w =
    (total + zlen (take (Z.to_nat (expected - total)) rest), w') /\
    w_sent w' = w_sent w ++ take (Z.to_nat (expected - total)) rest.
Proof.
  intros Hb. revert total rest w. induction fuel as [|fuel IH]; intros total rest w Ht Hf Ha Hl;
    [lia|]. cbn [upload_loop stream_read].
  destruct (Z.ltb_spec total expected); cbn [negb].
  2:{ exists w. replace (Z.to_nat (expected - total)) with 0%nat by lia.
      rewrite app_nil_r. unfold zlen. simpl. split; [f_equal; lia|done]. }
  set (q := Z.to_nat (Z.min block (expected - total))).
  destruct (Nat.eqb_spec (length (take q rest)) 0) as [H0|H0]; rewrite length_take in H0.
  { exists w. destruct rest; [|simpl in H0; lia]. rewrite take_nil, app_nil_r. unfold zlen. simpl.
    split; [f_equal; lia|done]. }
  destruct (write_loop_accepts (S (length (w_script w))) (take q rest) 0 w)
    as (w1 & Ew & Ha1 & Hl1); [lia|lia|done|rewrite length_take; lia|].
  rewrite Ew, Nat.ltb_irrefl.
  apply write_loop_sent in Ew as [_ Hs1]; [|lia]. rewrite Nat.sub_0_r, drop_0 in Hs1.
  rewrite take_ge in Hs1 by lia. rewrite length_take in *.
  destruct (IH (total + Z.of_nat (q `min` length rest)) (drop q rest) w1)
    as (w' & E' & Hs'); [lia|rewrite length_drop; lia|done|rewrite length_drop; lia|].
  exists w'. rewrite E', Hs', Hs1, <- app_assoc.
  assert (Hcat : take q rest ++ take (Z.to_nat (expected - (total + Z.of_nat (q `min` length rest))))
    (drop q rest) = take (Z.to_nat (expected - total)) rest).
  { destruct (le_lt_dec (length rest) q).
    - rewrite drop_ge, take_nil, app_nil_r by lia. rewrite !take_ge; [done|lia..].
    - rewrite take_take_drop. f_equal. rewrite Nat.min_l by lia. subst q. lia. }
  split; [|by rewrite Hcat]. f_equal. rewrite <- Hcat, zlen_app.
  unfold zlen. rewrite !length_take. lia.
Qed.

(** ** Lemmas: chunked downloads *)

Section Chunked.
Context {E : EVP} {L : EVPLaws E}.
Variables (f : fsys) (watch rel : str).
Let dest := path_append watch rel.
Let tmp := tmp_of dest.
Variables (lt lk ld : loc).
Hypothesis Hdirs : create_directories f (parent_path dest) = (true, f).
Hypothesis Htmp : resolve f tmp = Some lt.
Hypothesis Hchk : resolve f (tmp ++ $".chk") = Some lk.
Hypothesis Hdest : resolve f dest = Some ld.
Hypothesis Hlk : fs_nodes f !! lk = None.
Hypothesis Hlt : fs_nodes f !! lt = None.
Hypothesis Hpt : is_dir_at f (parent_loc lt) = true.
Hypothesis Hpk : is_dir_at f (parent_loc lk) = true.
Hypothesis Hld : ld <> [].
Hypothesis Hdd : is_dir_at f ld = false.

Lemma chunk_locs : lt <> [] /\ lk <> [] /\ lk <> lt /\ lt <> ld.
Proof.
  destruct (resolve_suffix f dest $".tmp" ld lt) as [H1 H2];
    [apply slash_not_in_tmp|simpl; lia|done|done|].
  destruct (resolve_suffix f tmp $".chk" lt lk) as [H3 H4];
    [|simpl; lia|done|done|done].
  apply (bool_decide_unpack _). vm_compute. done.
Qed.

(** The file system with [c] in the temporary file, or without it. *)
Definition tmp_state (c : option str) : fsys :=
  match c with None => f | Some c => with_file f lt c 420 end.

Lemma is_dir_lt : is_dir_at f lt = false.
Proof. unfold is_dir_at. rewrite Hlt. destruct chunk_locs as [? _]. by destruct lt. Qed.

Lemma tmp_state_agree c : dirs_agree f (tmp_state c).
Proof.
  destruct c; [|done]. apply with_file_agree; [apply chunk_locs|apply is_dir_lt].
Qed.

Lemma tmp_state_nodes c l : l <> lt -> fs_nodes (tmp_state c) !! l = fs_nodes f !! l.
Proof. intros. destruct c; [|done]. by apply lookup_insert_ne. Qed.

Lemma open_trunc_fresh g p l :
  resolve g p = Some l -> l <> [] -> is_dir_at g (parent_loc l) = true ->
  fs_nodes g !! l = None -> open_trunc g p = Some (l, with_file g l [] 420).
Proof.
  intros Hr Hl Hp Hn. unfold open_trunc. rewrite Hr, Hp, Hn. by destruct l.
Qed.

Lemma stream_write_good k g l c m pos data :
  stream_write good_disk k l pos data (with_file g l c m) =
    (true, with_file g l (write_at c pos data) m).
Proof. unfold stream_write. simpl. by rewrite file_content_with, set_content_with. Qed.

Lemma stream_close_good g l c m : stream_close good_disk l (with_file g l c m) = with_file g l c m.
Proof. rewrite stream_close_with. simpl. rewrite Nat.sub_0_r. by rewrite take_ge. Qed.

Lemma chunk_hash_good c data :
  chunk_hash true good_disk tmp data (tmp_state c) = Some (sha256 true data, tmp_state c).
Proof.
  destruct chunk_locs as (H1 & H2 & H3 & H4).
  assert (Hr : resolve (tmp_state c) (tmp ++ $".chk") = Some lk).
  { rewrite <- Hchk. symmetry. apply resolve_proper; [apply tmp_state_agree|done]. }
  assert (Hn : fs_nodes (tmp_state c) !! lk = None) by (by rewrite tmp_state_nodes).
  assert (Hd : is_dir_at (tmp_state c) lk = false)
    by (unfold is_dir_at; rewrite Hn; by destruct lk).
  unfold chunk_hash. rewrite (open_trunc_fresh _ _ lk); [|done..| |done].
  2:{ rewrite <- Hpk. symmetry. apply tmp_state_agree. }
  rewrite stream_write_good. simpl snd. rewrite stream_close_good.
  change (write_at [] 0 data) with (write_at [] (length (@nil ascii)) data).
  rewrite write_at_end. simpl app.
  erewrite sha256_file_whole by (apply ifstream_with; done).
  by rewrite scratch_file.
Qed.

Definition stored (c : option str) (offset : Z) (data : str) : str :=
  write_at (default [] c) (Z.to_nat offset) data.

(** One chunk with a right checksum. *)
Lemma chunk_step c offset data is_last hash :
  0 <= offset ->
  handle_chunked_file_download true good_disk good_disk watch rel data offset (sha256 true data)
    is_last hash (tmp_state c) =
  if is_last then
    if hash_differs true (tmp_state (Some (stored c offset data))) tmp hash then
      (ChunkFileMismatch, f)
    else (ChunkFileComplete, moved f lt ld (stored c offset data) 420)
  else (ChunkStored, tmp_state (Some (stored c offset data))).
Proof.
  intros Ho. destruct chunk_locs as (H1 & H2 & H3 & H4). pose proof is_dir_lt as Hd.
  unfold handle_chunked_file_download. fold dest. fold tmp.
  rewrite chunk_hash_good, str_eqb_refl. simpl negb. cbv iota.
  rewrite (create_directories_agree f _ _ Hdirs (tmp_state_agree c)). simpl negb. cbv iota.
  assert (Hr : resolve (tmp_state c) tmp = Some lt).
  { rewrite <- Htmp. symmetry. apply resolve_proper; [apply tmp_state_agree|done]. }
  assert (Hopen : (match open_existing (tmp_state c) tmp with
    | Some r => Some r | None => open_trunc (tmp_state c) tmp end)
    = Some (lt, with_file f lt (default [] c) 420)).
  { unfold open_existing. rewrite Hr. destruct c as [c|]; simpl tmp_state.
    - unfold with_file at 1. simpl. rewrite lookup_insert_eq. done.
    - rewrite Hlt. by apply open_trunc_fresh. }
  rewrite Hopen. destruct (Z.ltb_spec offset 0); [lia|].
  rewrite stream_write_good. simpl negb. cbv iota. rewrite stream_close_good.
  fold (stored c offset data). destruct is_last; [|done]. simpl negb. cbv iota.
  change (with_file f lt (stored c offset data) 420)
    with (tmp_state (Some (stored c offset data))).
  destruct (hash_differs _ _ _ _); simpl tmp_state.
  - by rewrite scratch_file.
  - rewrite (fs_rename_with f lt tmp Htmp H1 Hd dest ld) by done.
    by rewrite (is_dir_at_resolved _ _ _ Hdest), Hdd.
Qed.
End Chunked.

(** The calls for a list of chunks: the last of the list is sent as the last
    chunk of the file. *)
Fixpoint send_chunks `{EVP} (watch rel hash : str) (cs : list (Z * str)) (f : fsys)
  : chunk_outcome * fsys :=
  match cs with
  | [] => (ChunkStored, f)
  | (offset, data) :: cs' =>
      let r := handle_chunked_file_download true good_disk good_disk watch rel data offset
                 (sha256 true data) (bool_decide (cs' = [])) hash f in
      match cs' with [] => r | _ => send_chunks watch rel hash cs' (snd r) end
  end.

(** [c] agrees with the [i]-th byte of [data] at the offsets already written,
    and is no longer. *)
Definition slice_of (data : str) (ch : Z * str) : Prop :=
  0 <= ch.1 /\ ch.2 = take (length ch.2) (drop (Z.to_nat ch.1) data).

Definition covers (cs : list (Z * str)) (i : nat) : Prop :=
  exists ch, ch ∈ cs /\ (Z.to_nat ch.1 <= i < Z.to_nat ch.1 + length ch.2)%nat.

Lemma write_slice data c ch i :
  slice_of data ch -> (length c <= length data)%nat ->
  let c' := write_at c (Z.to_nat ch.1) ch.2 in
  (ch.2 <> [] -> (length c' <= length data)%nat) /\
  ((Z.to_nat ch.1 <= i < Z.to_nat ch.1 + length ch.2)%nat -> c' !! i = data !! i) /\
  ((i < length c)%nat -> c !! i = data !! i -> c' !! i = data !! i).
Proof.
  intros [Ho Hs] Hl. simpl. destruct ch as [o d]; simpl in *.
  assert (Hd : forall j, (j < length d)%nat -> d !! j = data !! (Z.to_nat o + j)%nat).
  { intros j Hj. rewrite Hs, lookup_take_lt by done. apply lookup_drop. }
  assert (Hlen : (length d <= length data - Z.to_nat o)%nat).
  { rewrite Hs, length_take, length_drop. lia. }
  split_and!.
  - intros Hne. rewrite length_write_at. destruct d; [done|]. simpl in *. lia.
  - intros Hi. rewrite lookup_write_at.
    rewrite decide_False by lia. rewrite decide_True by lia. rewrite Hd by lia. f_equal. lia.
  - intros Hi Hci. rewrite lookup_write_at. destruct (decide (i < Z.to_nat o)%nat).
    + by rewrite decide_True.
    + destruct (decide (i < Z.to_nat o + length d)%nat); [|done].
      rewrite Hd by lia. f_equal. lia.
Qed.

Section ChunkedFacts.
Context {E : EVP} {L : EVPLaws E}.

(** What [send_chunks] needs of the file system: the directory of the file
    exists, and there is no temporary or scratch file in it. *)
Record chunk_ready (f : fsys) (dest : str) (lt lk ld : loc) : Prop := {
  cr_dirs : create_directories f (parent_path dest) = (true, f);
  cr_tmp : resolve f (tmp_of dest) = Some lt;
  cr_chk : resolve f (tmp_of dest ++ $".chk") = Some lk;
  cr_dest : resolve f dest = Some ld;
  cr_lk : fs_nodes f !! lk = None;
  cr_lt : fs_nodes f !! lt = None;
  cr_pt : is_dir_at f (parent_loc lt) = true;
  cr_pk : is_dir_at f (parent_loc lk) = true;
  cr_ld : ld <> [];
  cr_dd : is_dir_at f ld = false
}.

Lemma hash_agrees f l p c m hash :
  resolve f p = Some l -> l <> [] -> is_dir_at f l = false ->
  hash = [] \/ hash = sha256 true c -> hash_differs true (with_file f l c m) p hash = false.
Proof.
  intros Hr Hl Hd [-> | ->]; [done|]. unfold hash_differs.
  erewrite sha256_file_whole by (by apply (ifstream_with f l)).
  rewrite str_eqb_refl. apply andb_false_r.
Qed.

Lemma send_chunks_stored f watch rel lt lk ld hash data cs c :
  chunk_ready f (path_append watch rel) lt lk ld ->
  hash = [] \/ hash = sha256 true data ->
  cs <> [] -> Forall (slice_of data) cs -> Forall (fun ch => ch.2 <> []) cs ->
  (length (default [] c) <= length data)%nat ->
  (forall i, (i < length data)%nat -> covers cs i \/ default [] c !! i = data !! i) ->
  send_chunks watch rel hash cs (tmp_state f lt c) = (ChunkFileComplete, moved f lt ld data 420).
Proof.
  intros R Hh. destruct R as [R1 R2 R3 R4 R5 R6 R7 R8 R9 RA].
  revert c. induction cs as [|[o d] cs IH]; intros c Hne Hsl Hnn Hlen Hcov; [done|].
  inversion Hsl as [|? ? Hs Hsl']; inversion Hnn as [|? ? Hn Hnn']; subst.
  assert (Hstep := chunk_step f watch rel lt lk ld R1 R2 R3 R4 R5 R6 R7 R8 RA c o d
    (bool_decide (cs = [])) hash (proj1 Hs)).
  assert (Hlen' : (length (stored c o d) <= length data)%nat)
    by (by apply (write_slice data (default [] c) (o, d) 0 Hs Hlen)).
  assert (Hcov' : forall i, (i < length data)%nat -> covers cs i \/ stored c o d !! i = data !! i).
  { intros i Hi. destruct (write_slice data (default [] c) (o, d) i Hs Hlen) as (_ & Hin & Hout).
    destruct (Hcov i Hi) as [(ch & Hch & Hi')|Hc].
    - apply elem_of_cons in Hch as [->|Hch]; [right; by apply Hin|left; by exists ch].
    - right. apply Hout; [|done]. destruct (lookup_lt_is_Some_2 _ _ Hi) as [x Hx].
      apply lookup_lt_is_Some_1. rewrite Hc, Hx. by eexists. }
  cbn [send_chunks]. rewrite Hstep. destruct cs as [|ch cs].
  - assert (stored c o d = data) as Hd.
    { apply list_eq. intros i. destruct (le_lt_dec (length data) i).
      - rewrite !lookup_ge_None_2 by lia. done.
      - destruct (Hcov' i) as [(ch & Hch & _)|Hi]; [done|set_solver|done]. }
    rewrite bool_decide_true, Hd by done. simpl tmp_state.
    assert (Hlt0 : lt <> []).
    { eapply resolve_suffix; [apply slash_not_in_tmp| |exact R4|exact R2]. simpl. lia. }
    rewrite (hash_agrees f lt); try done. unfold is_dir_at. rewrite R6. by destruct lt.
  - rewrite bool_decide_false by done. by apply (IH (Some (stored c o d))).
Qed.
End ChunkedFacts.

(** ** Lemmas: chunked uploads *)

(** The chunked loop is the loop of [upload] with another block size; its flag
    is whether no write failed. *)
Lemma chunked_loop_upload fuel size total rest w :
  (chunked_upload_loop fuel size total rest w).1.2 = (upload_loop fuel CHUNK_SIZE size total rest w).1 /\
  (chunked_upload_loop fuel size total rest w).2 = (upload_loop fuel CHUNK_SIZE size total rest w).2.
Proof.
  revert total rest w. induction fuel as [|fuel IH]; intros total rest w; [done|].
  cbn [chunked_upload_loop upload_loop stream_read].
  destruct (negb (total <? size)); [done|]. destruct (Nat.eqb _ 0); [done|].
  destruct (write_loop _ _ _ _) as [n w1]. destruct (Nat.ltb n _); [done|]. apply IH.
Qed.

(** ** Lemmas: confinement *)

Lemma tmp_append watch rel :
  watch <> [] -> head rel <> Some slash ->
  tmp_of (path_append watch rel) = path_append watch (rel ++ $".tmp").
Proof.
  intros Hw Hh. assert (Hh' : head (rel ++ $".tmp") <> Some slash) by by destruct rel.
  unfold tmp_of, path_append. destruct (last watch) as [d|] eqn:El; [|by apply last_None in El].
  destruct rel as [|c rel]; simpl app.
  - destruct (Ascii.eqb d slash); [done|]. rewrite <- app_assoc. done.
  - simpl in Hh. destruct (Ascii.eqb_spec c slash) as [-> |Hc]; [done|].
    apply Ascii.eqb_neq in Hc. rewrite Hc. destruct (Ascii.eqb d slash); by rewrite <- app_assoc.
Qed.

Lemma confined_tmp rel : confined rel -> confined (rel ++ $".tmp").
Proof.
  intros [Hh Hf]. split; [by destruct rel|].
  destruct (split_slash_suffix rel $".tmp" slash_not_in_tmp) as (ws & w & E1 & E2).
  rewrite E1 in Hf. rewrite E2. apply Forall_app in Hf as [Hf _]. apply Forall_app. split; [done|].
  constructor; [|done]. intros H%(f_equal length). rewrite length_app in H. simpl in H. lia.
Qed.

Lemma download_contained {E : EVP} os watch rel size hash mode f lb l e o f' :
  0 <= size -> confined rel -> resolve f watch = Some lb -> is_dir_at f lb = true ->
  ~ lb `prefix_of` l ->
  download os (path_append watch rel) size hash mode f = (e, o, f') ->
  fs_nodes f' !! l = fs_nodes f !! l.
Proof.
  intros Hsz Hc Hb Hd Hl Hdl.
  rewrite <- (create_directories_inside f watch rel lb l Hc Hb Hd Hl).
  assert (Hb1 : resolve (snd (create_directories f (parent_path (path_append watch rel)))) watch = Some lb).
  { apply (resolve_adds f); [intros l'; apply create_directories_adds| |done].
    by apply create_directories_adds. }
  assert (Hw : watch <> []) by by intros ->.
  assert (Hlt : resolve (snd (create_directories f (parent_path (path_append watch rel))))
    (tmp_of (path_append watch rel)) <> Some l).
  { rewrite tmp_append by (done || apply Hc). intros H. apply Hl.
    by eapply resolve_inside; [apply confined_tmp| |]. }
  destruct (decide (o = DownloadComplete)) as [-> |Ho]; [|by eapply download_incomplete].
  apply download_completed in Hdl as (f1 & lt & ld & bs & c & m & t & Hcd & Hrt & Hrd & _ & _ &
    _ & _ & -> & _); [|done].
  rewrite Hcd in *. simpl in *. unfold moved. simpl.
  assert (lb `prefix_of` ld) by by eapply resolve_inside.
  rewrite lookup_insert_ne by by intros ->. apply lookup_delete_ne. congruence.
Qed.

(** ** Properties *)

Section TransferTheorems.
Context {E : EVP} {L : EVPLaws E}.

(** C12: a download that does not complete changes nothing but its temporary
    file.  Whatever the peer, the disk and the kernel do, when the download
    does not log completion, every location other than the one of the
    temporary file has the node it had, or is a directory created for the
    file; the destination is never the location of the temporary file. *)
Theorem download_atomic os watch rel port size hash mode f r f1 lt :
  r = handle_file_transfer os watch rel port $"download" size hash mode f ->
  r_out r <> DownloadComplete ->
  f1 = snd (create_directories f (parent_path (path_append watch rel))) ->
  resolve f1 (tmp_of (path_append watch rel)) = Some lt ->
  (forall l, l <> lt -> adds_dir_at f (r_fs r) l) /\
  resolve f1 (path_append watch rel) <> Some lt.
Proof.
  intros -> Ho -> Ht. split.
  - intros l Hl. unfold handle_file_transfer in *.
    destruct (tr_socket os); [|by left]. destruct (tr_pton os); [|by left].
    destruct (tr_connect os (port mod 2 ^ 16)); [|by left].
    destruct (Z.ltb_spec size 0); [by left|]. rewrite str_eqb_refl in *. simpl negb in *.
    cbv iota in *. destruct (download _ _ _ _ _ _) as [[e o] f'] eqn:Hdl. simpl in *.
    eapply adds_dir_at_eq; [apply (create_directories_adds f)|].
    eapply download_incomplete; [done|done|done|congruence].
  - intros Hd. eapply resolve_suffix in Ht; [..|exact Hd]; [naive_solver|apply slash_not_in_tmp|].
    simpl. lia.
Qed.

Lemma hash_checked ctx f p c hash :
  hash_differs ctx f p hash = false -> ifstream_open f p = Some c -> hash <> [] -> ctx = true -> sha256 true c = hash.
Proof.
  unfold hash_differs. intros Hh Hif Hne ->. rewrite (sha256_file_whole _ _ _ Hif) in Hh.
  apply andb_false_iff in Hh as [Hh|Hh]; by apply negb_false_iff, str_eqb_eq in Hh.
Qed.

Lemma download_complete_file os watch rel port size hash mode f r :
  r = handle_file_transfer os watch rel port $"download" size hash mode f ->
  r_out r = DownloadComplete ->
  exists bs t x lt,
    toks (tr_rx os) = (TByte <$> bs) ++ t /\ zlen bs = size /\
    file_at (r_fs r) (path_append watch rel) = Some x /\
    f_content x = take (length bs - disk_lost (tr_disk os)) bs /\
    (0 < mode -> f_mode x = Z.land mode 4095) /\
    (hash <> [] -> tr_ctx os = true -> sha256 true (f_content x) = hash) /\
    resolve (r_fs r) (tmp_of (path_append watch rel)) = Some lt /\ fs_nodes (r_fs r) !! lt = None.
Proof.
  intros -> Ho. unfold handle_file_transfer in *.
  destruct (tr_socket os); [|done]. destruct (tr_pton os); [|done].
  destruct (tr_connect os (port mod 2 ^ 16)); [|done].
  destruct (Z.ltb_spec size 0); [done|]. rewrite str_eqb_refl in *. simpl negb in *. cbv iota in *.
  destruct (download _ _ _ _ _ _) as [[e o] f'] eqn:Hdl. simpl in Ho. subst o. simpl r_fs.
  apply download_completed in Hdl as (f1 & lt & ld & bs & c & m & t & Hc & Hrt & Hrd & Hne & Ht &
    Hlen & -> & -> & Hrd' & Hld & Hrt' & Hh & Hif); [|done].
  exists bs, t, (File (take (length bs - disk_lost (tr_disk os)) bs) (final_mode mode m) (fs_now f1)), lt.
  split_and!; [done|done| |done| | |done|].
  - apply (file_at_loc _ _ ld); [done..|]. apply lookup_insert_eq.
  - intros Hm. simpl. unfold final_mode. by rewrite (proj2 (Z.ltb_lt _ _) Hm).
  - simpl. intros Hhash Hctx. by eapply hash_checked.
  - simpl. rewrite lookup_insert_ne by done. apply lookup_delete_eq.
Qed.

(** C2: integrity of a completed download.  The destination is a regular file
    whose content is the first [expected_size] bytes the peer sent, less what
    the disk lost when the stream was closed; with a hash to check and a
    digest context, the SHA-256 of the content is the expected one; nothing
    is left at the temporary location. *)
Theorem download_integrity os watch rel port size hash mode f r :
  r = handle_file_transfer os watch rel port $"download" size hash mode f ->
  r_out r = DownloadComplete ->
  exists bs t x lt,
    toks (tr_rx os) = (TByte <$> bs) ++ t /\ zlen bs = size /\
    file_at (r_fs r) (path_append watch rel) = Some x /\
    f_content x = take (length bs - disk_lost (tr_disk os)) bs /\
    (0 < mode -> f_mode x = Z.land mode 4095) /\
    (hash <> [] -> tr_ctx os = true -> sha256 true (f_content x) = hash) /\
    resolve (r_fs r) (tmp_of (path_append watch rel)) = Some lt /\ fs_nodes (r_fs r) !! lt = None.
Proof. exact (download_complete_file os watch rel port size hash mode f r). Qed.

Lemma download_completes os watch rel port bs t hash mode f f1 lt f2 ld :
  tr_socket os = true -> tr_pton os = true -> tr_connect os (port mod 2 ^ 16) = true ->
  create_directories f (parent_path (path_append watch rel)) = (true, f1) ->
  open_trunc f1 (tmp_of (path_append watch rel)) = Some (lt, f2) ->
  resolve f1 (path_append watch rel) = Some ld -> is_dir_at f1 ld = false ->
  toks (tr_rx os) = (TByte <$> bs) ++ t -> tr_disk os = good_disk -> tr_ctx os = true ->
  hash = [] \/ hash = sha256 true bs ->
  let r := handle_file_transfer os watch rel port $"download" (zlen bs) hash mode f in
  r_out r = DownloadComplete /\ r_closes r = 1%nat /\
  exists x, file_at (r_fs r) (path_append watch rel) = Some x /\ f_content x = bs.
Proof.
  intros Hso Hpt Hco Hcd Hop Hrd Hdd Ht Hdisk Hctx Hhash. cbv zeta.
  unfold handle_file_transfer. rewrite Hso, Hpt, Hco, str_eqb_refl. simpl negb. cbv iota.
  destruct (Z.ltb_spec (zlen bs) 0); [pose proof (zlen_nonneg bs); lia|].
  rewrite (download_opened _ _ _ _ _ _ f1 lt f2) by done.
  apply open_trunc_spec in Hop as (Hres & Hlt & Hnd & m & ->).
  rewrite (download_loop_complete _ _ _ _ _ _ _ _ _ _ bs t); [|by rewrite Hdisk|lia|done|lia|done].
  rewrite stream_close_with, Hdisk. simpl app. simpl disk_lost.
  rewrite Nat.sub_0_r, take_ge by lia.
  assert (Hld : ld <> []) by (intros ->; done).
  destruct (finish_cases f1 (path_append watch rel) lt Hres Hlt Hnd os (zlen bs) hash mode
    (zlen bs) bs m) as [(e & o & Hf & Ho & _)|(ld' & Hrd' & _ & _ & Hne & Hf & _)].
  - exfalso. unfold finish in Hf. rewrite Z.eqb_refl in Hf. simpl negb in Hf. cbv iota in Hf.
    rewrite Hctx, (hash_agrees f1 lt) in Hf by done.
    destruct (resolve_suffix f1 (path_append watch rel) $".tmp" ld lt) as [Hne _];
      [apply slash_not_in_tmp|simpl; lia|done|done|].
    rewrite (fs_rename_with f1 lt _ Hres Hlt Hnd _ ld) in Hf by done.
    rewrite (is_dir_at_resolved _ _ _ Hrd), Hdd in Hf. congruence.
  - rewrite Hf. simpl. split_and!; [done..|].
    exists (File bs (final_mode mode m) (fs_now f1)). split; [|done].
    rewrite Hrd in Hrd'. injection Hrd' as <-.
    apply (file_at_loc _ _ ld); [|done|apply lookup_insert_eq].
    rewrite <- Hrd. symmetry. apply resolve_proper; [by eapply moved_agree|done].
Qed.

(** A download succeeds when it can: with the connection made, the
    directories created, the temporary file opened, a destination that is not
    a directory, a peer that sends at least [expected_size] bytes in any
    pieces, a disk that takes the writes, and no hash or the right one, the
    transfer completes and the destination has exactly the bytes. *)
Theorem download_succeeds os watch rel port bs t hash mode f f1 lt f2 ld :
  tr_socket os = true -> tr_pton os = true -> tr_connect os (port mod 2 ^ 16) = true ->
  create_directories f (parent_path (path_append watch rel)) = (true, f1) ->
  open_trunc f1 (tmp_of (path_append watch rel)) = Some (lt, f2) ->
  resolve f1 (path_append watch rel) = Some ld -> is_dir_at f1 ld = false ->
  toks (tr_rx os) = (TByte <$> bs) ++ t -> tr_disk os = good_disk -> tr_ctx os = true ->
  hash = [] \/ hash = sha256 true bs ->
  let r := handle_file_transfer os watch rel port $"download" (zlen bs) hash mode f in
  r_out r = DownloadComplete /\ r_closes r = 1%nat /\
  exists x, file_at (r_fs r) (path_append watch rel) = Some x /\ f_content x = bs.
Proof. exact (download_completes os watch rel port bs t hash mode f f1 lt f2 ld). Qed.

Lemma upload_sends os watch rel port size hash mode f content :
  0 <= size -> tr_socket os = true -> tr_pton os = true ->
  tr_connect os (port mod 2 ^ 16) = true ->
  ifstream_open f (path_append watch rel) = Some content ->
  let r := handle_file_transfer os watch rel port $"upload" size hash mode f in
  r_fs r = f /\ r_closes r = 1%nat /\
  (exists k n, r_sent r = take k (take (Z.to_nat size) content) /\ r_out r = UploadComplete n /\
     0 <= n <= Z.of_nat k) /\
  (accepting (tr_tx os) -> (length content <= length (tr_tx os))%nat ->
   r_sent r = take (Z.to_nat size) content /\ r_out r = UploadComplete (zlen (r_sent r))).
Proof.
  intros Hsz Hso Hpt Hco Hif. cbv zeta. unfold handle_file_transfer.
  rewrite Hso, Hpt, Hco. simpl negb. cbv iota. destruct (Z.ltb_spec size 0); [lia|].
  replace (str_eqb $"upload" $"download") with false by (vm_compute; done).
  rewrite str_eqb_refl. unfold upload. rewrite Hif.
  assert (Hex : fs_exists f (path_append watch rel) = true).
  { unfold fs_exists, ifstream_open in *. by destruct (node_at f _). }
  rewrite Hex. simpl negb. cbv iota.
  destruct (upload_loop (S (length content)) 4096 size 0 content (WSock (tr_tx os) []))
    as [n w] eqn:Eu. simpl. split_and!; [done..| |].
  - apply upload_loop_sent in Eu as (k & Hs & Hn & Hk & _); [|lia|lia].
    rewrite Z.sub_0_r in *. exists k, n. split_and!; [done|done|lia|lia].
  - intros Ha Hl.
    destruct (upload_loop_complete (S (length content)) 4096 size 0 content
      (WSock (tr_tx os) [])) as (w' & Eu' & Hs'); [lia|lia|lia|done|done|].
    rewrite Eu in Eu'. injection Eu' as -> ->. rewrite Z.sub_0_r in *.
    simpl in Hs'. rewrite Hs'. split; [done|]. f_equal.
Qed.

(** The bytes an upload sends are a prefix of the first [expected_size]
    bytes of the file, at least as many as it reports; with a peer that takes
    everything they are all of them. *)
Theorem upload_sends_prefix os watch rel port size hash mode f content :
  0 <= size -> tr_socket os = true -> tr_pton os = true ->
  tr_connect os (port mod 2 ^ 16) = true ->
  ifstream_open f (path_append watch rel) = Some content ->
  let r := handle_file_transfer os watch rel port $"upload" size hash mode f in
  r_fs r = f /\ r_closes r = 1%nat /\
  (exists k n, r_sent r = take k (take (Z.to_nat size) content) /\ r_out r = UploadComplete n /\
     0 <= n <= Z.of_nat k) /\
  (accepting (tr_tx os) -> (length content <= length (tr_tx os))%nat ->
   r_sent r = take (Z.to_nat size) content /\ r_out r = UploadComplete (zlen (r_sent r))).
Proof. exact (upload_sends os watch rel port size hash mode f content). Qed.

(** C20: chunks in any order give the file. The destination directory exists, there is no leftover temporary or scratch
    file ([chunk_ready]), the disk takes everything, the digest context works, and the expected hash is empty or that of
    [data]. When the chunks, sent with their true checksums, are slices of [data] at their offsets, none empty, and
    cover it, sending them in any order, the one sent last as the last chunk of the file, ends with [data] at the
    destination and no temporary file. (In a new directory the first chunk is refused: [chunk_new_directory_refused].) *)
Theorem chunks_reassemble f watch rel lt lk ld hash data cs :
  chunk_ready f (path_append watch rel) lt lk ld ->
  hash = [] \/ hash = sha256 true data ->
  Forall (slice_of data) cs -> Forall (fun ch => ch.2 <> []) cs -> cs <> [] ->
  (forall i, (i < length data)%nat -> covers cs i) ->
  send_chunks watch rel hash cs f = (ChunkFileComplete, moved f lt ld data 420).
Proof.
  intros HR Hh Hs Hn Hne Hcov.
  apply (send_chunks_stored f watch rel lt lk ld hash data cs None); try done; [simpl; lia|].
  intros i Hi. left. by apply Hcov.
Qed.

(** A chunk whose checksum does not match changes nothing, when there is
    no leftover scratch file. *)
Theorem chunk_mismatch_no_effect f watch rel lt lk ld data offset checksum is_last hash :
  chunk_ready f (path_append watch rel) lt lk ld -> checksum <> sha256 true data ->
  handle_chunked_file_download true good_disk good_disk watch rel data offset checksum is_last
    hash f = (ChunkChecksumMismatch, f).
Proof.
  intros R Hne. unfold handle_chunked_file_download.
  destruct R as [_ R2 R3 R4 R5 R6 R7 R8 _ _].
  pose proof (chunk_hash_good f watch rel lt lk ld R2 R3 R4 R5 R6 R7 R8 None data) as Hg.
  simpl tmp_state in Hg. rewrite Hg. unfold str_eqb. by rewrite bool_decide_false.
Qed.

(** A chunk for a directory that does not exist yet is refused: the
    scratch file for its checksum is created before the directories are, so
    the chunk is reported as corrupt and nothing is written, even when the
    checksum is right. *)
Theorem chunk_new_directory_refused f watch rel data offset is_last hash :
  resolve f (tmp_of (path_append watch rel) ++ $".chk") = None ->
  resolve_notdir f (tmp_of (path_append watch rel) ++ $".chk") = false ->
  handle_chunked_file_download true good_disk good_disk watch rel data offset (sha256 true data)
    is_last hash f = (ChunkChecksumMismatch, f).
Proof.
  intros Hr Hn. unfold handle_chunked_file_download, chunk_hash, open_trunc.
  rewrite Hr. unfold sha256_file at 1, ifstream_open, node_at. rewrite Hr. cbn [mbind option_bind].
  unfold fs_remove. rewrite Hr, Hn. unfold str_eqb. rewrite bool_decide_false; [done|].
  intros H%(f_equal length). unfold sha256 in H. simpl in H.
  rewrite length_to_hex, evp_final_length in H. lia.
Qed.

(** A chunked upload can be resumed.  Whatever happens to the connection,
    the bytes sent from [start] are a prefix of the file from there, at least
    up to the count [n] the upload stops at; a second upload from [n] to a peer
    that takes everything sends exactly the rest, so the bytes up to [n] of the
    first and those of the second are the file from [start]. *)
Theorem chunked_upload_resumes watch rel f content start w ok n w1 w2 :
  0 <= start -> ifstream_open f (path_append watch rel) = Some content ->
  handle_chunked_file_upload watch rel (zlen content) start w f = Some (ok, n, w1) ->
  accepting (w_script w2) -> (length content <= length (w_script w2))%nat ->
  start <= zlen content ->
  exists k n2 w3 ok2,
    w_sent w1 = w_sent w ++ take k (drop (Z.to_nat start) content) /\
    start <= n <= start + Z.of_nat k /\
    handle_chunked_file_upload watch rel (zlen content) n w2 f = Some (ok2, n2, w3) /\
    n2 = zlen content /\
    take (Z.to_nat (n - start)) (drop (Z.to_nat start) content) ++ drop (length (w_sent w2)) (w_sent w3) =
      drop (Z.to_nat start) content.
Proof.
  intros Hs Hif. unfold handle_chunked_file_upload. rewrite Hif.
  destruct (Z.ltb_spec start 0); [lia|]. intros H1 Ha Hl Hle. apply (inj Some) in H1.
  destruct (chunked_loop_upload (S (length content)) (zlen content) start
    (drop (Z.to_nat start) content) w) as [E1 E2]. rewrite H1 in E1, E2. cbn [fst snd] in E1, E2.
  destruct (upload_loop _ _ _ start _ w) as [n' w1'] eqn:Eu. cbn [fst snd] in E1, E2. subst n' w1'.
  apply upload_loop_sent in Eu as (k & Hk & Hn & Hnk & Hkl); [|done|lia].
  rewrite (take_ge (drop _ _)) in Hk, Hkl by (rewrite length_drop; unfold zlen; lia).
  rewrite length_drop in Hkl. unfold zlen in Hle.
  destruct (Z.ltb_spec n 0); [lia|].
  destruct (upload_loop_complete (S (length content)) CHUNK_SIZE (zlen content) n
    (drop (Z.to_nat n) content) w2) as (w3 & Eu3 & Hw3);
    [done|lia|rewrite length_drop; lia|done|rewrite length_drop; lia|].
  destruct (chunked_loop_upload (S (length content)) (zlen content) n
    (drop (Z.to_nat n) content) w2) as [E1 E2]. rewrite Eu3 in E1, E2. cbn [fst snd] in E1, E2.
  rewrite (take_ge (drop (Z.to_nat n) content)) in Hw3, E1
    by (rewrite length_drop; unfold zlen; lia).
  destruct (chunked_upload_loop _ _ n _ w2) as [[ok2 n2] w3'] eqn:E3. cbn [fst snd] in E1, E2. subst w3'.
  exists k, n2, w3, ok2. split_and!; [done|lia|lia|done| |].
  - rewrite E1. unfold zlen. rewrite length_drop. lia.
  - rewrite Hw3, drop_app_length. rewrite <- (take_drop (Z.to_nat (n - start)) (drop _ content)) at 2.
    f_equal. rewrite drop_drop. f_equal. lia.
Qed.

(** C24: transfers of confined paths stay in the watched directory. When the watched path is a directory and the
    relative path is not absolute and has no ".." component, a transfer in any direction, with any outcome, changes no
    location outside that directory. *)
Theorem transfer_contained os watch rel port direction size hash mode f lb l :
  confined rel -> resolve f watch = Some lb -> is_dir_at f lb = true -> ~ lb `prefix_of` l ->
  fs_nodes (r_fs (handle_file_transfer os watch rel port direction size hash mode f)) !! l =
  fs_nodes f !! l.
Proof.
  intros Hc Hb Hd Hl. unfold handle_file_transfer.
  destruct (tr_socket os); [|done]. destruct (tr_pton os); [|done].
  destruct (tr_connect os (port mod 2 ^ 16)); [|done]. simpl negb. cbv iota.
  destruct (Z.ltb_spec size 0); [done|].
  destruct (str_eqb direction $"download").
  - destruct (download _ _ _ _ _ _) as [[e o] f'] eqn:Hdl. by eapply download_contained.
  - destruct (str_eqb direction $"upload"); [|done].
    by destruct (upload _ _ _ _) as [[e o] w].
Qed.
End TransferTheorems.

(** ** Witnesses *)

Module TransferDemo.
#[local] Existing Instances RealSha256.evp RealSha256.evp_laws.

(** A watched directory with one file; the peer sends "hello" in two pieces. *)
Definition fs0 : fsys :=
  FS {[ [ $"w" ] := NDir 493; [ $"w"; $"a.txt" ] := NFile (File $"abcdef" 420 7) ]} [] 9.

Definition os_ok : tr_os :=
  TrOs true true (fun p => p =? 9000) [RData $"he"; RData $"llo!"]
    (replicate 6 (WAccept 2)) good_disk true.

(** The peer shuts down after two bytes. *)
Definition os_short : tr_os :=
  TrOs true true (fun p => p =? 9000) [RData $"he"; RData []] [] good_disk true.

Lemma download_atomic_witness :
  (forall l, l <> [ $"w"; $"sub"; $"b.txt.tmp" ] ->
   adds_dir_at fs0 (r_fs (handle_file_transfer os_short $"/w" $"sub/b.txt" 9000 $"download" 5
     (sha256 true $"hello") 0 fs0)) l) /\
  resolve (snd (create_directories fs0 $"/w/sub")) $"/w/sub/b.txt" <>
    Some [ $"w"; $"sub"; $"b.txt.tmp" ].
Proof.
  eapply (download_atomic os_short $"/w" $"sub/b.txt" 9000 5 (sha256 true $"hello") 0 fs0);
    [reflexivity|vm_compute; congruence|vm_compute; reflexivity..].
Defined.

Lemma download_integrity_witness :
  exists bs t x lt,
    toks (tr_rx os_ok) = (TByte <$> bs) ++ t /\ zlen bs = 5 /\
    file_at (r_fs (handle_file_transfer os_ok $"/w" $"sub/b.txt" 9000 $"download" 5
      (sha256 true $"hello") 384 fs0)) $"/w/sub/b.txt" = Some x /\
    f_content x = take (length bs - 0) bs /\
    (0 < 384 -> f_mode x = Z.land 384 4095) /\
    (sha256 true $"hello" <> [] -> true = true -> sha256 true (f_content x) = sha256 true $"hello") /\
    resolve (r_fs (handle_file_transfer os_ok $"/w" $"sub/b.txt" 9000 $"download" 5
      (sha256 true $"hello") 384 fs0)) $"/w/sub/b.txt.tmp" = Some lt /\
    fs_nodes (r_fs (handle_file_transfer os_ok $"/w" $"sub/b.txt" 9000 $"download" 5
      (sha256 true $"hello") 384 fs0)) !! lt = None.
Proof.
  apply (download_integrity os_ok $"/w" $"sub/b.txt" 9000 5 (sha256 true $"hello") 384 fs0 _ eq_refl).
  vm_compute. reflexivity.
Defined.

Lemma download_succeeds_witness :
  r_out (handle_file_transfer os_ok $"/w" $"sub/b.txt" 9000 $"download" (zlen $"hello")
    (sha256 true $"hello") 384 fs0) = DownloadComplete.
Proof.
  eapply (download_succeeds os_ok $"/w" $"sub/b.txt" 9000 $"hello" [TByte "!"%char] (sha256 true $"hello") 384 fs0);
    try (vm_compute; reflexivity). by right.
Defined.

Lemma upload_sends_prefix_witness :
  r_sent (handle_file_transfer os_ok $"/w" $"a.txt" 9000 $"upload" 4 [] 0 fs0) = $"abcd".
Proof.
  eapply (upload_sends_prefix os_ok $"/w" $"a.txt" 9000 4 [] 0 fs0 $"abcdef");
    [lia|vm_compute; reflexivity..| |vm_compute; lia].
  repeat constructor; by eexists.
Defined.

Lemma ready : chunk_ready fs0 $"/w/b.bin" [ $"w"; $"b.bin.tmp" ] [ $"w"; $"b.bin.tmp.chk" ]
  [ $"w"; $"b.bin" ].
Proof. split; try (vm_compute; reflexivity). done. Qed.

(** Three chunks, the middle one last. *)
Lemma chunks_reassemble_witness :
  send_chunks $"/w" $"b.bin" (sha256 true $"onetwothree")
    [(0, $"one"); (6, $"three"); (3, $"two")] fs0 =
  (ChunkFileComplete, moved fs0 [ $"w"; $"b.bin.tmp" ] [ $"w"; $"b.bin" ] $"onetwothree" 420).
Proof.
  apply (chunks_reassemble fs0 $"/w" $"b.bin" _ [ $"w"; $"b.bin.tmp.chk" ] _ _ _ _ ready);
    [by right|repeat constructor; vm_compute; congruence|repeat constructor; done|done|].
  intros i Hi. unfold covers. simpl in Hi.
  destruct (decide (i < 3)%nat); [exists (0, $"one")|
    destruct (decide (i < 6)%nat); [exists (3, $"two")|exists (6, $"three")]];
    (split; [set_solver|simpl; lia]).
Defined.

Lemma chunk_mismatch_no_effect_witness :
  handle_chunked_file_download true good_disk good_disk $"/w" $"b.bin" $"one" 0 $"00" false [] fs0 =
  (ChunkChecksumMismatch, fs0).
Proof.
  apply (chunk_mismatch_no_effect fs0 $"/w" $"b.bin" _ _ _ $"one" 0 $"00" false [] ready).
  vm_compute. congruence.
Defined.

Lemma chunk_new_directory_refused_witness :
  handle_chunked_file_download true good_disk good_disk $"/w" $"sub/b.bin" $"one" 0
    (sha256 true $"one") true [] fs0 = (ChunkChecksumMismatch, fs0).
Proof.
  apply (chunk_new_directory_refused fs0 $"/w" $"sub/b.bin"); vm_compute; reflexivity.
Defined.

(** The peer takes three bytes and then the connection breaks. *)
Lemma chunked_upload_resumes_witness :
  exists k n2 w3 ok2,
    $"abc" = [] ++ take k $"abcdef" /\ 0 <= 0 <= 0 + Z.of_nat k /\
    handle_chunked_file_upload $"/w" $"a.txt" 6 0 (WSock (replicate 6 (WAccept 1)) []) fs0 =
      Some (ok2, n2, w3) /\ n2 = 6 /\ [] ++ drop 0 (w_sent w3) = $"abcdef".
Proof.
  apply (chunked_upload_resumes $"/w" $"a.txt" fs0 $"abcdef" 0
    (WSock [WAccept 3; WError] []) false 0 (WSock [] $"abc")
    (WSock (replicate 6 (WAccept 1)) []));
    [lia|vm_compute; reflexivity..| |vm_compute; lia|vm_compute; congruence].
  repeat constructor; by eexists.
Defined.

Lemma transfer_contained_witness :
  fs_nodes (r_fs (handle_file_transfer os_ok $"/w" $"sub/..x/b" 9000 $"download" 5 [] 0 fs0)) !!
    [ $"etc" ] = None.
Proof.
  apply (transfer_contained os_ok $"/w" $"sub/..x/b" 9000 $"download" 5 [] 0 fs0 [ $"w" ] [ $"etc" ]).
  - apply (bool_decide_unpack _). vm_compute. done.
  - vm_compute. reflexivity.
  - vm_compute. reflexivity.
  - by intros [? ?].
Defined.
End TransferDemo.
