(* ===== verification/Downloads.v ===== *)
(** * Downloads that run at the same time (file_transfer.cpp, main.cpp)

    The handler starts every transfer in a detached thread of its own, so any
    number of downloads run at once on one file system.  Here a download is a
    thread that makes one file-system operation per step; the bytes written to
    the stream wait in its buffer and reach the file at any later moment, at
    the latest when the stream is closed.

    An open stream refers to a file, not to a path: when another thread renames
    the file the stream follows it, when it is removed or replaced the stream
    writes to a file that has no name any more.  There are no hard links, so a
    stream is described by the location its file has now, if any.

    [download_thread_refines] shows that a thread that runs alone does what
    [FileTransfer.download] does; [concurrent_downloads] that downloads to
    different places do not disturb each other; [same_path_downloads] that two
    downloads to the same path do. *)

From S2P Require Import Prelude Posix FileSys Sha256 FileTransfer.

(** ** The thread *)

Abbreviation handle := (option loc).

(** An open [std::ofstream]: where its file is, the offset of the next byte to
    store and the bytes in the buffer. *)
Record ofstream := Stream { s_h : handle; s_pos : nat; s_pend : str }.

(** A call of the kernel that stores bytes. *)
Definition store (h : handle) (pos : nat) (data : str) (f : fsys) : fsys :=
  match h, data with
  | Some l, _ :: _ => set_content f l (write_at (file_content f l) pos data)
  | _, _ => f
  end.

(** The arguments of a download, with what the socket delivers and whether a
    digest context can be allocated. *)
Record job := Job {
  j_dest : str;
  j_size : Z;
  j_hash : str;
  j_mode : Z;
  j_rx : list read_ev;
  j_ctx : bool
}.

Definition j_tmp (j : job) : str := tmp_of (j_dest j).

(** Where the thread is; [recv] are the bytes counted by [total_received]. *)
Inductive dl :=
  | DStart                                             (* before fs::create_directories *)
  | DOpen                                              (* before the ofstream is opened *)
  | DLoop (s : ofstream) (recv : str) (rx : list read_ev)
  | DClose (s : ofstream) (recv : str)                   (* before outfile.close() *)
  | DCheck (recv : str)                                (* before the size and the hash are checked *)
  | DDiscard (why : outcome)                           (* before fs::remove(tmp_path) *)
  | DRename (recv : str)                               (* before fs::rename *)
  | DMode (recv : str)                                 (* before fs::permissions *)
  | DCatch                                             (* before fs::exists(tmp_path) in the handler *)
  | DCatchRemove
  | DDone (o : outcome) (recv : str).

(** What becomes of the other streams when the node at a path is removed, and
    when it is renamed over another one. *)
Definition unlinked (f : fsys) (p : str) (h : handle) : handle :=
  if bool_decide (h = resolve f p) then None else h.

Definition renamed (f : fsys) (p q : str) (h : handle) : handle :=
  if bool_decide (h = resolve f p) then resolve f q
  else if bool_decide (h = resolve f q) then None else h.

Section Downloads.
Context {E : EVP}.

(** The bytes one [readSocket] may return. *)
Definition to_read (j : job) (recv : str) : nat := Z.to_nat (Z.min 4096 (j_size j - zlen recv)).

(** One step of the thread: the new state of the thread and of the file system,
    and what becomes of the streams of the other threads. *)
Inductive dl_step (j : job) : dl -> fsys -> dl -> fsys -> (handle -> handle) -> Prop :=
  | dl_mkdirs f f' :
      create_directories f (parent_path (j_dest j)) = (true, f') -> dl_step j DStart f DOpen f' id
  | dl_mkdirs_throws f f' :
      create_directories f (parent_path (j_dest j)) = (false, f') -> dl_step j DStart f DCatch f' id
  | dl_open f l f' :
      open_trunc f (j_tmp j) = Some (l, f') ->
      dl_step j DOpen f (DLoop (Stream (Some l) 0 []) [] (j_rx j)) f' id
  | dl_open_fails f :
      open_trunc f (j_tmp j) = None -> dl_step j DOpen f (DDone TmpOpenFailed []) f id
  | dl_loop_end s recv rx f :
      j_size j <= zlen recv -> dl_step j (DLoop s recv rx) f (DClose s recv) f id
  | dl_read_end s recv rx f r rx' :
      zlen recv < j_size j -> sock_read (to_read j recv) rx = (r, rx') ->
      (r = RdBytes [] \/ exists e, r = RdErr e) ->
      dl_step j (DLoop s recv rx) f (DClose s recv) f id
  | dl_write h pos pend recv rx f buffer rx' :
      zlen recv < j_size j -> sock_read (to_read j recv) rx = (RdBytes buffer, rx') -> buffer <> [] ->
      dl_step j (DLoop (Stream h pos pend) recv rx) f
        (DLoop (Stream h pos (pend ++ buffer)) (recv ++ buffer) rx') f id
  | dl_write_fails h pos pend recv rx f buffer rx' a b :
      zlen recv < j_size j -> sock_read (to_read j recv) rx = (RdBytes buffer, rx') -> buffer <> [] ->
      pend ++ buffer = a ++ b ->
      dl_step j (DLoop (Stream h pos pend) recv rx) f
        (DClose (Stream h (pos + length a) b) recv) (store h pos a f) id
  | dl_flush h pos a b recv rx f :
      a <> [] ->
      dl_step j (DLoop (Stream h pos (a ++ b)) recv rx) f
        (DLoop (Stream h (pos + length a) b) recv rx) (store h pos a f) id
  | dl_close h pos a b recv f :        (* [b] is lost *)
      dl_step j (DClose (Stream h pos (a ++ b)) recv) f (DCheck recv) (store h pos a f) id
  | dl_size_bad recv f :
      zlen recv <> j_size j -> dl_step j (DCheck recv) f (DDiscard (SizeMismatch (zlen recv))) f id
  | dl_hash_bad recv f :
      zlen recv = j_size j -> hash_differs (j_ctx j) f (j_tmp j) (j_hash j) = true ->
      dl_step j (DCheck recv) f (DDiscard HashMismatch) f id
  | dl_checked recv f :
      zlen recv = j_size j -> hash_differs (j_ctx j) f (j_tmp j) (j_hash j) = false ->
      dl_step j (DCheck recv) f (DRename recv) f id
  | dl_discard why f f' :
      fs_remove f (j_tmp j) = Ok f' ->
      dl_step j (DDiscard why) f (DDone why []) f' (unlinked f (j_tmp j))
  | dl_discard_throws why f e :
      fs_remove f (j_tmp j) = Throw e -> dl_step j (DDiscard why) f DCatch f id
  | dl_rename recv f f' :
      fs_rename f (j_tmp j) (j_dest j) = Ok f' ->
      dl_step j (DRename recv) f (DMode recv) f' (renamed f (j_tmp j) (j_dest j))
  | dl_rename_throws recv f e :
      fs_rename f (j_tmp j) (j_dest j) = Throw e -> dl_step j (DRename recv) f DCatch f id
  | dl_mode recv f :
      dl_step j (DMode recv) f (DDone DownloadComplete recv) (apply_mode f (j_dest j) (j_mode j)) id
  | dl_catch f :
      fs_exists f (j_tmp j) = true -> dl_step j DCatch f DCatchRemove f id
  | dl_catch_nothing f :
      fs_exists f (j_tmp j) = false -> dl_step j DCatch f (DDone DownloadException []) f id
  | dl_catch_remove f f' :
      fs_remove f (j_tmp j) = Ok f' ->
      dl_step j DCatchRemove f (DDone DownloadException []) f' (unlinked f (j_tmp j))
  | dl_catch_throws f e :
      fs_remove f (j_tmp j) = Throw e -> dl_step j DCatchRemove f (DDone Escaped []) f id.

(** ** The threads of the daemon *)

Definition move_stream (g : handle -> handle) (s : ofstream) : ofstream := Stream (g (s_h s)) (s_pos s) (s_pend s).

Definition move_dl (g : handle -> handle) (d : dl) : dl :=
  match d with
  | DLoop s recv rx => DLoop (move_stream g s) recv rx
  | DClose s recv => DClose (move_stream g s) recv
  | d => d
  end.

Record sys := Sys { y_fs : fsys; y_threads : list (job * dl) }.

(** A thread makes a step, or something else changes the file system. *)
Inductive sys_step (env : fsys -> fsys -> Prop) : sys -> sys -> Prop :=
  | y_thread i j d d' g f f' ts :
      ts !! i = Some (j, d) -> dl_step j d f d' f' g ->
      sys_step env (Sys f ts) (Sys f' (<[i := (j, d')]> (prod_map id (move_dl g) <$> ts)))
  | y_env f f' ts : env f f' -> sys_step env (Sys f ts) (Sys f' ts).

Definition started (f : fsys) (js : list job) : sys := Sys f ((fun j => (j, DStart)) <$> js).

(** A thread that runs alone. *)
Definition solo_step (j : job) (x y : dl * fsys) : Prop := exists g, dl_step j x.1 x.2 y.1 y.2 g.
End Downloads.

(** ** Lemmas: a thread alone *)

Lemma store_with f l c m a : store (Some l) (length c) a (with_file f l c m) = with_file f l (c ++ a) m.
Proof.
  unfold store. destruct a as [|x a]; [by rewrite app_nil_r|].
  by rewrite file_content_with, set_content_with, write_at_end.
Qed.

Section Solo.
Context {E : EVP}.

(** More fuel than the script can use makes no difference. *)
Lemma download_loop_fuel n m d l size total k s f :
  (rx_weight s < n)%nat -> (rx_weight s < m)%nat ->
  download_loop n d l size total k s f = download_loop m d l size total k s f.
Proof.
  revert m total k s f. induction n as [|n IH]; intros [|m] total k s f Hn Hm; try lia. cbn [download_loop].
  destruct (total <? size); [|done]. simpl negb. cbv iota. destruct (_ <=? 0); [done|].
  destruct (sock_read _ s) as [[[|a b]|e] s'] eqn:Er; [done| |done].
  pose proof (rx_weight_read _ _ _ _ _ Er). destruct (stream_write _ _ _ _ _ _) as [[] f']; [|done].
  apply IH; lia.
Qed.

Variables (j : job) (f0 : fsys).

Definition os_of (d : disk) : tr_os := TrOs true true (fun _ => true) (j_rx j) [] d (j_ctx j).

(** What the function still does, from the check of the size on. *)
Definition tail (d : dl) (f : fsys) (r : exit * outcome * fsys) : Prop :=
  match d with
  | DCheck recv => r = finish (j_dest j) (os_of good_disk) (j_size j) (j_hash j) (j_mode j) (zlen recv) f
  | DDiscard why => r = discard why (j_tmp j) f
  | DRename _ =>
      r = match fs_rename f (j_tmp j) (j_dest j) with
          | Throw _ => download_catch (j_tmp j) f
          | Ok f => (FallThrough, DownloadComplete, apply_mode f (j_dest j) (j_mode j))
          end
  | DMode _ => r = (FallThrough, DownloadComplete, apply_mode f (j_dest j) (j_mode j))
  | DCatch => r = download_catch (j_tmp j) f
  | DCatchRemove => fs_exists f (j_tmp j) = true /\ r = download_catch (j_tmp j) f
  | DDone o _ => exists e, r = (e, o, f)
  | _ => False
  end.

Lemma tail_step d f d' f' g r : tail d f r -> dl_step j d f d' f' g -> tail d' f' r.
Proof.
  intros Ht Hs. destruct Hs; cbn [tail] in *; try done.
  - rewrite Ht. unfold finish. by rewrite (proj2 (Z.eqb_neq _ _)) by done.
  - rewrite Ht. unfold finish. rewrite (proj2 (Z.eqb_eq _ _)) by done. simpl negb. cbv iota.
    unfold os_of, j_tmp in *. simpl tr_ctx. by rewrite H0.
  - rewrite Ht. unfold finish. rewrite (proj2 (Z.eqb_eq _ _)) by done. simpl negb. cbv iota.
    unfold os_of, j_tmp in *. simpl tr_ctx. by rewrite H0.
  - rewrite Ht. unfold discard. rewrite H. by eexists.
  - rewrite Ht. unfold discard. by rewrite H.
  - by rewrite Ht, H.
  - by rewrite Ht, H.
  - by eexists.
  - rewrite Ht. unfold download_catch. rewrite H. by eexists.
  - destruct Ht as [He ->]. unfold download_catch. rewrite He, H. by eexists.
  - destruct Ht as [He ->]. unfold download_catch. rewrite He, H. by eexists.
Qed.

Definition big (d : disk) : exit * outcome * fsys :=
  download (os_of d) (j_dest j) (j_size j) (j_hash j) (j_mode j) f0.

(** The disk does not fail before the [k]-th write. *)
Definition good_until (k : nat) (d : disk) : Prop :=
  match disk_fail d with Some (k', _) => (k <= k')%nat | None => True end.

(** The loop of the download, with the temporary file at [lt]. *)
Definition loop_run (f1 : fsys) (lt : loc) (m : Z) (d : disk) : Z * fsys :=
  download_loop (S (rx_weight (j_rx j))) d lt (j_size j) 0 0 (j_rx j) (with_file f1 lt [] m).

(** The thread between the opening and the closing of the stream, with the
    stream at [lt]: [c] is stored and [recv] received. *)
Definition in_loop (f1 : fsys) (lt : loc) (m : Z) (d : dl) (f : fsys) : Prop :=
  match d with
  | DLoop s recv rx =>
      exists c k, s_h s = Some lt /\ s_pos s = length c /\ f = with_file f1 lt c m /\ c ++ s_pend s = recv /\
        forall d, good_until k d ->
          loop_run f1 lt m d = download_loop (S (rx_weight rx)) d lt (j_size j) (zlen recv) k rx (with_file f1 lt recv m)
  | DClose s recv =>
      exists c fail, s_h s = Some lt /\ s_pos s = length c /\ f = with_file f1 lt c m /\
        (zlen recv = j_size j -> c ++ s_pend s = recv) /\
        forall lost, exists c', loop_run f1 lt m (Disk fail lost) = (zlen recv, with_file f1 lt c' m) /\
          (zlen recv = j_size j -> c' = recv)
  | _ => False
  end.

(** The state of a thread that started alone on [f0]. *)
Definition solo_ok (d : dl) (f : fsys) : Prop :=
  match d with
  | DStart => f = f0
  | DOpen => create_directories f0 (parent_path (j_dest j)) = (true, f)
  | DLoop _ _ _ | DClose _ _ =>
      exists f1 lt m, create_directories f0 (parent_path (j_dest j)) = (true, f1) /\
        open_trunc f1 (j_tmp j) = Some (lt, with_file f1 lt [] m) /\ in_loop f1 lt m d f
  | _ => exists disk, tail d f (big disk)
  end.

(** The states between the opening and the closing. *)
Lemma in_loop_step f1 lt m d f d' f' g :
  (match d with DLoop _ _ _ => True | _ => False end) ->
  in_loop f1 lt m d f -> dl_step j d f d' f' g -> in_loop f1 lt m d' f'.
Proof.
  intros Hd Hin Hs. destruct Hs; try done; destruct Hin as (c & k & Hh & Hp & Hf & Hc & Hrun); cbn [s_h s_pos s_pend] in *; subst;
    cbn [in_loop s_h s_pos s_pend].
  - exists c, None. split_and!; try done. intros lost. rewrite Hrun by done. cbn [download_loop].
    rewrite (proj2 (Z.ltb_ge _ _)) by done. by eexists.
  - exists c, None. split_and!; [done..|lia|]. intros lost. rewrite Hrun by done. cbn [download_loop].
    rewrite (proj2 (Z.ltb_lt _ _)) by done. simpl negb. cbv iota. unfold to_read in *.
    rewrite (proj2 (Z.leb_gt _ _)) by lia. rewrite H0.
    destruct H1 as [-> | [e ->]]; eexists; (split; [reflexivity|lia]).
  - exists c, (S k). split_and!; [done..|by rewrite app_assoc|]. intros d Hd'. destruct buffer as [|x buffer]; [done|].
    pose proof (rx_weight_read _ _ _ _ _ H0).
    etransitivity; [|apply (download_loop_fuel (rx_weight rx)); lia]. rewrite Hrun.
    2:{ unfold good_until in *. destruct (disk_fail d) as [[]|]; [lia|done]. }
    cbn [download_loop]. rewrite (proj2 (Z.ltb_lt _ _)) by done. simpl negb. cbv iota. unfold to_read in *.
    rewrite (proj2 (Z.leb_gt _ _)) by lia. rewrite H0.
    assert (Hw : stream_write d k lt (Z.to_nat (zlen (c ++ pend))) (x :: buffer) (with_file f1 lt (c ++ pend) m) =
      (true, with_file f1 lt ((c ++ pend) ++ x :: buffer) m)).
    { unfold stream_write, zlen. rewrite Nat2Z.id, file_content_with, set_content_with, write_at_end.
      unfold good_until in Hd'. destruct (disk_fail d) as [[k' n]|]; [|done].
      by rewrite (proj2 (Nat.eqb_neq _ _)) by lia. }
    rewrite Hw. simpl negb. cbv iota. by rewrite (zlen_app (c ++ pend)).
  - exists (c ++ a), (Some (k, 0%nat)). rewrite length_app, store_with. split_and!; try done; [lia|].
    intros lost. rewrite Hrun by (unfold good_until; simpl; lia). cbn [download_loop].
    rewrite (proj2 (Z.ltb_lt _ _)) by done. simpl negb. cbv iota. unfold to_read in *.
    rewrite (proj2 (Z.leb_gt _ _)) by lia. rewrite H0. destruct buffer as [|x buffer]; [done|].
    unfold stream_write. simpl disk_fail. cbv iota. rewrite Nat.eqb_refl, file_content_with, set_content_with.
    simpl negb. cbv iota. eexists. split; [reflexivity|lia].
  - exists (c ++ a), k. rewrite length_app, store_with, <- app_assoc. by split_and!.
Qed.

(** Closing the stream: a disk that loses what the thread lost gives the rest
    of the function. *)
Lemma in_loop_close f1 lt m s recv f d' f' g :
  create_directories f0 (parent_path (j_dest j)) = (true, f1) ->
  open_trunc f1 (j_tmp j) = Some (lt, with_file f1 lt [] m) ->
  in_loop f1 lt m (DClose s recv) f -> dl_step j (DClose s recv) f d' f' g ->
  exists disk, tail d' f' (big disk).
Proof.
  intros Hcd Hop Hin Hs. inversion Hs as [| | | | | | | | |h pos a b recv' f2| | | | | | | | | | | |]; subst.
  destruct Hin as (c & fail & Hh & Hp & -> & Hc & Hrun). simpl in Hh, Hp, Hc. subst h pos.
  destruct (Hrun (length b)) as (c' & Hr & Hc'). exists (Disk fail (length b)). unfold tail, big.
  rewrite (download_opened _ _ _ _ _ _ f1 lt (with_file f1 lt [] m)) by done.
  change (tr_rx (os_of (Disk fail (length b)))) with (j_rx j).
  change (tr_disk (os_of (Disk fail (length b)))) with (Disk fail (length b)).
  unfold loop_run in Hr. rewrite Hr, stream_close_with, store_with. cbn [disk_lost].
  apply open_trunc_spec in Hop as (Hres & Hlt & Hnd & _).
  destruct (Z.eq_dec (zlen recv) (j_size j)) as [Hz|Hz].
  - rewrite (Hc' Hz), <- (Hc Hz), app_assoc. do 2 f_equal.
    rewrite length_app, Nat.add_sub. by rewrite take_app_length.
  - unfold finish. rewrite (proj2 (Z.eqb_neq _ _)) by done. simpl negb. cbv iota.
    by rewrite !(discard_with f1 (j_dest j) lt).
Qed.

Lemma solo_ok_step d f d' f' g : solo_ok d f -> dl_step j d f d' f' g -> solo_ok d' f'.
Proof.
  intros Hok Hs. destruct d; cbn [solo_ok] in Hok;
    lazymatch type of Hok with
    | @ex disk _ => destruct Hok as [disk Ht]; pose proof (tail_step _ _ _ _ _ _ Ht Hs); inversion Hs; subst; by exists disk
    | _ => idtac
    end.
  - inversion Hs; subst; cbn [solo_ok].
    + done.
    + exists good_disk. unfold tail, big, download. by rewrite H.
  - inversion Hs; subst; cbn [solo_ok].
    + pose proof H as Ho. apply open_trunc_spec in Ho as (_ & _ & _ & m & ->).
      exists f, l, m. split_and!; [done..|]. exists [], 0%nat. by split_and!.
    + exists good_disk. unfold tail, big, download, j_tmp in *. rewrite Hok, H. by eexists.
  - destruct Hok as (f1 & lt & m & Hcd & Hop & Hin).
    pose proof (in_loop_step f1 lt m (DLoop s recv rx) f d' f' g I Hin Hs) as Hin'.
    destruct d'; try done; by exists f1, lt, m.
  - destruct Hok as (f1 & lt & m & Hcd & Hop & Hin).
    pose proof (in_loop_close f1 lt m _ _ f d' f' g Hcd Hop Hin Hs) as Ht. by inversion Hs; subst.
Qed.

(** A download made in steps does what the function does.  However the
    bytes are split between the buffer and the file, whatever write fails and
    whatever the last flush loses, when the thread runs alone and ends, its
    outcome and the file system it leaves are those of [download] with the
    same arguments and the same bytes from the socket, for some behaviour of
    the disk. *)
Theorem download_thread_refines o recv f :
  rtc (solo_step j) (DStart, f0) (DDone o recv, f) ->
  exists disk e, download (os_of disk) (j_dest j) (j_size j) (j_hash j) (j_mode j) f0 = (e, o, f).
Proof.
  intros Hr. assert (Hok : solo_ok DStart f0) by done.
  assert (Hgen : forall x y, rtc (solo_step j) x y -> solo_ok x.1 x.2 -> solo_ok y.1 y.2).
  { intros x y Hxy. induction Hxy as [|x y z [g Hs] _ IH]; [done|]. eauto using solo_ok_step. }
  destruct (Hgen _ _ Hr Hok) as [disk [e He]]. by exists disk, e.
Qed.
End Solo.

(** ** Termination *)

Lemma rx_weight_drop count s b s' :
  sock_read count s = (RdBytes b, s') -> b <> [] -> (rx_weight s' + length b <= rx_weight s)%nat.
Proof.
  destruct s as [|[d| |] s]; [by intros [= <- <-]| |done..]. cbn [sock_read]. intros [= <- <-] Hne.
  assert (Hl : (length (take count d) + length (drop count d) = length d)%nat) by by rewrite <- length_app, take_drop.
  unfold rx_weight. destruct (drop count d) as [|x r]; cbn [sum_list_with ev_weight] in *; lia.
Qed.

(** How many steps a thread can still make, at most. *)
Definition dl_left (j : job) (d : dl) : nat :=
  match d with
  | DStart => 2 * rx_weight (j_rx j) + 10
  | DOpen => 2 * rx_weight (j_rx j) + 9
  | DLoop s _ rx => 2 * rx_weight rx + length (s_pend s) + 8
  | DClose _ _ => 7
  | DCheck _ => 6
  | DRename _ => 5
  | DMode _ => 4
  | DDiscard _ => 3
  | DCatch => 2
  | DCatchRemove => 1
  | DDone _ _ => 0
  end.

(** C19: Every download thread that is scheduled ends.  Whatever the peer, the
    disk and the other threads do, a thread that has not ended can make a step,
    and every step it makes brings its end nearer by a measure that the steps
    of the other threads do not change. *)
Theorem download_thread_ends {E : EVP} j d f :
  ((forall o recv, d <> DDone o recv) -> exists d' f' g, dl_step j d f d' f' g) /\
  (forall d' f' g, dl_step j d f d' f' g -> (dl_left j d' < dl_left j d)%nat) /\
  (forall g, dl_left j (move_dl g d) = dl_left j d).
Proof.
  split_and!.
  - intros Hd. destruct d as [| |[h pos pend] recv rx|[h pos pend] recv|recv|why|recv|recv| | |o recv]; [..|by destruct (Hd o recv)].
    + destruct (create_directories f (parent_path (j_dest j))) as [[] f'] eqn:Hc; do 3 eexists;
        [by apply dl_mkdirs|by apply dl_mkdirs_throws].
    + destruct (open_trunc f (j_tmp j)) as [[l f']|] eqn:Ho; do 3 eexists; [by apply dl_open|by apply dl_open_fails].
    + destruct (Z.le_gt_cases (j_size j) (zlen recv)); [do 3 eexists; by apply dl_loop_end|].
      destruct (sock_read (to_read j recv) rx) as [r rx'] eqn:Er. destruct r as [[|b buf]|e];
        [do 3 eexists; eapply dl_read_end; eauto|do 3 eexists; by eapply dl_write|do 3 eexists; eapply dl_read_end; eauto].
    + rewrite <- (app_nil_r pend). do 3 eexists. apply dl_close.
    + destruct (Z.eq_dec (zlen recv) (j_size j)); [|do 3 eexists; by apply dl_size_bad].
      destruct (hash_differs (j_ctx j) f (j_tmp j) (j_hash j)) eqn:Hh; do 3 eexists; [by apply dl_hash_bad|by apply dl_checked].
    + destruct (fs_remove f (j_tmp j)) eqn:Hr; do 3 eexists; [by apply dl_discard|by eapply dl_discard_throws].
    + destruct (fs_rename f (j_tmp j) (j_dest j)) eqn:Hr; do 3 eexists; [by apply dl_rename|by eapply dl_rename_throws].
    + do 3 eexists. apply dl_mode.
    + destruct (fs_exists f (j_tmp j)) eqn:He; do 3 eexists; [by apply dl_catch|by apply dl_catch_nothing].
    + destruct (fs_remove f (j_tmp j)) eqn:Hr; do 3 eexists; [by apply dl_catch_remove|by eapply dl_catch_throws].
  - intros d' f' g Hs. destruct Hs; cbn [dl_left s_pend]; try (simpl; lia).
    + pose proof (rx_weight_drop _ _ _ _ H0 H1). rewrite length_app. destruct buffer; [done|]. simpl in *. lia.
    + rewrite length_app. destruct a; [done|]. simpl. lia.
  - intros g. by destruct d as [| |[]|[]| | | | | | |].
Qed.

(** ** Lemmas: lexical locations *)

(** The location a path names when all its prefixes are directories. *)
Fixpoint lex (cur : loc) (comps : list str) : loc :=
  match comps with
  | [] => cur
  | c :: cs =>
      if is_dot c then lex cur cs
      else if str_eqb c $".." then lex (parent_loc cur) cs
      else lex (cur ++ [c]) cs
  end.

Definition lex_loc (f : fsys) (p : str) : loc := lex (start_loc f p) (split_slash p).

Lemma walk_lex f cur cs l : walk f cur cs = Some l -> l = lex cur cs.
Proof.
  revert cur. induction cs as [|c cs IH]; intros cur; simpl; [by intros [= ->]|].
  destruct (is_dir_at f cur); [|done]. simpl. repeat case_match; apply IH.
Qed.

Lemma resolve_lex f p l : resolve f p = Some l -> l = lex_loc f p.
Proof. destruct p; [done|]. apply walk_lex. Qed.

Lemma lex_loc_cwd f f' p : fs_cwd f' = fs_cwd f -> lex_loc f' p = lex_loc f p.
Proof. intros H. unfold lex_loc, start_loc. by rewrite H. Qed.

(** ** Lemmas: changes that keep the directories *)

Definition keeps_dirs (f f' : fsys) : Prop :=
  fs_cwd f' = fs_cwd f /\ forall l, is_dir_at f l = true -> is_dir_at f' l = true.

Lemma resolve_keeps f f' p l : keeps_dirs f f' -> resolve f p = Some l -> resolve f' p = Some l.
Proof.
  intros [Hc Hd]. destruct p as [|c p]; [done|]. unfold resolve. unfold start_loc. rewrite Hc.
  generalize (if Ascii.eqb c slash then [] else fs_cwd f). generalize (split_slash (c :: p)).
  intros cs. induction cs as [|x cs IH]; intros cur; [done|]. simpl.
  destruct (is_dir_at f cur) eqn:Ed; [|done]. rewrite (Hd cur Ed). simpl. repeat case_match; apply IH.
Qed.

Lemma adds_keeps f f' : (forall l, adds_dir_at f f' l) -> fs_cwd f' = fs_cwd f -> keeps_dirs f f'.
Proof.
  intros Ha Hc. split; [done|]. intros l. unfold is_dir_at. destruct l as [|x l]; [done|].
  destruct (Ha (x :: l)) as [-> | [-> _]]; done.
Qed.

Lemma agree_keeps f f' : dirs_agree f f' -> keeps_dirs f f'.
Proof. intros [Hc Hd]. split; [done|]. intros l. by rewrite Hd. Qed.

Lemma resolve_agree f f' p l : dirs_agree f f' -> resolve f p = Some l -> resolve f' p = Some l.
Proof. intros Ha. apply resolve_keeps. by apply agree_keeps. Qed.

Lemma set_content_agree f l c : l <> [] -> dirs_agree f (set_content f l c).
Proof.
  intros Hl. unfold set_content. destruct (fs_nodes f !! l) as [[m|x]|] eqn:En; [done|..]; [|done].
  apply agree_insert_file; [done|]. by apply (not_dir_at _ _ x).
Qed.

(** ** Lemmas: the directories a download creates *)

Lemma lex_app cur a b : lex cur (a ++ b) = lex (lex cur a) b.
Proof. revert cur. induction a as [|c a IH]; intros cur; [done|]. simpl. repeat case_match; apply IH. Qed.

Lemma lex_down cur cs : Forall (fun c => c <> $"..") cs -> cur `prefix_of` lex cur cs.
Proof.
  intros Hcs. revert cur. induction Hcs as [|c cs Hc _ IH]; intros cur; simpl; [done|].
  destruct (is_dot c); [apply IH|]. destruct (str_eqb c _) eqn:E; [by apply str_eqb_eq in E|].
  etransitivity; [|apply IH]. by apply prefix_app_r.
Qed.

Lemma mkdirs_path f cur cs l :
  Forall (fun c => c <> $"..") cs ->
  fs_nodes (snd (mkdirs f cur cs)) !! l = fs_nodes f !! l \/ l `prefix_of` lex cur cs.
Proof.
  intros Hcs. revert f cur. induction Hcs as [|c cs Hc Hcs IH]; intros f cur; simpl; [by left|].
  destruct (is_dot c); [apply IH|]. destruct (str_eqb c _) eqn:E; [by apply str_eqb_eq in E|].
  destruct (fs_nodes f !! (cur ++ [c])) as [[m|x]|]; [apply IH|by left|].
  destruct (IH (set_nodes (<[cur ++ [c] := NDir 493]> (fs_nodes f)) f) (cur ++ [c])) as [-> |]; [|by right].
  simpl. rewrite lookup_insert. destruct (decide (cur ++ [c] = l)) as [<- |]; [|by left].
  right. by apply lex_down.
Qed.

(** Every directory created for a download is above its temporary file. *)
Lemma create_directories_path f base rel lb l :
  confined rel -> resolve f base = Some lb -> is_dir_at f lb = true ->
  let f' := snd (create_directories f (parent_path (path_append base rel))) in
  let lt := lex_loc f (tmp_of (path_append base rel)) in
  fs_nodes f' !! l = fs_nodes f !! l \/ (l `prefix_of` lt /\ l <> lt).
Proof.
  intros [Hh Hcs] Hb Hd. cbv zeta.
  destruct (create_directories_below f base rel lb Hh Hb Hd) as (rs & x & Er & [-> | ->]); [by left|].
  rewrite Er in Hcs. apply Forall_app in Hcs as [Hrs _].
  destruct (mkdirs_path f lb rs l Hrs) as [? | Hl]; [by left|]. right.
  destruct (path_append_split base rel) as (b0 & E & Hb0); [by intros -> | done|].
  destruct (walk_base f base b0 lb Hb Hb0) as [Hst Hw].
  assert (Elt : lex_loc f (tmp_of (path_append base rel)) = lex lb rs ++ [x ++ $".tmp"]).
  { unfold lex_loc, tmp_of. rewrite E, <- app_assoc, <- app_comm_cons, Hst, split_slash_app, lex_app.
    rewrite <- (walk_lex _ _ _ _ Hw).
    destruct (split_slash_suffix rel $".tmp" slash_not_in_tmp) as (ws & w & E1 & E2).
    rewrite Er in E1. apply app_inj_tail in E1 as [<- <-]. rewrite E2, lex_app. cbn [lex]. unfold is_dot, str_eqb.
    by rewrite !bool_decide_false by (intros Hx%(f_equal length); rewrite length_app in Hx; simpl in Hx; lia). }
  rewrite Elt. split; [by apply prefix_app_r|]. intros ->. apply prefix_length in Hl. rewrite length_app in Hl.
  simpl in Hl. lia.
Qed.

(** ** Lemmas: what one operation changes *)

(** The directories are the same, and only the locations in [P] change. *)
Definition changes (P : loc -> Prop) (f f' : fsys) : Prop :=
  dirs_agree f f' /\ forall l, ~ P l -> fs_nodes f' !! l = fs_nodes f !! l.

Lemma changes_refl P f : changes P f f.
Proof. done. Qed.

Lemma node_file f p x l :
  resolve f p = Some l -> node_at f p = Some (NFile x) -> fs_nodes f !! l = Some (NFile x) /\ l <> [] /\ is_dir_at f l = false.
Proof.
  intros Hr Hn. unfold node_at in Hn. rewrite Hr in Hn. destruct l as [|c l]; [done|].
  split_and!; [done..|]. by apply (not_dir_at _ _ x).
Qed.

Lemma store_changes f l pos a : l <> [] -> changes (fun l' => l' = l) f (store (Some l) pos a f).
Proof.
  intros Hl. destruct a as [|x a]; [apply changes_refl|]. split; [by apply set_content_agree|].
  intros l' Hne. unfold store, set_content. destruct (fs_nodes f !! l) as [[]|]; [done| |done].
  by apply lookup_insert_ne.
Qed.

Lemma remove_changes f p f' :
  fs_remove f p = Ok f' -> is_dir_at f (lex_loc f p) = false -> changes (fun l => resolve f p = Some l) f f'.
Proof.
  unfold fs_remove. destruct (resolve f p) as [l|] eqn:Hr.
  2:{ destruct (resolve_notdir f p); intros [= <-]; intros; apply changes_refl. }
  rewrite <- (resolve_lex _ _ _ Hr). intros H Hd. destruct (node_at f p) as [[m|x]|] eqn:Hn.
  - exfalso. unfold node_at in Hn. rewrite Hr in Hn. destruct l; [done|].
    unfold is_dir_at in Hd. simpl in Hn. by rewrite Hn in Hd.
  - injection H as <-. destruct (node_file f p x l Hr Hn) as (_ & Hl & _). split; [by apply agree_delete_file|].
    intros l' Hne. apply lookup_delete_ne. congruence.
  - injection H as <-. apply changes_refl.
Qed.

(** A successful rename moves the file and nothing else. *)
Lemma rename_spec f p q f' :
  fs_rename f p q = Ok f' ->
  exists lp lq x, resolve f p = Some lp /\ resolve f q = Some lq /\ fs_nodes f !! lp = Some (NFile x) /\
    lq <> [] /\ fs_nodes f' !! lq = Some (NFile x) /\ changes (fun l => l = lp \/ l = lq) f f'.
Proof.
  unfold fs_rename. destruct (resolve f p) as [lp|] eqn:Hp; [|done]. destruct (resolve f q) as [lq|] eqn:Hq; [|done].
  unfold file_at. destruct (node_at f p) as [[m|x]|] eqn:Hn; try done.
  rewrite (is_dir_at_resolved _ _ _ Hq). destruct (is_dir_at f lq) eqn:Hd; [done|]. intros [= <-].
  destruct (node_file f p x lp Hp Hn) as (Hx & Hlp & Hdp). assert (Hlq : lq <> []) by (intros ->; done).
  exists lp, lq, x. split_and!; try done; [apply lookup_insert_eq|]. split.
  - transitivity (set_nodes (delete lp (fs_nodes f)) f); [by apply agree_delete_file|].
    assert (Hd' : is_dir_at (set_nodes (delete lp (fs_nodes f)) f) lq = false).
    { unfold is_dir_at in *. destruct lq; [done|]. simpl. rewrite lookup_delete. by case_decide. }
    exact (agree_insert_file _ lq x Hlq Hd').
  - intros l Hl. simpl. rewrite lookup_insert_ne, lookup_delete_ne by naive_solver. done.
Qed.

Lemma mode_changes f p l x mode :
  resolve f p = Some l -> l <> [] -> fs_nodes f !! l = Some (NFile x) ->
  changes (fun l' => l' = l) f (apply_mode f p mode) /\
  exists y, fs_nodes (apply_mode f p mode) !! l = Some (NFile y) /\ f_content y = f_content x /\
    (0 < mode -> f_mode y = Z.land mode 4095).
Proof.
  intros Hr Hl Hx. unfold apply_mode. destruct (Z.ltb_spec 0 mode).
  2:{ split; [apply changes_refl|]. exists x. split_and!; [done..|lia]. }
  unfold fs_permissions. rewrite Hr, (node_at_loc f p l), Hx by done. split; [split|].
  - apply agree_insert_file; [done|]. by apply (not_dir_at _ _ x).
  - intros l' Hne. by apply lookup_insert_ne.
  - eexists. split; [apply lookup_insert_eq|]. done.
Qed.

(** ** Several downloads *)

Definition tmp_loc (f : fsys) (j : job) : loc := lex_loc f (j_tmp j).
Definition dest_loc (f : fsys) (j : job) : loc := lex_loc f (j_dest j).

(** The locations of a download are left alone. *)
Definition spares (j : job) (f f' : fsys) : Prop :=
  keeps_dirs f f' /\ fs_nodes f' !! tmp_loc f j = fs_nodes f !! tmp_loc f j /\
  fs_nodes f' !! dest_loc f j = fs_nodes f !! dest_loc f j.

(** The locations of [i] are not those of [j], nor directories above them. *)
Definition apart (f : fsys) (i j : job) : Prop :=
  (~ tmp_loc f i `prefix_of` tmp_loc f j) /\ (~ dest_loc f i `prefix_of` tmp_loc f j) /\
  tmp_loc f i <> dest_loc f j /\ dest_loc f i <> dest_loc f j.

Section Concurrent.
Context {E : EVP} {L : EVPLaws E}.
Variable base : str.   (* the watched directory *)

(** The download is to a path below the watched directory, and there is no
    directory in the place of its temporary file. *)
Definition placed (f : fsys) (j : job) : Prop :=
  exists rel lb, j_dest j = path_append base rel /\ confined rel /\ resolve f base = Some lb /\
    is_dir_at f lb = true /\ is_dir_at f (tmp_loc f j) = false.

Definition file_where (f : fsys) (p : str) (P : file -> Prop) : Prop :=
  exists l x, resolve f p = Some l /\ l <> [] /\ fs_nodes f !! l = Some (NFile x) /\ P x.

Definition verified (j : job) (x : file) : Prop :=
  j_hash j <> [] -> j_ctx j = true -> sha256 true (f_content x) = j_hash j.

(** The socket delivered [recv] first. *)
Definition received (j : job) (recv : str) : Prop := exists u, toks (j_rx j) = (TByte <$> recv) ++ u.

(** What holds of a thread wherever the others are. *)
Definition dl_ok (f : fsys) (j : job) (d : dl) : Prop :=
  match d with
  | DLoop s recv rx =>
      s_h s = Some (tmp_loc f j) /\ toks (j_rx j) = (TByte <$> recv) ++ toks rx /\
      file_where f (j_tmp j) (fun x => s_pos s = length (f_content x) /\ f_content x ++ s_pend s = recv)
  | DClose s recv =>
      s_h s = Some (tmp_loc f j) /\ received j recv /\
      file_where f (j_tmp j) (fun x =>
        zlen recv = j_size j -> s_pos s = length (f_content x) /\ f_content x ++ s_pend s = recv)
  | DCheck recv =>
      received j recv /\
      file_where f (j_tmp j) (fun x => zlen recv = j_size j -> f_content x `prefix_of` recv)
  | DRename recv =>
      received j recv /\ zlen recv = j_size j /\
      file_where f (j_tmp j) (fun x => f_content x `prefix_of` recv /\ verified j x)
  | DMode recv =>
      received j recv /\ zlen recv = j_size j /\
      file_where f (j_dest j) (fun x => f_content x `prefix_of` recv /\ verified j x)
  | DDone DownloadComplete recv =>
      received j recv /\ zlen recv = j_size j /\
      file_where f (j_dest j) (fun x => f_content x `prefix_of` recv /\ verified j x /\
        (0 < j_mode j -> f_mode x = Z.land (j_mode j) 4095))
  | DDiscard DownloadComplete => False
  | _ => True
  end.

(** *** Stability: what the others do *)

Lemma spares_locs j f f' : spares j f f' -> tmp_loc f' j = tmp_loc f j /\ dest_loc f' j = dest_loc f j.
Proof. intros [[Hc _] _]. split; by apply lex_loc_cwd. Qed.

Lemma placed_stable j f f' : placed f j -> spares j f f' -> placed f' j.
Proof.
  intros (rel & lb & Hd & Hrel & Hb & Hlb & Hnt) Hs. destruct (spares_locs j f f' Hs) as [Et _].
  destruct Hs as (Hk & Ht & _). exists rel, lb. split_and!; try done.
  - by apply (resolve_keeps f).
  - by apply Hk.
  - rewrite Et. unfold is_dir_at in *. by rewrite Ht.
Qed.

Lemma file_where_stable j f f' p P :
  spares j f f' -> p = j_tmp j \/ p = j_dest j -> file_where f p P -> file_where f' p P.
Proof.
  intros (Hk & Ht & Hd) Hp (l & x & Hr & Hl & Hx & HP). exists l, x.
  split_and!; [by apply (resolve_keeps f)|done| |done]. pose proof (resolve_lex _ _ _ Hr) as El.
  unfold tmp_loc, dest_loc in *. destruct Hp as [-> | ->]; congruence.
Qed.

Lemma dl_ok_stable j d f f' g :
  spares j f f' -> g (Some (tmp_loc f j)) = Some (tmp_loc f j) -> dl_ok f j d -> dl_ok f' j (move_dl g d).
Proof.
  intros Hs Hg. destruct (spares_locs j f f' Hs) as [Et _].
  destruct d as [| |[h pos pend] recv rx|[h pos pend] recv|recv|why|recv|recv| | |o recv]; cbn [dl_ok move_dl move_stream s_h s_pos s_pend];
    rewrite ?Et; try done.
  - intros (-> & Hrx & Hf). split_and!; [done..|]. by apply (file_where_stable j f); [|left|].
  - intros (-> & Hrx & Hf). split_and!; [done..|]. by apply (file_where_stable j f); [|left|].
  - intros (Hrx & Hf). split_and!; [done..|]. by apply (file_where_stable j f); [|left|].
  - intros (Hrx & Hz & Hf). split_and!; [done..|]. by apply (file_where_stable j f); [|left|].
  - intros (Hrx & Hz & Hf). split_and!; [done..|]. by apply (file_where_stable j f); [|right|].
  - destruct o; try done. intros (Hrx & Hz & Hf). split_and!; [done..|]. by apply (file_where_stable j f); [|right|].
Qed.
(** *** What the thread does itself *)

(** Where a thread may change something, and the streams it leaves alone. *)
Definition own (f : fsys) (j : job) (l : loc) : Prop := l = tmp_loc f j \/ l = dest_loc f j.

Lemma mkdirs_effect j f ok f' :
  placed f j -> create_directories f (parent_path (j_dest j)) = (ok, f') ->
  keeps_dirs f f' /\ is_dir_at f' (tmp_loc f j) = false /\
  forall l, ~ l `prefix_of` tmp_loc f j -> fs_nodes f' !! l = fs_nodes f !! l.
Proof.
  intros (rel & lb & Hd & Hrel & Hb & Hlb & Hnt) Hc.
  assert (Hpath : forall l, fs_nodes f' !! l = fs_nodes f !! l \/ (l `prefix_of` tmp_loc f j /\ l <> tmp_loc f j)).
  { intros l. pose proof (create_directories_path f base rel lb l Hrel Hb Hlb) as H. cbv zeta in H.
    rewrite <- Hd, Hc in H. exact H. }
  pose proof (create_directories_adds f (parent_path (j_dest j))) as Ha. rewrite Hc in Ha. simpl in Ha.
  split_and!.
  - apply adds_keeps; [intros l; apply Ha|apply (Ha [])].
  - unfold is_dir_at in *. destruct (Hpath (tmp_loc f j)) as [-> | [_ []]]; done.
  - intros l Hl. destruct (Hpath l) as [? | []]; done.
Qed.

Lemma unlinked_other f p l : l <> lex_loc f p -> unlinked f p (Some l) = Some l.
Proof.
  intros Hl. unfold unlinked. rewrite bool_decide_false; [done|]. intros H. symmetry in H.
  by apply resolve_lex in H.
Qed.

Lemma renamed_other f p q l : l <> lex_loc f p -> l <> lex_loc f q -> renamed f p q (Some l) = Some l.
Proof.
  intros Hp Hq. unfold renamed. rewrite !bool_decide_false; [done|..]; intros H; symmetry in H; by apply resolve_lex in H.
Qed.

Lemma changes_own f f' j (P : loc -> Prop) :
  (forall l, P l -> own f j l) -> changes P f f' -> changes (own f j) f f'.
Proof. intros HP [Ha Hn]. split; [done|]. intros l Hl. apply Hn. naive_solver. Qed.

Lemma store_own f j P pos a :
  file_where f (j_tmp j) P -> changes (own f j) f (store (Some (tmp_loc f j)) pos a f).
Proof.
  intros (lt & x & Hr & Hl & _). apply (changes_own _ _ _ (fun l => l = tmp_loc f j)); [intros l ->; by left|].
  apply store_changes. unfold tmp_loc. by rewrite <- (resolve_lex _ _ _ Hr).
Qed.

Lemma dl_step_changes j d f d' f' g :
  placed f j -> dl_ok f j d -> dl_step j d f d' f' g ->
  d = DStart \/ (changes (own f j) f f' /\ forall l, ~ own f j l -> g (Some l) = Some l).
Proof.
  intros Hpl Hok Hs. pose proof Hpl as (_ & _ & _ & _ & _ & _ & Hnt).
  destruct Hs; try (by left); right; try (split; [apply changes_refl|done]).
  - apply open_trunc_spec in H as (Hr & Hl & Hnd & m & ->). split; [|done].
    apply (changes_own _ _ _ (fun l' => l' = l)); [intros l' ->; left; by apply resolve_lex|].
    split; [by apply with_file_agree|]. intros l' Hne. by apply lookup_insert_ne.
  - destruct Hok as (Hh & _ & Hf). simpl in Hh. subst h. split; [by eapply store_own|done].
  - destruct Hok as (Hh & _ & Hf). simpl in Hh. subst h. split; [by eapply store_own|done].
  - destruct Hok as (Hh & _ & Hf). simpl in Hh. subst h. split; [by eapply store_own|done].
  - split; [|intros l Hl; apply unlinked_other; unfold own in Hl; naive_solver].
    eapply changes_own; [|by apply remove_changes]. intros l Hl%resolve_lex. by left.
  - split; [|intros l Hl; apply renamed_other; unfold own in Hl; naive_solver].
    apply rename_spec in H as (lp & lq & x & Hp & Hq & _ & _ & _ & Hch).
    eapply changes_own; [|exact Hch]. apply resolve_lex in Hp, Hq. intros l [-> | ->]; [by left|by right].
  - destruct Hok as (_ & _ & ld & x & Hr & Hl & Hx & _). split; [|done].
    destruct (mode_changes f (j_dest j) ld x (j_mode j) Hr Hl Hx) as [Hch _].
    eapply changes_own; [|exact Hch]. intros l ->. right. by apply resolve_lex.
  - split; [|intros l Hl; apply unlinked_other; unfold own in Hl; naive_solver].
    eapply changes_own; [|by apply remove_changes]. intros l Hl%resolve_lex. by left.
Qed.
Lemma file_where_store f j pos a (P Q : file -> Prop) :
  file_where f (j_tmp j) P ->
  (forall x y, P x -> (pos = length (f_content x) -> f_content y = f_content x ++ a) -> Q y) ->
  file_where (store (Some (tmp_loc f j)) pos a f) (j_tmp j) Q.
Proof.
  intros Hf HQ. pose proof (store_own f j P pos a Hf) as [Ha _]. destruct Hf as (lt & x & Hr & Hl & Hx & HP).
  assert (Et : tmp_loc f j = lt) by (symmetry; by apply resolve_lex). rewrite Et in *.
  assert (Hr' : resolve (store (Some lt) pos a f) (j_tmp j) = Some lt)
    by (by apply (resolve_agree f)).
  destruct a as [|b a].
  - exists lt, x. split_and!; try done. apply (HQ x); [done|]. intros _. by rewrite app_nil_r.
  - exists lt, (File (write_at (f_content x) pos (b :: a)) (f_mode x) (fs_now f)). split_and!; try done.
    + unfold store. rewrite (set_content_nodes _ _ _ x Hx). simpl. rewrite lookup_insert_eq.
      unfold file_content. by rewrite Hx.
    + apply (HQ x); [done|]. simpl. intros ->. apply write_at_end.
Qed.

Lemma received_read j recv rx buffer rx' :
  toks (j_rx j) = (TByte <$> recv) ++ toks rx -> sock_read (to_read j recv) rx = (RdBytes buffer, rx') -> buffer <> [] ->
  toks (j_rx j) = (TByte <$> recv ++ buffer) ++ toks rx'.
Proof.
  intros Ht Hr Hne. rewrite Ht, fmap_app, <- app_assoc. f_equal. by apply (sock_read_toks (to_read j recv)).
Qed.

Lemma dl_step_cwd j d f d' f' g :
  placed f j -> dl_ok f j d -> dl_step j d f d' f' g -> fs_cwd f' = fs_cwd f.
Proof.
  intros Hpl Hok Hs. destruct (dl_step_changes j d f d' f' g Hpl Hok Hs) as [-> | [[[Hc _] _] _]]; [|done].
  by inversion Hs as [f1 f2 Hc|f1 f2 Hc| | | | | | | | | | | | | | | | | | | |]; subst;
    destruct (mkdirs_effect _ _ _ _ Hpl Hc) as [[-> _] _].
Qed.

(** Its own step keeps what holds of the thread. *)
Lemma dl_ok_step j d f d' f' g :
  placed f j -> dl_ok f j d -> dl_step j d f d' f' g -> dl_ok f' j d'.
Proof.
  intros Hpl Hok Hs.
  assert (Et : tmp_loc f' j = tmp_loc f j) by (apply lex_loc_cwd; by eapply dl_step_cwd).
  destruct Hs; cbn [dl_ok s_h s_pos s_pend] in *; rewrite ?Et; try done.
  - apply open_trunc_spec in H as (Hr & Hl & Hnd & m & ->). split_and!; [f_equal; by apply resolve_lex|done|].
    exists l, (File [] m (fs_now f)). split_and!; [by rewrite resolve_with|done|apply lookup_insert_eq|done..].
  - destruct Hok as (-> & Ht & Hf). split_and!; [done|by eexists|].
    destruct Hf as (l & x & ? & ? & ? & ?). exists l, x. by split_and!.
  - destruct Hok as (-> & Ht & Hf). split_and!; [done|by eexists|].
    destruct Hf as (l & x & ? & ? & ? & ?). exists l, x. by split_and!.
  - destruct Hok as (-> & Ht & Hf). split_and!; [done|by eapply received_read|].
    destruct Hf as (l & x & ? & ? & ? & ? & Hc). exists l, x. split_and!; try done. by rewrite app_assoc, Hc.
  - destruct Hok as (-> & Ht & Hf). split_and!; [done|by eexists|].
    eapply file_where_store; [exact Hf|]. intros x y _ _ Hz. lia.
  - destruct Hok as (-> & Ht & Hf). split_and!; [done..|].
    eapply file_where_store; [exact Hf|]. intros x y [Hp Hc] Hy. rewrite (Hy Hp), length_app, <- app_assoc. by subst.
  - destruct Hok as (-> & Ht & Hf). split; [done|].
    eapply file_where_store; [exact Hf|]. intros x y Hx Hy Hz. destruct (Hx Hz) as [Hp Hc].
    rewrite (Hy Hp). exists b. by rewrite <- app_assoc.
  - destruct Hok as (Ht & l & x & Hr & Hl & Hx & Hc). split_and!; [done..|]. exists l, x. split_and!; try done; [by apply Hc|].
    intros Hne Hctx. apply (hash_checked (j_ctx j) f (j_tmp j)); try done.
    unfold ifstream_open. by rewrite (node_at_loc f (j_tmp j) l), Hx.
  - destruct why; done.
  - destruct Hok as (Ht & Hz & lt & x & Hr & Hl & Hx & Hc). split_and!; [done..|].
    apply rename_spec in H as (lp & lq & y & Hp & Hq & Hy & Hlq & Hy' & Hch).
    assert (y = x) as -> by congruence. exists lq, x. split; [apply (resolve_agree f); [apply Hch|done]|done].
  - destruct Hok as (Ht & Hz & ld & x & Hr & Hl & Hx & Hc & Hv). split_and!; [done..|].
    destruct (mode_changes f (j_dest j) ld x (j_mode j) Hr Hl Hx) as ((Ha & _) & y & Hy & Hyc & Hym).
    exists ld, y. unfold verified. rewrite Hyc. split_and!; try done. by apply (resolve_agree f).
Qed.

(** Its own step keeps the place of the download, and no other download notices
    it. *)
Lemma dl_step_guarantee j d f d' f' g :
  placed f j -> dl_ok f j d -> dl_step j d f d' f' g ->
  placed f' j /\
  forall i, apart f i j -> spares i f f' /\ g (Some (tmp_loc f i)) = Some (tmp_loc f i).
Proof.
  intros Hpl Hok Hs. destruct (dl_step_changes j d f d' f' g Hpl Hok Hs) as [-> | [[Ha Hn] Hg]].
  - assert (Hm : exists ok, create_directories f (parent_path (j_dest j)) = (ok, f') /\ g = id) by (inversion Hs; subst; eauto).
    destruct Hm as (ok & Hc & ->). destruct (mkdirs_effect j f ok f' Hpl Hc) as (Hk & Hnt & Hn). split.
    + destruct Hpl as (rel & lb & Hd & Hrel & Hb & Hlb & _). exists rel, lb.
      split_and!; [done|done|by apply (resolve_keeps f)|by apply Hk|].
      unfold tmp_loc. rewrite (lex_loc_cwd f) by apply Hk. done.
    + intros i (H1 & H2 & _). split; [|done]. split_and!; [done|by apply Hn..].
  - split.
    + destruct Hpl as (rel & lb & Hd & Hrel & Hb & Hlb & Hnt). exists rel, lb. destruct Ha as [Hc Hd'] eqn:EA.
      split_and!; [done|done|by apply (resolve_agree f)|by rewrite <- Hd'|].
      unfold tmp_loc. rewrite (lex_loc_cwd f) by done. by rewrite <- Hd'.
    + intros i (H1 & H2 & H3 & H4). assert (Ht : ~ own f j (tmp_loc f i)).
      { intros [Et | Ed]; [|done]. apply H1. by rewrite Et. }
      split; [|by apply Hg]. split_and!; [by apply agree_keeps|by apply Hn|]. apply Hn.
      intros [Et | Ed]; [|done]. apply H2. by rewrite Et.
Qed.
(** *** All the threads *)

Definition sys_ok (js : list job) (y : sys) : Prop :=
  fst <$> y_threads y = js /\
  (forall i j d, y_threads y !! i = Some (j, d) -> placed (y_fs y) j /\ dl_ok (y_fs y) j d) /\
  (forall i1 i2 j1 j2, i1 <> i2 -> js !! i1 = Some j1 -> js !! i2 = Some j2 -> apart (y_fs y) j1 j2).

Lemma apart_cwd f f' i j : fs_cwd f' = fs_cwd f -> apart f i j -> apart f' i j.
Proof. intros Hc. unfold apart, tmp_loc, dest_loc. by rewrite !(lex_loc_cwd f f') by done. Qed.

Lemma thread_job js (ts : list (job * dl)) i j d : fst <$> ts = js -> ts !! i = Some (j, d) -> js !! i = Some j.
Proof. intros <- H. rewrite list_lookup_fmap, H. done. Qed.

Lemma sys_ok_step env js y y' :
  (forall f f', env f f' -> forall j, j ∈ js -> spares j f f') ->
  sys_ok js y -> sys_step env y y' -> sys_ok js y'.
Proof.
  intros Henv (Hjs & Hth & Hap) Hs. destruct Hs as [i j d d' g f f' ts Hi Hst|f f' ts He]; simpl in *.
  - destruct (Hth i j d Hi) as [Hpl Hok].
    destruct (dl_step_guarantee j d f d' f' g Hpl Hok Hst) as [Hpl' Hg].
    pose proof (dl_ok_step j d f d' f' g Hpl Hok Hst) as Hok'.
    pose proof (dl_step_cwd j d f d' f' g Hpl Hok Hst) as Hcwd.
    split_and!; simpl.
    + rewrite list_fmap_insert, <- list_fmap_compose. simpl.
      rewrite <- Hjs. rewrite list_insert_id; [done|]. by rewrite list_lookup_fmap, Hi.
    + intros i' j' d'' Hi'. destruct (decide (i' = i)) as [-> | Hne].
      { rewrite list_lookup_insert_eq in Hi' by (rewrite length_fmap; by eapply lookup_lt_Some). by simplify_eq. }
      rewrite list_lookup_insert_ne, list_lookup_fmap in Hi' by done.
      destruct (ts !! i') as [[j0 d0]|] eqn:E0; [|done]. simpl in Hi'. simplify_eq.
      destruct (Hth i' j' d0 E0) as [Hpl0 Hok0].
      destruct (Hg j') as [Hsp Hgt]; [by eapply (Hap i' i); eauto using thread_job|].
      split; [by eapply placed_stable|by eapply dl_ok_stable].
    + intros. by eapply apart_cwd; [|eapply Hap].
  - split_and!; simpl; [done| |].
    + intros i j d Hi. destruct (Hth i j d Hi) as [Hpl Hok].
      assert (Hsp : spares j f f') by (apply Henv; [done|]; eapply list_elem_of_lookup_2, thread_job; eauto).
      split; [by eapply placed_stable|]. replace d with (move_dl id d) by by destruct d as [| |[]|[]| | | | | | |].
      by eapply dl_ok_stable.
    + intros i1 i2 j1 j2 Hne H1 H2. eapply apart_cwd; [|by eapply Hap].
      assert (Hsp : spares j1 f f') by (apply Henv; [done|]; by eapply list_elem_of_lookup_2). apply Hsp.
Qed.

(** C3: downloads to different places do not disturb each other.  Take any
    number of downloads below the watched directory such that none has a
    temporary file or a destination that belongs to another one or is a
    directory above its temporary file.  However their steps and the changes
    other programs make elsewhere are interleaved, each download that reports
    completion leaves at its destination a regular file of the bytes its own
    peer sent, less what the disk lost; with a hash to check and a digest
    context the file has the expected hash; and with a mode, that mode. *)
Theorem concurrent_downloads env f0 js f ts i j recv :
  (forall i j, js !! i = Some j -> placed f0 j) ->
  (forall i1 i2 j1 j2, i1 <> i2 -> js !! i1 = Some j1 -> js !! i2 = Some j2 -> apart f0 j1 j2) ->
  (forall f f', env f f' -> forall j, j ∈ js -> spares j f f') ->
  rtc (sys_step env) (started f0 js) (Sys f ts) -> ts !! i = Some (j, DDone DownloadComplete recv) ->
  exists u y, toks (j_rx j) = (TByte <$> recv) ++ u /\ zlen recv = j_size j /\
    file_at f (j_dest j) = Some y /\ f_content y `prefix_of` recv /\
    (j_hash j <> [] -> j_ctx j = true -> sha256 true (f_content y) = j_hash j) /\
    (0 < j_mode j -> f_mode y = Z.land (j_mode j) 4095).
Proof.
  intros Hpl Hap Henv Hr Hi.
  assert (Hgen : forall y y', rtc (sys_step env) y y' -> sys_ok js y -> sys_ok js y').
  { intros y y' Hy. induction Hy; eauto using sys_ok_step. }
  assert (H0 : sys_ok js (started f0 js)).
  { split_and!; [| |done]; simpl.
    - rewrite <- list_fmap_compose. apply list_fmap_id.
    - intros i' j' d' H'. rewrite list_lookup_fmap in H'. destruct (js !! i') eqn:Ej; [|done]. simpl in H'.
      simplify_eq. split; [by eapply Hpl|done]. }
  destruct (Hgen _ _ Hr H0) as (_ & Hth & _). destruct (Hth i j _ Hi) as [_ Hok].
  destruct Hok as ((u & Hu) & Hz & l & y & Hres & Hl & Hy & Hc & Hv & Hm). simpl in *.
  exists u, y. split_and!; try done. by apply (file_at_loc _ _ l).
Qed.
End Concurrent.

(** ** Schedules *)

(** What a thread is told to do: its next operation, a flush of some bytes of
    the buffer, a write that fails after some bytes, a close that loses the
    last bytes. *)
Inductive choice := Go | Flush (n : nat) | FailWrite (n : nat) | Lose (n : nat).

Section Schedules.
Context {E : EVP}.

Definition dl_next (j : job) (c : choice) (d : dl) (f : fsys) : option (dl * fsys * (handle -> handle)) :=
  match d, c with
  | DStart, Go =>
      let '(ok, f') := create_directories f (parent_path (j_dest j)) in Some (if ok then DOpen else DCatch, f', id)
  | DOpen, Go =>
      Some match open_trunc f (j_tmp j) with
           | Some (l, f') => (DLoop (Stream (Some l) 0 []) [] (j_rx j), f', id)
           | None => (DDone TmpOpenFailed [], f, id)
           end
  | DLoop (Stream h pos pend) recv rx, Flush n =>
      match take n pend with
      | [] => None
      | a => Some (DLoop (Stream h (pos + length a) (drop n pend)) recv rx, store h pos a f, id)
      end
  | DLoop (Stream h pos pend as s) recv rx, (Go | FailWrite _) =>
      if j_size j <=? zlen recv then Some (DClose s recv, f, id)
      else
        match sock_read (to_read j recv) rx, c with
        | (RdBytes [], _), _ | (RdErr _, _), _ => Some (DClose s recv, f, id)
        | (RdBytes buffer, _), FailWrite n =>
            let a := take n (pend ++ buffer) in
            Some (DClose (Stream h (pos + length a) (drop n (pend ++ buffer))) recv, store h pos a f, id)
        | (RdBytes buffer, rx'), _ => Some (DLoop (Stream h pos (pend ++ buffer)) (recv ++ buffer) rx', f, id)
        end
  | DClose (Stream h pos pend) recv, Go => Some (DCheck recv, store h pos pend f, id)
  | DClose (Stream h pos pend) recv, Lose n => Some (DCheck recv, store h pos (take (length pend - n) pend) f, id)
  | DCheck recv, Go =>
      Some (if negb (zlen recv =? j_size j) then DDiscard (SizeMismatch (zlen recv))
            else if hash_differs (j_ctx j) f (j_tmp j) (j_hash j) then DDiscard HashMismatch
            else DRename recv, f, id)
  | DDiscard why, Go =>
      Some match fs_remove f (j_tmp j) with
           | Ok f' => (DDone why [], f', unlinked f (j_tmp j))
           | Throw _ => (DCatch, f, id)
           end
  | DRename recv, Go =>
      Some match fs_rename f (j_tmp j) (j_dest j) with
           | Ok f' => (DMode recv, f', renamed f (j_tmp j) (j_dest j))
           | Throw _ => (DCatch, f, id)
           end
  | DMode recv, Go => Some (DDone DownloadComplete recv, apply_mode f (j_dest j) (j_mode j), id)
  | DCatch, Go => Some (if fs_exists f (j_tmp j) then DCatchRemove else DDone DownloadException [], f, id)
  | DCatchRemove, Go =>
      Some match fs_remove f (j_tmp j) with
           | Ok f' => (DDone DownloadException [], f', unlinked f (j_tmp j))
           | Throw _ => (DDone Escaped [], f, id)
           end
  | _, _ => None
  end.

Lemma dl_next_sound j c d f d' f' g : dl_next j c d f = Some (d', f', g) -> dl_step j d f d' f' g.
Proof.
  destruct d as [| |[h pos pend] recv rx|[h pos pend] recv|recv|why|recv|recv| | |o recv], c as [|n|n|n];
    cbn [dl_next]; try done.
  - destruct (create_directories _ _) as [[] f1] eqn:Hc; intros [= <- <- <-]; by constructor.
  - destruct (open_trunc _ _) as [[l f1]|] eqn:Ho; intros [= <- <- <-]; by constructor.
  - destruct (Z.leb_spec (j_size j) (zlen recv)); [intros [= <- <- <-]; by constructor|].
    destruct (sock_read _ rx) as [[[|b buf]|e] rx'] eqn:Er; intros [= <- <- <-];
      [eapply dl_read_end; eauto|by eapply dl_write|eapply dl_read_end; eauto].
  - destruct (take n pend) as [|x a] eqn:Ht; [done|]. intros [= <- <- <-].
    rewrite <- (take_drop n pend), Ht at 1. by apply dl_flush.
  - destruct (Z.leb_spec (j_size j) (zlen recv)); [intros [= <- <- <-]; by constructor|].
    destruct (sock_read _ rx) as [[[|b buf]|e] rx'] eqn:Er; intros [= <- <- <-];
      [eapply dl_read_end; eauto| |eapply dl_read_end; eauto].
    eapply dl_write_fails; [done|done|done|]. by rewrite take_drop.
  - intros [= <- <- <-]. pose proof (dl_close j h pos pend [] recv f) as Hc. by rewrite app_nil_r in Hc.
  - intros [= <- <- <-]. pose proof (dl_close j h pos (take (length pend - n) pend) (drop (length pend - n) pend) recv f) as Hc.
    by rewrite take_drop in Hc.
  - destruct (Z.eqb_spec (zlen recv) (j_size j)); [|intros [= <- <- <-]; by constructor].
    destruct (hash_differs _ _ _ _) eqn:Hh; intros [= <- <- <-]; by constructor.
  - destruct (fs_remove _ _) eqn:Hr; intros [= <- <- <-]; by econstructor.
  - destruct (fs_rename _ _ _) eqn:Hr; intros [= <- <- <-]; by econstructor.
  - intros [= <- <- <-]. constructor.
  - destruct (fs_exists _ _) eqn:He; intros [= <- <- <-]; by constructor.
  - destruct (fs_remove _ _) eqn:Hr; intros [= <- <- <-]; by econstructor.
Qed.

(** Running the threads in the order of a schedule. *)
Fixpoint run_schedule (sched : list (nat * choice)) (y : sys) : option sys :=
  match sched with
  | [] => Some y
  | (i, c) :: rest =>
      '(j, d) ← y_threads y !! i;
      '(d', f', g) ← dl_next j c d (y_fs y);
      run_schedule rest (Sys f' (<[i := (j, d')]> (prod_map id (move_dl g) <$> y_threads y)))
  end.

Lemma run_schedule_sound env sched y y' : run_schedule sched y = Some y' -> rtc (sys_step env) y y'.
Proof.
  revert y. induction sched as [|[i c] rest IH]; intros [f ts]; cbn [run_schedule y_threads y_fs]; [intros [= <-]; apply rtc_refl|].
  destruct (ts !! i) as [[j d]|] eqn:Hi; [|done]. cbn [mbind option_bind].
  destruct (dl_next j c d f) as [[[d' f'] g]|] eqn:Hn; [|done]. cbn [mbind option_bind]. intros Hr.
  eapply rtc_l; [|by apply IH]. by eapply y_thread, dl_next_sound.
Qed.

Fixpoint run_alone (j : job) (cs : list choice) (x : dl * fsys) : option (dl * fsys) :=
  match cs with
  | [] => Some x
  | c :: rest => '(d', f', _) ← dl_next j c x.1 x.2; run_alone j rest (d', f')
  end.

Lemma run_alone_sound j cs x y : run_alone j cs x = Some y -> rtc (solo_step j) x y.
Proof.
  revert x. induction cs as [|c rest IH]; intros [d f]; cbn [run_alone fst snd]; [intros [= <-]; apply rtc_refl|].
  destruct (dl_next j c d f) as [[[d' f'] g]|] eqn:Hn; [|done]. cbn [mbind option_bind]. intros Hr.
  eapply rtc_l; [|by apply IH]. exists g. by eapply dl_next_sound.
Qed.
End Schedules.

(** ** Two downloads of the same file, and witnesses *)

Module DownloadsDemo.
#[local] Existing Instances RealSha256.evp RealSha256.evp_laws.

Definition w_fs : fsys := FS {[ [ $"w" ] := NDir 493 ]} [] 5.

Definition abc_hash : str := Eval vm_compute in sha256 true $"abc".

(** A peer that sends the file, and one that breaks the connection. *)
Definition job_abc (dest : str) : job := Job dest 3 abc_hash 420 [RData $"ab"; RData $"c"] true.
Definition job_cut (dest : str) : job := Job dest 3 abc_hash 420 [] true.

(** The first thread downloads and checks the file; before it renames it, the
    second one opens the same temporary file. *)
Definition race : list (nat * choice) :=
  [(0, Go); (0, Go); (0, Go); (0, Go); (0, Go); (0, Go); (0, Go);
   (1, Go); (1, Go);
   (0, Go); (0, Go);
   (1, Go); (1, Go); (1, Go); (1, Go)]%nat.

(** Two downloads of the same path use the same temporary file.  In the run
    [race] the first one verifies the hash of the file it has received, the
    second one truncates that file by opening it, the first one renames the
    empty file and reports completion, and the second one loses its connection:
    both have ended, the first one as complete, and the file in the watched
    directory is empty although a hash was given for it. *)
Theorem same_path_downloads :
  exists f, rtc (sys_step (fun _ _ => False)) (started w_fs [job_abc $"/w/a.txt"; job_cut $"/w/a.txt"])
    (Sys f [(job_abc $"/w/a.txt", DDone DownloadComplete $"abc"); (job_cut $"/w/a.txt", DDone (SizeMismatch 0) [])]) /\
  abc_hash = sha256 true $"abc" /\
  exists y, file_at f $"/w/a.txt" = Some y /\ f_content y = [] /\ sha256 true (f_content y) <> abc_hash.
Proof.
  exists (FS {[ [ $"w" ] := NDir 493; [ $"w"; $"a.txt" ] := NFile (File [] 420 5) ]} [] 5). split.
  - apply (run_schedule_sound _ race). vm_compute. reflexivity.
  - split; [vm_compute; reflexivity|]. exists (File [] 420 5). split_and!; [vm_compute; reflexivity|done|vm_compute; discriminate].
Qed.

(** Two downloads to different paths, interleaved. *)
Definition js2 : list job := [job_abc $"/w/a.txt"; job_abc $"/w/d/b.txt"].

Definition mixed : list (nat * choice) :=
  [(0, Go); (1, Go); (0, Go); (1, Go); (0, Go); (0, Flush 1); (1, Go); (0, Go); (1, Go); (0, Go); (0, Go); (0, Go);
   (1, Flush 2); (1, Go); (0, Go); (1, Go); (0, Go)]%nat.

Lemma placed2 i j : js2 !! i = Some j -> placed $"/w" w_fs j.
Proof.
  intros Hj. destruct i as [|[|i]]; [| |done]; injection Hj as <-.
  - exists $"a.txt", [ $"w" ]. split_and!; try (vm_compute; reflexivity). by apply (bool_decide_unpack _); vm_compute.
  - exists $"d/b.txt", [ $"w" ]. split_and!; try (vm_compute; reflexivity). by apply (bool_decide_unpack _); vm_compute.
Qed.

Lemma apart2 i1 i2 j1 j2 : i1 <> i2 -> js2 !! i1 = Some j1 -> js2 !! i2 = Some j2 -> apart w_fs j1 j2.
Proof.
  intros Hne H1 H2. destruct i1 as [|[|i1]], i2 as [|[|i2]]; try done; injection H1 as <-; injection H2 as <-;
    by apply (bool_decide_unpack _); vm_compute.
Qed.

Lemma concurrent_downloads_witness :
  exists f ts, run_schedule mixed (started w_fs js2) = Some (Sys f ts) /\
  exists y, file_at f $"/w/a.txt" = Some y /\ f_content y `prefix_of` $"abc".
Proof.
  destruct (run_schedule mixed (started w_fs js2)) as [[f ts]|] eqn:Hr; [|vm_compute in Hr; discriminate].
  exists f, ts. split; [reflexivity|].
  assert (H0 : ts !! 0%nat = Some (job_abc $"/w/a.txt", DDone DownloadComplete $"abc")).
  { apply (f_equal (fmap (fun y => y_threads y !! 0%nat))) in Hr. vm_compute in Hr. by injection Hr. }
  assert (He : forall f f' : fsys, False -> forall j, j ∈ js2 -> spares j f f') by intros ? ? [].
  destruct (concurrent_downloads $"/w" (fun _ _ => False) w_fs js2 f ts 0 (job_abc $"/w/a.txt") $"abc" placed2 apart2 He
    (run_schedule_sound _ mixed _ _ Hr) H0) as (u & y & _ & _ & Hy & Hc & _).
  exists y. exact (conj Hy Hc).
Defined.

Definition w_fs' : fsys := FS {[ [ $"w" ] := NDir 493; [ $"w"; $"a.txt" ] := NFile (File $"abc" 420 5) ]} [] 5.

Lemma download_thread_refines_witness :
  exists disk e, download (os_of (job_abc $"/w/a.txt") disk) $"/w/a.txt" 3 abc_hash 420 w_fs =
    (e, DownloadComplete, w_fs').
Proof.
  apply (download_thread_refines (job_abc $"/w/a.txt") w_fs DownloadComplete $"abc" w_fs').
  apply (run_alone_sound _ [Go; Go; Go; Flush 1; Go; Go; Go; Go; Go; Go]). vm_compute. reflexivity.
Defined.
End DownloadsDemo.
