(* ===== verification/Watcher.v ===== *)
(** * The polling watcher (src/src/backend/cpp/src/filesystem_watcher.cpp)

    The watcher interface of include/filesystem_watcher.h and the portable
    implementation, which lists the watched directory every [pollInterval_]
    and reports the differences to the callback.

    What one listing meets is a list of steps: an entry, an exception of the
    directory iterator or of a query of the entry, or a call of [stop()] seen
    by the loop.  The callback is a function that tells whether it returns or
    throws a [std::exception]; the events it is called with are the output. *)

From S2P Require Import Prelude StdMap FileSys.

(** ** Events *)

Inductive WatchEventType := Created | Modified | Deleted | Moved.

Record WatchEvent := WEvent {
  we_type : WatchEventType;
  we_path : str;
  we_newPath : str
}.

#[export] Instance WatchEventType_eq_dec : EqDecision WatchEventType.
Proof. solve_decision. Defined.
#[export] Instance WatchEvent_eq_dec : EqDecision WatchEvent.
Proof. solve_decision. Defined.

Definition Callback := WatchEvent -> bool.

(** Calling the callback with events one after the other, until it throws. *)
Fixpoint call_all (cb : Callback) (evs : list WatchEvent) : bool * list WatchEvent :=
  match evs with
  | [] => (true, [])
  | e :: evs' => if cb e then let '(ok, l) := call_all cb evs' in (ok, e :: l) else (false, [e])
  end.

Lemma call_all_returning cb evs : (forall e, cb e = true) -> call_all cb evs = (true, evs).
Proof. intros H. induction evs as [|e evs IH]; [done|]. simpl. by rewrite H, IH. Qed.

(** ** One listing *)

Record FileInfo := FInfo { lastWriteTime : Z; fi_size : Z }.

#[export] Instance FileInfo_eq_dec : EqDecision FileInfo.
Proof. solve_decision. Defined.

(** An entry of [fs::recursive_directory_iterator(watchPath_)]: the names from
    the watched directory down to it. *)
Record dirent := DirEnt {
  de_names : list str;
  de_symlink : bool;
  de_regular : bool;
  de_info : FileInfo
}.

Inductive iter_step :=
  | IterEntry (d : dirent)
  | IterThrow                 (* the iterator or a query of the entry throws *)
  | IterStopped.              (* [running_] is false *)

(** [fs::relative(entry.path(), watchPath_).generic_string()] *)
Fixpoint join_slash (names : list str) : str :=
  match names with
  | [] => []
  | [n] => n
  | n :: ns => n ++ slash :: join_slash ns
  end.

Definition relPath (d : dirent) : str := join_slash (de_names d).

(** The two [continue]s of the loop. *)
Definition skipped (d : dirent) : bool :=
  (de_symlink d || negb (de_regular d)) ||
  match relPath d with [] => true | c :: _ => Ascii.eqb c "."%char end.

Inductive scan_end := ScanDone | ScanError | ScanReturned.

Abbreviation known_map := (list (str * FileInfo)).

(** The [for] loop over the entries; the events are accumulated in order. *)
Fixpoint scan (cb : Callback) (steps : list iter_step) (knownFiles : known_map)
    (seenFiles : gset str) (ev : list WatchEvent)
  : scan_end * known_map * gset str * list WatchEvent :=
  match steps with
  | [] => (ScanDone, knownFiles, seenFiles, ev)
  | IterThrow :: _ => (ScanError, knownFiles, seenFiles, ev)
  | IterStopped :: _ => (ScanReturned, knownFiles, seenFiles, ev)
  | IterEntry d :: steps' =>
      if skipped d then scan cb steps' knownFiles seenFiles ev
      else
        let seenFiles := {[ relPath d ]} ∪ seenFiles in
        let report t :=
          let e := WEvent t (relPath d) [] in
          let knownFiles := map_assign (relPath d) (de_info d) knownFiles in
          if cb e then scan cb steps' knownFiles seenFiles (ev ++ [e])
          else (ScanError, knownFiles, seenFiles, ev ++ [e]) in
        match map_find (relPath d) knownFiles with
        | None => report Created
        | Some i =>
            if bool_decide (i <> de_info d) then report Modified
            else scan cb steps' knownFiles seenFiles ev
        end
  end.

(** The loop over [knownFiles] that reports and erases what was not seen;
    [false] when the callback throws, which nothing catches. *)
Fixpoint sweep (cb : Callback) (seenFiles : gset str) (knownFiles : known_map)
  : bool * list WatchEvent * known_map :=
  match knownFiles with
  | [] => (true, [], [])
  | (k, i) :: rest =>
      if bool_decide (k ∈ seenFiles) then
        let '(ok, ev, rest') := sweep cb seenFiles rest in (ok, ev, (k, i) :: rest')
      else
        let e := WEvent Deleted k [] in
        if cb e then
          let '(ok, ev, rest') := sweep cb seenFiles rest in (ok, e :: ev, rest')
        else (false, [e], (k, i) :: rest)
  end.

Inductive poll_end := Slept | Returned | Terminated.

(** The body of [while (running_)]; [dir_exists] is [fs::exists(watchPath_)]. *)
Definition poll (cb : Callback) (dir_exists : bool) (steps : list iter_step)
    (knownFiles : known_map) : poll_end * list WatchEvent * known_map :=
  if negb dir_exists then (Slept, [], knownFiles)
  else
    match scan cb steps knownFiles ∅ [] with
    | (ScanReturned, known, _, ev) => (Returned, ev, known)
    | (_, known, seen, ev) =>
        let '(ok, ev', known') := sweep cb seen known in
        (if ok then Slept else Terminated, ev ++ ev', known')
    end.

(** [watchLoop] over the polls made until [stop()] is seen. *)
Fixpoint watchLoop (cb : Callback) (polls : list (bool * list iter_step)) (knownFiles : known_map)
  : poll_end * list WatchEvent * known_map :=
  match polls with
  | [] => (Returned, [], knownFiles)
  | (dir_exists, steps) :: polls' =>
      match poll cb dir_exists steps knownFiles with
      | (Slept, ev, known) =>
          let '(e, ev', known') := watchLoop cb polls' known in (e, ev ++ ev', known')
      | r => r
      end
  end.

(** ** Life cycle *)

(** [running_], and the number of detached threads inside [watchLoop]. *)
Record watcher := WatcherSt { running_ : bool; loops : nat }.

Definition start (w : watcher) : bool * watcher :=
  if running_ w then (false, w) else (true, WatcherSt true (S (loops w))).

Definition stop (w : watcher) : watcher := WatcherSt false (loops w).

Definition isRunning (w : watcher) : bool := running_ w.

(** A thread tests [running_] and leaves its loop. *)
Definition loop_exit (w : watcher) : option watcher :=
  match running_ w, loops w with
  | false, S n => Some (WatcherSt false n)
  | _, _ => None
  end.

(** ** The directory that is listed *)

(** The files a listing shows to the watcher. *)
Definition visible (entries : list dirent) : gmap str FileInfo :=
  list_to_map ((fun d => (relPath d, de_info d)) <$> List.filter (fun d => negb (skipped d)) entries).

(** Names the kernel gives to entries: not empty, no separator. *)
Definition names_ok (d : dirent) : Prop :=
  de_names d <> [] /\ Forall (fun n => slash ∉ n) (de_names d).

(** A listing of a directory tree: every entry once. *)
Definition listing (entries : list dirent) : Prop :=
  NoDup (de_names <$> entries) /\ Forall names_ok entries.

(** What a client that keeps the set of files does with the events. *)
Definition replay1 (s : gset str) (e : WatchEvent) : gset str :=
  match we_type e with
  | Created => {[ we_path e ]} ∪ s
  | Deleted => s ∖ {[ we_path e ]}
  | _ => s
  end.

Definition replay (s : gset str) (ev : list WatchEvent) : gset str := fold_left replay1 ev s.

(** The events one poll should produce for a path. *)
Definition expected_event (old new : option FileInfo) : option WatchEventType :=
  match old, new with
  | None, Some _ => Some Created
  | Some _, None => Some Deleted
  | Some i, Some j => if bool_decide (i <> j) then Some Modified else None
  | None, None => None
  end.

(** ** Lemmas: relative paths *)

Lemma split_join names :
  names <> [] -> Forall (fun n => slash ∉ n) names -> split_slash (join_slash names) = names.
Proof.
  intros Hne Hf. induction Hf as [|n ns Hn Hf IH]; [done|].
  destruct ns as [|n' ns]; [by apply split_slash_name|].
  change (join_slash (n :: n' :: ns)) with (n ++ slash :: join_slash (n' :: ns)).
  rewrite split_slash_app, split_slash_name, IH by done. done.
Qed.

Lemma relPath_inj d d' : names_ok d -> names_ok d' -> relPath d = relPath d' -> de_names d = de_names d'.
Proof.
  unfold relPath. intros [H1 H2] [H3 H4] H. by rewrite <- (split_join (de_names d)), <- (split_join (de_names d')), H.
Qed.

Lemma listing_relPaths entries : listing entries -> NoDup (relPath <$> entries).
Proof.
  intros [Hnd Hok]. induction Hok as [|d ds Hd Hok IH]; [constructor|].
  apply NoDup_cons in Hnd as [Hn Hnd]. simpl. apply NoDup_cons. split; [|by apply IH].
  intros (d' & He & Hin)%list_elem_of_fmap. apply Hn.
  rewrite (relPath_inj d d'); [by apply list_elem_of_fmap_2|done| |done].
  by eapply Forall_forall in Hok.
Qed.

(** ** Lemmas: scan and sweep *)

Definition kept (entries : list dirent) : list dirent :=
  List.filter (fun d => negb (skipped d)) entries.

(** The event a scan reports for an entry it does not skip. *)
Definition entry_event (knownFiles : known_map) (d : dirent) : option WatchEvent :=
  t ← expected_event (map_find (relPath d) knownFiles) (Some (de_info d));
  Some (WEvent t (relPath d) []).

Lemma kept_NoDup ds : NoDup (relPath <$> ds) -> NoDup (relPath <$> kept ds).
Proof.
  induction ds as [|d ds IH]; [done|]. rewrite fmap_cons, NoDup_cons. intros [Hn Hd]. simpl.
  destruct (negb (skipped d)); [|by apply IH]. rewrite fmap_cons, NoDup_cons. split; [|by apply IH].
  intros (d' & He & Hin)%list_elem_of_fmap. apply Hn. rewrite He. apply list_elem_of_fmap_2.
  unfold kept in Hin. apply list_elem_of_In, filter_In in Hin as [Hin _]. by apply list_elem_of_In.
Qed.

Lemma entry_events_assign k i known (ds : list dirent) :
  map_sorted known -> k ∉ relPath <$> ds ->
  omap (entry_event (map_assign k i known)) ds = omap (entry_event known) ds.
Proof.
  intros Hs Hk. induction ds as [|d ds IH]; [done|]. rewrite fmap_cons, not_elem_of_cons in Hk.
  destruct Hk as [Hk Hks]. specialize (IH Hks).
  assert (entry_event (map_assign k i known) d = entry_event known d) as Hd
    by (unfold entry_event; by rewrite map_find_assign_ne by done).
  cbn. rewrite Hd. by destruct (entry_event known d); rewrite <- IH.
Qed.

Lemma filter_map_sorted (P : str * FileInfo -> Prop) `{!forall e, Decision (P e)} (m : known_map) :
  map_sorted m -> map_sorted (filter P m).
Proof.
  induction m as [|[k i] m IH]; [done|]. intros [Hs Hf]%map_sorted_cons. rewrite filter_cons.
  case_decide; [|by apply IH]. apply map_sorted_cons. split; [by apply IH|].
  apply Forall_forall. intros e [_ He]%list_elem_of_filter. by eapply Forall_forall in Hf.
Qed.

Lemma map_sorted_NoDup (m : known_map) : map_sorted m -> NoDup m.*1.
Proof.
  induction m as [|[k i] m IH]; [constructor|]. intros [Hs Hf]%map_sorted_cons. simpl.
  apply NoDup_cons. split; [|by apply IH]. intros (e & -> & He)%list_elem_of_fmap.
  eapply Forall_forall in Hf; [|exact He]. by rewrite str_ltb_irrefl in Hf.
Qed.

Lemma filter_map_find (s : gset str) (m : known_map) k :
  map_sorted m ->
  map_find k (filter (fun e => e.1 ∈ s) m) = if decide (k ∈ s) then map_find k m else None.
Proof.
  intros Hs. apply option_eq. intros i.
  rewrite <- map_find_elem by (by apply filter_map_sorted). rewrite list_elem_of_filter. simpl.
  case_decide; [rewrite map_find_elem by done; naive_solver|naive_solver].
Qed.

Lemma visible_find ds d :
  NoDup (relPath <$> kept ds) -> d ∈ kept ds -> visible ds !! relPath d = Some (de_info d).
Proof.
  intros Hnd Hd. apply elem_of_list_to_map_1.
  - rewrite <- list_fmap_compose. exact Hnd.
  - apply list_elem_of_fmap. by exists d.
Qed.

Lemma visible_inv ds p i :
  visible ds !! p = Some i -> exists d, d ∈ kept ds /\ p = relPath d /\ i = de_info d.
Proof.
  intros (d & He & Hd)%elem_of_list_to_map_2%list_elem_of_fmap. exists d. naive_solver.
Qed.

Section Returning.
Variable cb : Callback.
Hypothesis Hcb : forall e, cb e = true.

Lemma scan_spec ds known seen ev :
  map_sorted known -> NoDup (relPath <$> kept ds) ->
  exists known' seen',
    scan cb (IterEntry <$> ds) known seen ev =
      (ScanDone, known', seen', ev ++ omap (entry_event known) (kept ds)) /\
    map_sorted known' /\ to_gmap known' = visible ds ∪ to_gmap known /\
    seen' = dom (visible ds) ∪ seen.
Proof.
  revert known seen ev. induction ds as [|d ds IH]; intros known seen ev Hs Hnd.
  { exists known, seen. rewrite app_nil_r. unfold visible. simpl. split_and!; [done..| |].
    - by rewrite (left_id_L ∅ _).
    - rewrite dom_empty_L. set_solver. }
  assert (Hv : visible (d :: ds) = if skipped d then visible ds
    else <[relPath d := de_info d]> (visible ds)).
  { unfold visible. simpl. by destruct (skipped d). }
  rewrite fmap_cons. cbn [scan]. unfold kept in *. simpl List.filter in *.
  destruct (skipped d) eqn:Esk; simpl negb in *; cbv iota in *; rewrite Hv; [by apply IH|].
  rewrite fmap_cons, NoDup_cons in Hnd. destruct Hnd as [Hn Hnd].
  assert (Hnv : visible ds !! relPath d = None).
  { apply not_elem_of_list_to_map_1. intros (kv & Hkv & Hin)%list_elem_of_fmap. apply Hn.
    apply list_elem_of_fmap in Hin as (d' & -> & Hin). simpl in Hkv. rewrite Hkv.
    by apply list_elem_of_fmap_2. }
  assert (Hrep : forall t,
    entry_event known d = Some (WEvent t (relPath d) []) ->
    exists known' seen',
    (if cb (WEvent t (relPath d) []) then
       scan cb (IterEntry <$> ds) (map_assign (relPath d) (de_info d) known)
         ({[ relPath d ]} ∪ seen) (ev ++ [WEvent t (relPath d) []])
     else (ScanError, map_assign (relPath d) (de_info d) known, {[ relPath d ]} ∪ seen,
       ev ++ [WEvent t (relPath d) []])) =
      (ScanDone, known', seen', ev ++ omap (entry_event known) (d :: kept ds)) /\
    map_sorted known' /\
    to_gmap known' = <[relPath d := de_info d]> (visible ds) ∪ to_gmap known /\
    seen' = dom (<[relPath d := de_info d]> (visible ds)) ∪ seen).
  { intros t Ht. rewrite Hcb.
    destruct (IH (map_assign (relPath d) (de_info d) known) ({[ relPath d ]} ∪ seen)
      (ev ++ [WEvent t (relPath d) []])) as (k' & s' & E & Hs' & Hm & Hd);
      [by apply map_assign_sorted|done|].
    exists k', s'. rewrite E. split_and!; [|done| |].
    - simpl omap. rewrite Ht, <- app_assoc. rewrite entry_events_assign by done. done.
    - rewrite Hm, map_assign_gmap by done. rewrite <- insert_union_l.
      by rewrite <- insert_union_r.
    - rewrite Hd, dom_insert_L. set_solver. }
  unfold entry_event in Hrep. unfold expected_event in Hrep.
  destruct (map_find (relPath d) known) as [i|] eqn:Ef; [|by apply Hrep].
  destruct (bool_decide (i <> de_info d)) eqn:Eb; [by apply Hrep|].
  destruct (IH known ({[ relPath d ]} ∪ seen) ev) as (k' & s' & E & Hs' & Hm & Hd); [done..|].
  exists k', s'. rewrite E. split_and!; [|done| |].
  - simpl omap. unfold entry_event at 2. rewrite Ef. unfold expected_event. by rewrite Eb.
  - rewrite Hm, <- insert_union_l. symmetry. apply insert_id.
    apply bool_decide_eq_false in Eb. assert (i = de_info d) as ->
      by (destruct (decide (i = de_info d)); [done|by exfalso]).
    rewrite lookup_union_r by done. by rewrite <- map_find_gmap.
  - rewrite Hd, dom_insert_L. set_solver.
Qed.

Lemma sweep_spec seen (known : list (str * FileInfo)) :
  sweep cb seen known =
    (true, (fun e => WEvent Deleted e.1 []) <$> filter (fun e => e.1 ∉ seen) known,
     filter (fun e => e.1 ∈ seen) known).
Proof.
  induction known as [|[k i] known IH]; [done|]. cbn [sweep]. rewrite !filter_cons. simpl.
  rewrite IH. destruct (decide (k ∈ seen)) as [Hk|Hk].
  - rewrite bool_decide_true by done. rewrite decide_False by (intros H; by apply H). done.
  - rewrite bool_decide_false by done. rewrite decide_True by done. by rewrite Hcb.
Qed.
End Returning.

(** ** Lemmas: a complete poll *)

Definition poll_events (known : known_map) (ds : list dirent) : list WatchEvent :=
  omap (entry_event known) (kept ds) ++
  ((fun e => WEvent Deleted e.1 []) <$> filter (fun e => e.1 ∉ dom (visible ds)) known).

Lemma filter_unseen (known known' : known_map) (v : gmap str FileInfo) :
  map_sorted known -> map_sorted known' -> to_gmap known' = v ∪ to_gmap known ->
  filter (fun e => e.1 ∉ dom v) known' = filter (fun e => e.1 ∉ dom v) known.
Proof.
  intros Hs Hs' Hm. apply to_gmap_inj; [by apply filter_map_sorted..|].
  apply map_eq. intros k. rewrite <- !map_find_gmap by by apply filter_map_sorted.
  apply option_eq. intros i. rewrite <- !map_find_elem by by apply filter_map_sorted.
  rewrite !list_elem_of_filter, !map_find_elem, !map_find_gmap, Hm by done. simpl.
  split; intros [Hk Hi]; (split; [done|]); rewrite lookup_union_r in * by by apply not_elem_of_dom.
  - done.
  - done.
Qed.

Lemma poll_complete cb known ds :
  (forall e, cb e = true) -> map_sorted known -> NoDup (relPath <$> kept ds) ->
  exists known', poll cb true (IterEntry <$> ds) known = (Slept, poll_events known ds, known') /\
    map_sorted known' /\ to_gmap known' = visible ds.
Proof.
  intros Hcb Hs Hnd. destruct (scan_spec cb Hcb ds known ∅ []) as (k' & s' & E & Hs' & Hm & Hd);
    [done..|]. rewrite (right_id_L ∅ (∪)) in Hd. subst s'.
  exists (filter (fun e => e.1 ∈ dom (visible ds)) k'). split_and!.
  - unfold poll. simpl negb. cbv iota. rewrite E, sweep_spec by done. unfold poll_events.
    by rewrite (filter_unseen known k').
  - by apply filter_map_sorted.
  - apply map_eq. intros p. rewrite <- map_find_gmap by by apply filter_map_sorted.
    rewrite filter_map_find, map_find_gmap, Hm by done. case_decide as H.
    + apply elem_of_dom in H as [i Hi]. rewrite (lookup_union_Some_l _ _ _ _ Hi). done.
    + symmetry. by apply not_elem_of_dom.
Qed.

Lemma poll_events_iff known ds t p np :
  map_sorted known -> NoDup (relPath <$> kept ds) ->
  WEvent t p np ∈ poll_events known ds <->
  np = [] /\ expected_event (to_gmap known !! p) (visible ds !! p) = Some t.
Proof.
  intros Hs Hnd. unfold poll_events. rewrite elem_of_app, list_elem_of_omap, list_elem_of_fmap.
  split.
  - intros [(d & Hd & He)|([k i] & He & Hk)].
    + unfold entry_event in He. rewrite map_find_gmap in He by done.
      destruct (expected_event _ _) eqn:Ee in He; [|done]. simpl in He. injection He as -> <- <-.
      rewrite (visible_find ds d) by done. done.
    + injection He as -> -> ->. split; [done|]. apply list_elem_of_filter in Hk as [Hk Hin].
      simpl in *. apply map_find_elem in Hin; [|done]. rewrite map_find_gmap in Hin by done.
      apply not_elem_of_dom in Hk. by rewrite Hin, Hk.
  - intros [-> He]. destruct (visible ds !! p) as [j|] eqn:Ev.
    + left. apply visible_inv in Ev as (d & Hd & -> & ->). exists d. split; [done|].
      unfold entry_event. rewrite map_find_gmap, He by done. done.
    + right. destruct (to_gmap known !! p) as [i|] eqn:Ek; [|done]. injection He as <-.
      exists (p, i). split; [done|]. apply list_elem_of_filter. split; [by apply not_elem_of_dom|].
      apply map_find_elem; [done|]. by rewrite map_find_gmap.
Qed.

Lemma omap_paths_sub known (ds : list dirent) : (we_path <$> omap (entry_event known) ds) `sublist_of` (relPath <$> ds).
Proof.
  induction ds as [|d ds IH]; [done|]. cbn. unfold entry_event at 1.
  destruct (expected_event _ _) as [t|]; simpl; [by apply sublist_skip|by apply sublist_cons].
Qed.

Lemma poll_events_NoDup known ds :
  map_sorted known -> NoDup (relPath <$> kept ds) -> NoDup (we_path <$> poll_events known ds).
Proof.
  intros Hs Hnd. unfold poll_events. rewrite fmap_app. apply NoDup_app. split_and!.
  - eapply sublist_NoDup; [done|apply omap_paths_sub].
  - intros p Hp Hq. eapply elem_of_sublist in Hp; [|apply omap_paths_sub].
    apply list_elem_of_fmap in Hp as (d & -> & Hd).
    apply list_elem_of_fmap in Hq as (e & He & Hq). apply list_elem_of_fmap in Hq as (kv & -> & Hk).
    apply list_elem_of_filter in Hk as [Hk _]. simpl in He. rewrite <- He in Hk.
    apply Hk, elem_of_dom. rewrite (visible_find ds d) by done. by eexists.
  - rewrite <- list_fmap_compose.
    change (NoDup ((fst) <$> filter (fun e => e.1 ∉ dom (visible ds)) known)).
    by apply map_sorted_NoDup, filter_map_sorted.
Qed.

(** ** Lemmas: replay *)

Lemma replay_elem ev s p :
  NoDup (we_path <$> ev) ->
  p ∈ replay s ev <->
    (exists e, e ∈ ev /\ we_path e = p /\ we_type e = Created) \/
    (p ∈ s /\ forall e, e ∈ ev -> we_path e = p -> we_type e <> Deleted).
Proof.
  revert s. induction ev as [|e ev IH]; intros s Hnd; simpl.
  { setoid_rewrite elem_of_nil. naive_solver. }
  apply NoDup_cons in Hnd as [Hn Hnd]. unfold replay in *. simpl. rewrite IH by done.
  assert (Hin : forall e', e' ∈ ev -> we_path e' <> we_path e).
  { intros e' He' H. apply Hn. rewrite <- H. by apply list_elem_of_fmap_2. }
  assert (Hone : forall Q : WatchEvent -> Prop, (exists e', e' ∈ e :: ev /\ Q e') <->
    Q e \/ exists e', e' ∈ ev /\ Q e') by (intros Q; setoid_rewrite elem_of_cons; naive_solver).
  assert (Hall : forall Q : WatchEvent -> Prop, (forall e', e' ∈ e :: ev -> Q e') <->
    Q e /\ forall e', e' ∈ ev -> Q e') by (intros Q; setoid_rewrite elem_of_cons; naive_solver).
  rewrite Hone, Hall. unfold replay1.
  destruct (decide (we_path e = p)) as [<- |Hp]; [|destruct (we_type e) eqn:Et; set_solver].
  assert (Hno : (exists e', e' ∈ ev /\ we_path e' = we_path e /\ we_type e' = Created) <-> False)
    by naive_solver.
  assert (Hyes : (forall e', e' ∈ ev -> we_path e' = we_path e -> we_type e' <> Deleted) <-> True)
    by naive_solver.
  rewrite Hno, Hyes. destruct (we_type e) eqn:Et;
    rewrite ?elem_of_union, ?elem_of_difference, ?elem_of_singleton; naive_solver.
Qed.

Lemma poll_replay known ds :
  map_sorted known -> NoDup (relPath <$> kept ds) ->
  replay (dom (to_gmap known)) (poll_events known ds) = dom (visible ds).
Proof.
  intros Hs Hnd. apply set_eq. intros p. rewrite replay_elem by by apply poll_events_NoDup.
  assert (Hiff : forall t, (exists e, e ∈ poll_events known ds /\ we_path e = p /\ we_type e = t) <->
    expected_event (to_gmap known !! p) (visible ds !! p) = Some t).
  { intros t. split.
    - intros ([t' p' np] & He & Hp & Ht). simpl in *. subst.
      by apply poll_events_iff in He as [_ He].
    - intros He. exists (WEvent t p []). split; [|done]. by apply poll_events_iff. }
  rewrite Hiff, !elem_of_dom.
  assert (Hdel : (forall e, e ∈ poll_events known ds -> we_path e = p -> we_type e <> Deleted) <->
    expected_event (to_gmap known !! p) (visible ds !! p) <> Some Deleted)
    by (rewrite <- Hiff; naive_solver).
  rewrite Hdel. unfold is_Some, expected_event.
  destruct (to_gmap known !! p) as [i|], (visible ds !! p) as [j|];
    try case_bool_decide; naive_solver.
Qed.

Lemma scan_then_throw cb (ds : list dirent) known seen ev k' s' ev' :
  scan cb (IterEntry <$> ds) known seen ev = (ScanDone, k', s', ev') ->
  scan cb ((IterEntry <$> ds) ++ [IterThrow]) known seen ev = (ScanError, k', s', ev').
Proof.
  revert known seen ev. induction ds as [|d ds IH]; intros known seen ev; simpl; [naive_solver|].
  destruct (skipped d); [apply IH|]. destruct (map_find _ known) as [i'|].
  - case_bool_decide; [destruct (cb _); [apply IH|done]|apply IH].
  - destruct (cb _); [apply IH|done].
Qed.

(** The polls of a directory tree. *)
Definition complete_polls (ls : list (list dirent)) : list (bool * list iter_step) :=
  (fun ds : list dirent => (true, IterEntry <$> ds)) <$> ls.

Lemma watchLoop_replay cb ls known :
  (forall e, cb e = true) -> map_sorted known -> Forall listing ls ->
  exists ev known', watchLoop cb (complete_polls ls) known = (Returned, ev, known') /\
    map_sorted known' /\
    replay (dom (to_gmap known)) ev = default (dom (to_gmap known)) ((dom ∘ visible) <$> last ls) /\
    to_gmap known' = default (to_gmap known) (visible <$> last ls).
Proof.
  intros Hcb Hs Hl. revert known Hs. induction Hl as [|ds ls Hds Hl IH]; intros known Hs.
  { by exists [], known. }
  assert (Hnd : NoDup (relPath <$> kept ds)) by by apply kept_NoDup, listing_relPaths.
  destruct (poll_complete cb known ds Hcb Hs Hnd) as (k1 & E1 & Hs1 & Hm1).
  destruct (IH k1 Hs1) as (ev & k2 & E2 & Hs2 & Hr & Hm2).
  exists (poll_events known ds ++ ev), k2. split_and!; [|done|..].
  - change (complete_polls (ds :: ls)) with ((true, IterEntry <$> ds) :: complete_polls ls).
    cbn [watchLoop]. by rewrite E1, E2.
  - unfold replay in *. rewrite fold_left_app.
    pose proof (poll_replay known ds Hs Hnd) as H1. unfold replay in H1. rewrite H1, <- Hm1, Hr.
    rewrite last_cons. destruct (last ls); simpl; [done|]. by rewrite Hm1.
  - rewrite Hm2, last_cons. by destruct (last ls).
Qed.

(** ** Properties *)

(** C13: one poll reports exactly the differences.  With a callback that
    returns, a poll of a directory that exists ends with [knownFiles] equal to
    the visible files of the listing, calls the callback at most once per
    path, and with an event of type [t] for a path exactly when the old and
    the new state of the path require it: Created for a new file, Modified for
    a changed time or size, Deleted for a file that is gone. *)
Theorem poll_exact cb known ds :
  (forall e, cb e = true) -> map_sorted known -> listing ds ->
  exists ev known', poll cb true (IterEntry <$> ds) known = (Slept, ev, known') /\
    map_sorted known' /\ to_gmap known' = visible ds /\ NoDup (we_path <$> ev) /\
    forall t p np, WEvent t p np ∈ ev <->
      np = [] /\ expected_event (to_gmap known !! p) (visible ds !! p) = Some t.
Proof.
  intros Hcb Hs Hl. assert (Hnd : NoDup (relPath <$> kept ds)) by by apply kept_NoDup, listing_relPaths.
  destruct (poll_complete cb known ds Hcb Hs Hnd) as (k' & E & Hs' & Hm).
  exists (poll_events known ds), k'. split_and!; try done; [by apply poll_events_NoDup|].
  intros t p np. by apply poll_events_iff.
Qed.

(** C25: the events of the watch loop mirror the directory.  Whatever sequence
    of listings the polls meet, replaying all the events from the empty set
    gives the visible files of the last listing. *)
Theorem watchLoop_mirrors cb ls ds :
  (forall e, cb e = true) -> Forall listing (ls ++ [ds]) ->
  exists ev known', watchLoop cb (complete_polls (ls ++ [ds])) [] = (Returned, ev, known') /\
    replay ∅ ev = dom (visible ds) /\ to_gmap known' = visible ds.
Proof.
  intros Hcb Hl. destruct (watchLoop_replay cb (ls ++ [ds]) []) as (ev & k' & E & _ & Hr & Hm);
    [done|by constructor|done|].
  exists ev, k'. rewrite last_snoc in Hr, Hm. simpl in Hr, Hm.
  by rewrite dom_empty_L in Hr.
Qed.

(** An exception during a listing makes the watcher report files that
    still exist as deleted: every known file the listing had not reached is
    reported, and forgotten. *)
Theorem poll_error_reports_unseen cb known ds k i :
  (forall e, cb e = true) -> map_sorted known -> listing ds ->
  map_find k known = Some i -> visible ds !! k = None ->
  exists ev known',
    poll cb true ((IterEntry <$> ds) ++ [IterThrow]) known = (Slept, ev, known') /\
    WEvent Deleted k [] ∈ ev /\ map_find k known' = None.
Proof.
  intros Hcb Hs Hl Hk Hv. assert (Hnd : NoDup (relPath <$> kept ds))
    by by apply kept_NoDup, listing_relPaths.
  destruct (scan_spec cb Hcb ds known ∅ []) as (k' & s' & E & Hs' & Hm & Hd); [done..|].
  rewrite (right_id_L ∅ (∪)) in Hd. subst s'.
  apply scan_then_throw in E. rewrite app_nil_l in E.
  eexists _, _. split_and!.
  - unfold poll. simpl negb. cbv iota. by rewrite E, sweep_spec.
  - apply elem_of_app. right. apply list_elem_of_fmap. exists (k, i). split; [done|].
    apply list_elem_of_filter. split; [by apply not_elem_of_dom|].
    apply map_find_elem; [done|]. rewrite map_find_gmap, Hm, lookup_union_r, <- map_find_gmap by done.
    done.
  - rewrite filter_map_find by done. rewrite decide_False by by apply not_elem_of_dom. done.
Qed.

(** A watcher that is stopped and started again before its thread has
    noticed keeps the old thread: two loops run, each with its own
    [knownFiles], and neither leaves until the next [stop()]. *)
Theorem restart_doubles_loop w :
  running_ w = true -> loops w = 1%nat ->
  start (stop w) = (true, WatcherSt true 2) /\ loop_exit (start (stop w)).2 = None.
Proof. destruct w as [r n]. simpl. intros -> ->. done. Qed.

(** ** Witnesses *)

Module WatcherDemo.
Definition yes : Callback := fun _ => true.
Definition ent (names : list str) (regular : bool) (t s : Z) : dirent :=
  DirEnt names false regular (FInfo t s).

Definition tree1 : list dirent :=
  [ent [ $"b" ] true 1 10; ent [ $"d" ] false 1 0; ent [ $"d"; $"a" ] true 2 20;
   ent [ $".git" ] true 3 30].
Definition tree2 : list dirent := [ent [ $"b" ] true 5 11; ent [ $"c" ] true 6 0].

Lemma listing1 : listing tree1.
Proof. split; [apply (bool_decide_unpack _); vm_compute; done|].
  unfold names_ok. apply (bool_decide_unpack _). vm_compute. done. Qed.
Lemma listing2 : listing tree2.
Proof. split; [apply (bool_decide_unpack _); vm_compute; done|].
  unfold names_ok. apply (bool_decide_unpack _). vm_compute. done. Qed.

Definition known1 : known_map := [( $"b", FInfo 1 10); ( $"d/a", FInfo 2 20)].

Lemma known1_sorted : map_sorted known1.
Proof. repeat constructor. Qed.

Lemma poll_exact_witness :
  exists ev known', poll yes true (IterEntry <$> tree2) known1 = (Slept, ev, known') /\
    map_sorted known' /\ to_gmap known' = visible tree2 /\ NoDup (we_path <$> ev) /\
    forall t p np, WEvent t p np ∈ ev <->
      np = [] /\ expected_event (to_gmap known1 !! p) (visible tree2 !! p) = Some t.
Proof. exact (poll_exact yes known1 tree2 (fun _ => eq_refl) known1_sorted listing2). Defined.

Lemma watchLoop_mirrors_witness :
  exists ev known', watchLoop yes (complete_polls ([tree1] ++ [tree2])) [] = (Returned, ev, known') /\
    replay ∅ ev = dom (visible tree2) /\ to_gmap known' = visible tree2.
Proof.
  apply (watchLoop_mirrors yes [tree1] tree2 (fun _ => eq_refl)).
  constructor; [apply listing1|]. constructor; [apply listing2|constructor].
Defined.

(** The iterator throws before it reaches the directory of the second file. *)
Lemma poll_error_reports_unseen_witness :
  exists ev known',
    poll yes true ((IterEntry <$> take 1 tree1) ++ [IterThrow]) known1 = (Slept, ev, known') /\
    WEvent Deleted $"d/a" [] ∈ ev /\ map_find $"d/a" known' = None.
Proof.
  apply (poll_error_reports_unseen yes known1 (take 1 tree1) $"d/a" (FInfo 2 20) (fun _ => eq_refl)
    known1_sorted); [|vm_compute; reflexivity..].
  split; [apply (bool_decide_unpack _); vm_compute; done|].
  unfold names_ok. apply (bool_decide_unpack _). vm_compute. done.
Defined.

Example watchLoop_events :
  (watchLoop yes (complete_polls [tree1; tree2]) []).1.2 =
  [WEvent Created $"b" []; WEvent Created $"d/a" []; WEvent Modified $"b" [];
   WEvent Created $"c" []; WEvent Deleted $"d/a" []].
Proof. vm_compute. reflexivity. Qed.

Lemma restart_doubles_loop_witness :
  start (stop (WatcherSt true 1)) = (true, WatcherSt true 2) /\
  loop_exit (start (stop (WatcherSt true 1))).2 = None.
Proof. apply restart_doubles_loop; reflexivity. Defined.
End WatcherDemo.
