(* ===== verification/Inotify.v ===== *)
(** * The inotify watcher (src/src/backend/cpp/src/inotify_watcher.cpp)

    The kernel's side of inotify is a table from inodes to watch descriptors;
    a directory is a tree of inodes; [read] returns a buffer of packed
    [inotify_event] records, decoded byte by byte as the source does.  What
    [stat] finds at a path while a buffer is handled is an argument. *)

From S2P Require Import Prelude StdMap FileSys Watcher.

(** ** The kernel *)

Definition IN_MODIFY : Z := 0x2.
Definition IN_MOVED_FROM : Z := 0x40.
Definition IN_MOVED_TO : Z := 0x80.
Definition IN_CREATE : Z := 0x100.
Definition IN_DELETE : Z := 0x200.
Definition IN_Q_OVERFLOW : Z := 0x4000.

(** The watch descriptors of the watched inodes; [k_fails] tells for which
    inodes [inotify_add_watch] fails (permissions, watch limit). *)
Record kernel := Kernel {
  k_wds : gmap Z Z;
  k_next : Z;
  k_fails : Z -> bool
}.

(** Adding a watch for an inode that has one returns its descriptor. *)
Definition inotify_add_watch (i : Z) (k : kernel) : option (Z * kernel) :=
  if k_fails k i then None
  else
    match k_wds k !! i with
    | Some wd => Some (wd, k)
    | None => Some (k_next k, Kernel (<[i := k_next k]> (k_wds k)) (k_next k + 1) (k_fails k))
    end.

Set Warnings "-register-all".

(** A directory: its inode and the subdirectories the iterator yields. *)
Inductive dtree := DirNode (inode : Z) (subs : list (str * dtree)).

(** ** The watcher *)

Record ino := Ino { wdToPath_ : gmap Z str; kern : kernel }.

Definition relativeDir (watchPath_ path : str) : str :=
  if str_eqb path watchPath_ then []
  else if (Nat.ltb (length watchPath_) (length path) && starts_with watchPath_ path) &&
          match path !! length watchPath_ with Some c => Ascii.eqb c slash | None => false end
  then substr path (length watchPath_ + 1)
  else [].

Fixpoint addWatchRecursive (watchPath_ path : str) (t : dtree) (st : ino) : ino :=
  match t with
  | DirNode i subs =>
      match inotify_add_watch i (kern st) with
      | None => st
      | Some (wd, k) =>
          (fix each (subs : list (str * dtree)) (st : ino) : ino :=
             match subs with
             | [] => st
             | (n, t') :: subs' =>
                 each subs' (addWatchRecursive watchPath_ (path_append path n) t' st)
             end) subs (Ino (<[wd := relativeDir watchPath_ path]> (wdToPath_ st)) k)
      end
  end.

(** ** Events *)

Record inotify_event := IEvent { ie_wd : Z; ie_mask : Z; ie_name : option str }.

(** The state of the thread: whether no callback has thrown, the events
    reported so far and the watcher. *)
Record run := Run { r_alive : bool; r_events : list WatchEvent; r_ino : ino }.

Definition report (cb : Callback) (t : WatchEventType) (p : str) (r : run) : run :=
  if r_alive r then
    let e := WEvent t p [] in Run (cb e) (r_events r ++ [e]) (r_ino r)
  else r.

Section Handler.
Variables (cb : Callback) (watchPath_ : str).
Variable stat_dir : str -> option dtree.  (* the directory [stat] finds at a path *)

Definition rescan (relPath : str) (r : run) : run :=
  if r_alive r then
    let fullPath := watchPath_ ++ slash :: relPath in
    match stat_dir fullPath with
    | Some t => Run true (r_events r) (addWatchRecursive watchPath_ fullPath t (r_ino r))
    | None => r
    end
  else r.

Definition event_path (st : ino) (wd : Z) (name : str) : str :=
  match wdToPath_ st !! wd with
  | Some d => if str_eqb d [] then name else d ++ slash :: name
  | None => name
  end.

Definition has (mask flag : Z) : bool := negb (Z.land mask flag =? 0).

(** The body of the loop over the buffer. *)
Definition handle_event (e : inotify_event) (r : run) : run :=
  match ie_name e with
  | None => r
  | Some name =>
      let relPath := event_path (r_ino r) (ie_wd e) name in
      let r := if has (ie_mask e) IN_CREATE
               then rescan relPath (report cb Created relPath r) else r in
      let r := if has (ie_mask e) IN_MODIFY then report cb Modified relPath r else r in
      let r := if has (ie_mask e) IN_DELETE then report cb Deleted relPath r else r in
      let r := if has (ie_mask e) IN_MOVED_FROM then report cb Deleted relPath r else r in
      if has (ie_mask e) IN_MOVED_TO
      then rescan relPath (report cb Created relPath r) else r
  end.

(** ** The buffer *)

Definition get_le32 (b : str) : option Z :=
  match b with
  | b0 :: b1 :: b2 :: b3 :: _ =>
      Some (ord b0 + 2 ^ 8 * ord b1 + 2 ^ 16 * ord b2 + 2 ^ 24 * ord b3)
  | _ => None
  end.

(** The characters up to the terminator, [std::string(const char* )]. *)
Fixpoint c_string (b : str) : str :=
  match b with
  | [] => []
  | c :: b' => if Ascii.eqb c (chr 0) then [] else c :: c_string b'
  end.

(** The record at [ptr] and its size, [None] when the header would be read
    past the end of the bytes the kernel wrote. *)
Definition decode_event (ptr : str) : option (inotify_event * nat) :=
  wd ← get_le32 ptr;
  mask ← get_le32 (drop 4 ptr);
  len ← get_le32 (drop 12 ptr);
  Some (IEvent (i32 wd) mask (if 0 <? len then Some (c_string (drop 16 ptr)) else None),
        (16 + Z.to_nat len)%nat).

(** [for (char* ptr = buf; ptr < buf + len; )]; [None] is a read outside the
    buffer. *)
Fixpoint handle_buffer (fuel : nat) (ptr : str) (r : run) : option run :=
  match fuel with
  | O => None
  | S fuel' =>
      match ptr with
      | [] => Some r
      | _ =>
          match decode_event ptr with
          | None => None
          | Some (e, size) => handle_buffer fuel' (drop size ptr) (handle_event e r)
          end
      end
  end.

Inductive read_result := PollTimeout | PollError | ReadNothing | ReadBytes (buf : str).

(** [handleEvents]: the iterations made while [running_] is true.  The thread
    dies with the process when a callback throws. *)
Fixpoint handleEvents (reads : list read_result) (r : run) : option run :=
  match reads with
  | [] => Some r
  | PollError :: _ => Some r
  | (PollTimeout | ReadNothing) :: reads' => handleEvents reads' r
  | ReadBytes buf :: reads' =>
      r' ← handle_buffer (S (length buf)) buf r;
      if r_alive r' then handleEvents reads' r' else Some r'
  end.
End Handler.

(** [start()]: the recursive watch of the watched directory, when
    [inotify_init1] succeeds; [false] when the watcher is running already. *)
Record inotify_watcher := IWatcher {
  iw_running : bool;
  iw_fd : bool;          (* inotifyFd_ >= 0 *)
  iw_thread : bool;      (* thread_.joinable() *)
  iw_ino : ino
}.

Definition inotify_start (init_ok : bool) (watchPath_ : str) (root : dtree) (w : inotify_watcher)
  : bool * inotify_watcher :=
  if iw_running w then (false, w)
  else if negb init_ok then (false, IWatcher false false (iw_thread w) (iw_ino w))
  else
    let instance := Kernel ∅ 1 (k_fails (kern (iw_ino w))) in
    (true, IWatcher true true true
       (addWatchRecursive watchPath_ watchPath_ root (Ino (wdToPath_ (iw_ino w)) instance))).

Definition inotify_stop (w : inotify_watcher) : inotify_watcher :=
  if negb (iw_running w) then w else IWatcher false false false (iw_ino w).

(** ** The kernel's encoding *)

Definition le32 (z : Z) : str :=
  [chr z; chr (Z.shiftr z 8); chr (Z.shiftr z 16); chr (Z.shiftr z 24)].

(** An event as the kernel writes it: the name is terminated and padded. *)
Record kevent := KEvent { ke_wd : Z; ke_mask : Z; ke_cookie : Z; ke_name : option (str * nat) }.

Definition name_field (e : kevent) : str :=
  match ke_name e with
  | None => []
  | Some (n, pad) => n ++ replicate (S pad) (chr 0)
  end.

Definition encode_event (e : kevent) : str :=
  le32 (ke_wd e) ++ le32 (ke_mask e) ++ le32 (ke_cookie e) ++
  le32 (zlen (name_field e)) ++ name_field e.

Definition decoded (e : kevent) : inotify_event :=
  IEvent (ke_wd e) (ke_mask e) (fst <$> ke_name e).

Definition kevent_ok (e : kevent) : Prop :=
  - 2 ^ 31 <= ke_wd e < 2 ^ 31 /\ 0 <= ke_mask e < 2 ^ 32 /\
  zlen (name_field e) < 2 ^ 32 /\ (forall n pad, ke_name e = Some (n, pad) -> chr 0 ∉ n).

(** ** Lemmas: decoding *)

Lemma get_le32_le32 z b : 0 <= z < 2 ^ 32 -> get_le32 (le32 z ++ b) = Some z.
Proof.
  intros Hz. simpl. f_equal. rewrite !ord_chr, !Z.shiftr_div_pow2 by lia.
  Z.div_mod_to_equations. lia.
Qed.

Lemma chr_shift_u32 z k : 0 <= k <= 24 -> chr (Z.shiftr (u32 z) k) = chr (Z.shiftr z k).
Proof.
  intros Hk. unfold chr, u32. do 2 f_equal. change 256 with (2 ^ 8).
  rewrite <- !Z.land_ones by lia. apply Z.bits_inj'. intros n Hn.
  rewrite !Z.land_spec, !Z.shiftr_spec, Z.land_spec by lia.
  destruct (decide (n < 8)); [|by rewrite (Z.ones_spec_high 8 n), !andb_false_r by lia].
  rewrite (Z.ones_spec_low 32 (n + k)) by lia. by rewrite andb_true_r.
Qed.

Lemma get_le32_signed z b : - 2 ^ 31 <= z < 2 ^ 31 -> i32 <$> get_le32 (le32 z ++ b) = Some z.
Proof.
  intros Hz. assert (Hle : le32 z = le32 (u32 z)).
  { unfold le32. rewrite !chr_shift_u32 by lia. f_equal. symmetry. apply (chr_shift_u32 z 0). lia. }
  rewrite Hle, get_le32_le32 by apply u32_range. simpl. f_equal. unfold i32, u32.
  rewrite Zplus_mod_idemp_l. by apply i32_small.
Qed.

Lemma c_string_padded n pad b : chr 0 ∉ n -> c_string ((n ++ replicate (S pad) (chr 0)) ++ b) = n.
Proof.
  intros Hn. induction n as [|c n IH]; [done|]. apply not_elem_of_cons in Hn as [Hc Hn].
  cbn [app c_string]. destruct (Ascii.eqb_spec c (chr 0)); [congruence|]. f_equal. by apply IH.
Qed.

Lemma decode_encode e b :
  kevent_ok e -> decode_event (encode_event e ++ b) = Some (decoded e, length (encode_event e)).
Proof.
  intros (Hwd & Hm & Hlen & Hn). unfold decode_event.
  set (rest := name_field e ++ b).
  assert (E : encode_event e ++ b = le32 (ke_wd e) ++ le32 (ke_mask e) ++ le32 (ke_cookie e) ++
    le32 (zlen (name_field e)) ++ rest) by (unfold encode_event; by rewrite <- !app_assoc).
  rewrite E.
  change (drop 4 (le32 (ke_wd e) ++ ?x)) with x.
  change (drop 12 (le32 (ke_wd e) ++ le32 (ke_mask e) ++ le32 (ke_cookie e) ++ ?x)) with x.
  change (drop 16 _) with rest.
  pose proof (get_le32_signed (ke_wd e) (le32 (ke_mask e) ++ le32 (ke_cookie e) ++
    le32 (zlen (name_field e)) ++ rest) Hwd) as H1.
  destruct (get_le32 (le32 (ke_wd e) ++ _)) as [wd|]; [|done]. injection H1 as H1.
  cbn [mbind option_bind]. rewrite (get_le32_le32 (ke_mask e)) by done.
  cbn [mbind option_bind]. rewrite (get_le32_le32 (zlen _)) by (split; [apply zlen_nonneg|]; exact Hlen).
  cbn [mbind option_bind]. rewrite H1. do 2 f_equal.
  - unfold decoded. f_equal. unfold rest, name_field.
    destruct (ke_name e) as [[n pad]|]; [|done]. cbn [fmap option_fmap option_map fst].
    destruct (Z.ltb_spec 0 (zlen (n ++ replicate (S pad) (chr 0)))) as [_|H].
    + f_equal. apply c_string_padded. by eapply Hn.
    + unfold zlen in H. rewrite length_app, length_replicate in H. lia.
  - unfold encode_event, zlen. rewrite !length_app. simpl. lia.
Qed.

Lemma handle_buffer_encoded cb w sd es fuel r :
  Forall kevent_ok es -> (length (concat (encode_event <$> es)) < fuel)%nat ->
  handle_buffer cb w sd fuel (concat (encode_event <$> es)) r =
    Some (fold_left (fun r e => handle_event cb w sd (decoded e) r) es r).
Proof.
  intros Hes. revert fuel r. induction Hes as [|e es He Hes IH]; intros [|fuel] r Hf; try (simpl in Hf; lia).
  { done. }
  rewrite fmap_cons. cbn [concat] in *. cbn [handle_buffer]. rewrite decode_encode by done.
  destruct (encode_event e ++ concat (encode_event <$> es)) eqn:E; [done|]. rewrite <- E.
  rewrite drop_app_length. apply IH. rewrite fmap_cons in Hf. cbn [concat] in Hf.
  rewrite length_app in Hf. assert (16 <= length (encode_event e))%nat
    by (unfold encode_event; rewrite !length_app; simpl; lia). lia.
Qed.

(** ** Lemmas: watching a tree *)

Section DtreeInd.
Variable P : dtree -> Prop.
Hypothesis step : forall i subs, Forall (fun s => P s.2) subs -> P (DirNode i subs).

Fixpoint dtree_induct (t : dtree) : P t :=
  match t with
  | DirNode i subs =>
      step i subs
        ((fix each (subs : list (str * dtree)) : Forall (fun s => P s.2) subs :=
            match subs with
            | [] => Forall_nil_2 _
            | s :: subs' => Forall_cons_2 _ _ _ (dtree_induct s.2) (each subs')
            end) subs)
  end.
End DtreeInd.

(** The directories of a tree, with their names from the watched directory
    and their inodes. *)
Fixpoint tree_dirs (names : list str) (t : dtree) : list (list str * Z) :=
  match t with
  | DirNode i subs =>
      (names, i) :: (fix each (subs : list (str * dtree)) :=
        match subs with
        | [] => []
        | (n, t') :: subs' => tree_dirs (names ++ [n]) t' ++ each subs'
        end) subs
  end.

Definition inodes (t : dtree) : list Z := (tree_dirs [] t).*2.

Definition name_ok (n : str) : Prop := n <> [] /\ slash ∉ n.

(** A watched path that is not empty and does not end with a separator. *)
Definition plain_watch (w : str) : Prop := w <> [] /\ last w <> Some slash.

Definition dir_path (w : str) (names : list str) : str := fold_left path_append names w.

Lemma last_app_ne {A} (l k : list A) : k <> [] -> last (l ++ k) = last k.
Proof.
  intros Hk. destruct (exists_last Hk) as (k' & x & ->). by rewrite app_assoc, !last_snoc.
Qed.

Lemma path_append_name p n :
  plain_watch p -> name_ok n -> path_append p n = p ++ slash :: n /\ plain_watch (p ++ slash :: n).
Proof.
  intros [Hp Hl] [Hn Hs]. destruct n as [|c n]; [done|]. split.
  - unfold path_append. destruct (Ascii.eqb_spec c slash) as [-> |]; [set_solver|].
    destruct (last p) as [d|] eqn:E; [|by apply last_None in E].
    destruct (Ascii.eqb_spec d slash) as [-> |]; [done|done].
  - split; [by destruct p|]. rewrite last_app_ne by done.
    change (slash :: c :: n) with ([slash] ++ c :: n). rewrite last_app_ne by done.
    intros Hc. apply last_Some in Hc as [l' E]. apply Hs. rewrite E. set_solver.
Qed.

Lemma dir_path_spec w names :
  plain_watch w -> Forall name_ok names ->
  plain_watch (dir_path w names) /\
  dir_path w names = match names with [] => w | _ => w ++ slash :: join_slash names end.
Proof.
  intros Hw Hn. revert w Hw. unfold dir_path.
  induction Hn as [|n names Hn Hns IH]; intros w Hw; [done|]. simpl fold_left.
  destruct (path_append_name w n Hw Hn) as [-> Hw']. destruct (IH _ Hw') as [H1 H2].
  split; [done|]. rewrite H2. destruct names as [|n' names]; [done|].
  by rewrite <- app_assoc.
Qed.

(** The directory of the tree at [names] is recorded under its own path. *)
Lemma relativeDir_path w names :
  plain_watch w -> Forall name_ok names -> relativeDir w (dir_path w names) = join_slash names.
Proof.
  intros Hw Hn. destruct (dir_path_spec w names Hw Hn) as [_ ->]. unfold relativeDir.
  destruct names as [|n names]; [by rewrite str_eqb_refl|].
  destruct (str_eqb _ w) eqn:E.
  { apply str_eqb_eq, (f_equal length) in E. rewrite length_app in E. simpl in E. lia. }
  rewrite starts_with_app, lookup_app_r, Nat.sub_diag by lia. simpl lookup.
  rewrite (proj2 (Nat.ltb_lt _ _)) by (rewrite length_app; simpl; lia). simpl.
  unfold substr. rewrite drop_app_ge by lia.
  replace (length w + 1 - length w)%nat with 1%nat by lia. done.
Qed.

(** The directory with inode [i] is watched, as the relative path [s]. *)
Definition watched (st : ino) (i : Z) (s : str) : Prop :=
  exists wd, k_wds (kern st) !! i = Some wd /\ wdToPath_ st !! wd = Some s.

(** Descriptors are not shared. *)
Definition kern_ok (k : kernel) : Prop :=
  (forall i j wd, k_wds k !! i = Some wd -> k_wds k !! j = Some wd -> i = j) /\
  (forall i wd, k_wds k !! i = Some wd -> wd < k_next k).

Lemma add_watch_step st i s :
  kern_ok (kern st) -> k_fails (kern st) i = false ->
  exists wd k', inotify_add_watch i (kern st) = Some (wd, k') /\ kern_ok k' /\
    k_fails k' = k_fails (kern st) /\
    let st' := Ino (<[wd := s]> (wdToPath_ st)) k' in
    watched st' i s /\ forall j s', j <> i -> watched st j s' -> watched st' j s'.
Proof.
  destruct st as [m [wds next fails]]. intros [Hinj Hlt] Hf. simpl in *.
  unfold inotify_add_watch. simpl. rewrite Hf.
  destruct (wds !! i) as [wd|] eqn:E; eexists _, _; (split; [done|]); simpl; split_and!; try done.
  - exists wd. simpl. by rewrite lookup_insert_eq.
  - intros j s' Hj (w' & H1 & H2). exists w'. simpl in *. split; [done|].
    rewrite lookup_insert_ne; [done|]. intros ->. naive_solver.
  - split; simpl; [intros a b wd|intros a wd]; rewrite !lookup_insert_Some; naive_solver lia.
  - exists next. simpl. by rewrite !lookup_insert_eq.
  - intros j s' Hj (w' & H1 & H2). exists w'. simpl in *. rewrite lookup_insert_ne by done.
    split; [done|]. rewrite lookup_insert_ne; [done|]. intros ->. naive_solver lia.
Qed.

Definition sub_dirs (names : list str) (subs : list (str * dtree)) : list (list str * Z) :=
  subs ≫= fun s => tree_dirs (names ++ [s.1]) s.2.

Lemma tree_dirs_unfold names i subs :
  tree_dirs names (DirNode i subs) = (names, i) :: sub_dirs names subs.
Proof. simpl. f_equal. induction subs as [|[n t'] subs IH]; [done|]. cbn. by rewrite IH. Qed.

Definition add_subs (w path : str) (subs : list (str * dtree)) (st : ino) : ino :=
  fold_left (fun st s => addWatchRecursive w (path_append path s.1) s.2 st) subs st.

Lemma addWatchRecursive_unfold w path i subs st :
  addWatchRecursive w path (DirNode i subs) st =
    match inotify_add_watch i (kern st) with
    | None => st
    | Some (wd, k) => add_subs w path subs (Ino (<[wd := relativeDir w path]> (wdToPath_ st)) k)
    end.
Proof.
  simpl. destruct (inotify_add_watch i (kern st)) as [[wd k]|]; [|done].
  generalize (Ino (<[wd := relativeDir w path]> (wdToPath_ st)) k). unfold add_subs.
  induction subs as [|[n t'] subs IH]; intros st1; [done|]. apply IH.
Qed.

(** [st'] watches the directories [ds] and what [st] watched besides. *)
Record watches (ds : list (list str * Z)) (st st' : ino) : Prop := {
  ws_ok : kern_ok (kern st');
  ws_fails : k_fails (kern st') = k_fails (kern st);
  ws_keep : forall i s, i ∉ ds.*2 -> watched st i s -> watched st' i s;
  ws_new : forall ns i, (ns, i) ∈ ds -> watched st' i (join_slash ns)
}.

(** The directories can be watched: names as the kernel gives them, and
    [inotify_add_watch] does not fail. *)
Definition watchable (st : ino) (ds : list (list str * Z)) : Prop :=
  NoDup ds.*2 /\ forall ns i, (ns, i) ∈ ds -> Forall name_ok ns /\ k_fails (kern st) i = false.

Lemma watches_app ds ds' st st1 st2 :
  NoDup (ds ++ ds').*2 -> watches ds st st1 -> watches ds' st1 st2 -> watches (ds ++ ds') st st2.
Proof.
  rewrite fmap_app, NoDup_app. intros (_ & Hdis & _) [A1 A2 A3 A4] [B1 B2 B3 B4].
  split; [done|congruence| |].
  - intros j s Hj Hs. rewrite fmap_app, not_elem_of_app in Hj. destruct Hj. auto.
  - intros ns j [Hj|Hj]%elem_of_app; [|by apply B4]. apply B3; [|by apply A4].
    apply Hdis. apply list_elem_of_fmap. by exists (ns, j).
Qed.

Lemma watchable_app st ds ds' st1 :
  watchable st (ds ++ ds') -> k_fails (kern st1) = k_fails (kern st) ->
  watchable st ds /\ watchable st1 ds'.
Proof.
  intros [Hnd Hall] Hf. rewrite fmap_app, NoDup_app in Hnd. unfold watchable. rewrite Hf.
  destruct Hnd as (? & _ & ?). split; (split; [done|]); intros; apply Hall; set_solver.
Qed.

(** Watching a tree records every directory of it under its relative path. *)
Lemma addWatchRecursive_watches w names t st :
  plain_watch w -> kern_ok (kern st) -> watchable st (tree_dirs names t) ->
  watches (tree_dirs names t) st (addWatchRecursive w (dir_path w names) t st).
Proof.
  intros Hw. revert names st. induction t as [i subs IH] using dtree_induct.
  intros names st Hk Hall. rewrite tree_dirs_unfold, addWatchRecursive_unfold in *.
  change ((names, i) :: sub_dirs names subs) with ([(names, i)] ++ sub_dirs names subs) in *.
  destruct (proj2 Hall names i) as [Hns Hfi]; [set_solver|].
  destruct (add_watch_step st i (join_slash names) Hk Hfi) as (wd & k' & -> & Hk' & Hf' & Hwi & Hwj).
  rewrite relativeDir_path by done. cbv zeta in Hwi, Hwj.
  set (st1 := Ino (<[wd := join_slash names]> (wdToPath_ st)) k') in *.
  apply (watches_app _ _ _ st1); [apply Hall| |].
  { split; [done..| |]; [set_solver|]. intros ns j [= -> ->]%list_elem_of_singleton. done. }
  apply (watchable_app _ _ _ st1) in Hall as [_ Hall]; [|done].
  change (kern_ok (kern st1)) in Hk'. clearbody st1. clear -Hw IH Hall Hk'.
  unfold add_subs. revert st1 Hk' Hall.
  induction IH as [|[n t'] subs Ht IH IHs]; intros st1 Hk' Hall; simpl.
  { split; try done. intros ns j Hj. by apply elem_of_nil in Hj. }
  unfold sub_dirs in *. cbn [mbind list_bind] in *. simpl in Ht, Hall |- *.
  assert (Hd : path_append (dir_path w names) n = dir_path w (names ++ [n]))
    by (unfold dir_path; by rewrite fold_left_app).
  rewrite Hd. pose proof Hall as [Hnd _].
  set (st2 := addWatchRecursive w (dir_path w (names ++ [n])) t' st1).
  assert (Hst2 : watches (tree_dirs (names ++ [n]) t') st1 st2).
  { apply Ht; [done|]. by apply (watchable_app _ _ _ st1) in Hall as [? _]. }
  apply (watches_app _ _ _ st2); [done..|]. apply IHs; [apply Hst2|].
  apply (watchable_app _ _ _ st2) in Hall as [_ ?]; [done|apply Hst2].
Qed.

(** ** Lemmas: reporting *)

(** The flag of an event and the event reported for it. *)
Definition flag_event : list (Z * WatchEventType) :=
  [(IN_CREATE, Created); (IN_MODIFY, Modified); (IN_DELETE, Deleted); (IN_MOVED_FROM, Deleted);
   (IN_MOVED_TO, Created)].

Lemma join_slash_snoc ns n :
  Forall name_ok ns ->
  join_slash (ns ++ [n]) = if str_eqb (join_slash ns) [] then n else join_slash ns ++ slash :: n.
Proof.
  intros Hn. induction Hn as [|n0 ns [Hn0 _] Hns IH]; [done|].
  assert (Hne : forall x, str_eqb (n0 ++ x) [] = false).
  { intros x. unfold str_eqb. rewrite bool_decide_false; [done|]. by destruct n0. }
  destruct ns as [|n1 ns].
  - simpl. rewrite <- (app_nil_r n0) at 2. by rewrite Hne.
  - change (join_slash ((n0 :: n1 :: ns) ++ [n]))
      with (n0 ++ slash :: join_slash ((n1 :: ns) ++ [n])).
    change (join_slash (n0 :: n1 :: ns)) with (n0 ++ slash :: join_slash (n1 :: ns)).
    rewrite Hne, IH. destruct (str_eqb (join_slash (n1 :: ns)) []) eqn:E.
    + apply str_eqb_eq in E. simpl in E. apply Forall_cons in Hns as [[Hn1 _] _].
      destruct ns; [done|]. by destruct n1.
    + by rewrite <- app_assoc.
Qed.

(** An event with one flag gives one call of the callback, whatever [stat]
    finds at the path. *)
Lemma handle_event_one cb w sd wd flag t n st :
  (flag, t) ∈ flag_event ->
  r_events (handle_event cb w sd (IEvent wd flag (Some n)) (Run true [] st)) =
    [WEvent t (event_path st wd n) []].
Proof.
  intros H. unfold flag_event in H. repeat (apply elem_of_cons in H as [[= -> ->] | H]);
    [..|by apply elem_of_nil in H]; unfold handle_event, rescan, report; simpl;
    repeat case_match; done.
Qed.

Lemma watched_event_path st ns wd n :
  Forall name_ok ns -> wdToPath_ st !! wd = Some (join_slash ns) ->
  event_path st wd n = join_slash (ns ++ [n]).
Proof. intros Hn H. unfold event_path. rewrite H. by rewrite join_slash_snoc. Qed.

Lemma inotify_start_watches w root w0 :
  iw_running w0 = false -> plain_watch w -> watchable (iw_ino w0) (tree_dirs [] root) ->
  let st := iw_ino (inotify_start true w root w0).2 in
  forall ns i, (ns, i) ∈ tree_dirs [] root -> Forall name_ok ns /\ watched st i (join_slash ns).
Proof.
  intros Hr Hw Hok st ns i Hi. split; [by eapply Hok|]. subst st. unfold inotify_start. rewrite Hr. simpl.
  eapply (ws_new _ _ _ (addWatchRecursive_watches w [] root
    (Ino (wdToPath_ (iw_ino w0)) (Kernel ∅ 1 (k_fails (kern (iw_ino w0))))) Hw ltac:(split; done) Hok) _ _ Hi).
Qed.

(** ** Properties *)

(** C23: what the inotify watcher reports for a change anywhere in the tree.
    After [start()] on a watched path without a trailing separator, an event
    the kernel writes for a file [n] of a directory of the tree, in any buffer
    of one event, is reported once, with the type of its flag and with the
    path of the file relative to the watched directory. *)
Theorem inotify_reports_path cb sd w w0 root ns i n flag t cookie pad :
  iw_running w0 = false -> plain_watch w -> watchable (iw_ino w0) (tree_dirs [] root) ->
  (ns, i) ∈ tree_dirs [] root -> name_ok n -> chr 0 ∉ n -> (flag, t) ∈ flag_event ->
  let st := iw_ino (inotify_start true w root w0).2 in
  exists wd, k_wds (kern st) !! i = Some wd /\
    (kevent_ok (KEvent wd flag cookie (Some (n, pad))) ->
     exists r', handleEvents cb w sd [ReadBytes (encode_event (KEvent wd flag cookie (Some (n, pad))))]
                  (Run true [] st) = Some r' /\
       r_events r' = [WEvent t (join_slash (ns ++ [n])) []]).
Proof.
  intros Hr Hw Hok Hi Hn H0 Hfl st.
  destruct (inotify_start_watches w root w0 Hr Hw Hok ns i Hi) as [Hns (wd & Hwd & Hp)].
  exists wd. split; [done|]. intros Hke. cbn [handleEvents].
  pose proof (handle_buffer_encoded cb w sd [KEvent wd flag cookie (Some (n, pad))]
    (S (length (encode_event (KEvent wd flag cookie (Some (n, pad)))))) (Run true [] st)) as Hb.
  cbn [fmap list_fmap concat] in Hb. rewrite app_nil_r in Hb. rewrite Hb; [|by constructor|lia].
  cbn [mbind option_bind fold_left]. eexists. split; [by case_match|].
  unfold decoded. simpl fmap. simpl ke_wd. simpl ke_mask. rewrite (handle_event_one _ _ _ _ _ t) by done.
  by rewrite (watched_event_path st ns).
Qed.

(** The buffer is decoded as the kernel encodes it: for any events the
    kernel can write, with or without names, padded in any way, the loop over
    the buffer handles exactly these events in their order, and never reads
    past the bytes it was given. *)
Theorem handle_buffer_decodes cb w sd es r :
  Forall kevent_ok es ->
  handle_buffer cb w sd (S (length (concat (encode_event <$> es)))) (concat (encode_event <$> es)) r =
    Some (fold_left (fun r e => handle_event cb w sd (decoded e) r) es r).
Proof. intros H. apply handle_buffer_encoded; [done|lia]. Qed.

(** With a trailing separator on the watched path, the files of
    subdirectories are reported as files of the watched directory: the
    subdirectory [s] is recorded with an empty relative path, and a change of
    [s/n] is reported as a change of [n]. *)
Theorem trailing_slash_loses_directory cb sd w w0 root_ino j s n flag t :
  iw_running w0 = false -> plain_watch w -> name_ok s -> root_ino <> j ->
  k_fails (kern (iw_ino w0)) root_ino = false -> k_fails (kern (iw_ino w0)) j = false ->
  (flag, t) ∈ flag_event ->
  let root := DirNode root_ino [(s, DirNode j [])] in
  let st := iw_ino (inotify_start true (w ++ [slash]) root w0).2 in
  exists wd, k_wds (kern st) !! j = Some wd /\
    r_events (handle_event cb (w ++ [slash]) sd (IEvent wd flag (Some n)) (Run true [] st)) =
      [WEvent t n []].
Proof.
  intros Hr Hw [Hs1 Hs2] Hij Hfi Hfj Hfl root st. subst root st. unfold inotify_start. rewrite Hr. simpl.
  unfold inotify_add_watch. simpl. rewrite Hfi, lookup_empty. simpl.
  rewrite Hfj, lookup_insert_ne, lookup_empty by done. simpl. exists 2. split; [by rewrite lookup_insert_eq|].
  rewrite (handle_event_one _ _ _ _ _ t) by done. do 2 f_equal. unfold event_path. simpl.
  rewrite lookup_insert_eq.
  assert (relativeDir (w ++ [slash]) (path_append (w ++ [slash]) s) = []) as ->; [|done].
  destruct s as [|c s]; [done|]. unfold path_append.
  destruct (Ascii.eqb_spec c slash) as [-> |Hc]; [set_solver|].
  rewrite last_snoc, Ascii.eqb_refl. unfold relativeDir.
  destruct (str_eqb _ _); [done|]. rewrite lookup_app_r, Nat.sub_diag by lia. simpl.
  apply Ascii.eqb_neq in Hc. by rewrite Hc, andb_false_r.
Qed.

(** A directory that is moved out of the watched tree stays watched under
    its old path: after its IN_MOVED_FROM event, a change of a file [n] of the
    directory, wherever it is now, is reported as a change of the path the
    file had in the tree. *)
Theorem moved_out_still_reported cb sd w st i ns s n wdp flag t :
  (forall e, cb e = true) -> Forall name_ok (ns ++ [s]) ->
  wdToPath_ st !! wdp = Some (join_slash ns) -> watched st i (join_slash (ns ++ [s])) ->
  (flag, t) ∈ flag_event ->
  exists wd, k_wds (kern st) !! i = Some wd /\
    r_events (handle_event cb w sd (IEvent wd flag (Some n))
      (Run true [] (r_ino (handle_event cb w sd (IEvent wdp IN_MOVED_FROM (Some s)) (Run true [] st))))) =
    [WEvent t (join_slash ((ns ++ [s]) ++ [n])) []].
Proof.
  intros Hcb Hn Hp (wd & Hwd & Hi) Hfl. exists wd. split; [done|].
  assert (r_ino (handle_event cb w sd (IEvent wdp IN_MOVED_FROM (Some s)) (Run true [] st)) = st) as -> by done.
  rewrite (handle_event_one _ _ _ _ _ t) by done. by rewrite (watched_event_path st (ns ++ [s])).
Qed.

(** ** Witnesses *)

Module InotifyDemo.
Definition yes : Callback := fun _ => true.
Definition nowhere : str -> option dtree := fun _ => None.
Definition w0 : inotify_watcher :=
  IWatcher false false false (Ino ∅ (Kernel ∅ 1 (fun _ => false))).
Definition root : dtree := DirNode 10 [( $"src", DirNode 11 [( $"core", DirNode 12 [])])].

Lemma root_watchable : watchable (iw_ino w0) (tree_dirs [] root).
Proof.
  split; [apply (bool_decide_unpack _); vm_compute; done|]. intros ns i Hi. split; [|done].
  unfold name_ok. simpl in Hi.
  repeat (apply elem_of_cons in Hi as [[= -> ->] | Hi]); [..|by apply elem_of_nil in Hi];
    apply (bool_decide_unpack _); vm_compute; done.
Qed.

Lemma inotify_reports_path_witness :
  exists wd, Some 3 = Some wd /\
    (kevent_ok (KEvent wd IN_MODIFY 0 (Some ( $"a.c", 12%nat))) ->
     exists r', handleEvents yes $"/w" nowhere
         [ReadBytes (encode_event (KEvent wd IN_MODIFY 0 (Some ( $"a.c", 12%nat))))]
         (Run true [] (iw_ino (inotify_start true $"/w" root w0).2)) = Some r' /\
       r_events r' = [WEvent Modified $"src/core/a.c" []]).
Proof.
  apply (inotify_reports_path yes nowhere $"/w" w0 root [ $"src"; $"core" ] 12 $"a.c" IN_MODIFY
    Modified 0 12); [done| |apply root_watchable|set_solver| | |set_solver];
    unfold plain_watch, name_ok; apply (bool_decide_unpack _); vm_compute; done.
Defined.

Lemma handle_buffer_decodes_witness :
  handle_buffer yes $"/w" nowhere (S (length (concat (encode_event <$>
      [KEvent (-1) IN_Q_OVERFLOW 0 None; KEvent 1 IN_CREATE 0 (Some ( $"f", 2%nat))]))))
    (concat (encode_event <$>
      [KEvent (-1) IN_Q_OVERFLOW 0 None; KEvent 1 IN_CREATE 0 (Some ( $"f", 2%nat))]))
    (Run true [] (iw_ino w0)) =
  Some (Run true [WEvent Created $"f" []] (iw_ino w0)).
Proof.
  apply (handle_buffer_decodes yes $"/w" nowhere
    [KEvent (-1) IN_Q_OVERFLOW 0 None; KEvent 1 IN_CREATE 0 (Some ( $"f", 2%nat))]).
  assert (H0 : chr 0 ∉ $"f") by (apply (bool_decide_unpack _); vm_compute; done).
  apply Forall_cons. split; [|apply Forall_cons; split; [|by apply Forall_nil]];
    (split_and!; [vm_compute; congruence..|]); intros n pad H; simpl in H; by simplify_eq.
Defined.

Lemma trailing_slash_loses_directory_witness :
  exists wd, Some 2 = Some wd /\
    r_events (handle_event yes $"/w/" nowhere (IEvent wd IN_MODIFY (Some $"a.c"))
      (Run true [] (iw_ino (inotify_start true $"/w/" (DirNode 10 [( $"src", DirNode 11 [])]) w0).2))) =
    [WEvent Modified $"a.c" []].
Proof.
  apply (trailing_slash_loses_directory yes nowhere $"/w" w0 10 11 $"src" $"a.c" IN_MODIFY Modified);
    [done| | |done|done|done|set_solver];
    unfold plain_watch, name_ok; apply (bool_decide_unpack _); vm_compute; done.
Defined.

Definition st1 : ino := iw_ino (inotify_start true $"/w" root w0).2.

Lemma moved_out_still_reported_witness :
  exists wd, Some 3 = Some wd /\
    r_events (handle_event yes $"/w" nowhere (IEvent wd IN_MODIFY (Some $"a.c"))
      (Run true [] (r_ino (handle_event yes $"/w" nowhere (IEvent 2 IN_MOVED_FROM (Some $"core"))
        (Run true [] st1))))) = [WEvent Modified $"src/core/a.c" []].
Proof.
  apply (moved_out_still_reported yes nowhere $"/w" st1 12 [ $"src" ] $"core" $"a.c" 2 IN_MODIFY Modified);
    [done| |vm_compute; done|by exists 3|set_solver].
  unfold name_ok. apply (bool_decide_unpack _). vm_compute. done.
Defined.
End InotifyDemo.
