(* ===== verification/FsEvents.v ===== *)
(** * The macOS watcher (src/src/backend/cpp/src/fsevents_watcher.cpp)

    The stream callback as a function of the events FSEvents delivers, and the
    threads that call [start], [stop] and [run] as a transition system over
    the members they share. *)

From S2P Require Import Prelude StdMap FileSys Watcher Inotify.

(** ** The stream callback *)

Definition kItemCreated : Z := 0x100.
Definition kItemRemoved : Z := 0x200.
Definition kItemRenamed : Z := 0x800.
Definition kItemModified : Z := 0x1000.

(** The path relative to the watched directory. *)
Definition fse_path (watchPath_ path : str) : str :=
  if starts_with watchPath_ path then
    if Nat.ltb (length watchPath_ + 1) (length path) then substr path (length watchPath_ + 1)
    else []
  else path.

Definition fse_events (watchPath_ : str) (ev : str * Z) : list WatchEvent :=
  let path := fse_path watchPath_ ev.1 in
  (if has ev.2 kItemCreated then [WEvent Created path []] else []) ++
  (if has ev.2 kItemModified then [WEvent Modified path []] else []) ++
  (if has ev.2 kItemRemoved then [WEvent Deleted path []] else []) ++
  (if has ev.2 kItemRenamed then [WEvent Moved path []] else []).

Definition fse_callback (cb : Callback) (watchPath_ : str) (events : list (str * Z))
  : bool * list WatchEvent :=
  call_all cb (events ≫= fse_events watchPath_).

(** ** start, stop and run *)

(** Where the thread of [run] is. *)
Inductive run_pc :=
  | RunCreate        (* before the stream is stored under the lock *)
  | RunStored        (* stream_ = s *)
  | RunStarted       (* after FSEventStreamStart(s) *)
  | RunWaiting       (* in dispatch_semaphore_wait(sem_) *)
  | RunDone.

(** Where the caller of [stop] is. *)
Inductive stop_pc :=
  | StopNone         (* not called *)
  | StopCleared      (* running_ was exchanged *)
  | StopReleased     (* the stream is stopped and released *)
  | StopJoining      (* the semaphore is signalled if there is one *)
  | StopReturned.

Record fse := Fse {
  fs_running : bool;
  fs_stream : bool;         (* stream_ is not null *)
  fs_alive : bool;          (* the stream object is not released *)
  fs_sem : option nat;      (* sem_ and its value *)
  fs_run : run_pc;
  fs_stop : stop_pc;
  fs_misuse : bool          (* a released stream was used *)
}.

(** The state after [start()]. *)
Definition fse_start : fse := Fse true false true None RunCreate StopNone false.

(** The steps of [run]. *)
Inductive fse_run_step : fse -> fse -> Prop :=
  | run_refused st a m sp u :          (* running_ is false: the stream is released *)
      fse_run_step (Fse false st a m RunCreate sp u) (Fse false st false m RunDone sp u)
  | run_store st a m sp u :
      fse_run_step (Fse true st a m RunCreate sp u) (Fse true true a m RunStored sp u)
  | run_null st a m sp u :             (* FSEventStreamCreate returned null *)
      fse_run_step (Fse true st a m RunCreate sp u) (Fse true false a m RunDone sp u)
  | run_start r st a m sp u :
      fse_run_step (Fse r st a m RunStored sp u) (Fse r st a m RunStarted sp (u || negb a))
  | run_sem r st a m sp u :
      fse_run_step (Fse r st a m RunStarted sp u) (Fse r st a (Some 0%nat) RunWaiting sp u)
  | run_wake r st a n sp u :
      fse_run_step (Fse r st a (Some (S n)) RunWaiting sp u) (Fse r st a (Some n) RunDone sp u).

(** The steps of [stop]. *)
Inductive fse_stop_step : fse -> fse -> Prop :=
  | stop_exchange st a m rp u :
      fse_stop_step (Fse true st a m rp StopNone u) (Fse false st a m rp StopCleared u)
  | stop_release a m rp u :
      fse_stop_step (Fse false true a m rp StopCleared u) (Fse false false false m rp StopReleased u)
  | stop_no_stream a m rp u :
      fse_stop_step (Fse false false a m rp StopCleared u) (Fse false false a m rp StopReleased u)
  | stop_signal r st a n rp u :
      fse_stop_step (Fse r st a (Some n) rp StopReleased u) (Fse r st a (Some (S n)) rp StopJoining u)
  | stop_no_sem r st a rp u :
      fse_stop_step (Fse r st a None rp StopReleased u) (Fse r st a None rp StopJoining u)
  | stop_join r st a m u :
      fse_stop_step (Fse r st a m RunDone StopJoining u) (Fse r st a m RunDone StopReturned u).

Definition fse_step (s s' : fse) : Prop := fse_run_step s s' \/ fse_stop_step s s'.

Abbreviation fse_reach := (rtc fse_step).

(** ** Lemmas *)

Lemma fse_path_inside w rel :
  rel <> [] -> fse_path w (w ++ slash :: rel) = rel.
Proof.
  intros Hr. unfold fse_path. rewrite starts_with_app.
  rewrite (proj2 (Nat.ltb_lt _ _)) by (rewrite length_app; destruct rel; [done|simpl; lia]).
  unfold substr. rewrite drop_app_ge by lia.
  by replace (length w + 1 - length w)%nat with 1%nat by lia.
Qed.

(** What holds when [stop] is called once [run] waits: the run thread is
    waiting or has been woken, and a signal is never lost. *)
Definition stopping_ok (s : fse) : Prop :=
  match fs_run s, fs_stop s with
  | RunWaiting, (StopNone | StopCleared | StopReleased) => fs_sem s = Some 0%nat
  | RunWaiting, StopJoining => fs_sem s = Some 1%nat
  | RunDone, (StopJoining | StopReturned) => True
  | _, _ => False
  end /\ fs_misuse s = false /\ (fs_running s = true <-> fs_stop s = StopNone).

Lemma stopping_ok_step s s' : stopping_ok s -> fse_step s s' -> stopping_ok s'.
Proof.
  intros H [Hs|Hs]; destruct Hs; unfold stopping_ok in *; simpl in *;
    try destruct rp; try destruct sp; simpl in *; naive_solver.
Qed.

(** How far a stopping system is from [stop] returning. *)
Definition stop_left (s : fse) : nat :=
  match fs_stop s with
  | StopNone => 5 | StopCleared => 4 | StopReleased => 3 | StopJoining => 1 | StopReturned => 0
  end + match fs_run s with RunDone => 0 | _ => 1 end.

Lemma fse_progress s : stopping_ok s -> fs_stop s <> StopReturned -> exists s', fse_step s s'.
Proof.
  destruct s as [r st a m rp sp u]. intros (Hpc & Hu & Hrun) Hne. simpl in *. subst u. destruct rp, sp; try done; subst.
  - rewrite (proj2 Hrun eq_refl). eexists. right. constructor.
  - destruct r; [by discriminate (proj1 Hrun eq_refl)|]. destruct st; eexists; right; constructor.
  - eexists. right. constructor.
  - eexists. left. by eapply run_wake.
  - eexists. right. constructor.
Qed.

Lemma fse_decreases s s' : stopping_ok s -> fse_step s s' -> (stop_left s' < stop_left s)%nat.
Proof.
  destruct s as [r st a m rp sp u]. intros (Hpc & _) [Hs|Hs]; inversion Hs; subst; unfold stop_left; simpl in *; try done; try lia;
    try (destruct rp; simpl; lia); try (destruct sp; simpl in *; try done; lia).
Qed.

(** ** Properties *)

(** What the macOS watcher reports.  For a batch of events below a watched
    path without trailing separator, the callback gets, for each event, the
    path relative to the watched directory with one call per flag, in the
    order created, modified, removed, renamed. *)
Theorem fse_callback_relative cb w (batch : list (str * Z)) :
  (forall e, cb e = true) -> Forall (fun e => e.1 <> []) batch ->
  fse_callback cb w ((fun e => (w ++ slash :: e.1, e.2)) <$> batch) =
    (true, batch ≫= fun e =>
       filter (fun we => has e.2 (match we_type we with
         | Created => kItemCreated | Modified => kItemModified
         | Deleted => kItemRemoved | Moved => kItemRenamed end) = true)
       ((fun t => WEvent t e.1 []) <$> [Created; Modified; Deleted; Moved])).
Proof.
  intros Hcb Hne. unfold fse_callback. rewrite call_all_returning by done. f_equal.
  induction Hne as [|[rel fl] batch Hr Hne IH]; [done|]. rewrite fmap_cons, !bind_cons, IH. f_equal.
  unfold fse_events. simpl. rewrite fse_path_inside by done. rewrite !filter_cons, filter_nil. simpl.
  destruct (has fl kItemCreated), (has fl kItemModified), (has fl kItemRemoved), (has fl kItemRenamed);
    reflexivity.
Qed.

(** [stop()] returns when it is called after [run] has reached its wait:
    from every state reachable from there, no released stream has been used
    and, until [stop] has returned, some step is possible and every step of
    the two threads brings the return nearer. *)
Theorem fse_stop_returns s :
  fse_reach (Fse true true true (Some 0%nat) RunWaiting StopNone false) s ->
  fs_misuse s = false /\
  (fs_stop s <> StopReturned -> exists s', fse_step s s') /\
  (forall s', fse_step s s' -> (stop_left s' < stop_left s)%nat).
Proof.
  intros Hr. assert (Hok : stopping_ok s).
  { assert (H0 : stopping_ok (Fse true true true (Some 0%nat) RunWaiting StopNone false)) by done.
    clear -Hr H0. induction Hr; [done|]. eauto using stopping_ok_step. }
  split_and!; [by destruct Hok as (_ & ? & _)|by apply fse_progress|by intros s'; apply fse_decreases].
Qed.

(** [stop()] can hang.  When it runs between the moment [run] stores the
    stream and the moment it creates the semaphore, it finds no semaphore to
    signal; the run thread then waits forever and the join never returns, and
    the released stream is started. *)
Theorem fse_stop_can_hang :
  exists s, fse_reach fse_start s /\ fs_stop s = StopJoining /\ fs_run s = RunWaiting /\
    fs_misuse s = true /\ forall s', ~ fse_step s s'.
Proof.
  exists (Fse false false false (Some 0%nat) RunWaiting StopJoining true). split_and!; try done.
  - unfold fse_start. eapply rtc_l; [left; apply run_store|]. eapply rtc_l; [right; apply stop_exchange|].
    eapply rtc_l; [right; apply stop_release|]. eapply rtc_l; [right; apply stop_no_sem|].
    eapply rtc_l; [left; apply run_start|]. apply rtc_once. left. apply run_sem.
  - intros s' [H|H]; inversion H.
Qed.

(** ** Witnesses *)

Module FsEventsDemo.
Lemma fse_callback_relative_witness :
  fse_callback (fun _ => true) $"/w" [( $"/w/a.c", 0x1100)] =
  (true, [WEvent Created $"a.c" []; WEvent Modified $"a.c" []]).
Proof.
  apply (fse_callback_relative (fun _ => true) $"/w" [( $"a.c", 0x1100)]); [done|].
  by repeat constructor.
Defined.

Lemma fse_stop_returns_witness :
  false = false /\
  (StopCleared <> StopReturned ->
   exists s', fse_step (Fse false true true (Some 0%nat) RunWaiting StopCleared false) s') /\
  (forall s', fse_step (Fse false true true (Some 0%nat) RunWaiting StopCleared false) s' ->
   (stop_left s' < 5)%nat).
Proof.
  apply (fse_stop_returns (Fse false true true (Some 0%nat) RunWaiting StopCleared false)).
  apply rtc_once. right. constructor.
Defined.

(** With a trailing separator on the watched path, the first character of the
    relative path is lost. *)
Example trailing_slash_drops_character : fse_path $"/w/" $"/w/abc.c" = $"bc.c".
Proof. reflexivity. Qed.
End FsEventsDemo.
