(* ===== verification/RdcWatcher.v ===== *)
(** * The Windows watcher (src/src/backend/cpp/src/readdirectorychanges_watcher.cpp)

    The decoding of the buffer ReadDirectoryChangesW fills, a chain of
    [FILE_NOTIFY_INFORMATION] records, and the life cycle of the directory
    handle shared by [watchLoop] and [stop] as a transition system.

    [WideCharToMultiByte], a system call, is the argument [to_utf8]: the bytes
    it writes for a sequence of 16-bit units, none when it fails. *)

From S2P Require Import Prelude StdMap FileSys Watcher Inotify.

(** ** Decoding *)

Section Rdc.
Variable to_utf8 : list Z -> str.

Definition wideToUtf8 (wstr : list Z) : str :=
  match wstr with
  | [] => []
  | _ => to_utf8 wstr
  end.

Definition normalize_name (name : str) : str :=
  (fun ch => if Ascii.eqb ch (chr 92) then slash else ch) <$> name.

Definition FILE_ACTION_ADDED : Z := 1.
Definition FILE_ACTION_REMOVED : Z := 2.
Definition FILE_ACTION_MODIFIED : Z := 3.
Definition FILE_ACTION_RENAMED_OLD_NAME : Z := 4.
Definition FILE_ACTION_RENAMED_NEW_NAME : Z := 5.

(** The [switch] on the action. *)
Definition action_event (action : Z) (name : str) : list WatchEvent :=
  if action =? FILE_ACTION_ADDED then [WEvent Created name []]
  else if action =? FILE_ACTION_MODIFIED then [WEvent Modified name []]
  else if action =? FILE_ACTION_REMOVED then [WEvent Deleted name []]
  else if action =? FILE_ACTION_RENAMED_OLD_NAME then [WEvent Deleted name []]
  else if action =? FILE_ACTION_RENAMED_NEW_NAME then [WEvent Created name []]
  else [].

(** [std::wstring(FileName, n)]: [n] little-endian 16-bit units. *)
Fixpoint wide_chars (n : nat) (b : str) : option (list Z) :=
  match n with
  | O => Some []
  | S n' =>
      match b with
      | b0 :: b1 :: b' => cons (ord b0 + 2 ^ 8 * ord b1) <$> wide_chars n' b'
      | _ => None
      end
  end.

(** The record at [p]: the offset of the next one, the action and the name;
    [None] is a read outside the buffer. *)
Definition decode_notify (p : str) : option (Z * Z * str) :=
  next ← get_le32 p;
  action ← get_le32 (drop 4 p);
  len ← get_le32 (drop 8 p);
  wname ← wide_chars (Z.to_nat (len / 2)) (drop 12 p);
  Some (next, action, normalize_name (wideToUtf8 wname)).

(** [while (notify) { ... }] *)
Fixpoint notify_loop (fuel : nat) (p : str) : option (list WatchEvent) :=
  match fuel with
  | O => None
  | S fuel' =>
      match decode_notify p with
      | None => None
      | Some (next, action, name) =>
          if next =? 0 then Some (action_event action name)
          else app (action_event action name) <$> notify_loop fuel' (drop (Z.to_nat next) p)
      end
  end.

Inductive rdc_wait := WaitTimeout | WaitOther | WaitNoBytes | WaitBytes (buf : str).

(** The loop of [watchLoop] while [running_] is true: the events passed to the
    callback, [None] for a read outside the buffer.  A timed out request is
    cancelled and reissued. *)
Fixpoint rdc_loop (cb : Callback) (waits : list rdc_wait) : option (bool * list WatchEvent) :=
  match waits with
  | [] => Some (true, [])
  | (WaitTimeout | WaitNoBytes) :: waits' => rdc_loop cb waits'
  | WaitOther :: _ => Some (true, [])
  | WaitBytes buf :: waits' =>
      evs ← notify_loop (S (length buf)) buf;
      match call_all cb evs with
      | (false, l) => Some (false, l)
      | (true, l) => '(ok, l') ← rdc_loop cb waits'; Some (ok, l ++ l')
      end
  end.

(** ** The system's encoding *)

Definition le16 (z : Z) : str := [chr z; chr (Z.shiftr z 8)].

Record notification := Notification { nt_action : Z; nt_name : list Z; nt_pad : nat }.

Definition nt_bytes (next : Z) (n : notification) : str :=
  le32 next ++ le32 (nt_action n) ++ le32 (2 * zlen (nt_name n)) ++ concat (le16 <$> nt_name n) ++
  replicate (nt_pad n) (chr 0).

Fixpoint encode_notify (ns : list notification) : str :=
  match ns with
  | [] => []
  | [n] => nt_bytes 0 n
  | n :: ns' => nt_bytes (zlen (nt_bytes 0 n)) n ++ encode_notify ns'
  end.

Definition nt_ok (n : notification) : Prop :=
  0 <= nt_action n < 2 ^ 32 /\ zlen (nt_bytes 0 n) < 2 ^ 32 /\
  Forall (fun u => 0 <= u < 2 ^ 16) (nt_name n).

(** What the code makes of a record. *)
Definition nt_event (n : notification) : list WatchEvent :=
  action_event (nt_action n) (normalize_name (wideToUtf8 (nt_name n))).

(** ** Lemmas *)

Lemma wide_chars_encoded us b :
  Forall (fun u => 0 <= u < 2 ^ 16) us -> wide_chars (length us) (concat (le16 <$> us) ++ b) = Some us.
Proof.
  intros H. induction H as [|u us Hu Hus IH]; [done|]. cbn [length wide_chars fmap list_fmap concat le16 app].
  rewrite IH. cbn [fmap option_fmap option_map]. do 2 f_equal.
  rewrite !ord_chr, Z.shiftr_div_pow2 by lia. Z.div_mod_to_equations. lia.
Qed.

Lemma nt_bytes_length next n : length (nt_bytes next n) = length (nt_bytes 0 n).
Proof. done. Qed.

Lemma decode_nt_bytes next n b :
  nt_ok n -> 0 <= next < 2 ^ 32 ->
  decode_notify (nt_bytes next n ++ b) = Some (next, nt_action n, normalize_name (wideToUtf8 (nt_name n))).
Proof.
  intros (Ha & Hl & Hn) Hx. unfold decode_notify. set (rest := replicate (nt_pad n) (chr 0) ++ b).
  assert (E : nt_bytes next n ++ b = le32 next ++ le32 (nt_action n) ++ le32 (2 * zlen (nt_name n)) ++
    concat (le16 <$> nt_name n) ++ rest) by (unfold nt_bytes; by rewrite <- !app_assoc).
  rewrite E. change (drop 4 (le32 next ++ ?x)) with x.
  change (drop 8 (le32 next ++ le32 (nt_action n) ++ ?x)) with x.
  change (drop 12 _) with (concat (le16 <$> nt_name n) ++ rest).
  rewrite (get_le32_le32 next) by exact Hx. cbn [mbind option_bind].
  rewrite (get_le32_le32 (nt_action n)) by exact Ha. cbn [mbind option_bind].
  rewrite (get_le32_le32 (2 * _)).
  2:{ unfold nt_bytes, zlen in *. rewrite !length_app in Hl.
      assert (length (concat (le16 <$> nt_name n)) = 2 * length (nt_name n))%nat.
      { clear. induction (nt_name n) as [|u us IH]; [done|]. rewrite fmap_cons. cbn [concat].
        rewrite length_app, IH. simpl. lia. }
      lia. }
  cbn [mbind option_bind]. rewrite Z.mul_comm, Z.div_mul by lia. unfold zlen. rewrite Nat2Z.id.
  by rewrite wide_chars_encoded.
Qed.

Lemma notify_loop_encoded ns n fuel b :
  Forall nt_ok (ns ++ [n]) -> (length ns < fuel)%nat ->
  notify_loop fuel (encode_notify (ns ++ [n]) ++ b) = Some ((ns ++ [n]) ≫= nt_event).
Proof.
  revert fuel. induction ns as [|n0 ns IH]; intros [|fuel] Hok Hf; try lia.
  - apply Forall_cons in Hok as [Hn _]. cbn [app encode_notify notify_loop].
    rewrite decode_nt_bytes by (done || lia). cbn. unfold nt_event. by rewrite app_nil_r.
  - apply Forall_cons in Hok as [Hn Hok]. cbn [app].
    assert (E : encode_notify (n0 :: ns ++ [n]) =
      nt_bytes (zlen (nt_bytes 0 n0)) n0 ++ encode_notify (ns ++ [n])) by by destruct ns.
    assert (Hx : 12 <= zlen (nt_bytes 0 n0) < 2 ^ 32).
    { split; [|apply Hn]. unfold nt_bytes, zlen. rewrite !length_app. simpl. lia. }
    rewrite E, <- app_assoc. cbn [notify_loop]. rewrite decode_nt_bytes by (done || lia).
    destruct (Z.eqb_spec (zlen (nt_bytes 0 n0)) 0); [lia|].
    unfold zlen at 1. rewrite Nat2Z.id, <- (nt_bytes_length (zlen (nt_bytes 0 n0))), drop_app_length.
    rewrite IH by (done || (simpl in Hf; lia)). done.
Qed.

(** All the records of a buffer. *)
Lemma rdc_loop_records cb ns n b :
  (forall e, cb e = true) -> Forall nt_ok (ns ++ [n]) ->
  rdc_loop cb [WaitBytes (encode_notify (ns ++ [n]) ++ b)] = Some (true, (ns ++ [n]) ≫= nt_event).
Proof.
  intros Hcb Hok. cbn [rdc_loop]. rewrite notify_loop_encoded; [|done|].
  - cbn [mbind option_bind]. rewrite call_all_returning by done. cbn [mbind option_bind].
    by rewrite app_nil_r.
  - rewrite length_app. assert (H : (length ns <= length (encode_notify (ns ++ [n])))%nat); [|lia].
    clear. induction ns as [|n0 ns IH]; [simpl; lia|]. cbn [app].
    assert (E : encode_notify (n0 :: ns ++ [n]) =
      nt_bytes (zlen (nt_bytes 0 n0)) n0 ++ encode_notify (ns ++ [n])) by by destruct ns.
    rewrite E, length_app. unfold nt_bytes at 1. rewrite !length_app. simpl length. lia.
Qed.
End Rdc.

(** ** Changes of files *)

(** What FILE_NOTIFY_INFORMATION documents: the five actions with their codes in
    winnt.h, and a name in UTF-16 whose components are separated by backslashes. *)
Inductive change_kind := NtAdded | NtRemoved | NtModified | NtRenamedOld | NtRenamedNew.

Definition change_code (k : change_kind) : Z :=
  match k with NtAdded => 1 | NtRemoved => 2 | NtModified => 3 | NtRenamedOld => 4 | NtRenamedNew => 5 end.

(** A Unicode scalar value, and its encodings. *)
Definition scalar (c : Z) : Prop := 0 <= c < 0xD800 \/ 0xE000 <= c < 0x110000.

Definition utf16_units (c : Z) : list Z :=
  if c <? 0x10000 then [c] else [0xD800 + (c - 0x10000) / 1024; 0xDC00 + (c - 0x10000) mod 1024].

Definition utf8_bytes (c : Z) : str :=
  if c <? 0x80 then [chr c]
  else if c <? 0x800 then [chr (0xC0 + c / 64); chr (0x80 + c mod 64)]
  else if c <? 0x10000 then [chr (0xE0 + c / 4096); chr (0x80 + (c / 64) mod 64); chr (0x80 + c mod 64)]
  else [chr (0xF0 + c / 262144); chr (0x80 + (c / 4096) mod 64); chr (0x80 + (c / 64) mod 64); chr (0x80 + c mod 64)].

Fixpoint join {A} (sep : A) (l : list (list A)) : list A :=
  match l with
  | [] => []
  | [x] => x
  | x :: l' => x ++ sep :: join sep l'
  end.

(** A change: the components of the name, as code points; the padding behind
    the record. *)
Record change := Change { ch_kind : change_kind; ch_name : list (list Z); ch_pad : nat }.

Definition change_record (c : change) : notification :=
  Notification (change_code (ch_kind c)) (flat_map utf16_units (join 92 (ch_name c))) (ch_pad c).

Definition change_ok (c : change) : Prop :=
  Forall (Forall (fun x => scalar x /\ x <> 92)) (ch_name c) /\ zlen (nt_bytes 0 (change_record c)) < 2 ^ 32.

(** What is to be reported: a renaming is a deletion and a creation. *)
Definition change_event (c : change) : WatchEvent :=
  WEvent match ch_kind c with NtAdded | NtRenamedNew => Created | NtRemoved | NtRenamedOld => Deleted | NtModified => Modified end
    (join slash (map (flat_map utf8_bytes) (ch_name c))) [].

(** [WideCharToMultiByte(CP_UTF8, ...)] on valid UTF-16. *)
Definition converts_utf16 (to_utf8 : list Z -> str) : Prop :=
  forall cs, Forall scalar cs -> to_utf8 (flat_map utf16_units cs) = flat_map utf8_bytes cs.

(** ** Lemmas: names *)

Lemma utf16_units_range c : scalar c -> Forall (fun u => 0 <= u < 2 ^ 16) (utf16_units c).
Proof.
  intros Hc. unfold utf16_units. destruct (Z.ltb_spec c 0x10000); repeat (apply Forall_cons; split); try done;
    destruct Hc; Z.div_mod_to_equations; lia.
Qed.

(** No byte of a character other than the backslash is a backslash. *)
Lemma normalize_utf8 c : scalar c -> normalize_name (utf8_bytes c) = if c =? 92 then [slash] else utf8_bytes c.
Proof.
  intros Hc. assert (H : forall z, 0 <= z < 256 -> z <> 92 -> (if Ascii.eqb (chr z) (chr 92) then slash else chr z) = chr z).
  { intros z Hz Hn. destruct (Ascii.eqb_spec (chr z) (chr 92)) as [E|]; [|done]. apply (f_equal ord) in E. rewrite !ord_chr, !Z.mod_small in E by lia. done. }
  unfold utf8_bytes. destruct (Z.eqb_spec c 92) as [->|Hn]; [done|]. unfold normalize_name.
  destruct (Z.ltb_spec c 0x80); [|destruct (Z.ltb_spec c 0x800); [|destruct (Z.ltb_spec c 0x10000)]]; cbn [fmap list_fmap];
    rewrite !H by (destruct Hc; Z.div_mod_to_equations; lia); done.
Qed.

Lemma normalize_app s t : normalize_name (s ++ t) = normalize_name s ++ normalize_name t.
Proof. apply fmap_app. Qed.

Lemma normalize_component cs : Forall (fun x => scalar x /\ x <> 92) cs -> normalize_name (flat_map utf8_bytes cs) = flat_map utf8_bytes cs.
Proof.
  induction 1 as [|c cs [Hc Hn] _ IH]; [done|]. cbn [flat_map]. rewrite normalize_app, IH, normalize_utf8 by done.
  by rewrite (proj2 (Z.eqb_neq c 92)).
Qed.

Lemma normalize_joined cs : Forall (Forall (fun x => scalar x /\ x <> 92)) cs ->
  normalize_name (flat_map utf8_bytes (join 92 cs)) = join slash (map (flat_map utf8_bytes) cs).
Proof.
  induction 1 as [|c cs Hc _ IH]; [done|]. destruct cs as [|c' cs]; [by apply normalize_component|].
  change (join 92 (c :: c' :: cs)) with (c ++ 92 :: join 92 (c' :: cs)).
  change (join slash (map (flat_map utf8_bytes) (c :: c' :: cs)))
    with (flat_map utf8_bytes c ++ slash :: join slash (map (flat_map utf8_bytes) (c' :: cs))).
  rewrite flat_map_app, normalize_app, normalize_component by done. f_equal. cbn [flat_map]. rewrite normalize_app, IH. done.
Qed.

Lemma joined_scalar cs : Forall (Forall (fun x => scalar x /\ x <> 92)) cs -> Forall scalar (join 92 cs).
Proof.
  induction 1 as [|c cs Hc _ IH]; [constructor|].
  assert (Hs : Forall scalar c) by (eapply Forall_impl; [exact Hc|]; by intros x []). destruct cs as [|c' cs]; [done|].
  change (join 92 (c :: c' :: cs)) with (c ++ 92 :: join 92 (c' :: cs)). apply Forall_app. split; [done|]. constructor; [left; lia|done].
Qed.

Lemma change_nt_ok c : change_ok c -> nt_ok (change_record c).
Proof.
  intros [Hn Hl]. split_and!; [by destruct c as [[] ? ?]; simpl; lia..|done|]. simpl. apply joined_scalar in Hn.
  induction Hn as [|x cs Hx _ IH]; [constructor|]. cbn [flat_map]. apply Forall_app. split; [by apply utf16_units_range|done].
Qed.

(** The code reports what is to be reported. *)
Lemma change_reported to_utf8 c : converts_utf16 to_utf8 -> change_ok c -> nt_event to_utf8 (change_record c) = [change_event c].
Proof.
  intros Hu [Hn _]. unfold nt_event, change_event. simpl nt_name.
  assert (E : wideToUtf8 to_utf8 (flat_map utf16_units (join 92 (ch_name c))) = flat_map utf8_bytes (join 92 (ch_name c))).
  { rewrite <- Hu by by apply joined_scalar. unfold wideToUtf8. destruct (flat_map utf16_units _) eqn:E; [|done]. symmetry. exact (Hu [] (List.Forall_nil _)). }
  rewrite E, normalize_joined by done. by destruct c as [[] ? ?].
Qed.

(** C38: the records of a change buffer are reported as changes. For any chain of records, padded in any way and
    followed by anything, whose names are Unicode text without unpaired surrogates, and a callback that returns, the
    callback is called for exactly these changes in their order: a file that was added or is the new name of a renamed
    one is reported as created, one that was removed or is an old name as deleted, one that was modified as modified,
    each with the components of its name in UTF-8 separated by slashes; nothing outside the buffer is read. That
    [WideCharToMultiByte] converts UTF-16 to UTF-8 is a hypothesis. *)
Theorem rdc_loop_decodes to_utf8 cb cs c b :
  converts_utf16 to_utf8 -> (forall e, cb e = true) -> Forall change_ok (cs ++ [c]) ->
  rdc_loop to_utf8 cb [WaitBytes (encode_notify (map change_record (cs ++ [c])) ++ b)] = Some (true, map change_event (cs ++ [c])).
Proof.
  intros Hu Hcb Hok. rewrite map_app. cbn [map]. rewrite rdc_loop_records; [|done|].
  - change (map change_record cs ++ [change_record c]) with (map change_record cs ++ map change_record [c]). rewrite <- map_app.
    do 2 f_equal. induction Hok as [|x l Hx _ IH]; [done|]. rewrite !map_cons, bind_cons, IH. by rewrite change_reported.
  - change [change_record c] with (map change_record [c]). rewrite <- map_app. rewrite Forall_map. eapply Forall_impl; [exact Hok|]. apply change_nt_ok.
Qed.

(** ** The directory handle *)

(** Where the thread of [watchLoop] is. *)
Inductive loop_pc :=
  | LoopOpen         (* before CreateFileW *)
  | LoopStore        (* before the critical section that stores hDir_ *)
  | LoopEvent        (* before CreateEvent *)
  | LoopTest         (* at while (running_) *)
  | LoopIssue        (* before ReadDirectoryChangesW(hDir, ...) *)
  | LoopWait         (* in WaitForSingleObject(ov.hEvent, 500) *)
  | LoopUse          (* before CancelIoEx or GetOverlappedResult on hDir *)
  | LoopLeaving      (* before the critical section that resets hDir_ *)
  | LoopReset        (* before CloseHandle(hDir) *)
  | LoopFailing      (* no event: before the critical section that resets hDir_ *)
  | LoopFailed       (* no event: before CloseHandle(hDir) *)
  | LoopGiveUp       (* no event: before running_ = false *)
  | LoopDone.

(** Where the caller of [stop] is. *)
Inductive rstop_pc :=
  | RStopNone        (* not called *)
  | RStopCleared     (* running_ was exchanged *)
  | RStopJoining     (* after the critical section, in thread_.join() *)
  | RStopReturned.

(** The member [overlapped_] is never given an event (the loop uses a local
    one), so [stop] neither signals nor closes it. *)
Record rdc := Rdc {
  rd_running : bool;
  rd_hDir : bool;       (* hDir_ != INVALID_HANDLE_VALUE *)
  rd_closes : nat;      (* calls of CloseHandle on the directory handle *)
  rd_misuse : bool;     (* a closed directory handle was used *)
  rd_joinable : bool;   (* thread_.joinable() *)
  rd_loop : loop_pc;
  rd_stop : rstop_pc
}.

(** The state after [start()]. *)
Definition rdc_start : rdc := Rdc true false 0 false true LoopOpen RStopNone.

(** The handle is used: wrongly when it is closed. *)
Definition use_handle (closes : nat) (misuse : bool) : bool := misuse || Nat.ltb 0 closes.

(** The steps of [watchLoop]. *)
Inductive rdc_loop_step : rdc -> rdc -> Prop :=
  | rl_open_fails r h c u q sp : rdc_loop_step (Rdc r h c u q LoopOpen sp) (Rdc false h c u q LoopDone sp)
  | rl_open r h c u q sp : rdc_loop_step (Rdc r h c u q LoopOpen sp) (Rdc r h c u q LoopStore sp)
  | rl_refused h c u q sp : rdc_loop_step (Rdc false h c u q LoopStore sp) (Rdc false h (S c) u q LoopDone sp)
  | rl_store h c u q sp : rdc_loop_step (Rdc true h c u q LoopStore sp) (Rdc true true c u q LoopEvent sp)
  | rl_event r h c u q sp : rdc_loop_step (Rdc r h c u q LoopEvent sp) (Rdc r h c u q LoopTest sp)
  | rl_no_event r h c u q sp : rdc_loop_step (Rdc r h c u q LoopEvent sp) (Rdc r h c u q LoopFailing sp)
  | rl_fail_reset r h c u q sp : rdc_loop_step (Rdc r h c u q LoopFailing sp) (Rdc r false c u q LoopFailed sp)
  | rl_fail_close r h c u q sp : rdc_loop_step (Rdc r h c u q LoopFailed sp) (Rdc r h (S c) u q LoopGiveUp sp)
  | rl_give_up r h c u q sp : rdc_loop_step (Rdc r h c u q LoopGiveUp sp) (Rdc false h c u q LoopDone sp)
  | rl_enter h c u q sp : rdc_loop_step (Rdc true h c u q LoopTest sp) (Rdc true h c u q LoopIssue sp)
  | rl_end h c u q sp : rdc_loop_step (Rdc false h c u q LoopTest sp) (Rdc false h c u q LoopLeaving sp)
  | rl_issue r h c u q sp :
      rdc_loop_step (Rdc r h c u q LoopIssue sp) (Rdc r h c (use_handle c u) q LoopWait sp)
  | rl_issue_fails r h c u q sp :
      rdc_loop_step (Rdc r h c u q LoopIssue sp) (Rdc r h c (use_handle c u) q LoopLeaving sp)
  | rl_stopped h c u q sp : rdc_loop_step (Rdc false h c u q LoopWait sp) (Rdc false h c u q LoopLeaving sp)
  | rl_wait_fails h c u q sp : rdc_loop_step (Rdc true h c u q LoopWait sp) (Rdc true h c u q LoopLeaving sp)
  | rl_wait h c u q sp : rdc_loop_step (Rdc true h c u q LoopWait sp) (Rdc true h c u q LoopUse sp)
  | rl_use r h c u q sp : rdc_loop_step (Rdc r h c u q LoopUse sp) (Rdc r h c (use_handle c u) q LoopTest sp)
  | rl_reset r h c u q sp : rdc_loop_step (Rdc r h c u q LoopLeaving sp) (Rdc r false c u q LoopReset sp)
  | rl_close r h c u q sp : rdc_loop_step (Rdc r h c u q LoopReset sp) (Rdc r h (S c) u q LoopDone sp).

(** The steps of [stop]. *)
Inductive rdc_stop_step : rdc -> rdc -> Prop :=
  | rs_idle h c u q lp : rdc_stop_step (Rdc false h c u q lp RStopNone) (Rdc false h c u q lp RStopReturned)
  | rs_exchange h c u q lp : rdc_stop_step (Rdc true h c u q lp RStopNone) (Rdc false h c u q lp RStopCleared)
  | rs_close r c u q lp : rdc_stop_step (Rdc r true c u q lp RStopCleared) (Rdc r false (S c) u q lp RStopJoining)
  | rs_none r c u q lp : rdc_stop_step (Rdc r false c u q lp RStopCleared) (Rdc r false c u q lp RStopJoining)
  | rs_join r h c u q : rdc_stop_step (Rdc r h c u q LoopDone RStopJoining) (Rdc r h c u false LoopDone RStopReturned).

Definition rdc_step (s s' : rdc) : Prop := rdc_loop_step s s' \/ rdc_stop_step s s'.

(** The handle is closed at most once by each thread, and used after it was
    closed only when [stop] has passed its critical section. *)
Definition closes_ok (s : rdc) : Prop :=
  (rd_closes s <= match rd_loop s with LoopDone | LoopGiveUp => 1 | _ => 0 end +
     match rd_stop s with RStopJoining | RStopReturned => 1 | _ => 0 end)%nat /\
  (rd_misuse s = true -> rd_stop s = RStopJoining \/ rd_stop s = RStopReturned).

Lemma closes_ok_step s s' : closes_ok s -> rdc_step s s' -> closes_ok s'.
Proof.
  unfold closes_ok, use_handle. intros [H1 H2] Hs. split.
  - destruct Hs as [Hs|Hs]; destruct Hs; simpl in *; try destruct sp; try destruct lp; simpl in *; lia.
  - destruct Hs as [Hs|Hs]; destruct Hs; simpl in *; try done; try (intros Hu; destruct (H2 Hu); discriminate); try (by left); try (by right);
      intros [?|Hc%Nat.ltb_lt]%orb_true_iff; auto; destruct sp; auto; lia.
Qed.

Lemma closes_ok_reach s : rtc rdc_step rdc_start s -> closes_ok s.
Proof.
  intros Hr. assert (H0 : closes_ok rdc_start) by (split; [simpl; lia|done]).
  revert H0. induction Hr; [done|]. eauto using closes_ok_step.
Qed.

(** The directory handle is closed twice by a normal stop: when [stop()]
    runs while the loop is waiting, it closes the handle, and the loop closes
    the same handle again when it leaves; it may also use the closed handle.
    It is never closed more than twice, and while [stop()] has not passed its
    critical section it is closed at most once and never used closed. *)
Theorem rdc_double_close :
  (exists s, rtc rdc_step rdc_start s /\ rd_stop s = RStopReturned /\ rd_closes s = 2%nat /\ rd_misuse s = true) /\
  (forall s, rtc rdc_step rdc_start s ->
     (rd_closes s <= 2)%nat /\
     (rd_stop s = RStopNone \/ rd_stop s = RStopCleared -> (rd_closes s <= 1)%nat /\ rd_misuse s = false)).
Proof.
  split.
  - exists (Rdc false false 2 true false LoopDone RStopReturned). split; [|done]. unfold rdc_start.
    eapply rtc_l; [left; apply rl_open|]. eapply rtc_l; [left; apply rl_store|].
    eapply rtc_l; [left; apply rl_event|]. eapply rtc_l; [left; apply rl_enter|].
    eapply rtc_l; [right; apply rs_exchange|]. eapply rtc_l; [right; apply rs_close|].
    eapply rtc_l; [left; apply rl_issue_fails|]. eapply rtc_l; [left; apply rl_reset|].
    eapply rtc_l; [left; apply rl_close|]. apply rtc_once. right. apply rs_join.
  - intros s Hr. destruct (closes_ok_reach s Hr) as [Hc Hu]. split.
    + destruct (rd_loop s), (rd_stop s); lia.
    + intros Hsp. split; [destruct Hsp as [H|H]; rewrite H in Hc; destruct (rd_loop s); lia|].
      destruct (rd_misuse s); [|done]. destruct (Hu eq_refl), Hsp; congruence.
Qed.

(** How far a stopping system is from [stop] returning. *)
Definition rdc_left (s : rdc) : nat :=
  match rd_loop s with
  | LoopOpen => 12 | LoopStore => 11 | LoopEvent => 10
  | LoopUse => 8 | LoopTest => 7 | LoopIssue => 6 | LoopWait => 5
  | LoopLeaving => 3 | LoopReset => 2
  | LoopFailing => 4 | LoopFailed => 3 | LoopGiveUp => 2 | LoopDone => 0
  end +
  match rd_stop s with
  | RStopNone => 4 | RStopCleared => 3 | RStopJoining => 2 | RStopReturned => 0
  end.

(** [stop()] returns.  Once it has cleared [running_], in whatever state the
    loop is, some step is possible until it has returned, and every step of
    the two threads brings the return nearer. *)
Theorem rdc_stop_returns s :
  rd_running s = false ->
  (rd_stop s <> RStopReturned -> exists s', rdc_step s s') /\
  (forall s', rdc_step s s' -> (rdc_left s' < rdc_left s)%nat).
Proof.
  intros Hrun. destruct s as [r h c u q lp sp]. simpl in Hrun. subst r. split.
  - simpl. intros Hsp. destruct sp; [eexists; right; constructor| | |done].
    + destruct h; eexists; right; constructor.
    + destruct lp; eexists; (left; constructor) || (right; constructor).
  - intros s' [Hs|Hs]; inversion Hs; subst; unfold rdc_left; simpl; try lia; destruct lp; simpl; lia.
Qed.

(** Only a [stop()] that found [running_] set joins the thread.  When the
    directory cannot be opened or the event cannot be created, the loop clears
    [running_] itself: [stop()] then returns at once, and the thread is still
    joinable when the watcher is destroyed, which ends the process with
    [std::terminate]. *)
Theorem rdc_failed_loop_not_joined :
  (exists s, rtc rdc_step rdc_start s /\ rd_stop s = RStopReturned /\ rd_loop s = LoopDone /\ rd_joinable s = true) /\
  (forall s s', rdc_step s s' ->
     rd_joinable s' = rd_joinable s \/ (rd_stop s = RStopJoining /\ rd_stop s' = RStopReturned /\ rd_joinable s' = false)).
Proof.
  split.
  - exists (Rdc false false 0 false true LoopDone RStopReturned). split; [|done]. unfold rdc_start.
    eapply rtc_l; [left; apply rl_open_fails|]. apply rtc_once. right. apply rs_idle.
  - intros s s' [Hs|Hs]; destruct Hs; simpl; auto.
Qed.

(** ** Witnesses *)

Module RdcDemo.
(** A conversion of UTF-16. *)
Fixpoint from_utf16 (us : list Z) : list Z :=
  match us with
  | h :: ((l :: us'') as us') =>
      if (0xD800 <=? h) && (h <? 0xDC00) then 0x10000 + (h - 0xD800) * 1024 + (l - 0xDC00) :: from_utf16 us'' else h :: from_utf16 us'
  | [h] => [h]
  | [] => []
  end.

Definition convert (us : list Z) : str := flat_map utf8_bytes (from_utf16 us).

Lemma from_utf16_cons h us : (0xD800 <=? h) && (h <? 0xDC00) = false -> from_utf16 (h :: us) = h :: from_utf16 us.
Proof. intros H. destruct us as [|l us]; [done|]. cbn [from_utf16]. by rewrite H. Qed.

Lemma convert_utf16 : converts_utf16 convert.
Proof.
  intros cs Hcs. unfold convert. f_equal. induction Hcs as [|c cs Hc _ IH]; [done|]. cbn [flat_map]. unfold utf16_units at 1.
  destruct (Z.ltb_spec c 0x10000).
  - cbn [app]. rewrite from_utf16_cons, IH; [done|]. apply andb_false_iff. destruct Hc; [left; apply Z.leb_gt; lia|right; apply Z.ltb_ge; lia].
  - cbn [app from_utf16]. rewrite (proj2 (Z.leb_le _ _)), (proj2 (Z.ltb_lt _ _)) by (destruct Hc; Z.div_mod_to_equations; lia).
    cbn [andb]. rewrite IH. f_equal. Z.div_mod_to_equations. lia.
Qed.

(** [d\é] is added, [c] and a name outside the first plane are renamed. *)
Definition changes : list change :=
  [Change NtAdded [[100]; [0xE9]] 2; Change NtRenamedOld [[99]] 0; Change NtRenamedNew [[0x1F600]] 1].

Lemma rdc_loop_decodes_witness :
  rdc_loop convert (fun _ => true) [WaitBytes (encode_notify (map change_record changes) ++ $"junk")] =
  Some (true, [WEvent Created ($"d/" ++ [chr 0xC3; chr 0xA9]) []; WEvent Deleted $"c" [];
               WEvent Created [chr 0xF0; chr 0x9F; chr 0x98; chr 0x80] []]).
Proof.
  apply (rdc_loop_decodes convert (fun _ => true) (take 2 changes) (Change NtRenamedNew [[0x1F600]] 1) $"junk"); [apply convert_utf16|done|].
  repeat (apply Forall_cons; split); try (by apply Forall_nil); (split; [|by_compute]);
    repeat (apply Forall_cons; split); try (by apply Forall_nil); (split; [(left; lia) || (right; lia)|done]).
Defined.
End RdcDemo.
