(* ===== verification/WatchInterface.v ===== *)
(** * The interface of the watchers (include/filesystem_watcher.h)

    The abstract class [FileSystemWatcher] with what its user relies on, and
    the four watchers as its implementations.  The thread of a watcher is
    seen through what it does with one piece of input of the system (a poll
    of the directory, a buffer of the kernel, a batch of events): the calls
    of the callback in their order, and whether an exception of the callback
    leaves the thread, which ends the process. *)

From S2P Require Import Prelude StdMap FileSys Watcher Inotify FsEvents RdcWatcher.

(** ** The interface *)

Class FileSystemWatcher (W : Type) := {
  fsw_os : Type;      (* what the system answers to [start] *)
  fsw_input : Type;   (* what the system gives the thread at a time *)
  fsw_start : fsw_os -> W -> bool * W;
  fsw_stop : W -> W;
  fsw_isRunning : W -> bool;
  fsw_deliver : Callback -> fsw_input -> W -> option (bool * list WatchEvent * W)
}.

(** A running watcher is not started again, a started one runs, a stopped one
    does not; and a watcher calls the callback with events that do not depend
    on it, as long as it returns. *)
Class FileSystemWatcherLaws (W : Type) `{FileSystemWatcher W} := {
  fsw_start_once os w : fsw_isRunning w = true -> fsw_start os w = (false, w);
  fsw_start_runs os w w' : fsw_start os w = (true, w') -> fsw_isRunning w' = true;
  fsw_stop_stops w : fsw_isRunning (fsw_stop w) = false;
  fsw_returning i w ok evs w' : fsw_deliver (fun _ => true) i w = Some (ok, evs, w') -> ok = true;
  fsw_transparent cb i w evs w' :
    fsw_deliver (fun _ => true) i w = Some (true, evs, w') -> Forall (fun e => cb e = true) evs ->
    fsw_deliver cb i w = Some (true, evs, w')
}.

(** ** The polling watcher *)

(** The watcher and the [knownFiles] of its loop. *)
Record polling := Polling { pw_watcher : watcher; pw_known : known_map }.

(** [start()]: the new thread begins with an empty map. *)
Definition polling_start (w : polling) : bool * polling :=
  let '(ok, w') := start (pw_watcher w) in (ok, Polling w' (if ok then [] else pw_known w)).

Definition polling_stop (w : polling) : polling := Polling (stop (pw_watcher w)) (pw_known w).

Definition polling_deliver (cb : Callback) (i : bool * list iter_step) (w : polling)
  : bool * list WatchEvent * polling :=
  let '(e, evs, known) := poll cb i.1 i.2 (pw_known w) in
  (match e with Terminated => false | _ => true end, evs, Polling (pw_watcher w) known).

#[export] Instance polling_fsw : FileSystemWatcher polling := {|
  fsw_os := unit;
  fsw_start _ := polling_start;
  fsw_stop := polling_stop;
  fsw_isRunning w := isRunning (pw_watcher w);
  fsw_deliver cb i w := Some (polling_deliver cb i w)
|}.

(** ** The watchers that join their thread *)

(** [running_] and [thread_.joinable()] of the macOS and Windows watchers. *)
Record threaded := Threaded { tw_running : bool; tw_thread : bool }.

Definition threaded_start (w : threaded) : bool * threaded :=
  if tw_running w then (false, w) else (true, Threaded true true).

Definition threaded_stop (w : threaded) : threaded :=
  if negb (tw_running w) then w else Threaded false false.

(** ** Lemmas: the callback is not looked at *)

Abbreviation returning := (fun _ : WatchEvent => true).

Lemma call_all_true cb evs : Forall (fun e => cb e = true) evs -> call_all cb evs = (true, evs).
Proof. induction 1 as [|e evs He _ IH]; [done|]. simpl. by rewrite He, IH. Qed.

Lemma scan_extends cb steps known seen ev :
  ev `prefix_of` (scan cb steps known seen ev).2.
Proof.
  revert known seen ev. induction steps as [|[d| |] steps IH]; intros known seen ev; simpl; try done.
  repeat case_match; simpl; auto; try (by apply prefix_app_r);
    (etransitivity; [|apply IH]); by apply prefix_app_r.
Qed.

Lemma scan_transparent cb steps known seen ev :
  Forall (fun e => cb e = true) (scan returning steps known seen ev).2 ->
  scan cb steps known seen ev = scan returning steps known seen ev.
Proof.
  revert known seen ev. induction steps as [|[d| |] steps IH]; intros known seen ev; simpl; try done.
  destruct (skipped d); [apply IH|].
  assert (Hrep : forall t known',
    Forall (fun e => cb e = true) (scan returning steps known' ({[relPath d]} ∪ seen) (ev ++ [WEvent t (relPath d) []])).2 ->
    (if cb (WEvent t (relPath d) []) then scan cb steps known' ({[relPath d]} ∪ seen) (ev ++ [WEvent t (relPath d) []])
     else (ScanError, known', {[relPath d]} ∪ seen, ev ++ [WEvent t (relPath d) []])) =
    scan returning steps known' ({[relPath d]} ∪ seen) (ev ++ [WEvent t (relPath d) []])).
  { intros t known' Hf. rewrite <- IH in Hf |- * by done.
    pose proof (scan_extends cb steps known' ({[relPath d]} ∪ seen) (ev ++ [WEvent t (relPath d) []])) as [k Hk].
    rewrite Hk, !Forall_app in Hf. destruct Hf as [[_ Hc] _]. apply Forall_cons in Hc as [-> _]. done. }
  destruct (map_find _ known) as [i|]; [|apply Hrep].
  destruct (bool_decide (i <> de_info d)); [apply Hrep|apply IH].
Qed.

Lemma sweep_transparent cb seen known :
  Forall (fun e => cb e = true) (sweep returning seen known).1.2 -> sweep cb seen known = sweep returning seen known.
Proof.
  induction known as [|[k i] known IH]; simpl; [done|].
  destruct (sweep returning seen known) as [[ok ev] rest] eqn:Es. simpl in IH.
  destruct (bool_decide (k ∈ seen)); simpl; intros H.
  - by rewrite IH.
  - apply Forall_cons in H as [-> H]. by rewrite IH.
Qed.

Lemma sweep_returning seen known : (sweep returning seen known).1.1 = true.
Proof.
  induction known as [|[k i] known IH]; simpl; [done|]. destruct (sweep returning seen known) as [[ok ev] rest].
  simpl in IH. subst. by destruct (bool_decide (k ∈ seen)).
Qed.

Lemma poll_transparent cb dir steps known :
  Forall (fun e => cb e = true) (poll returning dir steps known).1.2 ->
  poll cb dir steps known = poll returning dir steps known.
Proof.
  unfold poll. destruct dir; [|done]. simpl. pose proof (scan_transparent cb steps known ∅ []) as Hs.
  destruct (scan returning steps known ∅ []) as [[[e k] s] ev] eqn:E. simpl in Hs.
  pose proof (sweep_transparent cb s k) as Hw.
  destruct e; intros Hf.
  - destruct (sweep returning s k) as [[ok ev'] k'] eqn:Ew. simpl in *. apply Forall_app in Hf as [H1 H2].
    rewrite Hs by done. by rewrite Hw.
  - destruct (sweep returning s k) as [[ok ev'] k'] eqn:Ew. simpl in *. apply Forall_app in Hf as [H1 H2].
    rewrite Hs by done. by rewrite Hw.
  - by rewrite Hs.
Qed.

#[export] Instance polling_fsw_laws : FileSystemWatcherLaws polling.
Proof.
  split; simpl.
  - intros _ [w k] Hr. unfold polling_start, start, isRunning in *. simpl in *. by rewrite Hr.
  - intros _ [w k] w'. unfold polling_start, start, isRunning. simpl. destruct (running_ w); [done|]. by intros [= <-].
  - done.
  - intros [dir steps] [w k] ok evs w' H. unfold polling_deliver, poll in H. simpl in H. destruct dir; [|by simplify_eq/=].
    simpl in H. destruct (scan _ _ _ _ _) as [[[[] k'] s] ev]; [..|by simplify_eq];
      pose proof (sweep_returning s k') as Hr; destruct (sweep returning s k') as [[ok1 ev'] k'']; simpl in *; by simplify_eq.
  - intros cb [dir steps] [w k] evs w' [= H] Hf. f_equal. rewrite <- H. unfold polling_deliver in *. simpl in *.
    rewrite (poll_transparent cb); [done|]. destruct (poll returning dir steps k) as [[e l] k']. by injection H as _ -> _.
Qed.

(** ** The inotify watcher *)

Section InotifyInstance.
Variable watchPath_ : str.

(** One buffer, with what [stat] finds while it is handled. *)
Definition inotify_deliver (cb : Callback) (i : (str -> option dtree) * str) (w : inotify_watcher)
  : option (bool * list WatchEvent * inotify_watcher) :=
  r ← handle_buffer cb watchPath_ i.1 (S (length i.2)) i.2 (Run true [] (iw_ino w));
  Some (r_alive r, r_events r, IWatcher (iw_running w) (iw_fd w) (iw_thread w) (r_ino r)).

#[export] Instance inotify_fsw : FileSystemWatcher inotify_watcher := {|
  fsw_os := bool * dtree;
  fsw_start os := inotify_start os.1 watchPath_ os.2;
  fsw_stop := inotify_stop;
  fsw_isRunning := iw_running;
  fsw_deliver := inotify_deliver
|}.

Lemma report_events cb t p r :
  r_events r `prefix_of` r_events (report cb t p r).
Proof. unfold report. destruct (r_alive r); [|done]. by apply prefix_app_r. Qed.

Lemma rescan_events sd p r : r_events (rescan watchPath_ sd p r) = r_events r /\ r_alive (rescan watchPath_ sd p r) = r_alive r.
Proof. unfold rescan. destruct (r_alive r) eqn:E; [|done]. by destruct (sd _). Qed.

(** What a callback that returns for the events [l] sees up to [l]. *)
Definition same_run (cb : Callback) (r1 r2 : run) (l : list WatchEvent) : Prop :=
  r_alive r1 = true /\ (r_events r1 `prefix_of` l -> r2 = r1).

Lemma report_same cb t p r1 r2 l :
  Forall (fun e => cb e = true) l -> same_run cb r1 r2 l -> same_run cb (report returning t p r1) (report cb t p r2) l.
Proof.
  intros Hl [Ha Hr]. split; [unfold report; by rewrite Ha|]. intros Hp.
  assert (r2 = r1) as -> by (apply Hr; etransitivity; [apply report_events|exact Hp]).
  unfold report in *. rewrite Ha in *. f_equal. simpl in Hp. destruct Hp as [k ->].
  rewrite !Forall_app, Forall_singleton in Hl. by destruct Hl as [[_ ->] _].
Qed.

Lemma rescan_same cb sd p r1 r2 l :
  same_run cb r1 r2 l -> same_run cb (rescan watchPath_ sd p r1) (rescan watchPath_ sd p r2) l.
Proof.
  intros [Ha Hr]. destruct (rescan_events sd p r1) as [E1 E2]. split; [by rewrite E2|]. rewrite E1. intros Hp. by rewrite Hr.
Qed.

Lemma when_same cb (b : bool) (f1 f2 : run -> run) r1 r2 l :
  (same_run cb r1 r2 l -> same_run cb (f1 r1) (f2 r2) l) -> same_run cb r1 r2 l ->
  same_run cb (if b then f1 r1 else r1) (if b then f2 r2 else r2) l.
Proof. by destruct b; auto. Qed.

Lemma handle_event_same cb sd e r1 r2 l :
  Forall (fun e => cb e = true) l -> r_ino r1 = r_ino r2 -> same_run cb r1 r2 l ->
  same_run cb (handle_event returning watchPath_ sd e r1) (handle_event cb watchPath_ sd e r2) l.
Proof.
  intros Hl Hi Hs. unfold handle_event. destruct (ie_name e) as [name|]; [|done]. rewrite <- Hi.
  generalize (event_path (r_ino r1) (ie_wd e) name). intros p. clear Hi.
  repeat (first [apply (when_same cb _ (fun r => rescan watchPath_ sd p (report returning Created p r))
      (fun r => rescan watchPath_ sd p (report cb Created p r))); [intros; by apply rescan_same, report_same|]
    |apply (when_same cb _ (report returning Deleted p) (report cb Deleted p)); [intros; by apply report_same|]
    |apply (when_same cb _ (report returning Modified p) (report cb Modified p)); [intros; by apply report_same|]
    |exact Hs]).
Qed.
Lemma handle_event_extends cb sd e r : r_events r `prefix_of` r_events (handle_event cb watchPath_ sd e r).
Proof.
  unfold handle_event. destruct (ie_name e) as [name|]; [|done]. generalize (event_path (r_ino r) (ie_wd e) name). intros p.
  assert (Hw : forall (b : bool) f r0, (forall r, r_events r `prefix_of` r_events (f r)) ->
    r_events r `prefix_of` r_events r0 -> r_events r `prefix_of` r_events (if b then f r0 else r0))
    by (intros [] f r0 Hf H0; [by etransitivity|done]).
  assert (Hrep : forall t r, r_events r `prefix_of` r_events (report cb t p r)) by (intros; apply report_events).
  assert (Hres : forall r, r_events r `prefix_of` r_events (rescan watchPath_ sd p (report cb Created p r))).
  { intros r'. destruct (rescan_events sd p (report cb Created p r')) as [-> _]. apply Hrep. }
  apply (Hw _ (fun r => rescan watchPath_ sd p (report cb Created p r))); [done|].
  apply (Hw _ (report cb Deleted p)); [done|]. apply (Hw _ (report cb Deleted p)); [done|].
  apply (Hw _ (report cb Modified p)); [done|].
  by apply (Hw _ (fun r => rescan watchPath_ sd p (report cb Created p r))).
Qed.

Lemma handle_buffer_extends cb sd fuel buf r r' :
  handle_buffer cb watchPath_ sd fuel buf r = Some r' -> r_events r `prefix_of` r_events r'.
Proof.
  revert buf r. induction fuel as [|fuel IH]; intros buf r; [done|]. cbn [handle_buffer].
  destruct buf as [|c buf]; [by intros [= <-]|]. destruct (decode_event (c :: buf)) as [[e size]|]; [|done].
  intros H%IH. etransitivity; [apply handle_event_extends|exact H].
Qed.

Lemma handle_buffer_transparent cb sd fuel buf r r' :
  r_alive r = true -> handle_buffer returning watchPath_ sd fuel buf r = Some r' ->
  r_alive r' = true /\ (Forall (fun e => cb e = true) (r_events r') -> handle_buffer cb watchPath_ sd fuel buf r = Some r').
Proof.
  revert buf r. induction fuel as [|fuel IH]; intros buf r Ha; [done|]. cbn [handle_buffer].
  destruct buf as [|c buf]; [by intros [= <-]|]. destruct (decode_event (c :: buf)) as [[e size]|]; [|done]. intros H.
  assert (Hs : forall l, Forall (fun e => cb e = true) l ->
    same_run cb (handle_event returning watchPath_ sd e r) (handle_event cb watchPath_ sd e r) l)
    by (intros l Hl; apply handle_event_same; [done|done|by split]).
  destruct (IH _ _ (proj1 (handle_event_same returning sd e r r [] ltac:(done) eq_refl ltac:(by split))) H) as [Ha' Ht].
  split; [done|]. intros Hf. destruct (Hs _ Hf) as [_ Heq]. rewrite Heq; [by apply Ht|]. by eapply handle_buffer_extends.
Qed.

#[export] Instance inotify_fsw_laws : FileSystemWatcherLaws inotify_watcher.
Proof.
  split; cbn [fsw_start fsw_stop fsw_isRunning fsw_deliver inotify_fsw].
  - intros os w Hr. unfold inotify_start. by rewrite Hr.
  - intros os w w'. unfold inotify_start. destruct (iw_running w), (negb os.1); try done. by intros [= <-].
  - intros w. unfold inotify_stop. by destruct (iw_running w) eqn:E.
  - intros i w ok evs w'. unfold inotify_deliver. destruct (handle_buffer _ _ _ _ _ _) as [r|] eqn:E; [|done]. cbn [mbind option_bind].
    intros [= <- _ _]. by destruct (handle_buffer_transparent returning i.1 _ i.2 (Run true [] (iw_ino w)) r eq_refl E).
  - intros cb i w evs w'. unfold inotify_deliver. destruct (handle_buffer returning _ _ _ _ _) as [r|] eqn:E; [|done]. cbn [mbind option_bind].
    intros [= Ha <- <-] Hf. destruct (handle_buffer_transparent cb i.1 _ i.2 (Run true [] (iw_ino w)) r eq_refl E) as [_ Ht]. rewrite Ht by done.
    cbn [mbind option_bind]. by rewrite Ha.
Qed.
End InotifyInstance.

(** ** The macOS watcher *)

Lemma threaded_start_once w : tw_running w = true -> threaded_start w = (false, w).
Proof. intros Hr. unfold threaded_start. by rewrite Hr. Qed.

Lemma threaded_start_runs w w' : threaded_start w = (true, w') -> tw_running w' = true.
Proof. unfold threaded_start. destruct (tw_running w); [done|]. by intros [= <-]. Qed.

Lemma threaded_stop_stops w : tw_running (threaded_stop w) = false.
Proof. unfold threaded_stop. by destruct (tw_running w) eqn:E. Qed.

Section FsEventsInstance.
Variable watchPath_ : str.

#[local] Instance fse_fsw : FileSystemWatcher threaded := {|
  fsw_os := unit;
  fsw_input := list (str * Z);
  fsw_start _ := threaded_start;
  fsw_stop := threaded_stop;
  fsw_isRunning := tw_running;
  fsw_deliver cb batch w := Some (fse_callback cb watchPath_ batch, w)
|}.

#[local] Instance fse_fsw_laws : @FileSystemWatcherLaws threaded fse_fsw.
Proof.
  split; simpl.
  - intros _. apply threaded_start_once.
  - intros _. apply threaded_start_runs.
  - apply threaded_stop_stops.
  - intros i w ok evs w'. unfold fse_callback. rewrite call_all_returning by done. by intros [= <- _ _].
  - intros cb i w evs w'. unfold fse_callback. rewrite call_all_returning by done. intros [= <- <-] Hf. by rewrite call_all_true.
Qed.
End FsEventsInstance.

(** ** The Windows watcher *)

Section RdcInstance.
Variable to_utf8 : list Z -> str.

#[local] Instance rdc_fsw : FileSystemWatcher threaded := {|
  fsw_os := unit;
  fsw_input := str;
  fsw_start _ := threaded_start;
  fsw_stop := threaded_stop;
  fsw_isRunning := tw_running;
  fsw_deliver cb buf w := r ← rdc_loop to_utf8 cb [WaitBytes buf]; Some (r, w)
|}.

#[local] Instance rdc_fsw_laws : @FileSystemWatcherLaws threaded rdc_fsw.
Proof.
  split; cbn [fsw_start fsw_stop fsw_isRunning fsw_deliver rdc_fsw rdc_loop].
  - intros _. apply threaded_start_once.
  - intros _. apply threaded_start_runs.
  - apply threaded_stop_stops.
  - intros i w ok evs w'. destruct (notify_loop to_utf8 _ _) as [l|]; [|done]. cbn [mbind option_bind].
    rewrite call_all_returning by done. cbn [mbind option_bind]. by intros [= <- _ _].
  - intros cb i w evs w'. destruct (notify_loop to_utf8 _ _) as [l|]; [|done]. cbn [mbind option_bind].
    rewrite call_all_returning by done. cbn [mbind option_bind]. rewrite app_nil_r. intros [= <- <-] Hf.
    rewrite call_all_true by done. cbn [mbind option_bind]. by rewrite app_nil_r.
Qed.
End RdcInstance.
