(* ===== verification/WatchStop.v ===== *)
(** * Stopping a watcher (the watching threads and [stop])

    The members a watching thread shares with [stop] as transition systems, and
    what a system that is being stopped promises, as a type class: its threads
    make finitely many steps, and nothing is left to do only when [stop] has
    returned.  The macOS and Windows watchers ([FsEvents], [RdcWatcher]) and the
    Linux watcher, which is modelled here with the descriptor table of the
    process, are its instances.  The polling watcher detaches its thread
    instead; what this means for the end of the program is shown too. *)

From S2P Require Import Prelude StdMap FileSys Watcher Inotify FsEvents RdcWatcher.

(** ** What is promised of a watcher that is being stopped *)

(** [sys_step]: a step of the watching thread or of [stop]; [env_step]: a step
    of the rest of the process; [stopping]: the states the promise is about. *)
Class StopSystem (S : Type) := {
  sys_step : S -> S -> Prop;
  env_step : S -> S -> Prop;
  stopping : S -> Prop;
  returned : S -> bool;
  steps_left : S -> nat
}.

Class StopLaws (S : Type) `{StopSystem S} := {
  stopping_sys s s' : stopping s -> sys_step s s' -> stopping s';
  stopping_env s s' : stopping s -> env_step s s' -> stopping s';
  sys_decreases s s' : stopping s -> sys_step s s' -> (steps_left s' < steps_left s)%nat;
  env_keeps s s' : stopping s -> env_step s s' -> (steps_left s' <= steps_left s)%nat;
  sys_progress s : stopping s -> returned s = false -> exists s', sys_step s s'
}.

(** An execution, with the number of steps of the two threads in it. *)
Inductive execution {S} `{StopSystem S} : nat -> S -> S -> Prop :=
  | exec_refl s : execution 0 s s
  | exec_sys n s s' s'' : sys_step s s' -> execution n s' s'' -> execution (Datatypes.S n) s s''
  | exec_env n s s' s'' : env_step s s' -> execution n s' s'' -> execution n s s''.

Section Stopped.
Context {S} `{StopLaws S}.

Lemma execution_bound n s s' : execution n s s' -> stopping s -> stopping s' /\ (n + steps_left s' <= steps_left s)%nat.
Proof.
  induction 1 as [s|n s s1 s2 Hs _ IH|n s s1 s2 He _ IH]; intros Hst; [split; [done|lia]|..].
  - destruct IH as [? ?]; [by eapply stopping_sys|]. pose proof (sys_decreases s s1 Hst Hs). split; [done|lia].
  - destruct IH as [? ?]; [by eapply stopping_env|]. pose proof (env_keeps s s1 Hst He). split; [done|lia].
Qed.

(** Whatever the interleaving, the two threads make at most [steps_left] steps,
    and when they can make none, [stop] has returned. *)
Lemma stop_returns n s s' :
  stopping s -> execution n s s' ->
  (n <= steps_left s)%nat /\ ((forall s'', ~ sys_step s' s'') -> returned s' = true).
Proof.
  intros Hst He. destruct (execution_bound _ _ _ He Hst) as [Hst' Hb]. split; [lia|].
  intros Hn. destruct (returned s') eqn:Hr; [done|]. destruct (sys_progress s' Hst' Hr) as [s'' Hs]. by destruct (Hn s'').
Qed.
End Stopped.

(** ** The macOS and Windows watchers *)

#[export] Instance fse_stops : StopSystem fse := {|
  sys_step := fse_step;
  env_step _ _ := False;
  stopping := stopping_ok;
  returned s := match fs_stop s with StopReturned => true | _ => false end;
  steps_left := stop_left
|}.

#[export] Instance fse_stop_laws : StopLaws fse.
Proof.
  split; simpl; [apply stopping_ok_step|done|apply fse_decreases|done|]. intros s Hs Hr. apply fse_progress; [done|]. by intros E; rewrite E in Hr.
Qed.

#[export] Instance rdc_stops : StopSystem rdc := {|
  sys_step := rdc_step;
  env_step _ _ := False;
  stopping s := rd_running s = false;
  returned s := match rd_stop s with RStopReturned => true | _ => false end;
  steps_left := rdc_left
|}.

#[export] Instance rdc_stop_laws : StopLaws rdc.
Proof.
  split; simpl; try done.
  - intros s s' Hr [Hs|Hs]; destruct Hs; simpl in *; done.
  - intros s s' Hr. by apply rdc_stop_returns.
  - intros s Hr Hn. apply rdc_stop_returns; [done|]. by intros E; rewrite E in Hn.
Qed.

(** ** The Linux watcher *)

(** What the number in [inotifyFd_] stands for in the descriptor table. *)
Inductive descr :=
  | DInotify      (* the inotify instance *)
  | DClosed
  | DOther.       (* a file or socket that another thread opened since *)

(** Where the thread of [handleEvents] is.  An argument tells whether the number
    or -1 was read from [inotifyFd_]. *)
Inductive ino_pc :=
  | IThTest                  (* at while (running_) *)
  | IThPoll (fd : bool)      (* in poll(&pfd, 1, 500) *)
  | IThArg                   (* before inotifyFd_ is read again *)
  | IThRead (fd : bool)      (* in read(inotifyFd_, buf, BUF_LEN) *)
  | IThHandle (k : nat)      (* k events of the buffer are left *)
  | IThDone.

(** Where the caller of [stop] is. *)
Inductive istop_pc :=
  | IStopNone        (* not called *)
  | IStopCleared     (* running_ was exchanged *)
  | IStopClosed      (* after ::close(inotifyFd_) *)
  | IStopJoining     (* after inotifyFd_ = -1, in thread_.join() *)
  | IStopReturned.

Record ist := Ist {
  is_running : bool;
  is_member : bool;      (* inotifyFd_ is not -1 *)
  is_descr : descr;
  is_ready : bool;       (* a descriptor of another thread has data *)
  is_foreign : bool;     (* the thread has read from such a descriptor *)
  is_thread : ino_pc;
  is_stop : istop_pc
}.

(** The state after [start()]. *)
Definition ist_start : ist := Ist true true DInotify false false IThTest IStopNone.

(** A buffer of 4096 bytes has at most 256 events of at least 16 bytes. *)
Definition max_events : nat := 256.

(** The steps of [handleEvents]. *)
Inductive ist_thread_step : ist -> ist -> Prop :=
  | it_enter m d y f sp : ist_thread_step (Ist true m d y f IThTest sp) (Ist true m d y f (IThPoll m) sp)
  | it_end m d y f sp : ist_thread_step (Ist false m d y f IThTest sp) (Ist false m d y f IThDone sp)
  | it_poll_error r m d y f a sp : ist_thread_step (Ist r m d y f (IThPoll a) sp) (Ist r m d y f IThDone sp)
  | it_timeout r m d y f a sp : ist_thread_step (Ist r m d y f (IThPoll a) sp) (Ist r m d y f IThTest sp)
  | it_ready r m d y f sp : ist_thread_step (Ist r m d y f (IThPoll true) sp) (Ist r m d y f IThArg sp)
  | it_arg r m d y f sp : ist_thread_step (Ist r m d y f IThArg sp) (Ist r m d y f (IThRead m) sp)
  | it_read_none r m d y f sp :          (* EBADF *)
      ist_thread_step (Ist r m d y f (IThRead false) sp) (Ist r m d y f IThTest sp)
  | it_read_closed r m y f sp :          (* EBADF *)
      ist_thread_step (Ist r m DClosed y f (IThRead true) sp) (Ist r m DClosed y f IThTest sp)
  | it_read_nothing r m y f sp :         (* EAGAIN: the instance does not block *)
      ist_thread_step (Ist r m DInotify y f (IThRead true) sp) (Ist r m DInotify y f IThTest sp)
  | it_read r m y f k sp : (k <= max_events)%nat ->
      ist_thread_step (Ist r m DInotify y f (IThRead true) sp) (Ist r m DInotify y f (IThHandle k) sp)
  | it_read_other r m f k sp : (k <= max_events)%nat ->   (* waits for data *)
      ist_thread_step (Ist r m DOther true f (IThRead true) sp) (Ist r m DOther true true (IThHandle k) sp)
  | it_handle r m d y f k sp : ist_thread_step (Ist r m d y f (IThHandle (S k)) sp) (Ist r m d y f (IThHandle k) sp)
  | it_handled r m d y f sp : ist_thread_step (Ist r m d y f (IThHandle 0) sp) (Ist r m d y f IThTest sp).

(** The steps of [stop]. *)
Inductive ist_stop_step : ist -> ist -> Prop :=
  | is_idle m d y f tp : ist_stop_step (Ist false m d y f tp IStopNone) (Ist false m d y f tp IStopReturned)
  | is_exchange m d y f tp : ist_stop_step (Ist true m d y f tp IStopNone) (Ist false m d y f tp IStopCleared)
  | is_close r d y f tp : ist_stop_step (Ist r true d y f tp IStopCleared) (Ist r true DClosed y f tp IStopClosed)
  | is_no_fd r d y f tp : ist_stop_step (Ist r false d y f tp IStopCleared) (Ist r false d y f tp IStopJoining)
  | is_reset r m d y f tp : ist_stop_step (Ist r m d y f tp IStopClosed) (Ist r false d y f tp IStopJoining)
  | is_join r m d y f : ist_stop_step (Ist r m d y f IThDone IStopJoining) (Ist r m d y f IThDone IStopReturned).

Definition ist_sys (s s' : ist) : Prop := ist_thread_step s s' \/ ist_stop_step s s'.

(** The rest of the process: a number that is closed is given out again, the
    new descriptor is closed, its data come and go. *)
Inductive ist_env : ist -> ist -> Prop :=
  | ie_open r m y f tp sp : ist_env (Ist r m DClosed y f tp sp) (Ist r m DOther y f tp sp)
  | ie_close r m y f tp sp : ist_env (Ist r m DOther y f tp sp) (Ist r m DClosed y f tp sp)
  | ie_data r m d y y' f tp sp : ist_env (Ist r m d y f tp sp) (Ist r m d y' f tp sp).

Definition ist_step (s s' : ist) : Prop := ist_sys s s' \/ ist_env s s'.

(** The thread waits for data of a descriptor that is not the watcher's. *)
Definition misdirected (s : ist) : Prop :=
  is_thread s = IThRead true /\ is_descr s = DOther /\ is_ready s = false.

(** How far a stopping system is from [stop] returning. *)
Definition ist_left (s : ist) : nat :=
  match is_thread s with
  | IThPoll _ => max_events + 5 | IThArg => max_events + 4 | IThRead _ => max_events + 3
  | IThHandle k => k + 2 | IThTest => 1 | IThDone => 0
  end +
  match is_stop s with
  | IStopNone => 4 | IStopCleared => 3 | IStopClosed => 2 | IStopJoining => 1 | IStopReturned => 0
  end.

(** ** Lemmas: the Linux watcher *)

(** Before [stop] closes the descriptor, the number is the watcher's; the member
    is -1 exactly when [stop] waits for the thread or has returned. *)
Definition descr_ok (s : ist) : Prop :=
  match is_stop s with
  | IStopNone => is_descr s = DInotify /\ is_member s = true /\ is_foreign s = false /\ is_running s = true
  | IStopCleared => is_descr s = DInotify /\ is_member s = true /\ is_foreign s = false /\ is_running s = false
  | IStopClosed => is_descr s <> DInotify /\ is_member s = true /\ is_running s = false
  | IStopJoining | IStopReturned => is_descr s <> DInotify /\ is_member s = false /\ is_running s = false
  end.

Lemma descr_ok_step s s' : descr_ok s -> ist_step s s' -> descr_ok s'.
Proof. intros H [[Hs|Hs]|Hs]; destruct Hs; unfold descr_ok in *; simpl in *; try destruct sp; naive_solver. Qed.

Lemma descr_ok_reach s : rtc ist_step ist_start s -> descr_ok s.
Proof. assert (H0 : descr_ok ist_start) by done. intros Hr. revert H0. induction Hr; [done|]. eauto using descr_ok_step. Qed.

Lemma ist_decreases s s' : is_running s = false -> ist_sys s s' -> (ist_left s' < ist_left s)%nat.
Proof. intros Hr [Hs|Hs]; destruct Hs; unfold ist_left, max_events in *; simpl in *; try done; try lia; destruct a; lia. Qed.

(** Only a misdirected read keeps the two threads from making a step. *)
Lemma ist_progress s :
  is_running s = false -> is_stop s <> IStopReturned -> (exists s', ist_sys s s') \/ misdirected s.
Proof.
  destruct s as [r m d y f tp sp]. simpl. intros -> Hsp.
  destruct sp; [left; eexists; right; constructor|left; destruct m; eexists; right; constructor|left; eexists; right; constructor| |done].
  destruct tp as [|a| |[]|[|k]|]; try (left; eexists; left; constructor; fail); [|left; eexists; right; constructor].
  destruct d; [left; eexists; left; constructor..|]. destruct y; [|by right]. left. eexists. left. apply (it_read_other _ _ _ 0). unfold max_events. lia.
Qed.

Lemma ist_running_keeps s s' : is_running s = false -> ist_step s s' -> is_running s' = false.
Proof. intros Hr [[Hs|Hs]|Hs]; destruct Hs; simpl in *; done. Qed.

(** Once [inotifyFd_] is -1 and no old number is on its way to [read], the
    system is an instance of the promise. *)
#[export] Instance ist_stops : StopSystem ist := {|
  sys_step := ist_sys;
  env_step := ist_env;
  stopping s := is_running s = false /\ is_member s = false /\ is_thread s <> IThRead true;
  returned s := match is_stop s with IStopReturned => true | _ => false end;
  steps_left := ist_left
|}.

#[export] Instance ist_stop_laws : StopLaws ist.
Proof.
  split; simpl.
  - intros s s' (Hr & Hm & Ht) Hs. split; [apply (ist_running_keeps s); [done|by left]|].
    destruct Hs as [Hs|Hs]; destruct Hs; simpl in *; naive_solver.
  - intros s s' (Hr & Hm & Ht) Hs. destruct Hs; simpl in *; naive_solver.
  - intros s s' (Hr & _) Hs. by apply ist_decreases.
  - intros s s' _ Hs. destruct Hs; unfold ist_left; simpl; lia.
  - intros s (Hr & Hm & Ht) Hn. destruct (ist_progress s) as [?|(Ht' & _)]; [done|by intros E; rewrite E in Hn|done|by destruct Ht].
Qed.

(** ** Properties *)

(** C22: Stopping the Linux watcher. In every state that is reached from [start()], the watching thread reads only
    from the inotify instance until [stop()] has closed it. Once [running_] is cleared, every step of the two threads
    brings the return of [stop()] nearer, and some step is possible until it has returned, except in one case: the
    thread waits in [read] for data of a descriptor that another thread has opened under the same number. *)
Theorem inotify_stop_returns s :
  rtc ist_step ist_start s ->
  ((is_stop s = IStopNone \/ is_stop s = IStopCleared) -> is_descr s = DInotify /\ is_foreign s = false) /\
  (is_running s = false ->
     (forall s', ist_sys s s' -> (ist_left s' < ist_left s)%nat) /\
     (is_stop s <> IStopReturned -> (exists s', ist_sys s s') \/ misdirected s)).
Proof.
  intros Hr. apply descr_ok_reach in Hr. split.
  - unfold descr_ok in Hr. intros [E|E]; rewrite E in Hr; naive_solver.
  - intros Hf. split; [intros s'; by apply ist_decreases|by apply ist_progress].
Qed.

(** The exception occurs: between the close and the reset of [inotifyFd_], or
    with the number already read, the thread reads from a descriptor of another
    thread: it takes data that are not its own, or never returns, and [stop()]
    with it. *)
Theorem inotify_reads_foreign :
  (exists s, rtc ist_step ist_start s /\ misdirected s /\ is_stop s = IStopJoining /\ forall s', ~ ist_sys s s') /\
  (exists s, rtc ist_step ist_start s /\ is_foreign s = true).
Proof.
  assert (H : forall y, rtc ist_step ist_start (Ist false false DOther y false (IThRead true) IStopJoining)).
  { intros y. unfold ist_start. eapply rtc_l; [left; left; apply it_enter|]. eapply rtc_l; [left; left; apply it_ready|].
    eapply rtc_l; [left; left; apply it_arg|]. eapply rtc_l; [left; right; apply is_exchange|]. eapply rtc_l; [left; right; apply is_close|].
    eapply rtc_l; [left; right; apply is_reset|]. eapply rtc_l; [right; apply ie_open|]. apply rtc_once. right. apply ie_data. }
  split.
  - exists (Ist false false DOther false false (IThRead true) IStopJoining). split; [apply H|]. split; [done|]. split; [done|].
    intros s' [Hs|Hs]; inversion Hs.
  - exists (Ist false false DOther true true (IThHandle 0) IStopJoining). split; [|done]. eapply rtc_r; [apply (H true)|].
    left. left. apply it_read_other. lia.
Qed.

Lemma inotify_stop_returns_witness :
  ((IStopCleared = IStopNone \/ IStopCleared = IStopCleared) -> DInotify = DInotify /\ false = false) /\
  (false = false ->
     (forall s', ist_sys (Ist false true DInotify false false IThTest IStopCleared) s' -> (ist_left s' < 4)%nat) /\
     (IStopCleared <> IStopReturned ->
       (exists s', ist_sys (Ist false true DInotify false false IThTest IStopCleared) s') \/
       misdirected (Ist false true DInotify false false IThTest IStopCleared))).
Proof.
  apply (inotify_stop_returns (Ist false true DInotify false false IThTest IStopCleared)).
  apply rtc_once. left. right. apply is_exchange.
Defined.

(** ** The polling watcher *)

(** Where the detached thread of [watchLoop] is. *)
Inductive poll_pc :=
  | PTest                (* at while (running_) *)
  | PScan (k : nat)      (* k entries are left *)
  | PSweep               (* the loop over the known files *)
  | PSleep               (* in sleep_for *)
  | PDone.

Record pst := Pst {
  ps_running : bool;
  ps_alive : bool;       (* the watcher is not destroyed *)
  ps_misuse : bool;      (* a member of a destroyed watcher was used *)
  ps_thread : poll_pc
}.

Definition pst_start : pst := Pst true true false PTest.

(** A step that uses a member: wrongly when the watcher is destroyed. *)
Definition use_member (alive misuse : bool) : bool := misuse || negb alive.

(** The steps of the thread; a step of [PScan] tests [running_] first. *)
Inductive pst_step : pst -> pst -> Prop :=
  | pt_enter a u k : pst_step (Pst true a u PTest) (Pst true a (use_member a u) (PScan k))
  | pt_no_dir a u : pst_step (Pst true a u PTest) (Pst true a (use_member a u) PSleep)
  | pt_end a u : pst_step (Pst false a u PTest) (Pst false a (use_member a u) PDone)
  | pt_entry a u k : pst_step (Pst true a u (PScan (S k))) (Pst true a (use_member a u) (PScan k))
  | pt_return a u k : pst_step (Pst false a u (PScan (S k))) (Pst false a (use_member a u) PDone)
  | pt_scanned r a u k : pst_step (Pst r a u (PScan k)) (Pst r a u PSweep)
  | pt_sweep r a u : pst_step (Pst r a u PSweep) (Pst r a (use_member a u) PSleep)
  | pt_wake r a u : pst_step (Pst r a u PSleep) (Pst r a u PTest).

(** The owner: [stop()] does not wait; then the watcher is destroyed. *)
Inductive pst_owner : pst -> pst -> Prop :=
  | po_stop r a u tp : pst_owner (Pst r a u tp) (Pst false a u tp)
  | po_destroy a u tp : pst_owner (Pst false a u tp) (Pst false false u tp).

Definition pst_left (s : pst) : nat :=
  match ps_thread s with PScan _ => 4 | PSweep => 3 | PSleep => 2 | PTest => 1 | PDone => 0 end.

#[export] Instance pst_stops : StopSystem pst := {|
  sys_step := pst_step;
  env_step := pst_owner;
  stopping s := ps_running s = false;
  returned s := match ps_thread s with PDone => true | _ => false end;
  steps_left := pst_left
|}.

#[export] Instance pst_stop_laws : StopLaws pst.
Proof.
  split; simpl.
  - intros s s' Hr Hs. by destruct Hs.
  - intros s s' Hr Hs. by destruct Hs.
  - intros s s' Hr Hs. destruct Hs; unfold pst_left; simpl in *; (done || lia).
  - intros s s' Hr Hs. destruct Hs; unfold pst_left; simpl; lia.
  - intros [r a u tp] Hr Hn. simpl in *. subst r. destruct tp; [..|done]; eexists; constructor.
Qed.

(** The detached thread ends soon after [stop()], but [stop()] does not wait for
    it: at the end of the program it can use the watcher after its destruction. *)
Theorem polling_used_after_destroy :
  (forall n s s', ps_running s = false -> execution n s s' -> (n <= 4)%nat) /\
  (exists s, rtc (fun s s' => pst_step s s' \/ pst_owner s s') pst_start s /\ ps_misuse s = true /\ ps_alive s = false).
Proof.
  split.
  - intros n s s' Hr He. pose proof (proj1 (stop_returns n s s' Hr He)) as H. simpl in H. unfold pst_left in H. destruct (ps_thread s); lia.
  - exists (Pst false false true PDone). split; [|done]. unfold pst_start. eapply rtc_l; [right; apply po_stop|].
    eapply rtc_l; [right; apply po_destroy|]. apply rtc_once. left. apply pt_end.
Qed.

(** ** One bound for all *)

(** Once a stop is under way, the threads of the macOS, Windows and Linux
    watchers make at most the steps of their measure, whatever the rest of the
    process does, and [stop()] has returned when none is left. *)
Theorem watchers_stop :
  (forall n (s s' : fse), stopping s -> execution n s s' -> (n <= 6)%nat /\ ((forall t, ~ fse_step s' t) -> fs_stop s' = StopReturned)) /\
  (forall n (s s' : rdc), stopping s -> execution n s s' -> (n <= 16)%nat /\ ((forall t, ~ rdc_step s' t) -> rd_stop s' = RStopReturned)) /\
  (forall n (s s' : ist), stopping s -> execution n s s' -> (n <= ist_left s)%nat /\ ((forall t, ~ ist_sys s' t) -> is_stop s' = IStopReturned)).
Proof.
  split_and!; intros n s s' Hs He; destruct (stop_returns n s s' Hs He) as [Hn Hr]; simpl in *; (split; [|intros Ht; specialize (Hr Ht); by repeat case_match]).
  - unfold stop_left in Hn. destruct (fs_stop s), (fs_run s); lia.
  - unfold rdc_left in Hn. destruct (rd_loop s), (rd_stop s); lia.
  - done.
Qed.
