(* ===== verification/JsonNumber.v ===== *)
(** * Number conversions of the C library

    [strtoull], [strtoll] and [strtod] as the JSON lexer calls them, on a
    token of the number grammar, in the "C" locale the daemon runs in.  A
    [double] is its 64-bit pattern (IEEE 754 binary64). *)

From S2P Require Import Prelude.

Definition digit_val (c : ascii) : Z := ord c - 48.

Definition dec_value (s : str) : Z := fold_left (fun acc c => 10 * acc + digit_val c) s 0.

(** [strtoull(s, &end, 10)] on digits: [None] is ERANGE. *)
Definition strtoull (s : str) : option Z :=
  let v := dec_value s in if v <? 2 ^ 64 then Some v else None.

(** [strtoll(s, &end, 10)] on digits after an optional minus sign. *)
Definition strtoll (s : str) : option Z :=
  let v := match s with
           | c :: s' => if Ascii.eqb c "-"%char then - dec_value s' else dec_value s
           | [] => 0
           end in
  if (- 2 ^ 63 <=? v) && (v <? 2 ^ 63) then Some v else None.

(** ** Doubles *)

Definition double_inf : Z := Z.shiftl 0x7FF 52.

Definition double_sign (b : Z) : bool := Z.testbit b 63.
Definition double_exp (b : Z) : Z := Z.land (Z.shiftr b 52) 0x7FF.
Definition double_man (b : Z) : Z := Z.land b (2 ^ 52 - 1).

(** [std::isfinite] *)
Definition isfinite (b : Z) : bool := negb (double_exp b =? 0x7FF).

(** [n / d] scaled by [2 ^ -e], with its remainder. *)
Definition scaled_div (n d e : Z) : Z * Z * Z :=
  let a := n * 2 ^ Z.max (- e) 0 in
  let b := d * 2 ^ Z.max e 0 in
  (a / b, a mod b, b).

(** The double nearest to the positive [n / d], ties to even. *)
Definition double_of_ratio (n d : Z) : Z :=
  let e0 := Z.log2 n - Z.log2 d - 52 in
  let e1 := if (scaled_div n d e0).1.1 <? 2 ^ 52 then e0 - 1 else e0 in
  let e := Z.max e1 (-1074) in
  let '(q, r, b) := scaled_div n d e in
  let q := if (b <? 2 * r) || ((b =? 2 * r) && Z.odd q) then q + 1 else q in
  let '(q, e) := if q =? 2 ^ 53 then (2 ^ 52, e + 1) else (q, e) in
  if 971 <? e then double_inf
  else if q <? 2 ^ 52 then q
  else Z.shiftl (e + 1075) 52 + (q - 2 ^ 52).

Fixpoint take_digits (s : str) : str * str :=
  match s with
  | c :: s' =>
      if (48 <=? ord c) && (ord c <=? 57) then let '(d, r) := take_digits s' in (c :: d, r)
      else ([], s)
  | [] => ([], [])
  end.

(** The exponent part of the token. *)
Definition dec_exponent (s : str) : Z :=
  match s with
  | _ :: c :: s' =>
      if Ascii.eqb c "-"%char then - dec_value s'
      else if Ascii.eqb c "+"%char then dec_value s' else dec_value (c :: s')
  | _ => 0
  end.

(** [strtod(s, &end)] on a token of the number grammar. *)
Definition strtod (s : str) : Z :=
  let '(neg, s) := match s with
                   | c :: s' => if Ascii.eqb c "-"%char then (true, s') else (false, s)
                   | [] => (false, s)
                   end in
  let '(int, s) := take_digits s in
  let '(frac, s) := match s with
                    | c :: s' => if Ascii.eqb c "."%char then take_digits s' else ([], s)
                    | [] => ([], s)
                    end in
  let m := dec_value (int ++ frac) in
  let e := dec_exponent s - zlen frac in
  let bits := if m =? 0 then 0
              else if 0 <=? e then double_of_ratio (m * 10 ^ e) 1
              else double_of_ratio m (10 ^ (- e)) in
  if neg then bits + 2 ^ 63 else bits.

Example strtod_one : strtod $"1.0" = 0x3FF0000000000000.
Proof. vm_compute. reflexivity. Qed.
Example strtod_tenth : strtod $"0.1" = 0x3FB999999999999A.
Proof. vm_compute. reflexivity. Qed.
Example strtod_max : strtod $"1.7976931348623157e308" = 0x7FEFFFFFFFFFFFFF.
Proof. vm_compute. reflexivity. Qed.
Example strtod_overflow : strtod $"-1e309" = 0xFFF0000000000000.
Proof. vm_compute. reflexivity. Qed.
Example strtod_denormal : strtod $"4.9406564584124654e-324" = 1.
Proof. vm_compute. reflexivity. Qed.
Example strtod_tie : strtod $"9007199254740993" = 0x4340000000000000.
Proof. vm_compute. reflexivity. Qed.

(** ** Lemmas: decimal digits *)

Lemma dec_value_app a b : dec_value (a ++ b) = dec_value a * 10 ^ zlen b + dec_value b.
Proof.
  unfold dec_value. rewrite fold_left_app.
  generalize (fold_left (fun acc c => 10 * acc + digit_val c) a 0). induction b as [|c b IH]; intros v.
  { rewrite zlen_nil. simpl. lia. }
  cbn [fold_left]. rewrite IH, (IH (10 * 0 + digit_val c)), zlen_cons.
  rewrite Z.pow_add_r by (pose proof (zlen_nonneg b); lia). lia.
Qed.

(** ** Lemmas: the results have 64 bits *)

Lemma scaled_div_small n d e :
  0 < n -> 0 < d -> Z.log2 n - Z.log2 d - 52 <= e -> (scaled_div n d e).1.1 < 2 ^ 53.
Proof.
  intros Hn Hd He. simpl.
  pose proof (Z.log2_spec n Hn) as [_ Hn']. pose proof (Z.log2_spec d Hd) as [Hd' _].
  pose proof (Z.log2_nonneg n). pose proof (Z.log2_nonneg d).
  assert (0 < 2 ^ Z.max (- e) 0) by (apply Z.pow_pos_nonneg; lia).
  assert (0 < 2 ^ Z.max e 0) by (apply Z.pow_pos_nonneg; lia).
  apply Z.div_lt_upper_bound; [nia|].
  apply (Z.lt_le_trans _ (2 ^ Z.succ (Z.log2 n) * 2 ^ Z.max (- e) 0)); [nia|].
  apply (Z.le_trans _ (2 ^ Z.log2 d * 2 ^ Z.max e 0 * 2 ^ 53)); [|nia].
  rewrite <- !Z.pow_add_r by lia. apply Z.pow_le_mono_r; lia.
Qed.

Lemma scaled_div_finer n d e :
  0 < n -> 0 < d -> (scaled_div n d e).1.1 < 2 ^ 52 -> (scaled_div n d (e - 1)).1.1 < 2 ^ 53.
Proof.
  intros Hn Hd. simpl. intros H.
  assert (Ha : 0 < 2 ^ Z.max (- e) 0) by (apply Z.pow_pos_nonneg; lia).
  assert (Hb : 0 < 2 ^ Z.max e 0) by (apply Z.pow_pos_nonneg; lia).
  assert (Hlt : n * 2 ^ Z.max (- e) 0 < d * 2 ^ Z.max e 0 * 2 ^ 52).
  { assert (Hp : 0 < d * 2 ^ Z.max e 0) by nia.
    pose proof (Z.mul_succ_div_gt (n * 2 ^ Z.max (- e) 0) (d * 2 ^ Z.max e 0) Hp). nia. }
  destruct (Z.le_gt_cases 1 e).
  - rewrite (Z.max_r (- (e - 1)) 0), (Z.max_l (e - 1) 0) by lia.
    rewrite (Z.max_r (- e) 0), (Z.max_l e 0) in Hlt by lia.
    replace (2 ^ e) with (2 * 2 ^ (e - 1)) in Hlt by (rewrite <- Z.pow_succ_r by lia; f_equal; lia).
    assert (0 < 2 ^ (e - 1)) by (apply Z.pow_pos_nonneg; lia). apply Z.div_lt_upper_bound; nia.
  - rewrite (Z.max_l (- (e - 1)) 0), (Z.max_r (e - 1) 0) by lia.
    rewrite (Z.max_l (- e) 0), (Z.max_r e 0) in Hlt by lia.
    replace (- (e - 1)) with (Z.succ (- e)) by lia. rewrite Z.pow_succ_r by lia.
    apply Z.div_lt_upper_bound; nia.
Qed.

Lemma double_of_ratio_inf n d : 0 < n -> 0 < d -> 0 <= double_of_ratio n d <= double_inf.
Proof.
  intros Hn Hd. unfold double_of_ratio. set (e0 := Z.log2 n - Z.log2 d - 52).
  set (e1 := if (scaled_div n d e0).1.1 <? 2 ^ 52 then e0 - 1 else e0). set (e := Z.max e1 (-1074)).
  assert (Hq : 0 <= (scaled_div n d e).1.1 < 2 ^ 53).
  { split.
    - simpl. apply Z.div_pos; [|assert (0 < 2 ^ Z.max e 0) by (apply Z.pow_pos_nonneg; lia); nia].
      assert (0 < 2 ^ Z.max (- e) 0) by (apply Z.pow_pos_nonneg; lia). nia.
    - destruct (Z.le_gt_cases e0 e); [by apply scaled_div_small|].
      unfold e, e1 in *. destruct (_ <? 2 ^ 52) eqn:E; [|lia]. apply Z.ltb_lt in E.
      rewrite Z.max_l in * by lia. by apply scaled_div_finer. }
  destruct (scaled_div n d e) as [[q r] b]. simpl in Hq. assert (-1074 <= e) by (unfold e; lia).
  set (q' := if (b <? 2 * r) || ((b =? 2 * r) && Z.odd q) then q + 1 else q). assert (0 <= q' <= 2 ^ 53) by (unfold q'; case_match; lia).
  unfold double_inf. destruct (Z.eqb_spec q' (2 ^ 53)); rewrite !Z.shiftl_mul_pow2 by lia.
  - destruct (Z.ltb_spec 971 (e + 1)); [lia|]. rewrite Z.ltb_irrefl. lia.
  - destruct (Z.ltb_spec 971 e); [lia|]. destruct (Z.ltb_spec q' (2 ^ 52)); lia.
Qed.

Lemma double_of_ratio_range n d : 0 < n -> 0 < d -> 0 <= double_of_ratio n d < 2 ^ 63.
Proof. intros Hn Hd. pose proof (double_of_ratio_inf n d Hn Hd) as H. revert H. unfold double_inf. rewrite Z.shiftl_mul_pow2 by lia. lia. Qed.

Definition all_digits (s : str) : Prop := Forall (fun c => 48 <= ord c <= 57) s.

Lemma dec_value_nonneg s : all_digits s -> 0 <= dec_value s.
Proof.
  intros H. unfold dec_value. assert (Hg : forall acc, 0 <= acc -> 0 <= fold_left (fun acc c => 10 * acc + digit_val c) s acc).
  { induction H as [|c s Hc _ IH]; intros acc Ha; simpl; [done|]. apply IH. unfold digit_val. lia. }
  by apply Hg.
Qed.

Lemma take_digits_digits s : all_digits (take_digits s).1.
Proof.
  induction s as [|c s IH]; simpl; [constructor|]. destruct (_ && _) eqn:E; [|constructor].
  destruct (take_digits s) as [d r]. simpl in *. constructor; [|done]. bool_hyps. lia.
Qed.

Lemma strtod_range s : 0 <= strtod s < 2 ^ 64.
Proof.
  unfold strtod.
  destruct (match s with c :: s' => if Ascii.eqb c "-"%char then (true, s') else (false, s) | [] => (false, s) end)
    as [neg s1].
  pose proof (take_digits_digits s1) as Hi. destruct (take_digits s1) as [int s2]. simpl in Hi.
  set (fp := match s2 with c :: s' => if Ascii.eqb c "."%char then take_digits s' else ([], s2) | [] => ([], s2) end).
  assert (Hf : all_digits fp.1).
  { unfold fp. destruct s2; [constructor|]. case_match; [apply take_digits_digits|constructor]. }
  destruct fp as [frac s3]. simpl in Hf.
  assert (Hm : 0 <= dec_value (int ++ frac)) by (apply dec_value_nonneg; by apply Forall_app).
  set (e := dec_exponent s3 - zlen frac). set (m := dec_value _) in *.
  set (bits := if m =? 0 then 0 else if 0 <=? e then double_of_ratio (m * 10 ^ e) 1 else double_of_ratio m (10 ^ (- e))).
  assert (0 <= bits < 2 ^ 63); [|destruct neg; lia].
  unfold bits. destruct (Z.eqb_spec m 0); [lia|]. destruct (Z.leb_spec 0 e).
  - apply double_of_ratio_range; [|lia]. assert (0 < 10 ^ e) by (apply Z.pow_pos_nonneg; lia). nia.
  - apply double_of_ratio_range; [lia|]. apply Z.pow_pos_nonneg; lia.
Qed.
