(* ===== verification/Doubles.v ===== *)
(** * Rounding to double

    [double_of_ratio] returns the double whose rounding interval contains the
    ratio.  A positive double [b] is [d_man b * 2 ^ d_exp b]; inequalities
    between ratios are stated between integers, multiplied by [2 ^ 1076]. *)

From S2P Require Import Prelude JsonNumber.

(** ** Fields of a positive double *)

Definition d_E (b : Z) : Z := b / 2 ^ 52.
Definition d_F (b : Z) : Z := b mod 2 ^ 52.
Definition d_man (b : Z) : Z := if d_E b =? 0 then d_F b else d_F b + 2 ^ 52.
Definition d_exp (b : Z) : Z := if d_E b =? 0 then -1074 else d_E b - 1075.

(** A positive finite double. *)
Definition pos_double (b : Z) : Prop := 0 < b < 2047 * 2 ^ 52.

(** The lower neighbour is nearer than the upper one. *)
Definition closer (b : Z) : bool := (d_F b =? 0) && (1 <? d_E b).

(** Four times the lower boundary of the rounding interval, as a multiple of
    the unit of the mantissa. *)
Definition lower4 (b : Z) : Z := if closer b then 4 * d_man b - 1 else 4 * d_man b - 2.

Lemma pos_double_fields b :
  pos_double b ->
  b = d_E b * 2 ^ 52 + d_F b /\ 0 <= d_E b <= 2046 /\ 0 <= d_F b < 2 ^ 52 /\
  0 < d_man b < 2 ^ 53 /\ -1074 <= d_exp b <= 971 /\
  (d_exp b = -1074 \/ 2 ^ 52 <= d_man b) /\ (d_E b = 0 -> d_man b < 2 ^ 52).
Proof.
  unfold pos_double, d_man, d_exp, d_E, d_F. intros H.
  destruct (Z.eqb_spec (b / 2 ^ 52) 0); Z.div_mod_to_equations; split_and!; try lia.
Qed.

(** ** The quotient of [scaled_div] *)

(** The quotient at exponent [t], with the common scale. *)
Lemma scaled_div_common n d t :
  0 < n -> 0 < d -> -1076 <= t ->
  let N := n * 2 ^ 1076 in let D := d * 2 ^ (t + 1076) in
  let '(q, r, b) := scaled_div n d t in
  0 < D /\ q = N / D /\ ((b <? 2 * r) = (D <? 2 * (N mod D))) /\ ((b =? 2 * r) = (D =? 2 * (N mod D))).
Proof.
  intros Hn Hd Ht N D. unfold scaled_div.
  set (a := n * 2 ^ Z.max (- t) 0). set (b := d * 2 ^ Z.max t 0).
  assert (Hb : 0 < b) by (unfold b; assert (0 < 2 ^ Z.max t 0) by (apply Z.pow_pos_nonneg; lia); nia).
  assert (HD : 0 < D) by (unfold D; assert (0 < 2 ^ (t + 1076)) by (apply Z.pow_pos_nonneg; lia); nia).
  assert (Hcross : a * D = N * b).
  { unfold a, b, N, D. assert (He : 2 ^ Z.max (- t) 0 * 2 ^ (t + 1076) = 2 ^ 1076 * 2 ^ Z.max t 0).
    { rewrite <- !Z.pow_add_r by lia. f_equal. lia. }
    nia. }
  assert (Hq : a / b = N / D).
  { rewrite <- (Z.div_mul_cancel_r a b D) by lia. rewrite Hcross.
    rewrite (Z.mul_comm N b). rewrite Z.div_mul_cancel_l by lia. done. }
  assert (Hr : a mod b * D = N mod D * b).
  { pose proof (Z.div_mod a b ltac:(lia)). pose proof (Z.div_mod N D ltac:(lia)). rewrite Hq in *. nia. }
  split_and!; [done|done|..].
  - destruct (Z.ltb_spec b (2 * (a mod b))); destruct (Z.ltb_spec D (2 * (N mod D))); try done; nia.
  - destruct (Z.eqb_spec b (2 * (a mod b))); destruct (Z.eqb_spec D (2 * (N mod D))); try done; nia.
Qed.

(** The exponent chosen: the quotient has at most 53 bits, and 53 bits unless
    the exponent is the least one. *)
Definition ratio_exp (n d : Z) : Z :=
  let e0 := Z.log2 n - Z.log2 d - 52 in
  Z.max (if (scaled_div n d e0).1.1 <? 2 ^ 52 then e0 - 1 else e0) (-1074).

Lemma ratio_exp_spec n d :
  0 < n -> 0 < d ->
  let e := ratio_exp n d in
  -1074 <= e /\ 0 <= (scaled_div n d e).1.1 < 2 ^ 53 /\ (e = -1074 \/ 2 ^ 52 <= (scaled_div n d e).1.1).
Proof.
  intros Hn Hd e. unfold ratio_exp in e. set (e0 := Z.log2 n - Z.log2 d - 52) in e.
  set (e1 := if (scaled_div n d e0).1.1 <? 2 ^ 52 then e0 - 1 else e0) in e.
  split; [unfold e; lia|]. split; [split|].
  - simpl. assert (0 < 2 ^ Z.max e 0) by (apply Z.pow_pos_nonneg; lia).
    assert (0 < 2 ^ Z.max (- e) 0) by (apply Z.pow_pos_nonneg; lia). apply Z.div_pos; nia.
  - destruct (Z.le_gt_cases e0 e); [by apply scaled_div_small|].
    unfold e, e1 in *. destruct (_ <? 2 ^ 52) eqn:E; [|lia]. apply Z.ltb_lt in E.
    rewrite Z.max_l in * by lia. by apply scaled_div_finer.
  - destruct (Z.le_gt_cases e1 (-1074)); [left; unfold e; lia|]. right.
    replace e with e1 by (unfold e; lia). unfold e1. destruct (Z.ltb_spec (scaled_div n d e0).1.1 (2 ^ 52)); [|done].
    simpl. set (t := e0 - 1). pose proof (Z.log2_spec n Hn) as [Hn' _]. pose proof (Z.log2_spec d Hd) as [_ Hd'].
    pose proof (Z.log2_nonneg n). pose proof (Z.log2_nonneg d).
    assert (0 < 2 ^ Z.max (- t) 0) by (apply Z.pow_pos_nonneg; lia).
    assert (0 < 2 ^ Z.max t 0) by (apply Z.pow_pos_nonneg; lia).
    apply Z.div_le_lower_bound; [nia|].
    apply (Z.le_trans _ (2 ^ Z.succ (Z.log2 d) * 2 ^ Z.max t 0 * 2 ^ 52)); [nia|].
    apply (Z.le_trans _ (2 ^ Z.log2 n * 2 ^ Z.max (- t) 0)); [|nia].
    rewrite <- !Z.pow_add_r by lia. apply Z.pow_le_mono_r; unfold t, e0; lia.
Qed.

(** ** The rounding interval *)

(** The quotient at the chosen exponent, once rounded, is the mantissa. *)
Definition round_up (n d t : Z) : Z :=
  let '(q, r, b) := scaled_div n d t in
  if (b <? 2 * r) || ((b =? 2 * r) && Z.odd q) then q + 1 else q.

(** At the exponent of the double. *)
Lemma round_same n d t f :
  0 < n -> 0 < d -> -1076 <= t ->
  let N := n * 2 ^ 1076 in let U := d * 2 ^ (t + 1074) in
  (4 * f - 2) * U < N < (4 * f + 2) * U -> round_up n d t = f.
Proof.
  intros Hn Hd Ht N U Hin. unfold round_up. pose proof (scaled_div_common n d t Hn Hd Ht) as H.
  destruct (scaled_div n d t) as [[q r] b]. cbv zeta in H. fold N in H.
  destruct H as (HD & -> & -> & ->).
  assert (ED : d * 2 ^ (t + 1076) = 4 * U).
  { unfold U. replace (t + 1076) with (2 + (t + 1074)) by lia.
    destruct (Z.le_gt_cases (-1074) t); [rewrite Z.pow_add_r by lia; lia|].
    exfalso. assert (t = -1076 \/ t = -1075) as [-> | ->] by lia; unfold U in Hin; simpl in Hin; lia. }
  rewrite ED in *. set (D := 4 * U) in *.
  destruct (Z.le_gt_cases (4 * f * U) N).
  - assert (Hq : N / D = f) by (symmetry; apply (Z.div_unique _ _ _ (N - D * f)); [left; nia|lia]).
    rewrite Z.mod_eq, Hq by lia. rewrite (proj2 (Z.ltb_ge _ _)), (proj2 (Z.eqb_neq _ _)) by nia. done.
  - assert (Hq : N / D = f - 1) by (symmetry; apply (Z.div_unique _ _ _ (N - D * (f - 1))); [left; nia|lia]).
    rewrite Z.mod_eq, Hq by lia. rewrite (proj2 (Z.ltb_lt _ _)) by nia. simpl. lia.
Qed.

Lemma pow_scale d t u : 0 < d -> 0 <= u -> u <= t -> d * 2 ^ u * 2 ^ (t - u) = d * 2 ^ t.
Proof. intros. rewrite <- Z.mul_assoc, <- Z.pow_add_r by lia. do 2 f_equal. lia. Qed.

(** The ratio [n / d] lies inside the rounding interval of [b]. *)
Definition rounds_to (b n d : Z) : Prop :=
  lower4 b * (d * 2 ^ (d_exp b + 1074)) < n * 2 ^ 1076 < (4 * d_man b + 2) * (d * 2 ^ (d_exp b + 1074)).

(** Only the ratio matters. *)
Lemma rounds_to_cross b n d n' d' :
  0 < d -> 0 < d' -> n * d' = n' * d -> rounds_to b n d -> rounds_to b n' d'.
Proof.
  unfold rounds_to. intros Hd Hd' Hc [Hl Hu]. set (S := 2 ^ (d_exp b + 1074)) in *. set (T := 2 ^ 1076) in *.
  assert (En : n' * T * d = n * T * d') by (replace (n' * T * d) with (n' * d * T) by ring; rewrite <- Hc; ring).
  split; apply (Z.mul_lt_mono_pos_r d); try done; rewrite En.
  - replace (lower4 b * (d' * S) * d) with (lower4 b * (d * S) * d') by ring. by apply Z.mul_lt_mono_pos_r.
  - replace ((4 * d_man b + 2) * (d' * S) * d) with ((4 * d_man b + 2) * (d * S) * d') by ring.
    by apply Z.mul_lt_mono_pos_r.
Qed.

(** The unit of the quotient at exponent [t], in units of a quarter of the one
    at exponent [e]. *)
Lemma unit_below d t e :
  0 < d -> -1074 <= t -> t < e -> d * 2 ^ (t + 1076) * 2 ^ (e - t - 1) = 2 * (d * 2 ^ (e + 1074)).
Proof.
  intros Hd Ht He. replace (2 * (d * 2 ^ (e + 1074))) with (d * 2 ^ (e + 1075)).
  - rewrite <- (pow_scale d (e + 1075) (t + 1076)) by lia. do 2 f_equal. lia.
  - replace (e + 1075) with (Z.succ (e + 1074)) by lia. rewrite Z.pow_succ_r by lia. lia.
Qed.

Lemma unit_above d t e : 0 < d -> -1074 <= e -> e < t -> 8 * (d * 2 ^ (e + 1074)) <= d * 2 ^ (t + 1076).
Proof.
  intros Hd He Ht. apply (Z.le_trans _ (d * 2 ^ (e + 1077))).
  - replace (e + 1077) with (3 + (e + 1074)) by lia. rewrite (Z.pow_add_r 2 3) by lia.
    change (2 ^ 3) with 8. apply Z.eq_le_incl. ring.
  - apply Z.mul_le_mono_nonneg_l; [lia|]. apply Z.pow_le_mono_r; lia.
Qed.

(** The exponent chosen for a ratio inside the interval of [f * 2 ^ e]: [e], or
    the one below when the ratio is below a power of two. *)
Lemma exp_case d t e f N :
  0 < d -> -1074 <= t -> -1074 <= e -> 0 < f < 2 ^ 53 -> (e = -1074 \/ 2 ^ 52 <= f) ->
  let D := d * 2 ^ (t + 1076) in let U := d * 2 ^ (e + 1074) in
  0 <= N / D < 2 ^ 53 -> (t = -1074 \/ 2 ^ 52 <= N / D) -> (4 * f - 2) * U < N < (4 * f + 2) * U ->
  t = e \/ (t = e - 1 /\ f = 2 ^ 52 /\ D = 2 * U).
Proof.
  intros Hd Ht He Hf Hfn D U Hq Hqn Hin.
  assert (HU : 0 < U) by (apply Z.mul_pos_pos; [done|apply Z.pow_pos_nonneg; lia]).
  assert (HD : 0 < D) by (apply Z.mul_pos_pos; [done|apply Z.pow_pos_nonneg; lia]).
  pose proof (Z.mul_div_le N D HD). pose proof (Z.mul_succ_div_gt N D HD).
  destruct (Z.lt_trichotomy t e) as [Hlt|[Heq|Hgt]]; [|by left|].
  - right. pose proof (unit_below d t e Hd ltac:(lia) Hlt) as HDU. fold D U in HDU.
    destruct (Z.eq_dec t (e - 1)) as [Et|Hne].
    + replace (e - t - 1) with 0 in HDU by lia. change (2 ^ 0) with 1 in HDU. clearbody D U. split; [done|]. nia.
    + exfalso. assert (2 <= 2 ^ (e - t - 1)) by (change 2 with (2 ^ 1) at 1; apply Z.pow_le_mono_r; lia).
      clearbody D U. nia.
  - exfalso. pose proof (unit_above d t e Hd He Hgt) as HDU. fold D U in HDU. clearbody D U.
    destruct Hqn as [?|Hqn]; [lia|]. nia.
Qed.

(** The ratio just below the power of two [2 ^ 52 * 2 ^ e] is rounded up to
    it. *)
Lemma round_below N D U :
  0 < U -> D = 2 * U -> (4 * 2 ^ 52 - 1) * U < N < 4 * 2 ^ 52 * U -> N / D = 2 ^ 53 - 1 /\ D < 2 * (N mod D).
Proof.
  intros HU -> Hin. assert (Hq : N / (2 * U) = 2 ^ 53 - 1).
  { symmetry. apply (Z.div_unique _ _ _ (N - 2 * U * (2 ^ 53 - 1))); [left; lia|lia]. }
  split; [done|]. rewrite Z.mod_eq, Hq by lia. lia.
Qed.

Lemma double_of_ratio_unfold n d :
  double_of_ratio n d =
    (let t := ratio_exp n d in
     let q := round_up n d t in
     let '(q, e) := if q =? 2 ^ 53 then (2 ^ 52, t + 1) else (q, t) in
     if 971 <? e then double_inf else if q <? 2 ^ 52 then q else Z.shiftl (e + 1075) 52 + (q - 2 ^ 52)).
Proof.
  unfold double_of_ratio, round_up. fold (ratio_exp n d). cbv zeta. by destruct (scaled_div n d (ratio_exp n d)) as [[q r] bb].
Qed.

(** The double assembled from the mantissa and the exponent of [b]. *)
Lemma assemble b :
  pos_double b ->
  (if 971 <? d_exp b then double_inf
   else if d_man b <? 2 ^ 52 then d_man b else Z.shiftl (d_exp b + 1075) 52 + (d_man b - 2 ^ 52)) = b.
Proof.
  intros Hb. destruct (pos_double_fields b Hb) as (Eb & HE & HF & Hf & He & Hnorm & Hden).
  rewrite (proj2 (Z.ltb_ge 971 _)), Z.shiftl_mul_pow2 by lia.
  unfold d_man, d_exp in *. destruct (Z.eqb_spec (d_E b) 0) as [E0|E0].
  - rewrite (proj2 (Z.ltb_lt _ _)) by lia. lia.
  - rewrite (proj2 (Z.ltb_ge _ _)) by lia. lia.
Qed.

Lemma closer_below b N U :
  pos_double b -> d_man b = 2 ^ 52 -> -1074 < d_exp b -> lower4 b * U < N -> (4 * 2 ^ 52 - 1) * U < N.
Proof.
  intros Hb Hf He Hin. destruct (pos_double_fields b Hb) as (_ & HE & HF & _).
  assert (Hcl : closer b = true).
  { unfold closer, d_man, d_exp in *. destruct (Z.eqb_spec (d_E b) 0); [lia|].
    rewrite (proj2 (Z.eqb_eq _ _)), (proj2 (Z.ltb_lt _ _)) by lia. done. }
  unfold lower4 in Hin. by rewrite Hcl, Hf in Hin.
Qed.

Lemma double_of_ratio_round n d b :
  0 < n -> 0 < d -> pos_double b -> rounds_to b n d -> double_of_ratio n d = b.
Proof.
  intros Hn Hd Hb Hin. destruct (pos_double_fields b Hb) as (Eb & HE & HF & Hf & He & Hnorm & _).
  pose proof (ratio_exp_spec n d Hn Hd) as (Ht & Hq & Hqn). rewrite double_of_ratio_unfold. cbv zeta.
  set (t := ratio_exp n d) in *.
  pose proof (scaled_div_common n d t Hn Hd ltac:(lia)) as Hs. cbv zeta in Hs.
  pose proof (round_same n d (d_exp b) (d_man b) Hn Hd ltac:(lia)) as Hsame. cbv zeta in Hsame.
  unfold rounds_to in Hin. set (N := n * 2 ^ 1076) in *. set (U := d * 2 ^ (d_exp b + 1074)) in *.
  assert (HU : 0 < U) by (apply Z.mul_pos_pos; [done|apply Z.pow_pos_nonneg; lia]).
  assert (Hlow : (4 * d_man b - 2) * U < N).
  { apply (Z.le_lt_trans _ (lower4 b * U)); [|apply Hin]. apply Z.mul_le_mono_nonneg_r; [lia|].
    unfold lower4. destruct (closer b); lia. }
  assert (HqN : (scaled_div n d t).1.1 = N / (d * 2 ^ (t + 1076)))
    by (destruct (scaled_div n d t) as [[q r] bb]; apply Hs).
  rewrite HqN in Hq, Hqn. clearbody N.
  destruct (exp_case d t (d_exp b) (d_man b) N Hd Ht ltac:(lia) Hf Hnorm Hq Hqn (conj Hlow (proj2 Hin)))
    as [Et|(Et & Hf52 & EDU)].
  - rewrite Et, Hsame by (split; [exact Hlow|apply Hin]).
    rewrite (proj2 (Z.eqb_neq (d_man b) (2 ^ 53))) by lia. exact (assemble b Hb).
  - assert (Hup : round_up n d t = 2 ^ 53 \/ 4 * 2 ^ 52 * U <= N).
    { destruct (Z.lt_ge_cases N (4 * 2 ^ 52 * U)) as [Hlt|?]; [left|by right].
      destruct (round_below N (d * 2 ^ (t + 1076)) U HU EDU) as [Hq53 Hmod].
      { split; [|done]. apply (closer_below b); [done|done|lia|apply Hin]. }
      unfold round_up. destruct (scaled_div n d t) as [[q r] bb]. destruct Hs as (_ & -> & -> & _).
      rewrite Hq53, (proj2 (Z.ltb_lt _ _)) by done. done. }
    destruct Hup as [-> |Hge].
    + rewrite Z.eqb_refl. replace (t + 1) with (d_exp b) by lia. pose proof (assemble b Hb) as Ha. by rewrite Hf52 in Ha.
    + exfalso. rewrite EDU in Hq. fold U in Hq. assert (2 ^ 53 <= N / (2 * U)).
      { apply Z.div_le_lower_bound; [lia|]. replace (2 * U * 2 ^ 53) with (4 * 2 ^ 52 * U) by ring. done. }
      clear -Hq H. lia.
Qed.
