(* ===== verification/Dtoa.v ===== *)
(** * Floating-point output (namespace detail::dtoa_impl of include/nlohmann/json.hpp)

    [to_chars] writes the shortest decimal number the Grisu2 algorithm finds
    for a double.  A double is its 64-bit pattern; the [uint64_t] significands
    are kept at their width, [int] exponents stay far from their limits.  The
    characters written so far are a list, [buffer[length++] = c] appends to
    it. *)

From S2P Require Import Prelude JsonNumber.

(** ** diyfp *)

(** [f * 2^e] *)
Record diyfp := Diyfp { df : Z; de : Z }.

Definition diyfp_sub (x y : diyfp) : diyfp := Diyfp (u64 (df x - df y)) (de x).

(** The upper 64 bits of the product, rounded. *)
Definition diyfp_mul (x y : diyfp) : diyfp :=
  let u_lo := Z.land (df x) 0xFFFFFFFF in
  let u_hi := Z.shiftr (df x) 32 in
  let v_lo := Z.land (df y) 0xFFFFFFFF in
  let v_hi := Z.shiftr (df y) 32 in
  let p0 := u64 (u_lo * v_lo) in
  let p1 := u64 (u_lo * v_hi) in
  let p2 := u64 (u_hi * v_lo) in
  let p3 := u64 (u_hi * v_hi) in
  let p0_hi := Z.shiftr p0 32 in
  let p1_lo := Z.land p1 0xFFFFFFFF in
  let p1_hi := Z.shiftr p1 32 in
  let p2_lo := Z.land p2 0xFFFFFFFF in
  let p2_hi := Z.shiftr p2 32 in
  let Q := u64 (p0_hi + p1_lo + p2_lo) in
  let Q := u64 (Q + Z.shiftl 1 (64 - 32 - 1)) in
  let h := u64 (p3 + p2_hi + p1_hi + Z.shiftr Q 32) in
  Diyfp h (de x + de y + 64).

(** [while ((x.f >> 63) == 0) { x.f <<= 1; x.e--; }] *)
Fixpoint normalize_loop (fuel : nat) (x : diyfp) : diyfp :=
  match fuel with
  | O => x
  | S fuel' =>
      if Z.shiftr (df x) 63 =? 0 then normalize_loop fuel' (Diyfp (u64 (Z.shiftl (df x) 1)) (de x - 1))
      else x
  end.

(** 63 shifts are enough for a significand that is not zero. *)
Definition normalize (x : diyfp) : diyfp := normalize_loop 64 x.

Definition normalize_to (x : diyfp) (target_exponent : Z) : diyfp :=
  let delta := de x - target_exponent in
  Diyfp (u64 (Z.shiftl (df x) delta)) target_exponent.

(** ** Boundaries *)

Record boundaries := Boundaries { b_w : diyfp; b_minus : diyfp; b_plus : diyfp }.

Definition kPrecision : Z := 53.
Definition kBias : Z := 1024 - 1 + (kPrecision - 1).
Definition kMinExp : Z := 1 - kBias.
Definition kHiddenBit : Z := Z.shiftl 1 (kPrecision - 1).

Definition compute_boundaries (bits : Z) : boundaries :=
  let E := Z.shiftr bits (kPrecision - 1) in
  let F := Z.land bits (kHiddenBit - 1) in
  let is_denormal := E =? 0 in
  let v := if is_denormal then Diyfp F kMinExp else Diyfp (F + kHiddenBit) (E - kBias) in
  let lower_boundary_is_closer := (F =? 0) && (1 <? E) in
  let m_plus := Diyfp (2 * df v + 1) (de v - 1) in
  let m_minus := if lower_boundary_is_closer then Diyfp (4 * df v - 1) (de v - 2)
                 else Diyfp (2 * df v - 1) (de v - 1) in
  let w_plus := normalize m_plus in
  let w_minus := normalize_to m_minus (de w_plus) in
  Boundaries (normalize v) w_minus w_plus.

(** ** Cached powers of ten *)

Definition kAlpha : Z := -60.
Definition kGamma : Z := -32.

(** [c = f * 2^e], about [10^k] *)
Record cached_power := CachedPower { cp_f : Z; cp_e : Z; cp_k : Z }.

Definition kCachedPowersMinDecExp : Z := -300.
Definition kCachedPowersDecStep : Z := 8.

Definition kCachedPowers : list cached_power :=
  [CachedPower 0xAB70FE17C79AC6CA (-1060) (-300); CachedPower 0xFF77B1FCBEBCDC4F (-1034) (-292);
   CachedPower 0xBE5691EF416BD60C (-1007) (-284); CachedPower 0x8DD01FAD907FFC3C (-980) (-276);
   CachedPower 0xD3515C2831559A83 (-954) (-268); CachedPower 0x9D71AC8FADA6C9B5 (-927) (-260);
   CachedPower 0xEA9C227723EE8BCB (-901) (-252); CachedPower 0xAECC49914078536D (-874) (-244);
   CachedPower 0x823C12795DB6CE57 (-847) (-236); CachedPower 0xC21094364DFB5637 (-821) (-228);
   CachedPower 0x9096EA6F3848984F (-794) (-220); CachedPower 0xD77485CB25823AC7 (-768) (-212);
   CachedPower 0xA086CFCD97BF97F4 (-741) (-204); CachedPower 0xEF340A98172AACE5 (-715) (-196);
   CachedPower 0xB23867FB2A35B28E (-688) (-188); CachedPower 0x84C8D4DFD2C63F3B (-661) (-180);
   CachedPower 0xC5DD44271AD3CDBA (-635) (-172); CachedPower 0x936B9FCEBB25C996 (-608) (-164);
   CachedPower 0xDBAC6C247D62A584 (-582) (-156); CachedPower 0xA3AB66580D5FDAF6 (-555) (-148);
   CachedPower 0xF3E2F893DEC3F126 (-529) (-140); CachedPower 0xB5B5ADA8AAFF80B8 (-502) (-132);
   CachedPower 0x87625F056C7C4A8B (-475) (-124); CachedPower 0xC9BCFF6034C13053 (-449) (-116);
   CachedPower 0x964E858C91BA2655 (-422) (-108); CachedPower 0xDFF9772470297EBD (-396) (-100);
   CachedPower 0xA6DFBD9FB8E5B88F (-369) (-92); CachedPower 0xF8A95FCF88747D94 (-343) (-84);
   CachedPower 0xB94470938FA89BCF (-316) (-76); CachedPower 0x8A08F0F8BF0F156B (-289) (-68);
   CachedPower 0xCDB02555653131B6 (-263) (-60); CachedPower 0x993FE2C6D07B7FAC (-236) (-52);
   CachedPower 0xE45C10C42A2B3B06 (-210) (-44); CachedPower 0xAA242499697392D3 (-183) (-36);
   CachedPower 0xFD87B5F28300CA0E (-157) (-28); CachedPower 0xBCE5086492111AEB (-130) (-20);
   CachedPower 0x8CBCCC096F5088CC (-103) (-12); CachedPower 0xD1B71758E219652C (-77) (-4);
   CachedPower 0x9C40000000000000 (-50) 4; CachedPower 0xE8D4A51000000000 (-24) 12;
   CachedPower 0xAD78EBC5AC620000 3 20; CachedPower 0x813F3978F8940984 30 28;
   CachedPower 0xC097CE7BC90715B3 56 36; CachedPower 0x8F7E32CE7BEA5C70 83 44;
   CachedPower 0xD5D238A4ABE98068 109 52; CachedPower 0x9F4F2726179A2245 136 60;
   CachedPower 0xED63A231D4C4FB27 162 68; CachedPower 0xB0DE65388CC8ADA8 189 76;
   CachedPower 0x83C7088E1AAB65DB 216 84; CachedPower 0xC45D1DF942711D9A 242 92;
   CachedPower 0x924D692CA61BE758 269 100; CachedPower 0xDA01EE641A708DEA 295 108;
   CachedPower 0xA26DA3999AEF774A 322 116; CachedPower 0xF209787BB47D6B85 348 124;
   CachedPower 0xB454E4A179DD1877 375 132; CachedPower 0x865B86925B9BC5C2 402 140;
   CachedPower 0xC83553C5C8965D3D 428 148; CachedPower 0x952AB45CFA97A0B3 455 156;
   CachedPower 0xDE469FBD99A05FE3 481 164; CachedPower 0xA59BC234DB398C25 508 172;
   CachedPower 0xF6C69A72A3989F5C 534 180; CachedPower 0xB7DCBF5354E9BECE 561 188;
   CachedPower 0x88FCF317F22241E2 588 196; CachedPower 0xCC20CE9BD35C78A5 614 204;
   CachedPower 0x98165AF37B2153DF 641 212; CachedPower 0xE2A0B5DC971F303A 667 220;
   CachedPower 0xA8D9D1535CE3B396 694 228; CachedPower 0xFB9B7CD9A4A7443C 720 236;
   CachedPower 0xBB764C4CA7A44410 747 244; CachedPower 0x8BAB8EEFB6409C1A 774 252;
   CachedPower 0xD01FEF10A657842C 800 260; CachedPower 0x9B10A4E5E9913129 827 268;
   CachedPower 0xE7109BFBA19C0C9D 853 276; CachedPower 0xAC2820D9623BF429 880 284;
   CachedPower 0x80444B5E7AA7CF85 907 292; CachedPower 0xBF21E44003ACDD2D 933 300;
   CachedPower 0x8E679C2F5E44FF8F 960 308; CachedPower 0xD433179D9C8CB841 986 316;
   CachedPower 0x9E19DB92B4E31BA9 1013 324].

(** The index in the table; [int] division truncates. *)
Definition cached_power_index (e : Z) : Z :=
  let f := kAlpha - e - 1 in
  let k := Z.quot (f * 78913) (Z.shiftl 1 18) + (if 0 <? f then 1 else 0) in
  Z.quot (- kCachedPowersMinDecExp + k + (kCachedPowersDecStep - 1)) kCachedPowersDecStep.

Definition get_cached_power_for_binary_exponent (e : Z) : cached_power :=
  nth (Z.to_nat (cached_power_index e)) kCachedPowers (CachedPower 0 0 0).

(** ** Digits *)

(** The result and [pow10]. *)
Definition find_largest_pow10 (n : Z) : nat * Z :=
  if 1000000000 <=? n then (10%nat, 1000000000)
  else if 100000000 <=? n then (9%nat, 100000000)
  else if 10000000 <=? n then (8%nat, 10000000)
  else if 1000000 <=? n then (7%nat, 1000000)
  else if 100000 <=? n then (6%nat, 100000)
  else if 10000 <=? n then (5%nat, 10000)
  else if 1000 <=? n then (4%nat, 1000)
  else if 100 <=? n then (3%nat, 100)
  else if 10 <=? n then (2%nat, 10)
  else (1%nat, 1).

(** [buf[len - 1]--] *)
Definition decrement_last (buf : str) : str :=
  match last buf with
  | Some c => removelast buf ++ [chr (ord c - 1)]
  | None => buf
  end.

(** The loop of [grisu2_round]; a digit is decremented at most nine times. *)
Fixpoint grisu2_round (fuel : nat) (buf : str) (dist delta rest ten_k : Z) : str :=
  match fuel with
  | O => buf
  | S fuel' =>
      if (rest <? dist) && (ten_k <=? u64 (delta - rest)) &&
         ((u64 (rest + ten_k) <? dist) || (u64 (u64 (rest + ten_k) - dist) <? u64 (dist - rest)))
      then grisu2_round fuel' (decrement_last buf) dist delta (u64 (rest + ten_k)) ten_k
      else buf
  end.

Definition round_fuel : nat := 10.

(** [while (n > 0) ...]: the digits of the integral part.  [inl] when enough
    digits have been generated, with [n]. *)
Fixpoint integral_digits (n : nat) (e p1 p2 pow10 delta dist : Z) (buffer : str) : (str * nat) + str :=
  match n with
  | O => inr buffer
  | S n' =>
      let d := p1 / pow10 in
      let r := p1 mod pow10 in
      let buffer := buffer ++ [chr (48 + d)] in
      let rest := u64 (u64 (Z.shiftl r (- e)) + p2) in
      if rest <=? delta then
        let ten_n := u64 (Z.shiftl pow10 (- e)) in
        inl (grisu2_round round_fuel buffer dist delta rest ten_n, n')
      else integral_digits n' e r p2 (pow10 / 10) delta dist buffer
  end.

(** [for (;;) ...]: the digits of the fractional part and their number [m];
    [one] is [2^-e]. *)
Fixpoint fractional_digits (fuel : nat) (e one p2 delta dist : Z) (m : Z) (buffer : str) : str * Z :=
  match fuel with
  | O => (buffer, m)
  | S fuel' =>
      let p2 := u64 (p2 * 10) in
      let d := Z.shiftr p2 (- e) in
      let r := Z.land p2 (one - 1) in
      let buffer := buffer ++ [chr (48 + d)] in
      let p2 := r in
      let m := m + 1 in
      let delta := u64 (delta * 10) in
      let dist := u64 (dist * 10) in
      if p2 <=? delta then (grisu2_round round_fuel buffer dist delta p2 one, m)
      else fractional_digits fuel' e one p2 delta dist m buffer
  end.

(** [delta] reaches [2^60] within twenty rounds. *)
Definition fractional_fuel : nat := 20.

(** The digits and the decimal exponent. *)
Definition grisu2_digit_gen (decimal_exponent : Z) (M_minus w M_plus : diyfp) : str * Z :=
  let delta := df (diyfp_sub M_plus M_minus) in
  let dist := df (diyfp_sub M_plus w) in
  let e := de M_plus in
  let one := u64 (Z.shiftl 1 (- e)) in
  let p1 := u32 (Z.shiftr (df M_plus) (- e)) in
  let p2 := Z.land (df M_plus) (one - 1) in
  let '(k, pow10) := find_largest_pow10 p1 in
  match integral_digits k e p1 p2 pow10 delta dist [] with
  | inl (buffer, n) => (buffer, decimal_exponent + Z.of_nat n)
  | inr buffer =>
      let '(buffer, m) := fractional_digits fractional_fuel e one p2 delta dist 0 buffer in
      (buffer, decimal_exponent - m)
  end.

Definition grisu2_scaled (m_minus v m_plus : diyfp) : str * Z :=
  let cached := get_cached_power_for_binary_exponent (de m_plus) in
  let c_minus_k := Diyfp (cp_f cached) (cp_e cached) in
  let w := diyfp_mul v c_minus_k in
  let w_minus := diyfp_mul m_minus c_minus_k in
  let w_plus := diyfp_mul m_plus c_minus_k in
  let M_minus := Diyfp (u64 (df w_minus + 1)) (de w_minus) in
  let M_plus := Diyfp (u64 (df w_plus - 1)) (de w_plus) in
  grisu2_digit_gen (- cp_k cached) M_minus w M_plus.

Definition grisu2 (value : Z) : str * Z :=
  let w := compute_boundaries value in
  grisu2_scaled (b_minus w) (b_w w) (b_plus w).

(** ** Formatting *)

Definition digit_char (d : Z) : ascii := chr (48 + d).

Definition append_exponent (buf : str) (e : Z) : str :=
  let '(buf, e) := if e <? 0 then (buf ++ $"-", - e) else (buf ++ $"+", e) in
  let k := u32 e in
  if k <? 10 then buf ++ [digit_char 0; digit_char k]
  else if k <? 100 then buf ++ [digit_char (k / 10); digit_char (k mod 10)]
  else buf ++ [digit_char (k / 100); digit_char (k mod 100 / 10); digit_char (k mod 100 mod 10)].

Definition format_buffer (buf : str) (decimal_exponent min_exp max_exp : Z) : str :=
  let k := zlen buf in
  let n := zlen buf + decimal_exponent in
  if (k <=? n) && (n <=? max_exp) then buf ++ replicate (Z.to_nat (n - k)) (digit_char 0) ++ $".0"
  else if (0 <? n) && (n <=? max_exp) then take (Z.to_nat n) buf ++ $"." ++ drop (Z.to_nat n) buf
  else if (min_exp <? n) && (n <=? 0) then
    $"0." ++ replicate (Z.to_nat (- n)) (digit_char 0) ++ buf
  else
    let mantissa := if k =? 1 then buf else take 1 buf ++ $"." ++ drop 1 buf in
    append_exponent (mantissa ++ $"e") (n - 1).

(** [to_chars(first, last, value)] of a finite double. *)
Definition to_chars (value : Z) : str :=
  let '(sign, value) := if double_sign value then ($"-", value - 2 ^ 63) else ([], value) in
  if value =? 0 then sign ++ $"0.0"
  else
    let '(buf, decimal_exponent) := grisu2 value in
    sign ++ format_buffer buf decimal_exponent (-4) 15.

Example to_chars_tenth : to_chars (strtod $"0.1") = $"0.1".
Proof. vm_compute. reflexivity. Qed.
Example to_chars_third : to_chars 0x3FD5555555555555 = $"0.3333333333333333".
Proof. vm_compute. reflexivity. Qed.
Example to_chars_one : to_chars (strtod $"-1") = $"-1.0".
Proof. vm_compute. reflexivity. Qed.
Example to_chars_max : to_chars 0x7FEFFFFFFFFFFFFF = $"1.7976931348623157e+308".
Proof. vm_compute. reflexivity. Qed.
Example to_chars_min : to_chars 1 = $"5e-324".
Proof. vm_compute. reflexivity. Qed.
Example to_chars_big : to_chars (strtod $"123456789012345680") = $"1.2345678901234568e+17".
Proof. vm_compute. reflexivity. Qed.
