(* ===== verification/DtoaSpec.v ===== *)
(** * Correctness of the floating-point output

    The digits Grisu2 generates lie strictly between the boundaries of the
    double, so that [strtod] reads them back as the same double.  The proof
    follows the steps of the code: the rounded product, the cached powers of
    ten, the digit loops, the formatting. *)

From S2P Require Import Prelude JsonNumber Doubles Dtoa.

(** ** diyfp *)

Lemma land_ones32 x : Z.land x 0xFFFFFFFF = x mod 2 ^ 32.
Proof. change 0xFFFFFFFF with (Z.ones 32). by rewrite Z.land_ones by lia. Qed.

Lemma shiftr32 x : Z.shiftr x 32 = x / 2 ^ 32.
Proof. by rewrite Z.shiftr_div_pow2 by lia. Qed.

(** The product rounded to its upper 64 bits. *)
Lemma diyfp_mul_spec x y :
  0 <= df x < 2 ^ 64 -> 0 <= df y < 2 ^ 64 ->
  df (diyfp_mul x y) = (df x * df y + 2 ^ 63) / 2 ^ 64 /\ de (diyfp_mul x y) = de x + de y + 64.
Proof.
  intros Hx Hy. split; [|done]. unfold diyfp_mul. cbn [df]. rewrite !land_ones32, !shiftr32.
  set (X := df x) in *. set (Y := df y) in *.
  set (a := X / 2 ^ 32). set (b := X mod 2 ^ 32). set (c := Y / 2 ^ 32). set (d := Y mod 2 ^ 32).
  assert (HX : X = a * 2 ^ 32 + b /\ 0 <= a < 2 ^ 32 /\ 0 <= b < 2 ^ 32) by (unfold a, b; Z.div_mod_to_equations; lia).
  assert (HY : Y = c * 2 ^ 32 + d /\ 0 <= c < 2 ^ 32 /\ 0 <= d < 2 ^ 32) by (unfold c, d; Z.div_mod_to_equations; lia).
  clearbody a b c d. destruct HX as (HX & Ha & Hb), HY as (HY & Hc & Hd).
  assert (Hbound : forall u v, 0 <= u < 2 ^ 32 -> 0 <= v < 2 ^ 32 -> 0 <= u * v <= (2 ^ 32 - 1) * (2 ^ 32 - 1)).
  { intros u v Hu Hv. split; [nia|]. apply Z.mul_le_mono_nonneg; lia. }
  pose proof (Hbound b d Hb Hd) as H0. pose proof (Hbound b c Hb Hc) as H1.
  pose proof (Hbound a d Ha Hd) as H2. pose proof (Hbound a c Ha Hc) as H3.
  assert (HP : X * Y = a * c * 2 ^ 64 + (b * c + a * d) * 2 ^ 32 + b * d) by (rewrite HX, HY; ring).
  rewrite HP. set (p0 := b * d) in *. set (p1 := b * c) in *. set (p2 := a * d) in *. set (p3 := a * c) in *.
  clearbody p0 p1 p2 p3. rewrite !(u64_small p0), !(u64_small p1), !(u64_small p2), !(u64_small p3) by lia.
  change (Z.shiftl 1 (64 - 32 - 1)) with (2 ^ 31).
  rewrite (u64_small (p0 / 2 ^ 32 + p1 mod 2 ^ 32 + p2 mod 2 ^ 32)) by (Z.div_mod_to_equations; lia).
  rewrite (u64_small (p0 / 2 ^ 32 + p1 mod 2 ^ 32 + p2 mod 2 ^ 32 + 2 ^ 31)) by (Z.div_mod_to_equations; lia).
  rewrite u64_small by (Z.div_mod_to_equations; lia). Z.div_mod_to_equations. lia.
Qed.

(** [normalize] shifts the leading bit to bit 63. *)
Lemma normalize_spec f e :
  0 < f < 2 ^ 64 ->
  exists s, 0 <= s <= 63 /\ normalize (Diyfp f e) = Diyfp (f * 2 ^ s) (e - s) /\ 2 ^ 63 <= f * 2 ^ s < 2 ^ 64.
Proof.
  intros Hf.
  assert (H : forall fuel k g e', 0 < g < 2 ^ 64 -> 2 ^ 63 <= g * 2 ^ k -> 0 <= k -> (Z.to_nat k < fuel)%nat ->
    exists s, 0 <= s <= k /\ normalize_loop fuel (Diyfp g e') = Diyfp (g * 2 ^ s) (e' - s) /\
      2 ^ 63 <= g * 2 ^ s < 2 ^ 64).
  { intros fuel. induction fuel as [|fuel IH]; intros k g e' Hg Hk Hk0 Hfuel; [lia|]. cbn [normalize_loop df de].
    rewrite Z.shiftr_div_pow2 by lia. destruct (Z.eqb_spec (g / 2 ^ 63) 0) as [Hz|Hz].
    - assert (g < 2 ^ 63) by (Z.div_mod_to_equations; lia).
      assert (k <> 0) by (intros ->; change (2 ^ 0) with 1 in Hk; lia).
      rewrite Z.shiftl_mul_pow2, u64_small by lia. change (2 ^ 1) with 2.
      assert (Ek : 2 ^ k = 2 * 2 ^ (k - 1)) by (rewrite <- Z.pow_succ_r by lia; f_equal; lia).
      destruct (IH (k - 1) (g * 2) (e' - 1)) as (s & Hs & -> & Hr); [lia|nia|lia|lia|].
      exists (s + 1). split; [lia|]. rewrite Z.pow_add_r by lia. change (2 ^ 1) with 2.
      split; [f_equal; lia|lia].
    - exists 0. change (2 ^ 0) with 1. split; [lia|]. split; [f_equal; lia|]. Z.div_mod_to_equations. lia. }
  apply (H 64%nat 63 f e); [done|lia|lia|lia].
Qed.

(** ** The cached powers *)

(** [|f 2^e - 10^k| <= 2^e / 2], with the negative powers moved to the other
    side. *)
Definition cached_ok (c : cached_power) : bool :=
  (2 ^ 63 <=? cp_f c) && (cp_f c <? 2 ^ 64) && (-1060 <=? cp_e c) && (-300 <=? cp_k c) && (cp_k c <=? 324) &&
  (2 * Z.abs (cp_f c * 2 ^ Z.max (cp_e c) 0 * 10 ^ Z.max (- cp_k c) 0 - 10 ^ Z.max (cp_k c) 0 * 2 ^ Z.max (- cp_e c) 0)
   <=? 2 ^ Z.max (cp_e c) 0 * 10 ^ Z.max (- cp_k c) 0).

(** The same, with everything multiplied by [2^1100 10^300]. *)
Lemma cached_scaled f e k :
  -1060 <= e -> -300 <= k ->
  2 * Z.abs (f * 2 ^ Z.max e 0 * 10 ^ Z.max (- k) 0 - 10 ^ Z.max k 0 * 2 ^ Z.max (- e) 0) <= 2 ^ Z.max e 0 * 10 ^ Z.max (- k) 0 ->
  2 * Z.abs (f * 2 ^ (e + 1100) * 10 ^ 300 - 10 ^ (k + 300) * 2 ^ 1100) <= 2 ^ (e + 1100) * 10 ^ 300.
Proof.
  intros He Hk H. set (s := 2 ^ (1100 - Z.max (- e) 0) * 10 ^ (300 - Z.max (- k) 0)).
  assert (Hs : 0 < s) by (apply Z.mul_pos_pos; apply Z.pow_pos_nonneg; lia).
  assert (E1 : 2 ^ (e + 1100) * 10 ^ 300 = 2 ^ Z.max e 0 * 10 ^ Z.max (- k) 0 * s).
  { unfold s. replace (e + 1100) with (Z.max e 0 + (1100 - Z.max (- e) 0)) by lia.
    replace (10 ^ 300) with (10 ^ (Z.max (- k) 0 + (300 - Z.max (- k) 0))) by (f_equal; lia).
    rewrite !Z.pow_add_r by lia. ring. }
  assert (E2 : 10 ^ (k + 300) * 2 ^ 1100 = 10 ^ Z.max k 0 * 2 ^ Z.max (- e) 0 * s).
  { unfold s. replace (k + 300) with (Z.max k 0 + (300 - Z.max (- k) 0)) by lia.
    replace (2 ^ 1100) with (2 ^ (Z.max (- e) 0 + (1100 - Z.max (- e) 0))) by (f_equal; lia).
    rewrite !Z.pow_add_r by lia. ring. }
  rewrite <- (Z.mul_assoc f), E1, E2.
  replace (f * (2 ^ Z.max e 0 * 10 ^ Z.max (- k) 0 * s) - 10 ^ Z.max k 0 * 2 ^ Z.max (- e) 0 * s)
    with ((f * 2 ^ Z.max e 0 * 10 ^ Z.max (- k) 0 - 10 ^ Z.max k 0 * 2 ^ Z.max (- e) 0) * s) by ring.
  rewrite Z.abs_mul, (Z.abs_eq s), Z.mul_assoc by lia. apply Z.mul_le_mono_nonneg_r; lia.
Qed.

Lemma cached_table : forallb cached_ok kCachedPowers = true.
Proof. vm_compute. reflexivity. Qed.

(** The product of the power and a normalised significand of exponent [e] has
    an exponent between [kAlpha] and [kGamma]. *)
Definition cached_fits (e : Z) : bool :=
  let c := get_cached_power_for_binary_exponent e in
  (0 <=? cached_power_index e) && (cached_power_index e <? 79) &&
  (kAlpha <=? cp_e c + e + 64) && (cp_e c + e + 64 <=? kGamma).

Lemma cached_all : forallb (fun i => cached_fits (Z.of_nat i - 1137)) (seq 0 2098) = true.
Proof. vm_compute. reflexivity. Qed.

Lemma cached_spec e :
  -1137 <= e <= 960 -> cached_fits e = true /\ cached_ok (get_cached_power_for_binary_exponent e) = true.
Proof.
  intros He. pose proof cached_all as H. rewrite forallb_forall in H.
  specialize (H (Z.to_nat (e + 1137))). rewrite Z2Nat.id in H by lia.
  replace (e + 1137 - 1137) with e in H by lia.
  assert (Hfit : cached_fits e = true) by (apply H, in_seq; lia). split; [done|].
  pose proof cached_table as Ht. rewrite forallb_forall in Ht. apply Ht. unfold get_cached_power_for_binary_exponent.
  apply nth_In. unfold cached_fits in Hfit. bool_hyps. change (length kCachedPowers) with 79%nat. lia.
Qed.

(** ** Rounding the last digit *)

Lemma decrement_last_snoc pre c : decrement_last (pre ++ [c]) = pre ++ [chr (ord c - 1)].
Proof. unfold decrement_last. by rewrite last_snoc, removelast_last. Qed.

(** The last digit stays positive and the distance to the upper bound below
    [delta]. *)
Lemma grisu2_round_spec fuel pre d dist delta rest ten_k :
  0 <= d <= 9 -> 0 <= rest <= delta -> delta < 2 ^ 64 -> 0 < ten_k -> delta < rest + d * ten_k ->
  exists d', 1 <= d' <= d /\ grisu2_round fuel (pre ++ [chr (48 + d)]) dist delta rest ten_k = pre ++ [chr (48 + d')] /\
    0 <= rest + (d - d') * ten_k <= delta.
Proof.
  revert d rest. induction fuel as [|fuel IH]; intros d rest Hd Hrest Hdelta Hten Hlt; cbn [grisu2_round].
  - exists d. split_and!; try done; nia.
  - rewrite (u64_small (delta - rest)) by lia.
    destruct (_ && _) eqn:E; [|exists d; split_and!; try done; nia].
    bool_hyps. rewrite decrement_last_snoc, ord_chr_small by lia. rewrite u64_small by lia.
    replace (48 + d - 1) with (48 + (d - 1)) by lia.
    destruct (IH (d - 1) (rest + ten_k)) as (d' & Hd' & E' & Hr'); [nia|lia|done|done|nia|].
    exists d'. split_and!; [lia|lia|exact E'|nia|nia].
Qed.

(** ** The digit loops *)

(** Decimal digits that start with a positive one. *)
Definition digits_ok (s : str) : Prop :=
  all_digits s /\ exists c t, s = c :: t /\ 49 <= ord c <= 57.

Lemma dec_value_snoc s d : 0 <= d <= 9 -> dec_value (s ++ [chr (48 + d)]) = dec_value s * 10 + d.
Proof.
  intros Hd. rewrite dec_value_app. change (zlen [chr (48 + d)]) with 1.
  unfold dec_value at 2. cbn [fold_left]. unfold digit_val. rewrite ord_chr_small by lia. lia.
Qed.

(** A digit added after the digits of [pre]; the first digit is positive. *)
Lemma digits_ok_snoc pre d :
  0 <= d <= 9 -> (pre = [] -> 1 <= d) -> (pre <> [] -> digits_ok pre) -> digits_ok (pre ++ [chr (48 + d)]).
Proof.
  intros Hd H1 Hpre. assert (Hc : 48 <= ord (chr (48 + d)) <= 57) by (rewrite ord_chr_small; lia).
  destruct pre as [|c pre].
  - split; [by apply Forall_singleton|]. exists (chr (48 + d)), []. split; [done|]. specialize (H1 eq_refl).
    rewrite ord_chr_small; lia.
  - destruct (Hpre ltac:(done)) as [Ha (c' & t & [= <- <-] & Hh)]. split.
    + apply Forall_app. split; [done|by apply Forall_singleton].
    + exists c, (pre ++ [chr (48 + d)]). done.
Qed.

Section DigitGen.
Variables (e Mp delta dist : Z).
Hypothesis He : -60 <= e <= -32.
Hypothesis HMp : Mp < 2 ^ 64.
Hypothesis Hdelta : 0 < delta < 2 ^ 64.

Abbreviation one := (2 ^ (- e)).

Lemma one_bounds : 2 ^ 32 <= one <= 2 ^ 60.
Proof. split; apply Z.pow_le_mono_r; lia. Qed.

Lemma integral_digits_spec n p1 p2 buffer :
  0 <= p2 < one -> 0 <= p1 < 10 ^ Z.of_nat n -> (n <= 10)%nat ->
  (buffer = [] -> 10 ^ Z.of_nat n <= 10 * p1) -> (buffer <> [] -> digits_ok buffer) ->
  0 <= dec_value buffer -> Mp = (dec_value buffer * 10 ^ Z.of_nat n + p1) * one + p2 -> delta < p1 * one + p2 ->
  match integral_digits n e p1 p2 (10 ^ Z.of_nat n / 10) delta dist buffer with
  | inl (buf, n') =>
      digits_ok buf /\ (length buf + n' = length buffer + n)%nat /\ (n' < n)%nat /\
      Mp - delta <= dec_value buf * 10 ^ Z.of_nat n' * one <= Mp
  | inr buf =>
      (buf <> [] -> digits_ok buf) /\ (length buf = length buffer + n)%nat /\ 0 <= dec_value buf /\
      Mp = dec_value buf * one + p2 /\ delta < p2
  end.
Proof.
  pose proof one_bounds as Hone.
  revert p1 buffer. induction n as [|n IH]; intros p1 buffer Hp2 Hp1 Hn Hhead Hbuf Hdec HM Hgt; cbn [integral_digits].
  { change (10 ^ Z.of_nat 0) with 1 in *. assert (p1 = 0) as -> by lia. split_and!; try done; lia. }
  replace (10 ^ Z.of_nat (S n)) with (10 * 10 ^ Z.of_nat n) in * by (rewrite Nat2Z.inj_succ, Z.pow_succ_r; lia).
  replace (10 * 10 ^ Z.of_nat n / 10) with (10 ^ Z.of_nat n) by (symmetry; rewrite Z.mul_comm; by apply Z.div_mul).
  assert (Hpow : 0 < 10 ^ Z.of_nat n <= 10 ^ 9).
  { split; [apply Z.pow_pos_nonneg; lia|]. apply Z.pow_le_mono_r; lia. }
  set (pw := 10 ^ Z.of_nat n) in *. set (d := p1 / pw). set (r := p1 mod pw).
  assert (Hdr : p1 = d * pw + r /\ 0 <= r < pw /\ 0 <= d <= 9).
  { unfold d, r. pose proof (Z.div_mod p1 pw ltac:(lia)). pose proof (Z.mod_pos_bound p1 pw ltac:(lia)).
    split_and!; try lia; [apply Z.div_pos; lia|]. apply Z.lt_succ_r, Z.div_lt_upper_bound; lia. }
  clearbody d r. destruct Hdr as (Ep1 & Hr & Hd).
  set (T := pw * one). set (R := r * one). set (V := dec_value buffer) in *.
  assert (HT : 0 < T) by (apply Z.mul_pos_pos; lia).
  assert (HR : 0 <= R) by (apply Z.mul_nonneg_nonneg; lia).
  assert (Hdt : 0 <= d * T) by (apply Z.mul_nonneg_nonneg; lia).
  assert (HVt : 0 <= V * 10 * T) by (apply Z.mul_nonneg_nonneg; lia).
  assert (EM : Mp = V * 10 * T + d * T + R + p2) by (unfold T, R; rewrite HM, Ep1; ring).
  assert (Eg : p1 * one = d * T + R) by (unfold T, R; rewrite Ep1; ring). rewrite Eg in Hgt.
  rewrite !Z.shiftl_mul_pow2 by lia. fold R T. rewrite (u64_small R), (u64_small (R + p2)) by lia.
  destruct (Z.leb_spec (R + p2) delta) as [Hle|Hle].
  - assert (Hd1 : 1 <= d) by (destruct (Z.eq_dec d 0) as [-> |]; lia).
    assert (T <= d * T) by (rewrite Z.mul_comm; apply Z.le_mul_diag_r; lia). rewrite (u64_small T) by lia.
    destruct (grisu2_round_spec round_fuel buffer d dist delta (R + p2) T)
      as (d' & Hd' & -> & Hr'); [lia..|].
    split_and!.
    + apply digits_ok_snoc; [lia|lia|done].
    + rewrite length_app. simpl. lia.
    + lia.
    + rewrite dec_value_snoc by lia. fold V. rewrite <- Z.mul_assoc. fold T. lia.
    + rewrite dec_value_snoc by lia. fold V. rewrite <- Z.mul_assoc. fold T. lia.
  - specialize (IH r (buffer ++ [chr (48 + d)])). rewrite dec_value_snoc in IH by done.
    assert (Hd1 : buffer = [] -> 1 <= d).
    { intros Hb. specialize (Hhead Hb). destruct (Z.eq_dec d 0) as [-> |]; lia. }
    specialize (IH Hp2 ltac:(lia) ltac:(lia)).
    ospecialize* IH.
    + intros Hnil. by destruct buffer.
    + intros _. by apply digits_ok_snoc.
    + lia.
    + fold V. rewrite HM, Ep1. ring.
    + exact Hle.
    + destruct (integral_digits _ _ _ _ _ _ _ _) as [[buf n']|buf]; rewrite length_app in IH; simpl in IH.
      * destruct IH as (? & ? & ? & ?). split_and!; try done; lia.
      * destruct IH as (? & ? & ? & ?). split_and!; try done; lia.
Qed.

Lemma fractional_digits_spec fuel p2 dl ds m buffer :
  20 <= m + Z.of_nat fuel -> 0 <= m -> p2 < one -> dl = delta * 10 ^ m -> dl < p2 ->
  digits_ok buffer -> 0 <= dec_value buffer -> Mp * 10 ^ m = dec_value buffer * one + p2 ->
  let '(buf, m') := fractional_digits fuel e one p2 dl ds m buffer in
  digits_ok buf /\ m < m' /\ zlen buf = zlen buffer + (m' - m) /\
  (Mp - delta) * 10 ^ m' <= dec_value buf * one <= Mp * 10 ^ m'.
Proof.
  pose proof one_bounds as Hone.
  revert p2 dl ds m buffer. induction fuel as [|fuel IH]; intros p2 dl ds m buffer Hfuel Hm Hp2 Hdl Hlt Hbuf Hdec HM.
  { exfalso. assert (10 ^ 20 <= 10 ^ m) by (apply Z.pow_le_mono_r; lia).
    assert (1 * 10 ^ m <= delta * 10 ^ m) by (apply Z.mul_le_mono_nonneg_r; lia). lia. }
  assert (Hdl0 : 0 < dl) by (subst dl; apply Z.mul_pos_pos; [lia|apply Z.pow_pos_nonneg; lia]).
  cbn [fractional_digits]. rewrite (u64_small (p2 * 10)), (u64_small (dl * 10)) by lia.
  rewrite Z.shiftr_div_pow2 by lia. rewrite Z.sub_1_r, <- Z.ones_equiv, Z.land_ones by lia.
  set (d := p2 * 10 / one). set (r := p2 * 10 mod one).
  assert (Hdr : p2 * 10 = d * one + r /\ 0 <= r < one /\ 0 <= d <= 9).
  { unfold d, r. pose proof (Z.div_mod (p2 * 10) one ltac:(lia)). pose proof (Z.mod_pos_bound (p2 * 10) one ltac:(lia)).
    split_and!; try lia; [apply Z.div_pos; lia|]. apply Z.lt_succ_r, Z.div_lt_upper_bound; lia. }
  clearbody d r. destruct Hdr as (Ep2 & Hr & Hd).
  assert (EM : Mp * 10 ^ (m + 1) = (dec_value buffer * 10 + d) * one + r).
  { rewrite Z.pow_add_r by lia. change (10 ^ 1) with 10. rewrite Z.mul_assoc, HM. lia. }
  assert (Edl : dl * 10 = delta * 10 ^ (m + 1)) by (rewrite Z.pow_add_r by lia; subst dl; ring).
  destruct (Z.leb_spec r (dl * 10)) as [Hle|Hle].
  - destruct (grisu2_round_spec round_fuel buffer d (u64 (ds * 10)) (dl * 10) r one)
      as (d' & Hd' & -> & Hr'); [lia..|].
    split_and!.
    + apply digits_ok_snoc; [lia|intros ->; by destruct Hbuf as [_ (? & ? & ? & ?)]|done].
    + lia.
    + rewrite zlen_app. change (zlen [_]) with 1. lia.
    + rewrite dec_value_snoc by lia. lia.
    + rewrite dec_value_snoc by lia. lia.
  - specialize (IH r (dl * 10) (u64 (ds * 10)) (m + 1) (buffer ++ [chr (48 + d)])).
    rewrite dec_value_snoc in IH by done.
    ospecialize* IH; [lia|lia|lia|done|lia| |lia|exact EM|].
    + apply digits_ok_snoc; [lia|intros ->; by destruct Hbuf as [_ (? & ? & ? & ?)]|done].
    + destruct (fractional_digits _ _ _ _ _ _ _ _) as [buf m']. rewrite zlen_app in IH.
      change (zlen [_]) with 1 in IH. destruct IH as (? & ? & ? & ?). split_and!; try done; lia.
Qed.
End DigitGen.

Lemma find_largest_pow10_spec n :
  1 <= n < 2 ^ 32 ->
  let '(k, pow10) := find_largest_pow10 n in
  (1 <= k <= 10)%nat /\ pow10 = 10 ^ Z.of_nat k / 10 /\ n < 10 ^ Z.of_nat k <= 10 * n.
Proof.
  intros Hn. unfold find_largest_pow10.
  repeat match goal with
         | |- context [if ?a <=? ?b then _ else _] => destruct (Z.leb_spec a b)
         end;
    (split; [lia|split; [reflexivity|]]);
    match goal with |- context [10 ^ Z.of_nat ?k] => let v := eval vm_compute in (10 ^ Z.of_nat k) in
      change (10 ^ Z.of_nat k) with v end; lia.
Qed.

(** ** Digit generation *)

(** The digits [ds] and the power of ten [10 ^ j] are a number between [lo]
    and [hi], all in units of [2 ^ e]. *)
Definition between (lo hi e : Z) (ds : str) (j : Z) : Prop :=
  lo * 10 ^ Z.max (- j) 0 <= dec_value ds * 10 ^ Z.max j 0 * 2 ^ (- e) <= hi * 10 ^ Z.max (- j) 0.

Lemma grisu2_digit_gen_spec dexp M_minus w M_plus :
  -60 <= de M_plus <= -32 -> 0 < df M_minus < df M_plus -> 2 ^ 60 <= df M_plus < 2 ^ 64 ->
  let '(buf, dexp') := grisu2_digit_gen dexp M_minus w M_plus in
  digits_ok buf /\ 1 <= zlen buf + (dexp' - dexp) <= 10 /\
  between (df M_minus) (df M_plus) (de M_plus) buf (dexp' - dexp).
Proof.
  intros He Hmm Hmp. unfold grisu2_digit_gen, diyfp_sub. cbn [df].
  set (e := de M_plus) in *. set (Mp := df M_plus) in *. set (Mm := df M_minus) in *. clearbody e Mp Mm.
  pose proof (one_bounds e He) as Hone. rewrite (u64_small (Mp - Mm)) by lia.
  rewrite Z.shiftl_1_l, (u64_small (2 ^ (- e))), Z.shiftr_div_pow2 by lia.
  rewrite Z.sub_1_r, <- Z.ones_equiv, Z.land_ones by lia.
  set (p1 := Mp / 2 ^ (- e)). set (p2 := Mp mod 2 ^ (- e)).
  assert (Hp : Mp = p1 * 2 ^ (- e) + p2 /\ 0 <= p2 < 2 ^ (- e) /\ 1 <= p1 < 2 ^ 32).
  { unfold p1, p2. pose proof (Z.div_mod Mp (2 ^ (- e)) ltac:(lia)). pose proof (Z.mod_pos_bound Mp (2 ^ (- e)) ltac:(lia)).
    split_and!; [lia|lia|lia|apply Z.div_le_lower_bound; lia|apply Z.div_lt_upper_bound; lia]. }
  clearbody p1 p2. destruct Hp as (EM & Hp2 & Hp1). rewrite (u32_small p1) by lia.
  pose proof (find_largest_pow10_spec p1 Hp1) as Hk. destruct (find_largest_pow10 p1) as [k pow10].
  destruct Hk as (Hk & -> & Hpk). set (ds := u64 (Mp - df w)).
  pose proof (integral_digits_spec e Mp (Mp - Mm) ds He ltac:(lia) ltac:(lia) k p1 p2 [] Hp2 ltac:(lia) ltac:(lia)) as H.
  ospecialize* H; [lia|done|done|change (dec_value []) with 0; lia|lia|].
  destruct (integral_digits _ _ _ _ _ _ _ _) as [[buf n']|buf].
  - destruct H as (Hok & Hlen & Hn' & HM). simpl in Hlen. unfold between, zlen.
    replace (dexp + Z.of_nat n' - dexp) with (Z.of_nat n') by lia.
    rewrite (Z.max_r (- _)), Z.max_l by lia. change (10 ^ 0) with 1. split_and!; [done|lia..].
  - destruct H as (Hok & Hlen & Hdec & HM & Hlt). simpl in Hlen.
    assert (Hb : digits_ok buf) by (apply Hok; intros ->; simpl in Hlen; lia).
    pose proof (fractional_digits_spec e Mp (Mp - Mm) He ltac:(lia) fractional_fuel p2 (Mp - Mm) ds 0 buf) as H.
    ospecialize* H; [unfold fractional_fuel; lia|lia|lia|change (10 ^ 0) with 1; lia|lia|done|done|change (10 ^ 0) with 1; lia|].
    destruct (fractional_digits _ _ _ _ _ _ _ _) as [buf' m']. destruct H as (Hok' & Hm' & Hl' & HM').
    unfold between. replace (dexp - m' - dexp) with (- m') by lia. rewrite Z.opp_involutive.
    rewrite (Z.max_l m'), (Z.max_r (- m')) by lia. change (10 ^ 0) with 1. unfold zlen in *. split_and!; [done|lia..].
Qed.

(** ** Scaling by a cached power *)

Section Scale.
Variables (cf P Q W Z2 : Z).
Hypothesis Hpos : 0 < cf /\ 0 < P /\ 0 < Q /\ 0 < W /\ 0 < Z2.
Hypothesis Hcached : 2 * Z.abs (cf * Z2 * Q - P * W) <= Z2 * Q.

(** A significand times the cached power, and times the power of ten. *)
Lemma cached_upper m M :
  0 < m < 2 ^ 64 -> M * 2 ^ 64 <= m * cf - 2 ^ 63 -> M * 2 ^ 64 * (Z2 * Q) < m * (P * W).
Proof.
  intros Hm HM. assert (HZQ : 0 < Z2 * Q) by (apply Z.mul_pos_pos; lia).
  replace (cf * Z2 * Q) with (cf * (Z2 * Q)) in Hcached by ring.
  set (ZQ := Z2 * Q) in *. set (PW := P * W) in *. clearbody ZQ PW.
  assert (H1 : M * 2 ^ 64 * ZQ <= (m * cf - 2 ^ 63) * ZQ) by (apply Z.mul_le_mono_nonneg_r; lia).
  assert (H2 : m * (2 * (cf * ZQ)) <= m * (2 * PW + ZQ)) by (apply Z.mul_le_mono_nonneg_l; lia).
  assert (H3 : m * ZQ < 2 ^ 64 * ZQ) by (apply Z.mul_lt_mono_pos_r; lia). lia.
Qed.

Lemma cached_lower m M :
  0 < m < 2 ^ 64 -> m * cf + 2 ^ 63 <= M * 2 ^ 64 -> m * (P * W) < M * 2 ^ 64 * (Z2 * Q).
Proof.
  intros Hm HM. assert (HZQ : 0 < Z2 * Q) by (apply Z.mul_pos_pos; lia).
  replace (cf * Z2 * Q) with (cf * (Z2 * Q)) in Hcached by ring.
  set (ZQ := Z2 * Q) in *. set (PW := P * W) in *. clearbody ZQ PW.
  assert (H1 : (m * cf + 2 ^ 63) * ZQ <= M * 2 ^ 64 * ZQ) by (apply Z.mul_le_mono_nonneg_r; lia).
  assert (H2 : m * (2 * PW - ZQ) <= m * (2 * (cf * ZQ))) by (apply Z.mul_le_mono_nonneg_l; lia).
  assert (H3 : m * ZQ < 2 ^ 64 * ZQ) by (apply Z.mul_lt_mono_pos_r; lia). lia.
Qed.
End Scale.

(** The digits [ds] and [10 ^ dx] are a number strictly between [lo * 2 ^ ep]
    and [hi * 2 ^ ep]. *)
Definition strictly_between (lo hi ep : Z) (ds : str) (dx : Z) : Prop :=
  lo * 2 ^ (ep + 1137) * 10 ^ Z.max (- dx) 0 < dec_value ds * 10 ^ Z.max dx 0 * 2 ^ 1137 <
  hi * 2 ^ (ep + 1137) * 10 ^ Z.max (- dx) 0.

(** The powers of ten and of two on both sides. *)
Lemma pow10_cross dx k :
  -300 <= k ->
  10 ^ Z.max (dx + k) 0 * 10 ^ Z.max (- dx) 0 * 10 ^ 300 = 10 ^ Z.max (- (dx + k)) 0 * 10 ^ Z.max dx 0 * 10 ^ (k + 300).
Proof. intros Hk. rewrite <- !Z.pow_add_r by lia. f_equal. lia. Qed.

Lemma pow2_cross ce ep :
  -1137 <= ep -> -1060 <= ce -> ce + ep + 64 <= 0 ->
  2 ^ (- (ce + ep + 64)) * 2 ^ (ep + 1137) * 2 ^ (ce + 1100) * 2 ^ 64 = 2 ^ 1100 * 2 ^ 1137.
Proof. intros Hep Hce He. rewrite <- !Z.pow_add_r by lia. f_equal. lia. Qed.

Lemma pow_pos b e : 0 < b -> 0 <= e -> 0 < b ^ e.
Proof. intros Hb He. by apply Z.pow_pos_nonneg. Qed.

(** The comparison with the powers abstracted. *)
Lemma unscale A B C D X Y Z2 P Q W T K lo hi Mm Mp v :
  0 < A -> 0 < C -> 0 < P -> 0 < Y -> 0 < Z2 -> 0 < Q -> 0 < W -> 0 < K ->
  B * C * Q = A * D * P -> X * Y * Z2 * K = W * T ->
  lo * (P * W) < Mm * K * (Z2 * Q) -> Mp * K * (Z2 * Q) < hi * (P * W) ->
  Mm * A <= v * B * X <= Mp * A -> lo * Y * C < v * D * T < hi * Y * C.
Proof.
  intros HA HC HP HY HZ HQ HW HK0 E10 E2 Hlo Hhi [Hb1 Hb2].
  assert (HK : 0 < C * Y * (Z2 * Q) * K) by (repeat apply Z.mul_pos_pos; done).
  assert (HAPW : 0 < A * (P * W)) by (repeat apply Z.mul_pos_pos; done).
  assert (HACY : 0 < A * C * Y) by (repeat apply Z.mul_pos_pos; done).
  assert (Hmid : v * D * T * (A * (P * W)) = v * B * X * (C * Y * (Z2 * Q) * K)).
  { replace (v * D * T * (A * (P * W))) with (v * (A * D * P) * (W * T)) by ring. rewrite <- E10, <- E2. ring. }
  split; apply (Z.mul_lt_mono_pos_r (A * (P * W))); try done; rewrite Hmid.
  - apply (Z.lt_le_trans _ (Mm * A * (C * Y * (Z2 * Q) * K))); [|apply Z.mul_le_mono_nonneg_r; [by apply Z.lt_le_incl|done]].
    replace (lo * Y * C * (A * (P * W))) with (lo * (P * W) * (A * C * Y)) by ring.
    replace (Mm * A * (C * Y * (Z2 * Q) * K)) with (Mm * K * (Z2 * Q) * (A * C * Y)) by ring.
    by apply Z.mul_lt_mono_pos_r.
  - apply (Z.le_lt_trans _ (Mp * A * (C * Y * (Z2 * Q) * K))); [apply Z.mul_le_mono_nonneg_r; [by apply Z.lt_le_incl|done]|].
    replace (hi * Y * C * (A * (P * W))) with (hi * (P * W) * (A * C * Y)) by ring.
    replace (Mp * A * (C * Y * (Z2 * Q) * K)) with (Mp * K * (Z2 * Q) * (A * C * Y)) by ring.
    by apply Z.mul_lt_mono_pos_r.
Qed.

(** From the scaled significands, in units of [2 ^ (ce + ep + 64)], to the
    original ones. *)
Lemma between_unscale lo hi Mm Mp ep ce k ds dx :
  -1137 <= ep -> -1060 <= ce -> -300 <= k -> ce + ep + 64 <= 0 ->
  lo * (10 ^ (k + 300) * 2 ^ 1100) < Mm * 2 ^ 64 * (2 ^ (ce + 1100) * 10 ^ 300) ->
  Mp * 2 ^ 64 * (2 ^ (ce + 1100) * 10 ^ 300) < hi * (10 ^ (k + 300) * 2 ^ 1100) ->
  between Mm Mp (ce + ep + 64) ds (dx + k) -> strictly_between lo hi ep ds dx.
Proof.
  unfold between, strictly_between. intros Hep Hce Hk He.
  apply unscale; [apply pow_pos; lia..|by apply pow10_cross|by apply pow2_cross].
Qed.

(** The rounded products, moved inwards by one unit. *)
Lemma mul_upper m c :
  0 <= m < 2 ^ 64 -> 0 <= c < 2 ^ 64 -> ((m * c + 2 ^ 63) / 2 ^ 64 - 1) * 2 ^ 64 <= m * c - 2 ^ 63.
Proof. intros Hm Hc. pose proof (Z.mul_div_le (m * c + 2 ^ 63) (2 ^ 64) ltac:(lia)). lia. Qed.

Lemma mul_lower m c :
  0 <= m < 2 ^ 64 -> 0 <= c < 2 ^ 64 -> m * c + 2 ^ 63 <= ((m * c + 2 ^ 63) / 2 ^ 64 + 1) * 2 ^ 64.
Proof. intros Hm Hc. pose proof (Z.mul_succ_div_gt (m * c + 2 ^ 63) (2 ^ 64) ltac:(lia)). lia. Qed.

Lemma mul_bounds mm mp c :
  2 ^ 63 <= mp < 2 ^ 64 -> 0 < mm -> 1536 <= mp - mm -> 2 ^ 63 <= c < 2 ^ 64 ->
  0 <= (mm * c + 2 ^ 63) / 2 ^ 64 /\ (mm * c + 2 ^ 63) / 2 ^ 64 + 2 < (mp * c + 2 ^ 63) / 2 ^ 64 /\
  2 ^ 62 <= (mp * c + 2 ^ 63) / 2 ^ 64 < 2 ^ 64.
Proof.
  intros Hmp Hmm Hgap Hc.
  assert (H1 : 1536 * 2 ^ 63 <= (mp - mm) * c) by (apply Z.mul_le_mono_nonneg; lia).
  assert (H2 : 2 ^ 63 * 2 ^ 63 <= mp * c) by (apply Z.mul_le_mono_nonneg; lia).
  assert (H3 : mp * c <= (2 ^ 64 - 1) * (2 ^ 64 - 1)) by (apply Z.mul_le_mono_nonneg; lia).
  assert (H4 : 0 < mm * c) by (apply Z.mul_pos_pos; lia).
  assert (H5 : (mp - mm) * c = mp * c - mm * c) by ring. rewrite H5 in H1. clear H5.
  set (a := mp * c) in *. set (b := mm * c) in *. clearbody a b. Z.div_mod_to_equations. lia.
Qed.

Lemma grisu2_scaled_spec m_minus v m_plus :
  de m_minus = de m_plus -> -1137 <= de m_plus <= 960 -> 2 ^ 63 <= df m_plus < 2 ^ 64 ->
  0 < df m_minus -> 1536 <= df m_plus - df m_minus ->
  let '(buf, dx) := grisu2_scaled m_minus v m_plus in
  digits_ok buf /\ -323 <= zlen buf + dx <= 310 /\
  strictly_between (df m_minus) (df m_plus) (de m_plus) buf dx.
Proof.
  intros Hee He Hmp Hmm Hgap. unfold grisu2_scaled.
  destruct (cached_spec (de m_plus) He) as [Hfit Hok].
  unfold cached_fits in Hfit. cbv zeta in Hfit. set (c := get_cached_power_for_binary_exponent (de m_plus)) in *.
  unfold cached_ok, kAlpha, kGamma in *. bool_hyps. clearbody c.
  destruct c as [cf ce k]. cbn [cp_f cp_e cp_k] in *.
  destruct m_minus as [mm em], m_plus as [mp ep]. cbn [df de] in *. subst em.
  destruct (diyfp_mul_spec (Diyfp mm ep) (Diyfp cf ce)) as [Em1 Em2]; [cbn [df]; lia..|].
  destruct (diyfp_mul_spec (Diyfp mp ep) (Diyfp cf ce)) as [Ep1 Ep2]; [cbn [df]; lia..|].
  cbn [df de] in *. rewrite Em1, Em2, Ep1, Ep2.
  destruct (mul_bounds mm mp cf) as (B1 & B2 & B3); [lia..|].
  pose proof (mul_upper mp cf ltac:(lia) ltac:(lia)) as Hup.
  pose proof (mul_lower mm cf ltac:(lia) ltac:(lia)) as Hlow.
  set (wm := (mm * cf + 2 ^ 63) / 2 ^ 64) in *. set (wp := (mp * cf + 2 ^ 63) / 2 ^ 64) in *.
  rewrite (u64_small (wm + 1)), (u64_small (wp - 1)) by lia.
  set (w := diyfp_mul v _).
  pose proof (grisu2_digit_gen_spec (- k) (Diyfp (wm + 1) (ep + ce + 64)) w (Diyfp (wp - 1) (ep + ce + 64))) as Hg.
  cbn [df de] in Hg. ospecialize* Hg; [lia..|].
  destruct (grisu2_digit_gen _ _ _ _) as [buf dx]. destruct Hg as (Hd & Hl & Hb).
  split; [done|]. split; [lia|].
  apply (between_unscale mm mp (wm + 1) (wp - 1) ep ce k buf dx); [lia|lia|lia|lia|..].
  - apply (cached_lower cf); [|by apply cached_scaled|lia|done].
    split_and!; [lia|apply Z.pow_pos_nonneg; lia|done|done|apply Z.pow_pos_nonneg; lia].
  - apply (cached_upper cf); [|by apply cached_scaled|lia|done].
    split_and!; [lia|apply Z.pow_pos_nonneg; lia|done|done|apply Z.pow_pos_nonneg; lia].
  - replace (dx + k) with (dx - - k) by lia. by replace (ce + ep + 64) with (ep + ce + 64) by lia.
Qed.

(** ** Boundaries *)

Lemma compute_boundaries_spec b :
  pos_double b ->
  exists s, 10 <= s <= 62 /\
    b_plus (compute_boundaries b) = Diyfp ((4 * d_man b + 2) * 2 ^ (s - 1)) (d_exp b - 1 - s) /\
    b_minus (compute_boundaries b) = Diyfp (lower4 b * 2 ^ (s - 1)) (d_exp b - 1 - s) /\
    2 ^ 63 <= (4 * d_man b + 2) * 2 ^ (s - 1) < 2 ^ 64.
Proof.
  intros Hb. destruct (pos_double_fields b Hb) as (Eb & HE & HF & Hf & He & Hnorm & Hden).
  unfold compute_boundaries, kHiddenBit, kMinExp, kBias, kPrecision.
  rewrite Z.shiftr_div_pow2, Z.shiftl_mul_pow2 by lia.
  change (53 - 1) with 52. change (1 * 2 ^ 52 - 1) with (Z.ones 52). rewrite Z.land_ones by lia.
  fold (d_E b) (d_F b).
  set (v := if d_E b =? 0 then _ else _).
  assert (Ev : v = Diyfp (d_man b) (d_exp b)).
  { unfold v, d_man, d_exp. destruct (d_E b =? 0); f_equal; lia. }
  rewrite Ev. clear v Ev. cbn [df de b_plus b_minus]. fold (closer b).
  destruct (normalize_spec (2 * d_man b + 1) (d_exp b - 1)) as (s & Hs & -> & Hr); [lia|].
  assert (Hs10 : 10 <= s).
  { destruct (Z.le_gt_cases 10 s); [done|]. assert (2 ^ s <= 2 ^ 9) by (apply Z.pow_le_mono_r; lia). nia. }
  assert (Hs62 : s <= 62).
  { destruct (Z.eq_dec s 63) as [-> |]; lia. }
  assert (Es : 2 ^ s = 2 * 2 ^ (s - 1)) by (rewrite <- Z.pow_succ_r by lia; f_equal; lia).
  assert (Hp : 0 < 2 ^ (s - 1)) by (apply Z.pow_pos_nonneg; lia).
  exists s. split_and!; [lia|lia|f_equal; lia| |lia|lia]. unfold normalize_to, lower4. cbn [df de].
  destruct (closer b); cbn [df de]; rewrite Z.shiftl_mul_pow2 by lia.
  - replace (d_exp b - 2 - (d_exp b - 1 - s)) with (s - 1) by lia. rewrite u64_small by nia. done.
  - replace (d_exp b - 1 - (d_exp b - 1 - s)) with s by lia. rewrite u64_small by nia. f_equal. lia.
Qed.

(** The number generated for a double lies inside its rounding interval. *)
Lemma grisu2_spec b :
  pos_double b ->
  let '(buf, dx) := grisu2 b in
  digits_ok buf /\ -323 <= zlen buf + dx <= 310 /\
  rounds_to b (dec_value buf * 10 ^ Z.max dx 0) (10 ^ Z.max (- dx) 0).
Proof.
  intros Hb. destruct (pos_double_fields b Hb) as (_ & HE & HF & Hf & He & _).
  destruct (compute_boundaries_spec b Hb) as (s & Hs & Ep & Em & Hr). unfold grisu2. rewrite Ep, Em.
  assert (Hp : 2 ^ 9 <= 2 ^ (s - 1)) by (apply Z.pow_le_mono_r; lia).
  assert (Hlo : 1 <= lower4 b <= 4 * d_man b - 1).
  { unfold lower4. destruct (closer b); lia. }
  pose proof (grisu2_scaled_spec (Diyfp (lower4 b * 2 ^ (s - 1)) (d_exp b - 1 - s)) (b_w (compute_boundaries b))
    (Diyfp ((4 * d_man b + 2) * 2 ^ (s - 1)) (d_exp b - 1 - s))) as H. cbn [df de] in H.
  ospecialize* H; [done|lia|done|nia|nia|].
  destruct (grisu2_scaled _ _ _) as [buf dx]. destruct H as (Hd & Hl & Hlt). split; [done|]. split; [done|].
  unfold strictly_between in Hlt. unfold rounds_to.
  assert (E : forall x, x * 2 ^ (s - 1) * 2 ^ (d_exp b - 1 - s + 1137) * 10 ^ Z.max (- dx) 0 =
    x * (10 ^ Z.max (- dx) 0 * 2 ^ (d_exp b + 1074)) * 2 ^ 61).
  { intros x. replace (2 ^ (d_exp b - 1 - s + 1137)) with (2 ^ (d_exp b + 1074 + 61 - (s - 1))) by (f_equal; lia).
    rewrite <- (Z.mul_assoc x), <- Z.pow_add_r by lia.
    replace (s - 1 + (d_exp b + 1074 + 61 - (s - 1))) with (d_exp b + 1074 + 61) by lia.
    rewrite (Z.pow_add_r 2 _ 61) by lia. ring. }
  rewrite !E in Hlt. replace (2 ^ 1137) with (2 ^ 1076 * 2 ^ 61) in Hlt by (rewrite <- Z.pow_add_r; lia).
  rewrite (Z.mul_assoc _ (2 ^ 1076)) in Hlt. destruct Hlt as [H1 H2].
  split; (apply (Z.mul_lt_mono_pos_r (2 ^ 61)); [lia|assumption]).
Qed.
