(* ===== verification/DtoaFormat.v ===== *)
(** * The text of a double

    [format_buffer] writes the digits in one of four forms, all of them tokens
    of the number grammar with a fraction or an exponent; [strtod] reads each
    of them as the same number, so that the double is read back. *)

From S2P Require Import Prelude JsonNumber Doubles Dtoa DtoaSpec.

(** ** Floating-point tokens *)

(** [ip.fpe+ex]; the fraction is left out when it is empty, the exponent when
    it is [None]. *)
Definition point_text (fp : str) : str := match fp with [] => [] | _ => "."%char :: fp end.

Definition exp_text (ex : option (bool * str)) : str :=
  match ex with
  | Some (neg, ds) => "e"%char :: (if neg then "-"%char else "+"%char) :: ds
  | None => []
  end.

Definition float_text (neg : bool) (ip fp : str) (ex : option (bool * str)) : str :=
  (if neg then ["-"%char] else []) ++ ip ++ point_text fp ++ exp_text ex.

Definition exp_value (ex : option (bool * str)) : Z :=
  match ex with Some (neg, ds) => if neg then - dec_value ds else dec_value ds | None => 0 end.

(** The integral part of a JSON number. *)
Definition int_part (ip : str) : Prop := ip = $"0" \/ digits_ok ip.

Definition float_ok (ip fp : str) (ex : option (bool * str)) : Prop :=
  int_part ip /\ all_digits fp /\
  match ex with Some (_, ds) => all_digits ds /\ ds <> [] | None => fp <> [] end.

Lemma int_part_digits ip : int_part ip -> all_digits ip /\ ip <> [].
Proof.
  intros [-> |[Ha (c & t & -> & Hc)]]; [|done].
  split; [|done]. apply Forall_singleton. vm_compute. by split.
Qed.

(** [s] does not start with a digit. *)
Definition no_digit (s : str) : Prop :=
  match s with c :: _ => ord c < 48 \/ 57 < ord c | [] => True end.

Lemma take_digits_app ds s : all_digits ds -> no_digit s -> take_digits (ds ++ s) = (ds, s).
Proof.
  intros Hd Hs. induction Hd as [|c ds Hc _ IH]; cbn [app take_digits].
  - destruct s as [|c s]; [done|]. cbn [take_digits no_digit] in *.
    destruct Hs; [rewrite (proj2 (Z.leb_gt 48 _)) by lia; done|].
    rewrite (proj2 (Z.leb_gt _ 57)) by lia. by rewrite andb_false_r.
  - rewrite (proj2 (Z.leb_le 48 _)), (proj2 (Z.leb_le _ 57)), IH by lia. done.
Qed.

Lemma dec_exponent_text ex : dec_exponent (exp_text ex) = exp_value ex.
Proof. by destruct ex as [[[|] ds]|]. Qed.

(** What [strtod] reads from the digits of a token. *)
Definition ratio_bits (m e : Z) : Z :=
  if m =? 0 then 0 else if 0 <=? e then double_of_ratio (m * 10 ^ e) 1 else double_of_ratio m (10 ^ (- e)).

Lemma no_minus s : all_digits s -> match s with c :: _ => Ascii.eqb c "-"%char = false | [] => True end.
Proof.
  intros H. destruct H as [|c s Hc _]; [done|]. apply Ascii.eqb_neq. intros ->. change (ord "-"%char) with 45 in Hc. lia.
Qed.

Lemma strtod_float_text neg ip fp ex :
  float_ok ip fp ex ->
  strtod (float_text neg ip fp ex) =
  (if neg then 2 ^ 63 else 0) + ratio_bits (dec_value (ip ++ fp)) (exp_value ex - zlen fp).
Proof.
  intros (Hi & Hf & Hx). destruct (int_part_digits ip Hi) as [Hid Hne]. unfold float_text, strtod.
  assert (Hsplit : match (if neg then ["-"%char] else []) ++ ip ++ point_text fp ++ exp_text ex with
    | c :: s' => if Ascii.eqb c "-"%char then (true, s')
                 else (false, (if neg then ["-"%char] else []) ++ ip ++ point_text fp ++ exp_text ex)
    | [] => (false, (if neg then ["-"%char] else []) ++ ip ++ point_text fp ++ exp_text ex)
    end = (neg, ip ++ point_text fp ++ exp_text ex)).
  { destruct neg; [done|]. pose proof (no_minus ip Hid). destruct ip as [|c ip]; [done|]. simpl in *. by rewrite H. }
  rewrite Hsplit. clear Hsplit.
  assert (Hn1 : no_digit (exp_text ex)) by (destruct ex as [[? ?]|]; [right; vm_compute; done|done]).
  assert (Hn2 : no_digit (point_text fp ++ exp_text ex)) by (destruct fp; [done|left; vm_compute; done]).
  rewrite take_digits_app by done.
  assert (Hfrac : match point_text fp ++ exp_text ex with
    | c :: s' => if Ascii.eqb c "."%char then take_digits s' else ([], point_text fp ++ exp_text ex)
    | [] => ([], point_text fp ++ exp_text ex) end = (fp, exp_text ex)).
  { destruct fp as [|f fp]; [by destruct ex as [[? ?]|]|]. cbn [point_text app].
    change (Ascii.eqb "." ".") with true. cbv iota. exact (take_digits_app (f :: fp) _ Hf Hn1). }
  rewrite Hfrac, dec_exponent_text. fold (ratio_bits (dec_value (ip ++ fp)) (exp_value ex - zlen fp)).
  destruct neg; lia.
Qed.

(** ** The four forms *)

(** The same number with [z] zeros appended. *)
Lemma ratio_bits_round b D dx z :
  pos_double b -> 0 < D -> 0 <= z ->
  rounds_to b (D * 10 ^ Z.max dx 0) (10 ^ Z.max (- dx) 0) -> ratio_bits (D * 10 ^ z) (dx - z) = b.
Proof.
  intros Hb HD Hz Hr. assert (Hzp : 0 < D * 10 ^ z) by (apply Z.mul_pos_pos; [done|apply Z.pow_pos_nonneg; lia]).
  assert (Hdp : 0 < 10 ^ Z.max (- dx) 0) by (apply Z.pow_pos_nonneg; lia).
  unfold ratio_bits. rewrite (proj2 (Z.eqb_neq _ 0)) by lia. destruct (Z.leb_spec 0 (dx - z)) as [He|He].
  - apply double_of_ratio_round; [|lia|done|].
    + apply Z.mul_pos_pos; [done|apply Z.pow_pos_nonneg; lia].
    + eapply rounds_to_cross; [exact Hdp|lia| |exact Hr].
      rewrite <- !Z.mul_assoc. f_equal. rewrite Z.mul_1_r, <- !Z.pow_add_r by lia. f_equal. lia.
  - assert (0 < 10 ^ (- (dx - z))) by (apply Z.pow_pos_nonneg; lia).
    apply double_of_ratio_round; [done|done|done|].
    eapply rounds_to_cross; [exact Hdp|done| |exact Hr].
    rewrite <- !Z.mul_assoc. f_equal. rewrite <- !Z.pow_add_r by lia. f_equal. lia.
Qed.

Lemma all_digits_zeros n : all_digits (replicate n (digit_char 0)).
Proof. apply Forall_replicate. vm_compute. by split. Qed.

Lemma dec_value_zeros n : dec_value (replicate n (digit_char 0)) = 0.
Proof.
  unfold dec_value. induction n as [|n IH]; [done|]. exact IH.
Qed.

Lemma zlen_replicate n (c : ascii) : zlen (replicate n c) = Z.of_nat n.
Proof. unfold zlen. by rewrite length_replicate. Qed.

Lemma dec_value_digit d : 0 <= d <= 9 -> dec_value [digit_char d] = d.
Proof. intros H. unfold dec_value, digit_char. simpl. unfold digit_val. rewrite ord_chr_small; lia. Qed.

(** The two or three digits of the exponent. *)
Lemma exponent_digits k :
  0 <= k < 1000 ->
  exists ds, all_digits ds /\ ds <> [] /\ dec_value ds = k /\
    forall p, (if k <? 10 then p ++ [digit_char 0; digit_char k]
      else if k <? 100 then p ++ [digit_char (k / 10); digit_char (k mod 10)]
      else p ++ [digit_char (k / 100); digit_char (k mod 100 / 10); digit_char (k mod 100 mod 10)]) = p ++ ds.
Proof.
  intros Hk. assert (Hdig : forall d, 0 <= d <= 9 -> 48 <= ord (digit_char d) <= 57).
  { intros d Hd. unfold digit_char. rewrite ord_chr_small; lia. }
  assert (Hval : forall d, 0 <= d <= 9 -> digit_val (digit_char d) = d).
  { intros d Hd. unfold digit_char, digit_val. rewrite ord_chr_small; lia. }
  destruct (Z.ltb_spec k 10); [|destruct (Z.ltb_spec k 100)]; eexists; split_and!;
    try (intros p; reflexivity); try done;
    try (repeat constructor; apply Hdig; Z.div_mod_to_equations; lia);
    unfold dec_value; cbn [fold_left]; rewrite !Hval by (Z.div_mod_to_equations; lia);
    Z.div_mod_to_equations; lia.
Qed.

(** The exponent appended is read back. *)
Lemma append_exponent_text buf x :
  -1000 < x < 1000 ->
  exists ds, all_digits ds /\ ds <> [] /\ exp_value (Some (x <? 0, ds)) = x /\
    append_exponent (buf ++ $"e") x = buf ++ exp_text (Some (x <? 0, ds)).
Proof.
  intros Hx. unfold append_exponent. destruct (exponent_digits (Z.abs x)) as (ds & Hd & Hne & Hv & E); [lia|].
  exists ds. unfold exp_value, exp_text. rewrite Hv. destruct (Z.ltb_spec x 0) as [Hlt|Hge]; cbv zeta.
  - rewrite Z.abs_neq in * by lia. rewrite u32_small, E, <- !app_assoc by lia. split_and!; try done; lia.
  - rewrite Z.abs_eq in * by lia. rewrite u32_small, E, <- !app_assoc by lia. split_and!; try done; lia.
Qed.

Lemma digits_ok_pos s : digits_ok s -> 0 < dec_value s.
Proof.
  intros [Ha (c & t & -> & Hc)]. apply Forall_cons in Ha as [_ Ha].
  change (c :: t) with ([c] ++ t). rewrite dec_value_app. pose proof (dec_value_nonneg t Ha).
  assert (0 < 10 ^ zlen t) by (apply Z.pow_pos_nonneg; [lia|apply zlen_nonneg]).
  assert (Hv : dec_value [c] = ord c - 48) by done. rewrite Hv. nia.
Qed.

Lemma digits_ok_app s t : digits_ok s -> all_digits t -> digits_ok (s ++ t).
Proof.
  intros [Ha (c & u & -> & Hc)] Ht. split; [by apply Forall_app|]. exists c, (u ++ t). done.
Qed.

(** A prefix of the digits. *)
Lemma digits_ok_take n s : digits_ok s -> (0 < n)%nat -> digits_ok (take n s) /\ all_digits (drop n s).
Proof.
  intros [Ha (c & u & -> & Hc)] Hn. destruct n as [|n]; [lia|]. split.
  - split; [by apply Forall_take|]. exists c, (take n u). done.
  - by apply Forall_drop.
Qed.

(** The digits and the decimal exponent written by [format_buffer]. *)
Lemma format_buffer_text buf dx :
  digits_ok buf -> -323 <= zlen buf + dx <= 310 ->
  exists ip fp ex z, format_buffer buf dx (-4) 15 = float_text false ip fp ex /\ float_ok ip fp ex /\
    0 <= z /\ dec_value (ip ++ fp) = dec_value buf * 10 ^ z /\ exp_value ex - zlen fp = dx - z.
Proof.
  intros Hd Hn. unfold format_buffer. cbv zeta.
  assert (Hk : 1 <= zlen buf) by (destruct Hd as [_ (c & u & -> & _)]; rewrite zlen_cons; pose proof (zlen_nonneg u); lia).
  set (k := zlen buf) in *. set (n := k + dx) in *.
  destruct ((k <=? n) && (n <=? 15)) eqn:E1; [|destruct ((0 <? n) && (n <=? 15)) eqn:E2;
    [|destruct ((-4 <? n) && (n <=? 0)) eqn:E3]]; bool_hyps.
  - exists (buf ++ replicate (Z.to_nat (n - k)) (digit_char 0)), $"0", None, (dx + 1).
    split_and!; [by unfold float_text; cbn [app point_text exp_text]; rewrite <- app_assoc| |lia|..].
    + split; [right; apply digits_ok_app; [done|apply all_digits_zeros]|]. split; [apply (all_digits_zeros 1)|done].
    + rewrite !dec_value_app, dec_value_zeros, zlen_replicate. change (zlen $"0") with 1.
      change (dec_value $"0") with 0. rewrite Z.pow_add_r by lia. rewrite Z2Nat.id by lia.
      replace (n - k) with dx by lia. lia.
    + change (zlen $"0") with 1. simpl. lia.
  - destruct (digits_ok_take (Z.to_nat n) buf Hd ltac:(lia)) as [Ht Hdr].
    assert (Hnk : n < k) by (apply andb_false_iff in E1 as [?|?]; bool_hyps; lia).
    assert (Hl : zlen (drop (Z.to_nat n) buf) = k - n) by (unfold n, k, zlen in *; rewrite length_drop; lia).
    exists (take (Z.to_nat n) buf), (drop (Z.to_nat n) buf), None, 0.
    assert (Hne : drop (Z.to_nat n) buf <> []) by (intros Hx; rewrite Hx, zlen_nil in Hl; lia).
    split_and!; [|split; [by right|done]|lia|..].
    + unfold float_text. simpl. destruct (drop _ _); [done|]. simpl. by rewrite app_nil_r.
    + rewrite take_drop. lia.
    + rewrite Hl. simpl. lia.
  - exists $"0", (replicate (Z.to_nat (- n)) (digit_char 0) ++ buf), None, 0.
    assert (Hne : replicate (Z.to_nat (- n)) (digit_char 0) ++ buf <> []).
    { intros Hx. apply app_eq_nil in Hx as [_ ->]. unfold k in Hk. rewrite zlen_nil in Hk. lia. }
    split_and!; [|split; [by left|split; [|done]]|lia|..].
    + unfold float_text. simpl. destruct (_ ++ buf); [done|]. simpl. by rewrite app_nil_r.
    + apply Forall_app. split; [apply all_digits_zeros|apply Hd].
    + rewrite !dec_value_app, dec_value_zeros. change (dec_value $"0") with 0. lia.
    + rewrite zlen_app, zlen_replicate. fold k. simpl. lia.
  - destruct (append_exponent_text (if k =? 1 then buf else take 1 buf ++ $"." ++ drop 1 buf) (n - 1))
      as (ds & Hds & Hne & Hv & ->); [lia|].
    destruct (digits_ok_take 1 buf Hd ltac:(lia)) as [Ht Hdr].
    exists (take 1 buf), (drop 1 buf), (Some (n - 1 <? 0, ds)), 0.
    assert (Hl : zlen (drop 1 buf) = k - 1) by (unfold k, zlen in *; rewrite length_drop; lia).
    split_and!; [|split; [by right|done]|lia|..].
    + unfold float_text. cbn [app]. destruct Hd as [_ (c & u & -> & _)]. cbn [take drop] in *. rewrite drop_0, take_0 in *.
      destruct (Z.eqb_spec k 1) as [E|E].
      * assert (u = []) as -> by (destruct u; [done|]; rewrite zlen_cons in Hl; pose proof (zlen_nonneg u); lia). done.
      * destruct u; [rewrite zlen_nil in Hl; lia|]. cbn [point_text app]. by rewrite <- !app_assoc.
    + rewrite take_drop. lia.
    + rewrite Hl, Hv. lia.
Qed.

(** ** Reading a double back *)

Lemma double_sign_spec b : 0 <= b < 2 ^ 64 -> double_sign b = (2 ^ 63 <=? b).
Proof.
  intros Hb. unfold double_sign. rewrite Z.testbit_odd, Z.shiftr_div_pow2 by lia.
  destruct (Z.leb_spec (2 ^ 63) b).
  - assert (b / 2 ^ 63 = 1) as -> by (Z.div_mod_to_equations; lia). done.
  - assert (b / 2 ^ 63 = 0) as -> by (Z.div_mod_to_equations; lia). done.
Qed.

Lemma isfinite_spec b :
  0 <= b < 2 ^ 64 -> isfinite b = true -> b mod 2 ^ 63 < 2047 * 2 ^ 52.
Proof.
  intros Hb. unfold isfinite, double_exp. change 0x7FF with (Z.ones 11).
  rewrite Z.shiftr_div_pow2, Z.land_ones by lia. intros H. bool_hyps. change (Z.ones 11) with 2047 in *.
  change (2 ^ 63) with (2 ^ 52 * 2 ^ 11). rewrite Z.rem_mul_r by lia.
  pose proof (Z.mod_pos_bound (b / 2 ^ 52) (2 ^ 11)). pose proof (Z.mod_pos_bound b (2 ^ 52)). lia.
Qed.

(** The text of a finite double is a floating-point token of its value. *)
Lemma to_chars_token b :
  0 <= b < 2 ^ 64 -> isfinite b = true ->
  exists ip fp ex, to_chars b = float_text (2 ^ 63 <=? b) ip fp ex /\ float_ok ip fp ex /\
    strtod (float_text (2 ^ 63 <=? b) ip fp ex) = b.
Proof.
  intros Hb Hfin. pose proof (isfinite_spec b Hb Hfin) as Hm. unfold to_chars. rewrite double_sign_spec by done.
  set (neg := 2 ^ 63 <=? b). set (v := b mod 2 ^ 63) in *.
  assert (Ev : (if neg then ($"-", b - 2 ^ 63) else ([], b)) = (if neg then ["-"%char] else [], v)).
  { unfold neg, v. destruct (Z.leb_spec (2 ^ 63) b); f_equal; Z.div_mod_to_equations; lia. }
  assert (Eb : b = (if neg then 2 ^ 63 else 0) + v).
  { unfold neg, v. destruct (Z.leb_spec (2 ^ 63) b); Z.div_mod_to_equations; lia. }
  assert (Hv : 0 <= v) by (unfold v; Z.div_mod_to_equations; lia).
  rewrite Ev. clearbody neg v. clear Ev. destruct (Z.eqb_spec v 0) as [-> |Hv0].
  - assert (Hok : float_ok $"0" $"0" None).
    { split; [by left|]. split; [apply (all_digits_zeros 1)|done]. }
    exists $"0", $"0", None. split; [done|]. split; [done|]. rewrite strtod_float_text by done.
    rewrite Eb. done.
  - assert (Hp : pos_double v) by (unfold pos_double; lia).
    pose proof (grisu2_spec v Hp) as Hg. destruct (grisu2 v) as [buf dx]. destruct Hg as (Hd & Hl & Hr).
    destruct (format_buffer_text buf dx Hd Hl) as (ip & fp & ex & z & E & Hok & Hz & Hval & Hexp).
    exists ip, fp, ex. split; [by rewrite E|]. split; [done|]. rewrite strtod_float_text by done.
    rewrite Hval, Hexp, (ratio_bits_round v) by (try done; by apply digits_ok_pos). done.
Qed.

(** C5: Reading back the text the serializer writes for a finite double, with
    [strtod], gives exactly that double, bit for bit, the two zeros, the
    subnormal numbers and the largest ones included: the digits the Grisu2
    code generates always lie inside the rounding interval of the double. *)
Theorem to_chars_reads_back b : 0 <= b < 2 ^ 64 -> isfinite b = true -> strtod (to_chars b) = b.
Proof.
  intros Hb Hf. destruct (to_chars_token b Hb Hf) as (ip & fp & ex & -> & _ & H). exact H.
Qed.

Lemma to_chars_reads_back_witness :
  0 <= 0x7FEFFFFFFFFFFFFF < 2 ^ 64 /\ strtod (to_chars 0x7FEFFFFFFFFFFFFF) = 0x7FEFFFFFFFFFFFFF.
Proof. split; [lia|]. apply (to_chars_reads_back 0x7FEFFFFFFFFFFFFF); [lia|reflexivity]. Defined.
