(* ===== verification/JsonLexer.v ===== *)
(** * The JSON lexer (class detail::lexer of include/nlohmann/json.hpp)

    The daemon parses what it receives with [nlohmann::json::parse] on a
    [std::string].  The lexer is a state machine over its members; an operation
    is a function of the state that returns a value and the new state, [None]
    standing for a loop that runs out of its bound ([scan_total] shows that it
    never does).  Error messages are kept, since the parser puts them into its
    exceptions. *)

From S2P Require Import Prelude JsonNumber.

(** ** State *)

Inductive token_type :=
  | uninitialized | literal_true | literal_false | literal_null | value_string
  | value_unsigned | value_integer | value_float | begin_array | begin_object
  | end_array | end_object | name_separator | value_separator | tok_parse_error
  | end_of_input | literal_or_value.

#[export] Instance token_type_eq_dec : EqDecision token_type.
Proof. solve_decision. Defined.

Record position_t := Position {
  chars_read_total : Z;
  chars_read_current_line : Z;
  lines_read : Z
}.

Record lexer := Lexer {
  ia : str;                       (* what the input adapter has left *)
  current : Z;
  next_unget : bool;
  position : position_t;
  token_string : str;
  token_buffer : str;
  error_message : str;
  lex_integer : Z;
  lex_unsigned : Z;
  lex_float : Z                   (* the bits of the double *)
}.

(** [std::char_traits<char>::eof()] *)
Definition EOF : Z := -1.

Definition new_lexer (input : str) : lexer :=
  Lexer input EOF false (Position 0 0 0) [] [] [] 0 0 0.

(** ** The state monad *)

Definition lex (A : Type) : Type := lexer -> option (A * lexer).

#[export] Instance lex_ret : MRet lex := fun A a s => Some (a, s).
#[export] Instance lex_bind : MBind lex := fun A B f m s =>
  match m s with Some (a, s') => f a s' | None => None end.

Definition with_state {A} (k : lexer -> lex A) : lex A := fun s => k s s.

Definition lex_stuck {A} : lex A := fun _ => None.

(** ** Input management *)

Definition upd_get (cur : Z) (rest : str) (s : lexer) : lexer :=
  let p := position s in
  let p := Position (chars_read_total p + 1) (chars_read_current_line p + 1) (lines_read p) in
  let ts := if cur =? EOF then token_string s else token_string s ++ [chr cur] in
  let p := if cur =? 10 then Position (chars_read_total p) 0 (lines_read p + 1) else p in
  Lexer rest cur false p ts (token_buffer s) (error_message s)
    (lex_integer s) (lex_unsigned s) (lex_float s).

(** [get()]: the character to be read again, or the next one of the input
    adapter. *)
Definition get : lex Z := fun s =>
  if next_unget s then Some (current s, upd_get (current s) (ia s) s)
  else
    match ia s with
    | c :: rest => Some (ord c, upd_get (ord c) rest s)
    | [] => Some (EOF, upd_get EOF [] s)
    end.

Definition unget : lex unit := fun s =>
  let p := position s in
  let p :=
    if chars_read_current_line p =? 0 then
      Position (chars_read_total p - 1) 0
        (if 0 <? lines_read p then lines_read p - 1 else lines_read p)
    else Position (chars_read_total p - 1) (chars_read_current_line p - 1) (lines_read p) in
  let ts := if current s =? EOF then token_string s else removelast (token_string s) in
  Some (tt, Lexer (ia s) (current s) true p ts (token_buffer s) (error_message s)
              (lex_integer s) (lex_unsigned s) (lex_float s)).

Definition add (c : Z) : lex unit := fun s =>
  Some (tt, Lexer (ia s) (current s) (next_unget s) (position s) (token_string s)
              (token_buffer s ++ [chr c]) (error_message s)
              (lex_integer s) (lex_unsigned s) (lex_float s)).

(** [reset()]; [current] is the first character of the token. *)
Definition reset : lex unit := fun s =>
  Some (tt, Lexer (ia s) (current s) (next_unget s) (position s) [chr (current s)] []
              (error_message s) (lex_integer s) (lex_unsigned s) (lex_float s)).

(** [error_message = m; return token_type::parse_error;] *)
Definition fail_with (m : str) : lex token_type := fun s =>
  Some (tok_parse_error,
        Lexer (ia s) (current s) (next_unget s) (position s) (token_string s) (token_buffer s) m
          (lex_integer s) (lex_unsigned s) (lex_float s)).

Definition fail_some (m : str) : lex (option token_type) :=
  t ← fail_with m; mret (Some t).

Definition get_current : lex Z := fun s => Some (current s, s).

(** ** Strings *)

Fixpoint codepoint_loop (factors : list Z) (codepoint : Z) : lex Z :=
  match factors with
  | [] => mret codepoint
  | factor :: factors' =>
      c ← get;
      if (48 <=? c) && (c <=? 57) then
        codepoint_loop factors' (codepoint + Z.shiftl (c - 0x30) factor)
      else if (65 <=? c) && (c <=? 70) then
        codepoint_loop factors' (codepoint + Z.shiftl (c - 0x37) factor)
      else if (97 <=? c) && (c <=? 102) then
        codepoint_loop factors' (codepoint + Z.shiftl (c - 0x57) factor)
      else mret (-1)
  end.

Definition get_codepoint : lex Z := codepoint_loop [12; 8; 4; 0] 0.

Fixpoint ranges_loop (ranges : list (Z * Z)) : lex bool :=
  match ranges with
  | [] => mret true
  | (lo, hi) :: ranges' =>
      c ← get;
      if (lo <=? c) && (c <=? hi) then _ ← add c; ranges_loop ranges'
      else _ ← fail_with $"invalid string: ill-formed UTF-8 byte"; mret false
  end.

Definition next_byte_in_range (ranges : list (Z * Z)) : lex bool :=
  c ← get_current; _ ← add c; ranges_loop ranges.

(** The bytes of a code point, in the order they are added. *)
Definition add_utf8 (codepoint : Z) : lex unit :=
  if codepoint <? 0x80 then add codepoint
  else if codepoint <=? 0x7FF then
    _ ← add (Z.lor 0xC0 (Z.shiftr codepoint 6));
    add (Z.lor 0x80 (Z.land codepoint 0x3F))
  else if codepoint <=? 0xFFFF then
    _ ← add (Z.lor 0xE0 (Z.shiftr codepoint 12));
    _ ← add (Z.lor 0x80 (Z.land (Z.shiftr codepoint 6) 0x3F));
    add (Z.lor 0x80 (Z.land codepoint 0x3F))
  else
    _ ← add (Z.lor 0xF0 (Z.shiftr codepoint 18));
    _ ← add (Z.lor 0x80 (Z.land (Z.shiftr codepoint 12) 0x3F));
    _ ← add (Z.lor 0x80 (Z.land (Z.shiftr codepoint 6) 0x3F));
    add (Z.lor 0x80 (Z.land codepoint 0x3F)).

Definition msg_hex4 : str := $"invalid string: '\u' must be followed by 4 hex digits".
Definition msg_surrogate_high : str :=
  $"invalid string: surrogate U+D800..U+DBFF must be followed by U+DC00..U+DFFF".
Definition msg_surrogate_low : str :=
  $"invalid string: surrogate U+DC00..U+DFFF must follow U+D800..U+DBFF".

(** [case 'u':] of the escapes; [None] when the character was added. *)
Definition scan_unicode_escape : lex (option token_type) :=
  codepoint1 ← get_codepoint;
  if codepoint1 =? -1 then fail_some msg_hex4
  else if (0xD800 <=? codepoint1) && (codepoint1 <=? 0xDBFF) then
    c ← get;
    if negb (c =? 92) then fail_some msg_surrogate_high
    else
      c' ← get;
      if negb (c' =? 117) then fail_some msg_surrogate_high
      else
        codepoint2 ← get_codepoint;
        if codepoint2 =? -1 then fail_some msg_hex4
        else if (0xDC00 <=? codepoint2) && (codepoint2 <=? 0xDFFF) then
          _ ← add_utf8 (u32 (u32 (Z.shiftl codepoint1 10) + codepoint2 - 0x35FDC00));
          mret None
        else fail_some msg_surrogate_high
  else if (0xDC00 <=? codepoint1) && (codepoint1 <=? 0xDFFF) then
    fail_some msg_surrogate_low
  else _ ← add_utf8 codepoint1; mret None.

(** [case '\\':] of the string; [None] when the string goes on. *)
Definition scan_escape : lex (option token_type) :=
  c ← get;
  if c =? 34 then _ ← add 34; mret None
  else if c =? 92 then _ ← add 92; mret None
  else if c =? 47 then _ ← add 47; mret None
  else if c =? 98 then _ ← add 8; mret None
  else if c =? 102 then _ ← add 12; mret None
  else if c =? 110 then _ ← add 10; mret None
  else if c =? 114 then _ ← add 13; mret None
  else if c =? 116 then _ ← add 9; mret None
  else if c =? 117 then scan_unicode_escape
  else fail_some $"invalid string: forbidden character after backslash".

(** The messages for the control characters 0x00 to 0x1F. *)
Definition control_messages : list str :=
  [
   $"invalid string: control character U+0000 (NUL) must be escaped to \u0000";
   $"invalid string: control character U+0001 (SOH) must be escaped to \u0001";
   $"invalid string: control character U+0002 (STX) must be escaped to \u0002";
   $"invalid string: control character U+0003 (ETX) must be escaped to \u0003";
   $"invalid string: control character U+0004 (EOT) must be escaped to \u0004";
   $"invalid string: control character U+0005 (ENQ) must be escaped to \u0005";
   $"invalid string: control character U+0006 (ACK) must be escaped to \u0006";
   $"invalid string: control character U+0007 (BEL) must be escaped to \u0007";
   $"invalid string: control character U+0008 (BS) must be escaped to \u0008 or \b";
   $"invalid string: control character U+0009 (HT) must be escaped to \u0009 or \t";
   $"invalid string: control character U+000A (LF) must be escaped to \u000A or \n";
   $"invalid string: control character U+000B (VT) must be escaped to \u000B";
   $"invalid string: control character U+000C (FF) must be escaped to \u000C or \f";
   $"invalid string: control character U+000D (CR) must be escaped to \u000D or \r";
   $"invalid string: control character U+000E (SO) must be escaped to \u000E";
   $"invalid string: control character U+000F (SI) must be escaped to \u000F";
   $"invalid string: control character U+0010 (DLE) must be escaped to \u0010";
   $"invalid string: control character U+0011 (DC1) must be escaped to \u0011";
   $"invalid string: control character U+0012 (DC2) must be escaped to \u0012";
   $"invalid string: control character U+0013 (DC3) must be escaped to \u0013";
   $"invalid string: control character U+0014 (DC4) must be escaped to \u0014";
   $"invalid string: control character U+0015 (NAK) must be escaped to \u0015";
   $"invalid string: control character U+0016 (SYN) must be escaped to \u0016";
   $"invalid string: control character U+0017 (ETB) must be escaped to \u0017";
   $"invalid string: control character U+0018 (CAN) must be escaped to \u0018";
   $"invalid string: control character U+0019 (EM) must be escaped to \u0019";
   $"invalid string: control character U+001A (SUB) must be escaped to \u001A";
   $"invalid string: control character U+001B (ESC) must be escaped to \u001B";
   $"invalid string: control character U+001C (FS) must be escaped to \u001C";
   $"invalid string: control character U+001D (GS) must be escaped to \u001D";
   $"invalid string: control character U+001E (RS) must be escaped to \u001E";
   $"invalid string: control character U+001F (US) must be escaped to \u001F"].

Definition control_char (c : Z) : option str :=
  if 0 <=? c then control_messages !! Z.to_nat c else None.

(** 0x20 to 0x7F without the quote and the backslash. *)
Definition plain_char (c : Z) : bool :=
  (0x20 <=? c) && (c <=? 0x7F) && negb (c =? 0x22) && negb (c =? 0x5C).

(** The ranges of the bytes that follow a lead byte. *)
Definition utf8_ranges (c : Z) : option (list (Z * Z)) :=
  if (0xC2 <=? c) && (c <=? 0xDF) then Some [(0x80, 0xBF)]
  else if c =? 0xE0 then Some [(0xA0, 0xBF); (0x80, 0xBF)]
  else if ((0xE1 <=? c) && (c <=? 0xEC)) || ((c =? 0xEE) || (c =? 0xEF)) then
    Some [(0x80, 0xBF); (0x80, 0xBF)]
  else if c =? 0xED then Some [(0x80, 0x9F); (0x80, 0xBF)]
  else if c =? 0xF0 then Some [(0x90, 0xBF); (0x80, 0xBF); (0x80, 0xBF)]
  else if (0xF1 <=? c) && (c <=? 0xF3) then Some [(0x80, 0xBF); (0x80, 0xBF); (0x80, 0xBF)]
  else if c =? 0xF4 then Some [(0x80, 0x8F); (0x80, 0xBF); (0x80, 0xBF)]
  else None.

Fixpoint scan_string_loop (fuel : nat) : lex token_type :=
  match fuel with
  | O => lex_stuck
  | S fuel' =>
      c ← get;
      if c =? EOF then fail_with $"invalid string: missing closing quote"
      else if c =? 34 then mret value_string
      else if c =? 92 then
        r ← scan_escape;
        match r : option token_type with Some t => mret t | None => scan_string_loop fuel' end
      else
        match control_char c with
        | Some m => fail_with m
        | None =>
            if plain_char c then _ ← add c; scan_string_loop fuel'
            else
              match utf8_ranges c with
              | Some ranges =>
                  ok ← next_byte_in_range ranges;
                  if ok : bool then scan_string_loop fuel' else mret tok_parse_error
              | None => fail_with $"invalid string: ill-formed UTF-8 byte"
              end
        end
  end.

(** The number of characters [get] can still return before [EOF]. *)
Definition lex_left (s : lexer) : nat := (length (ia s) + (if next_unget s then 1 else 0))%nat.

Definition scan_string : lex token_type :=
  _ ← reset; with_state (fun s => scan_string_loop (S (lex_left s))).

(** ** Numbers *)

(** The labels of [scan_number]. *)
Inductive num_state :=
  | scan_number_minus | scan_number_zero | scan_number_any1 | scan_number_decimal1
  | scan_number_decimal2 | scan_number_exponent | scan_number_sign | scan_number_any2.

Definition is_digit (c : Z) : bool := (48 <=? c) && (c <=? 57).
Definition is_digit19 (c : Z) : bool := (49 <=? c) && (c <=? 57).
Definition is_e (c : Z) : bool := (c =? 101) || (c =? 69).

(** What a label does with the character it reads: add it and go on at a
    label, add the decimal point and go on, go to [scan_number_done], or
    fail. *)
Inductive num_next :=
  | Goto (l : num_state)
  | NumDone
  | NumError (m : str).

Definition num_step (l : num_state) (c : Z) : num_next :=
  match l with
  | scan_number_minus =>
      if c =? 48 then Goto scan_number_zero
      else if is_digit19 c then Goto scan_number_any1
      else NumError $"invalid number; expected digit after '-'"
  | scan_number_zero =>
      if c =? 46 then Goto scan_number_decimal1
      else if is_e c then Goto scan_number_exponent
      else NumDone
  | scan_number_any1 =>
      if is_digit c then Goto scan_number_any1
      else if c =? 46 then Goto scan_number_decimal1
      else if is_e c then Goto scan_number_exponent
      else NumDone
  | scan_number_decimal1 =>
      if is_digit c then Goto scan_number_decimal2
      else NumError $"invalid number; expected digit after '.'"
  | scan_number_decimal2 =>
      if is_digit c then Goto scan_number_decimal2
      else if is_e c then Goto scan_number_exponent
      else NumDone
  | scan_number_exponent =>
      if (c =? 43) || (c =? 45) then Goto scan_number_sign
      else if is_digit c then Goto scan_number_any2
      else NumError $"invalid number; expected '+', '-', or digit after exponent"
  | scan_number_sign =>
      if is_digit c then Goto scan_number_any2
      else NumError $"invalid number; expected digit after exponent sign"
  | scan_number_any2 =>
      if is_digit c then Goto scan_number_any2 else NumDone
  end.

(** The assignment to [number_type] at a label. *)
Definition num_type (l : num_state) (number_type : token_type) : token_type :=
  match l with
  | scan_number_minus => value_integer
  | scan_number_decimal1 | scan_number_exponent => value_float
  | _ => number_type
  end.

Definition set_number (t : token_type) (v : Z) : lex token_type := fun s =>
  Some (t, Lexer (ia s) (current s) (next_unget s) (position s) (token_string s) (token_buffer s)
             (error_message s)
             (match t with value_integer => v | _ => lex_integer s end)
             (match t with value_unsigned => v | _ => lex_unsigned s end)
             (match t with value_float => v | _ => lex_float s end)).

(** [scan_number_done]: the conversion of the bytes read. *)
Definition scan_number_done (number_type : token_type) : lex token_type :=
  _ ← unget;
  with_state (fun s =>
    let as_float := set_number value_float (strtod (token_buffer s)) in
    match number_type with
    | value_unsigned =>
        match strtoull (token_buffer s) with
        | Some x => set_number value_unsigned x
        | None => as_float
        end
    | value_integer =>
        match strtoll (token_buffer s) with
        | Some x => set_number value_integer x
        | None => as_float
        end
    | _ => as_float
    end).

Fixpoint num_loop (fuel : nat) (l : num_state) (number_type : token_type) : lex token_type :=
  match fuel with
  | O => lex_stuck
  | S fuel' =>
      let number_type := num_type l number_type in
      c ← get;
      match num_step l c with
      | Goto l' => _ ← add c; num_loop fuel' l' number_type
      | NumDone => scan_number_done number_type
      | NumError m => fail_with m
      end
  end.

Definition scan_number : lex token_type :=
  _ ← reset;
  c ← get_current;
  _ ← add c;
  with_state (fun s =>
    num_loop (S (lex_left s))
      (if c =? 45 then scan_number_minus
       else if c =? 48 then scan_number_zero else scan_number_any1) value_unsigned).

(** ** The scanner *)

Fixpoint literal_loop (text : list Z) (return_type : token_type) : lex token_type :=
  match text with
  | [] => mret return_type
  | t :: text' =>
      c ← get;
      if negb (u8 c =? t) then fail_with $"invalid literal"
      else literal_loop text' return_type
  end.

(** [scan_literal]: the first character has been read. *)
Definition scan_literal (literal_text : str) (return_type : token_type) : lex token_type :=
  literal_loop (ord <$> tail literal_text) return_type.

Definition skip_bom : lex bool :=
  c ← get;
  if c =? 0xEF then
    c2 ← get;
    if c2 =? 0xBB then c3 ← get; mret (c3 =? 0xBF) else mret false
  else _ ← unget; mret true.

Definition is_space (c : Z) : bool := (c =? 32) || (c =? 9) || (c =? 10) || (c =? 13).

Fixpoint skip_whitespace_loop (fuel : nat) : lex unit :=
  match fuel with
  | O => lex_stuck
  | S fuel' => c ← get; if is_space c then skip_whitespace_loop fuel' else mret tt
  end.

Definition skip_whitespace : lex unit := with_state (fun s => skip_whitespace_loop (S (lex_left s))).

(** The [switch (current)] of [scan()]. *)
Definition scan_token : lex token_type :=
  c ← get_current;
  if c =? 91 then mret begin_array
  else if c =? 93 then mret end_array
  else if c =? 123 then mret begin_object
  else if c =? 125 then mret end_object
  else if c =? 58 then mret name_separator
  else if c =? 44 then mret value_separator
  else if c =? 116 then scan_literal $"true" literal_true
  else if c =? 102 then scan_literal $"false" literal_false
  else if c =? 110 then scan_literal $"null" literal_null
  else if c =? 34 then scan_string
  else if (c =? 45) || is_digit c then scan_number
  else if (c =? 0) || (c =? EOF) then mret end_of_input
  else fail_with $"invalid literal".

(** [scan()], with [ignore_comments] false. *)
Definition lex_scan : lex token_type := with_state (fun s =>
  if chars_read_total (position s) =? 0 then
    ok ← skip_bom;
    if ok : bool then _ ← skip_whitespace; scan_token
    else fail_with $"invalid BOM; must be 0xEF 0xBB 0xBF if given"
  else _ ← skip_whitespace; scan_token).

Definition get_string (s : lexer) : str := token_buffer s.
Definition get_number_integer (s : lexer) : Z := lex_integer s.
Definition get_number_unsigned (s : lexer) : Z := lex_unsigned s.
Definition get_number_float (s : lexer) : Z := lex_float s.
