(* ===== verification/JsonValue.v ===== *)
(** * JSON values (basic_json of include/nlohmann/json.hpp)

    The value type with its default template arguments: objects are
    [std::map<std::string, json>] (sorted association lists, StdMap.v), arrays
    are vectors, integers have 64 bits, a float is the bit pattern of a
    double.  The accessors are those the daemon calls. *)

From S2P Require Import Prelude StdMap JsonNumber.

Set Warnings "-register-all".

(** [value_t] and the value it tags; binary values cannot be made from JSON
    text and are left out. *)
Inductive json :=
  | JNull
  | JObject (m : list (str * json))
  | JArray (l : list json)
  | JString (s : str)
  | JBool (b : bool)
  | JInteger (z : Z)       (* int64_t *)
  | JUnsigned (z : Z)      (* uint64_t *)
  | JFloat (bits : Z)
  | JDiscarded.

(** ** Induction *)

Section JsonInd.
Variable P : json -> Prop.
Hypothesis HNull : P JNull.
Hypothesis HObject : forall m, Forall (fun e => P e.2) m -> P (JObject m).
Hypothesis HArray : forall l, Forall P l -> P (JArray l).
Hypothesis HString : forall s, P (JString s).
Hypothesis HBool : forall b, P (JBool b).
Hypothesis HInteger : forall z, P (JInteger z).
Hypothesis HUnsigned : forall z, P (JUnsigned z).
Hypothesis HFloat : forall z, P (JFloat z).
Hypothesis HDiscarded : P JDiscarded.

Fixpoint json_induct (j : json) : P j :=
  match j with
  | JNull => HNull
  | JObject m =>
      HObject m ((fix each (m : list (str * json)) : Forall (fun e => P e.2) m :=
        match m with
        | [] => Forall_nil_2 _
        | e :: m' => Forall_cons_2 _ _ _ (json_induct e.2) (each m')
        end) m)
  | JArray l =>
      HArray l ((fix each (l : list json) : Forall P l :=
        match l with
        | [] => Forall_nil_2 _
        | x :: l' => Forall_cons_2 _ _ _ (json_induct x) (each l')
        end) l)
  | JString s => HString s
  | JBool b => HBool b
  | JInteger z => HInteger z
  | JUnsigned z => HUnsigned z
  | JFloat z => HFloat z
  | JDiscarded => HDiscarded
  end.
End JsonInd.

(** ** Accessors *)

Definition is_object (j : json) : bool := match j with JObject _ => true | _ => false end.

(** [j.at(key)] *)
Definition json_at (j : json) (key : str) : res json :=
  match j with
  | JObject m =>
      match map_find key m with
      | Some v => Ok v
      | None => Throw (out_of_range 403)
      end
  | _ => Throw (type_error 304)
  end.

(** [j[key] = v]: a null becomes an object first. *)
Definition json_set (j : json) (key : str) (v : json) : res json :=
  match j with
  | JNull => Ok (JObject (map_assign key v []))
  | JObject m => Ok (JObject (map_assign key v m))
  | _ => Throw (type_error 305)
  end.

(** [get<std::string>()], [get<bool>()] *)
Definition get_str (j : json) : res str :=
  match j with JString s => Ok s | _ => Throw (type_error 302) end.

Definition get_bool (j : json) : res bool :=
  match j with JBool b => Ok b | _ => Throw (type_error 302) end.

(** The truncation of a finite double toward zero; the conversion of a value
    that does not fit is not defined by C++, [conv] is what the platform
    does with it. *)
Definition double_trunc (b : Z) : Z :=
  let e := double_exp b in
  let m := if e =? 0 then double_man b else double_man b + 2 ^ 52 in
  let sh := (if e =? 0 then 1 else e) - 1075 in
  let v := if 0 <=? sh then Z.shiftl m sh else Z.shiftr m (- sh) in
  if double_sign b then - v else v.

(** [get<T>()] for an arithmetic type other than [bool] and the types of the
    JSON numbers ([int] and, where [int64_t] is [long], [long long]):
    [from_json] accepts booleans too; the result is converted by
    [static_cast]. *)
Definition get_number (conv : Z -> Z) (j : json) : res Z :=
  match j with
  | JUnsigned z => Ok (conv z)
  | JInteger z => Ok (conv z)
  | JFloat b => Ok (conv (double_trunc b))
  | JBool b => Ok (conv (if b then 1 else 0))
  | _ => Throw (type_error 302)
  end.

(** [j.value(key, default)] *)
Definition json_value {A} (get : json -> res A) (j : json) (key : str) (default_value : A) : res A :=
  match j with
  | JObject m =>
      match map_find key m with
      | Some v => get v
      | None => Ok default_value
      end
  | _ => Throw (type_error 306)
  end.

(** ** Well-formed values *)

(** What the members of [basic_json] guarantee: map keys in order, integers
    of 64 bits; a discarded value is not part of another one. *)
Fixpoint json_ok (j : json) : Prop :=
  match j with
  | JObject m =>
      map_sorted m /\
      (fix each (m : list (str * json)) : Prop :=
         match m with [] => True | (k, v) :: m' => json_ok v /\ each m' end) m
  | JArray l =>
      (fix each (l : list json) : Prop :=
         match l with [] => True | v :: l' => json_ok v /\ each l' end) l
  | JInteger z => - 2 ^ 63 <= z < 2 ^ 63
  | JUnsigned z => 0 <= z < 2 ^ 64
  | JFloat b => 0 <= b < 2 ^ 64
  | JDiscarded => False
  | _ => True
  end.

Lemma json_ok_object m : json_ok (JObject m) <-> map_sorted m /\ Forall (fun e => json_ok e.2) m.
Proof.
  simpl. apply and_iff_compat_l. induction m as [|[k v] m IH]; [by split|].
  rewrite Forall_cons, IH. done.
Qed.

Lemma json_ok_array l : json_ok (JArray l) <-> Forall json_ok l.
Proof.
  simpl. induction l as [|v l IH]; [by split|]. rewrite Forall_cons, IH. done.
Qed.
