(* ===== verification/JsonParser.v ===== *)
(** * The JSON parser (classes detail::parser and detail::json_sax_dom_parser)

    [sax_parse_internal] is a loop over tokens with a stack of containers; the
    SAX handler builds the value.  [ref_stack], a stack of pointers to the
    containers being filled, is a stack of these containers, each with the
    position of the next value in its parent: an array grows at its end, an
    object at [object_element]. *)

From S2P Require Import Prelude StdMap JsonNumber JsonValue JsonLexer.

(** ** json_sax_dom_parser *)

(** A container under construction.  [object_element] is the key of the element
    the next value is stored at. *)
Inductive frame :=
  | InArray (elems : list json)
  | InObject (m : list (str * json)) (object_element : str).

Record sax := Sax { root : json; ref_stack : list frame }.

Definition new_sax : sax := Sax JNull [].

(** [handle_value(v)] for a value that is not a container. *)
Definition handle_value (v : json) (s : sax) : sax :=
  match ref_stack s with
  | [] => Sax v []
  | InArray l :: fs => Sax (root s) (InArray (l ++ [v]) :: fs)
  | InObject m k :: fs => Sax (root s) (InObject (map_assign k v m) k :: fs)
  end.

Definition start_object (s : sax) : sax := Sax (root s) (InObject [] [] :: ref_stack s).

Definition start_array (s : sax) : sax := Sax (root s) (InArray [] :: ref_stack s).

(** [key(val)]: adds null at the key. *)
Definition sax_key (k : str) (s : sax) : sax :=
  match ref_stack s with
  | InObject m _ :: fs =>
      Sax (root s)
        (InObject (match map_find k m with Some _ => m | None => map_assign k JNull m end) k :: fs)
  | _ => s
  end.

Definition frame_value (f : frame) : json :=
  match f with InArray l => JArray l | InObject m _ => JObject m end.

(** [end_object()], [end_array()]: the container is complete in its parent. *)
Definition end_container (s : sax) : sax :=
  match ref_stack s with
  | f :: fs => handle_value (frame_value f) (Sax (root s) fs)
  | [] => s
  end.

(** ** parser *)

Record parser := Parser {
  m_lexer : lexer;
  last_token : token_type;
  states : list bool;      (* true = array; the back of the vector is the head *)
  sdp : sax
}.

(** [get_token()]; [None] when the scanner is stuck, which does not happen. *)
Definition get_token (p : parser) : option parser :=
  '(t, l) ← lex_scan (m_lexer p); Some (Parser l t (states p) (sdp p)).

Definition with_sdp (f : sax -> sax) (p : parser) : parser :=
  Parser (m_lexer p) (last_token p) (states p) (f (sdp p)).

Definition with_states (st : list bool) (p : parser) : parser :=
  Parser (m_lexer p) (last_token p) st (sdp p).

(** What an iteration of the loop ends with; exceptions are allowed, so that
    [sax->parse_error] throws. *)
Inductive iteration :=
  | Next (skip_to_state_evaluation : bool) (p : parser)
  | ReturnTrue (p : parser)
  | ThrowParse (e : exn).

(** The key and the separator of an object member, with the key already read;
    then the first token of its value. *)
Definition parse_member (p : parser) (into : parser -> parser) : option iteration :=
  if bool_decide (last_token p <> value_string) then Some (ThrowParse (parse_error 101))
  else
    let p := with_sdp (sax_key (get_string (m_lexer p))) p in
    p ← get_token p;
    if bool_decide (last_token p <> name_separator) then Some (ThrowParse (parse_error 101))
    else p ← get_token (into p); Some (Next false p).

(** The part of the loop after a value was parsed. *)
Definition evaluate_state (p : parser) : option iteration :=
  match states p with
  | [] => Some (ReturnTrue p)
  | true :: st =>
      p ← get_token p;
      if bool_decide (last_token p = value_separator) then
        p ← get_token p; Some (Next false p)
      else if bool_decide (last_token p = end_array) then
        Some (Next true (with_states st (with_sdp end_container p)))
      else Some (ThrowParse (parse_error 101))
  | false :: st =>
      p ← get_token p;
      if bool_decide (last_token p = value_separator) then
        p ← get_token p; parse_member p id
      else if bool_decide (last_token p = end_object) then
        Some (Next true (with_states st (with_sdp end_container p)))
      else Some (ThrowParse (parse_error 101))
  end.

(** The [switch (last_token)]. *)
Definition parse_value (p : parser) : option iteration :=
  let value v := evaluate_state (with_sdp (handle_value v) p) in
  match last_token p with
  | begin_object =>
      let p := with_sdp start_object p in
      p ← get_token p;
      if bool_decide (last_token p = end_object) then evaluate_state (with_sdp end_container p)
      else parse_member p (fun p => with_states (false :: states p) p)
  | begin_array =>
      let p := with_sdp start_array p in
      p ← get_token p;
      if bool_decide (last_token p = end_array) then evaluate_state (with_sdp end_container p)
      else Some (Next false (with_states (true :: states p) p))
  | value_float =>
      let r := get_number_float (m_lexer p) in
      if negb (isfinite r) then Some (ThrowParse (out_of_range 406)) else value (JFloat r)
  | literal_false => value (JBool false)
  | literal_null => value JNull
  | literal_true => value (JBool true)
  | value_integer => value (JInteger (get_number_integer (m_lexer p)))
  | value_string => value (JString (get_string (m_lexer p)))
  | value_unsigned => value (JUnsigned (get_number_unsigned (m_lexer p)))
  | _ => Some (ThrowParse (parse_error 101))
  end.

(** [sax_parse_internal]; [fuel] bounds the number of iterations. *)
Fixpoint sax_parse_internal (fuel : nat) (skip : bool) (p : parser) : option (res parser) :=
  match fuel with
  | O => None
  | S fuel' =>
      match (if skip then evaluate_state p else parse_value p) with
      | None => None
      | Some (Next skip' p') => sax_parse_internal fuel' skip' p'
      | Some (ReturnTrue p') => Some (Ok p')
      | Some (ThrowParse e) => Some (Throw e)
      end
  end.

(** [parser::parse(strict = true, result)], after the constructor has read the
    first token: [None] when a bound is reached, which [json_parse_total]
    excludes. *)
Definition json_parse (input : str) : option (res json) :=
  p ← get_token (Parser (new_lexer input) uninitialized [] new_sax);
  r ← sax_parse_internal (length input + 3) false p;
  match r with
  | Throw e => Some (Throw e)
  | Ok p =>
      p ← get_token p;
      if bool_decide (last_token p <> end_of_input) then Some (Throw (parse_error 101))
      else Some (Ok (root (sdp p)))
  end.
