(* ===== verification/JsonSerializer.v ===== *)
(** * The JSON serializer (class detail::serializer of include/nlohmann/json.hpp)

    [dump] writes to an output string.  The string buffer of [dump_escaped]
    and the indentation string have their size in the state: an access outside
    of them is the result [OutOfBounds].  Floating-point numbers are written by
    [to_chars] (Dtoa.v). *)

From S2P Require Import Prelude StdMap JsonNumber Dtoa JsonValue.

(** ** UTF-8 decoding *)

Definition UTF8_ACCEPT : Z := 0.
Definition UTF8_REJECT : Z := 1.

(** The table [utf8d], row by row: the classes of the bytes, then the
    transitions. *)
Definition utf8d : list Z := Eval vm_compute in
  replicate 128 0 ++
  replicate 16 1 ++ replicate 16 9 ++
  replicate 32 7 ++
  replicate 2 8 ++ replicate 30 2 ++
  [0xA] ++ replicate 12 0x3 ++ [0x4; 0x3; 0x3] ++
  [0xB; 0x6; 0x6; 0x6; 0x5] ++ replicate 11 0x8 ++
  [0x0; 0x1; 0x2; 0x3; 0x5; 0x8; 0x7; 0x1; 0x1; 0x1; 0x4; 0x6; 0x1; 0x1; 0x1; 0x1] ++
  replicate 17 1 ++ [0; 1; 1; 1; 1; 1; 0; 1; 0] ++ replicate 6 1 ++
  [1; 2; 1; 1; 1; 1; 1; 2; 1; 2] ++ replicate 6 1 ++ replicate 7 1 ++ [2] ++ replicate 8 1 ++
  [1; 2; 1; 1; 1; 1; 1; 1; 1; 2] ++ replicate 6 1 ++ replicate 7 1 ++ [3; 1; 3] ++ replicate 6 1 ++
  [1; 3; 1; 1; 1; 1; 1; 3; 1; 3] ++ replicate 6 1 ++ [1; 3] ++ replicate 14 1.

Definition utf8d_at (i : Z) : Z := default 0 (utf8d !! Z.to_nat i).

(** [decode(state, codep, byte)]: the new state and code point. *)
Definition decode (state codep byte : Z) : Z * Z :=
  let type := utf8d_at byte in
  let codep := if negb (state =? UTF8_ACCEPT)
               then u32 (Z.lor (Z.land byte 0x3F) (u32 (Z.shiftl codep 6)))
               else Z.land (Z.shiftr 0xFF type) byte in
  (utf8d_at (256 + state * 16 + type), codep).

(** ** Results *)

Inductive ser_result (A : Type) :=
  | Done (a : A)
  | Thrown (e : exn)
  | OutOfBounds.
Arguments Done {A} a.
Arguments Thrown {A} e.
Arguments OutOfBounds {A}.

#[export] Instance ser_ret : MRet ser_result := fun A a => Done a.
#[export] Instance ser_bind : MBind ser_result := fun A B f m =>
  match m with Done a => f a | Thrown e => Thrown e | OutOfBounds => OutOfBounds end.

(** ** dump_escaped *)

Inductive error_handler_t := strict | replace | ignore.

(** The locals of [dump_escaped]: the bytes written to [string_buffer], and
    what went to the output. *)
Record esc := Esc {
  e_codepoint : Z;
  e_state : Z;
  e_buffer : str;                      (* string_buffer[0 .. bytes) *)
  e_bytes_after_last_accept : nat;
  e_undumped_chars : nat;
  e_out : str
}.

Definition string_buffer_size : nat := 512.

(** [string_buffer[bytes++] = c] for the characters of [cs]. *)
Definition put (cs : str) (buffer : str) : ser_result str :=
  if Nat.ltb string_buffer_size (length buffer + length cs) then OutOfBounds
  else Done (buffer ++ cs).

Definition hex_lower (d : Z) : ascii := chr (if d <? 10 then 48 + d else 87 + d).

(** [snprintf("\\u%04x", v)] without the terminator. *)
Definition u_escape (v : Z) : str :=
  [chr 92; chr 117; hex_lower (Z.shiftr v 12 mod 16); hex_lower (Z.shiftr v 8 mod 16);
   hex_lower (Z.shiftr v 4 mod 16); hex_lower (v mod 16)].

(** The same, through [snprintf], which also writes the terminator. *)
Definition put_printf (cs : str) (buffer : str) : ser_result str :=
  if Nat.ltb string_buffer_size (length buffer + length cs + 1) then OutOfBounds
  else Done (buffer ++ cs).

(** What is written for a complete code point; [byte] is its last byte. *)
Definition escape_codepoint (ensure_ascii : bool) (codepoint : Z) (byte : ascii) (buffer : str)
  : ser_result str :=
  if codepoint =? 0x08 then put [chr 92; "b"%char] buffer
  else if codepoint =? 0x09 then put [chr 92; "t"%char] buffer
  else if codepoint =? 0x0A then put [chr 92; "n"%char] buffer
  else if codepoint =? 0x0C then put [chr 92; "f"%char] buffer
  else if codepoint =? 0x0D then put [chr 92; "r"%char] buffer
  else if codepoint =? 0x22 then put [chr 92; chr 34] buffer
  else if codepoint =? 0x5C then put [chr 92; chr 92] buffer
  else if (codepoint <=? 0x1F) || (ensure_ascii && (0x7F <=? codepoint)) then
    if codepoint <=? 0xFFFF then put_printf (u_escape codepoint) buffer
    else put_printf (u_escape ((0xD7C0 + Z.shiftr codepoint 10) mod 2 ^ 16) ++
                     u_escape ((0xDC00 + Z.land codepoint 0x3FF) mod 2 ^ 16)) buffer
  else put [byte] buffer.

(** [if (string_buffer.size() - bytes < 13) { write; bytes = 0; }] *)
Definition flush (buffer out : str) : str * str :=
  if Nat.ltb (string_buffer_size - length buffer) 13 then ([], out ++ buffer) else (buffer, out).

Definition replacement (ensure_ascii : bool) : str :=
  if ensure_ascii then $"\ufffd" else [chr 0xEF; chr 0xBF; chr 0xBD].

(** One iteration of the loop: the new locals and whether the byte is read
    again ([--i]). *)
Definition esc_step (h : error_handler_t) (ensure_ascii : bool) (byte : ascii) (e : esc)
  : ser_result (esc * bool) :=
  let '(state, codepoint) := decode (e_state e) (e_codepoint e) (ord byte) in
  if state =? UTF8_ACCEPT then
    buffer ← escape_codepoint ensure_ascii codepoint byte (e_buffer e);
    let '(buffer, out) := flush buffer (e_out e) in
    Done (Esc codepoint state buffer (length buffer) 0 out, false)
  else if state =? UTF8_REJECT then
    match h with
    | strict => Thrown (type_error 316)
    | _ =>
        let again := Nat.ltb 0 (e_undumped_chars e) in
        let buffer := take (e_bytes_after_last_accept e) (e_buffer e) in
        match h with
        | replace =>
            buffer ← put (replacement ensure_ascii) buffer;
            let '(buffer, out) := flush buffer (e_out e) in
            Done (Esc codepoint UTF8_ACCEPT buffer (length buffer) 0 out, again)
        | _ => Done (Esc codepoint UTF8_ACCEPT buffer (e_bytes_after_last_accept e) 0 (e_out e), again)
        end
    end
  else
    buffer ← (if negb ensure_ascii then put [byte] (e_buffer e) else Done (e_buffer e));
    Done (Esc codepoint state buffer (e_bytes_after_last_accept e) (S (e_undumped_chars e)) (e_out e),
          false).

(** The loop over the index [i]: [--i] before [++i] reads a byte again.  An
    index that is not one of a byte of [s] is an access outside of it; a loop
    that does not end within [fuel] iterations counts as one, too.  (Where [i]
    is 0, [++i] undoes the wrap of [--i].) *)
Fixpoint esc_loop (fuel : nat) (h : error_handler_t) (ensure_ascii : bool) (s : str) (i : Z) (e : esc) : ser_result esc :=
  match fuel with
  | O => OutOfBounds
  | S fuel' =>
      if i <? zlen s then
        match (if i <? 0 then None else s !! Z.to_nat i) with
        | None => OutOfBounds
        | Some byte =>
            '(e, again) ← esc_step h ensure_ascii byte e;
            let i := if again : bool then i - 1 else i in
            esc_loop fuel' h ensure_ascii s (i + 1) e
        end
      else Done e
  end.

(** [dump_escaped(s, ensure_ascii)], appending to [out]. *)
Definition dump_escaped (h : error_handler_t) (ensure_ascii : bool) (s out : str) : ser_result str :=
  e ← esc_loop (S (2 * length s)) h ensure_ascii s 0 (Esc 0 UTF8_ACCEPT [] 0 0 out);
  if e_state e =? UTF8_ACCEPT then Done (e_out e ++ e_buffer e)
  else
    match h with
    | strict => Thrown (type_error 316)
    | ignore => Done (e_out e ++ take (e_bytes_after_last_accept e) (e_buffer e))
    | replace =>
        Done (e_out e ++ take (e_bytes_after_last_accept e) (e_buffer e) ++ replacement ensure_ascii)
    end.

(** ** dump_integer *)

(** [count_digits(x)]; five rounds are enough for 64 bits. *)
Fixpoint count_digits_loop (rounds : nat) (x n_digits : Z) : Z :=
  match rounds with
  | O => n_digits
  | S rounds' =>
      if x <? 10 then n_digits
      else if x <? 100 then n_digits + 1
      else if x <? 1000 then n_digits + 2
      else if x <? 10000 then n_digits + 3
      else count_digits_loop rounds' (x / 10000) (n_digits + 4)
  end.

Definition count_digits (x : Z) : Z := count_digits_loop 6 x 1.

(** [remove_sign(x)]: computed without overflow for the smallest integer. *)
Definition remove_sign (x : Z) : Z := u64 (u64 (- (x + 1)) + 1).

Definition digits_to_99 (i : Z) : ascii * ascii := (chr (48 + i / 10), chr (48 + i mod 10)).

(** [*(--buffer_ptr) = c]: the buffer is filled from [ptr] downwards. *)
Definition store_back (c : ascii) (st : list ascii * nat) : list ascii * nat :=
  (<[ (st.2 - 1)%nat := c ]> st.1, (st.2 - 1)%nat).

Fixpoint two_digits_loop (rounds : nat) (abs_value : Z) (st : list ascii * nat)
  : Z * (list ascii * nat) :=
  match rounds with
  | O => (abs_value, st)
  | S rounds' =>
      if 100 <=? abs_value then
        let '(d0, d1) := digits_to_99 (abs_value mod 100) in
        two_digits_loop rounds' (abs_value / 100) (store_back d0 (store_back d1 st))
      else (abs_value, st)
  end.

Definition number_buffer_size : nat := 64.

(** [dump_integer(x)]: the characters written. *)
Definition dump_integer (x : Z) : str :=
  if x =? 0 then $"0"
  else
    let number_buffer := replicate number_buffer_size (chr 0) in
    let '(number_buffer, abs_value, n_chars) :=
      if x <? 0 then
        let a := remove_sign x in (<[ 0%nat := chr 45 ]> number_buffer, a, 1 + count_digits a)
      else (number_buffer, u64 x, count_digits (u64 x)) in
    let '(abs_value, st) := two_digits_loop 10 abs_value (number_buffer, Z.to_nat n_chars) in
    let '(number_buffer, _) :=
      if 10 <=? abs_value then
        let '(d0, d1) := digits_to_99 abs_value in store_back d0 (store_back d1 st)
      else store_back (chr (48 + abs_value)) st in
    take (Z.to_nat n_chars) number_buffer.

(** ** dump *)

Section Dump.
Variables (h : error_handler_t) (pretty_print ensure_ascii : bool) (indent_step : Z) (indent_char : ascii).

(** The output and the size of [indent_string]. *)
Record out_state := Out { o_text : str; o_indent : Z }.

Definition ser (A : Type) : Type := out_state -> ser_result (A * out_state).

#[local] Instance ser_m_ret : MRet ser := fun A a o => Done (a, o).
#[local] Instance ser_m_bind : MBind ser := fun A B f m o =>
  match m o with Done (a, o') => f a o' | Thrown e => Thrown e | OutOfBounds => OutOfBounds end.

Definition write (cs : str) : ser unit := fun o => Done (tt, Out (o_text o ++ cs) (o_indent o)).

(** [o->write_characters(indent_string.c_str(), n)] *)
Definition write_indent (n : Z) : ser unit := fun o =>
  if o_indent o <? n then OutOfBounds
  else Done (tt, Out (o_text o ++ replicate (Z.to_nat n) indent_char) (o_indent o)).

(** [if (indent_string.size() < new_indent) indent_string.resize(size * 2)] *)
Definition grow_indent (new_indent : Z) : ser unit := fun o =>
  Done (tt, if o_indent o <? new_indent then Out (o_text o) (o_indent o * 2) else o).

Definition write_escaped (s : str) : ser unit := fun o =>
  t ← dump_escaped h ensure_ascii s (o_text o); Done (tt, Out t (o_indent o)).

Definition quote : str := [chr 34].

Definition dump_float (x : Z) : str := if negb (isfinite x) then $"null" else to_chars x.

Fixpoint dump (val : json) (current_indent : Z) : ser unit :=
  match val with
  | JObject [] => write $"{}"
  | JObject m =>
      if pretty_print then
        _ ← write ($"{" ++ [chr 10]);
        let new_indent := u32 (current_indent + indent_step) in
        _ ← grow_indent new_indent;
        _ ← (fix members (m : list (str * json)) : ser unit :=
          match m with
          | [] => mret tt
          | (k, v) :: m' =>
              _ ← write_indent new_indent;
              _ ← write quote; _ ← write_escaped k; _ ← write (quote ++ $": ");
              _ ← dump v new_indent;
              match m' with
              | [] => mret tt
              | _ => _ ← write ($"," ++ [chr 10]); members m'
              end
          end) m;
        _ ← write [chr 10]; _ ← write_indent current_indent; write $"}"
      else
        _ ← write $"{";
        _ ← (fix members (m : list (str * json)) : ser unit :=
          match m with
          | [] => mret tt
          | (k, v) :: m' =>
              _ ← write quote; _ ← write_escaped k; _ ← write (quote ++ $":");
              _ ← dump v current_indent;
              match m' with [] => mret tt | _ => _ ← write $","; members m' end
          end) m;
        write $"}"
  | JArray [] => write $"[]"
  | JArray l =>
      if pretty_print then
        _ ← write ($"[" ++ [chr 10]);
        let new_indent := u32 (current_indent + indent_step) in
        _ ← grow_indent new_indent;
        _ ← (fix elems (l : list json) : ser unit :=
          match l with
          | [] => mret tt
          | v :: l' =>
              _ ← write_indent new_indent; _ ← dump v new_indent;
              match l' with
              | [] => mret tt
              | _ => _ ← write ($"," ++ [chr 10]); elems l'
              end
          end) l;
        _ ← write [chr 10]; _ ← write_indent current_indent; write $"]"
      else
        _ ← write $"[";
        _ ← (fix elems (l : list json) : ser unit :=
          match l with
          | [] => mret tt
          | v :: l' =>
              _ ← dump v current_indent;
              match l' with [] => mret tt | _ => _ ← write $","; elems l' end
          end) l;
        write $"]"
  | JString s => _ ← write quote; _ ← write_escaped s; write quote
  | JBool b => write (if b then $"true" else $"false")
  | JInteger z => write (dump_integer z)
  | JUnsigned z => write (dump_integer z)
  | JFloat x => write (dump_float x)
  | JDiscarded => write $"<discarded>"
  | JNull => write $"null"
  end.
End Dump.

(** [basic_json::dump(indent, indent_char, ensure_ascii, error_handler)] *)
Definition json_dump_with (indent : Z) (indent_char : ascii) (ensure_ascii : bool)
    (h : error_handler_t) (j : json) : ser_result str :=
  let pretty := 0 <=? indent in
  '(_, o) ← dump h pretty ensure_ascii (if pretty then indent else 0) indent_char j 0
    (Out [] 512);
  Done (o_text o).

(** [j.dump()] *)
Definition json_dump (j : json) : ser_result str :=
  json_dump_with (-1) " "%char false strict j.
