(* ===== verification/JsonStrings.v ===== *)
(** * Strings of JSON texts

    The UTF-8 automaton of the serializer and the byte ranges of the lexer
    accept the same strings; what the serializer writes for a string is its
    [escape]d form, which the lexer reads back; the string buffer of the
    serializer is never overrun. *)

From S2P Require Import Prelude StdMap JsonNumber JsonValue JsonLexer JsonParser JsonSerializer.

(** ** Well-formed UTF-8, by the ranges of the lexer *)

(** The bytes [s] starts with, one in each range; the rest. *)
Fixpoint match_ranges (ranges : list (Z * Z)) (s : str) : option str :=
  match ranges with
  | [] => Some s
  | (lo, hi) :: ranges' =>
      match s with
      | c :: s' => if (lo <=? ord c) && (ord c <=? hi) then match_ranges ranges' s' else None
      | [] => None
      end
  end.

Inductive utf8 : str -> Prop :=
  | utf8_nil : utf8 []
  | utf8_ascii c s : ord c < 0x80 -> utf8 s -> utf8 (c :: s)
  | utf8_multi c ranges s s' :
      utf8_ranges (ord c) = Some ranges -> match_ranges ranges s = Some s' -> utf8 s' ->
      utf8 (c :: s).

(** ** The automaton *)

(** The states of the automaton, as the ranges they still expect. *)
Definition state_ranges (state : Z) : option (list (Z * Z)) :=
  match state with
  | 0 => Some []
  | 2 => Some [(0x80, 0xBF)]
  | 3 => Some [(0x80, 0xBF); (0x80, 0xBF)]
  | 4 => Some [(0xA0, 0xBF); (0x80, 0xBF)]
  | 5 => Some [(0x80, 0x9F); (0x80, 0xBF)]
  | 6 => Some [(0x90, 0xBF); (0x80, 0xBF); (0x80, 0xBF)]
  | 7 => Some [(0x80, 0xBF); (0x80, 0xBF); (0x80, 0xBF)]
  | 8 => Some [(0x80, 0x8F); (0x80, 0xBF); (0x80, 0xBF)]
  | _ => None
  end.

(** Bounds of the code point read so far. *)
Definition state_bounds (state : Z) : Z * Z :=
  match state with
  | 2 => (2, 2 ^ 15)
  | 3 => (1, 2 ^ 9)
  | 4 => (0, 2 ^ 9)
  | 5 => (1, 2 ^ 9)
  | 6 => (0, 2 ^ 3)
  | 7 => (1, 2 ^ 3)
  | 8 => (1, 2 ^ 3)
  | _ => (0, 2 ^ 21)
  end.

Definition next_state (state byte : Z) : Z := utf8d_at (256 + state * 16 + utf8d_at byte).

Definition opt_ranges_eqb (a b : option (list (Z * Z))) : bool := bool_decide (a = b).

(** From the accepting state: ASCII bytes stay there, lead bytes go to the
    state of their ranges, other bytes are rejected. *)
Definition start_ok (c : ascii) : bool :=
  let st := next_state 0 (ord c) in
  let cp := (decode 0 0 (ord c)).2 in
  if ord c <? 0x80 then (st =? 0) && (cp =? ord c)
  else
    match utf8_ranges (ord c) with
    | None => st =? 1
    | Some rs => opt_ranges_eqb (state_ranges st) (Some rs) && negb (st =? 0) && negb (st =? 1) &&
                 ((state_bounds st).1 <=? cp) && (cp <? (state_bounds st).2)
    end.

(** From another state: the first range decides. *)
Definition more_ok (state : Z) (c : ascii) : bool :=
  let st := next_state state (ord c) in
  match state_ranges state with
  | Some ((lo, hi) :: rs) =>
      if (lo <=? ord c) && (ord c <=? hi) then
        opt_ranges_eqb (state_ranges st) (Some rs) && negb (st =? 1) &&
        (if st =? 0 then 2 * 64 <=? (state_bounds state).1 * 64
         else (state_bounds st).1 <=?
                Z.max (Z.land lo 0x3F) ((state_bounds state).1 * 64)) &&
        ((state_bounds state).2 * 64 <=? (state_bounds st).2)
      else st =? 1
  | _ => true
  end.

Lemma start_ok_all c : start_ok c = true.
Proof. revert c. apply bytes_forallb. vm_compute. reflexivity. Qed.

Lemma more_ok_all state c :
  In state [2; 3; 4; 5; 6; 7; 8] -> more_ok state c = true.
Proof.
  intros H. revert c. simpl in H.
  repeat (destruct H as [<- |H]; [apply bytes_forallb; vm_compute; reflexivity|]). done.
Qed.

Lemma lor_shift6 a cp : 0 <= a < 64 -> 0 <= cp -> Z.lor a (Z.shiftl cp 6) = a + cp * 64.
Proof.
  intros Ha Hcp. assert (H : Z.land a (Z.shiftl cp 6) = 0).
  { apply Z.bits_inj'. intros n Hn. rewrite Z.land_spec, Z.bits_0.
    destruct (decide (n < 6)).
    - rewrite Z.shiftl_spec_low by lia. apply andb_false_r.
    - assert (Z.log2 a < 6).
      { destruct (decide (a = 0)) as [-> |]; [simpl; lia|]. apply Z.log2_lt_pow2; lia. }
      by rewrite (Z.bits_above_log2 a) by lia. }
  rewrite <- Z.lxor_lor, <- Z.add_nocarry_lxor by done. rewrite Z.shiftl_mul_pow2 by lia. lia.
Qed.

(** A state that waits for more bytes, with the code point read so far. *)
Definition waiting (state cp : Z) (rs : list (Z * Z)) : Prop :=
  In state [2; 3; 4; 5; 6; 7; 8] /\ state_ranges state = Some rs /\
  (state_bounds state).1 <= cp < (state_bounds state).2.

Lemma ranges_state state rs :
  state_ranges state = Some rs -> (state = 0 /\ rs = []) \/ In state [2; 3; 4; 5; 6; 7; 8].
Proof.
  intros H. destruct (decide (0 <= state <= 8)) as [Hs|Hs].
  - assert (state = 0 \/ state = 1 \/ In state [2; 3; 4; 5; 6; 7; 8]) as [-> |[-> |?]] by (simpl; lia).
    + injection H as <-. by left.
    + done.
    + by right.
  - exfalso. destruct state as [|p|p]; [lia| |done].
    do 4 (destruct p as [p|p|]; try done; try lia).
Qed.

Lemma decode_start c :
  if decide (ord c < 0x80) then decode 0 0 (ord c) = (0, ord c)
  else
    match utf8_ranges (ord c) with
    | None => (decode 0 0 (ord c)).1 = 1
    | Some rs => waiting (decode 0 0 (ord c)).1 (decode 0 0 (ord c)).2 rs
    end.
Proof.
  pose proof (start_ok_all c) as H. unfold start_ok in H.
  change (next_state 0 (ord c)) with (decode 0 0 (ord c)).1 in H.
  destruct (decode 0 0 (ord c)) as [st cp]. simpl in *.
  case_decide as Hc.
  - rewrite (proj2 (Z.ltb_lt _ _) Hc) in H. bool_hyps. congruence.
  - destruct (Z.ltb_spec (ord c) 0x80); [lia|]. destruct (utf8_ranges (ord c)) as [rs|]; bool_hyps; [|done].
    unfold opt_ranges_eqb in *. bool_hyps. split_and!; try lia; [|done].
    destruct (ranges_state st rs) as [[-> _]|?]; [done|done|done].
Qed.

(** The code point is reset by the first byte, whatever it was before. *)
Lemma decode_accept cp b : decode 0 cp b = decode 0 0 b.
Proof. done. Qed.

Lemma decode_more state cp c lo hi rs :
  waiting state cp ((lo, hi) :: rs) ->
  if (lo <=? ord c) && (ord c <=? hi) then
    match rs with
    | [] => (decode state cp (ord c)).1 = 0 /\ 0x80 <= (decode state cp (ord c)).2
    | _ => waiting (decode state cp (ord c)).1 (decode state cp (ord c)).2 rs
    end
  else (decode state cp (ord c)).1 = 1.
Proof.
  intros (Hin & Hr & Hcp). pose proof (more_ok_all state c Hin) as H. unfold more_ok in H. rewrite Hr in H.
  change (decode state cp (ord c)).1 with (next_state state (ord c)) in *.
  destruct ((lo <=? ord c) && (ord c <=? hi)) eqn:Er; [|by bool_hyps].
  assert (Hlohi : 0x80 <= lo /\ hi <= 0xBF).
  { simpl in Hin. clear -Hin Hr.
    repeat (destruct Hin as [<- |Hin]; [injection Hr as <- <- _; lia|]). done. }
  assert (Hb : 0 <= (state_bounds state).1 /\ (state_bounds state).2 <= 2 ^ 15).
  { simpl in Hin. clear -Hin. repeat (destruct Hin as [<- |Hin]; [vm_compute; split; congruence|]). done. }
  bool_hyps. unfold opt_ranges_eqb in *. bool_hyps.
  assert (Hst : (state =? UTF8_ACCEPT) = false) by (apply Z.eqb_neq; intros E; rewrite E in Hin; unfold UTF8_ACCEPT in Hin; simpl in Hin; lia).
  assert (Hland : forall x, 0x80 <= x <= 0xBF -> Z.land x 0x3F = x - 0x80).
  { intros x Hx. change 0x3F with (Z.ones 6). rewrite Z.land_ones by lia. change (2 ^ 6) with 64.
    pose proof (Z.mod_unique x 64 2 (x - 128)). lia. }
  assert (Hd : (decode state cp (ord c)).2 = (ord c - 0x80) + cp * 64).
  { unfold decode. cbn [snd]. rewrite Hst. cbn [negb]. rewrite (Hland (ord c)) by lia.
    rewrite (u32_small (Z.shiftl cp 6)) by (rewrite Z.shiftl_mul_pow2 by lia; lia).
    rewrite lor_shift6 by lia. apply u32_small. lia. }
  rewrite Hd. rewrite (Hland lo) in * by lia.
  set (st' := next_state state (ord c)) in *.
  destruct (ranges_state st' rs) as [[Hs0 ->]|Hin']; [done| |].
  - rewrite Hs0 in *. simpl in *. bool_hyps. split; [done|]. lia.
  - assert (Hne : (st' =? 0) = false) by (apply Z.eqb_neq; intros E; rewrite E in Hin'; simpl in Hin'; lia).
    rewrite Hne in *. bool_hyps. destruct rs as [|r rs].
    + exfalso. simpl in Hin'. match goal with HH : state_ranges st' = Some [] |- _ => rename HH into Hr' end.
      clear -Hin' Hr'. clearbody st'.
      repeat (destruct Hin' as [<- |Hin']; [done|]). done.
    + split_and!; [done|done| |]; lia.
Qed.

(** ** What the serializer writes *)

(** The escaped form of a byte: control characters, the quote and the
    backslash are escaped, all other bytes are copied. *)
Definition escape_byte (c : ascii) : str :=
  let b := ord c in
  if b =? 0x08 then [chr 92; "b"%char]
  else if b =? 0x09 then [chr 92; "t"%char]
  else if b =? 0x0A then [chr 92; "n"%char]
  else if b =? 0x0C then [chr 92; "f"%char]
  else if b =? 0x0D then [chr 92; "r"%char]
  else if b =? 0x22 then [chr 92; chr 34]
  else if b =? 0x5C then [chr 92; chr 92]
  else if b <=? 0x1F then u_escape b
  else [c].

Definition escape (s : str) : str := s ≫= escape_byte.

(** The string is completed by bytes in the ranges [rs], followed by
    well-formed UTF-8. *)
Definition utf8_from (rs : list (Z * Z)) (s : str) : Prop :=
  exists s', match_ranges rs s = Some s' /\ utf8 s'.

Lemma utf8_ranges_lead c rs : utf8_ranges c = Some rs -> 0xC2 <= c /\ (1 <= length rs <= 3)%nat.
Proof.
  unfold utf8_ranges. intros H.
  repeat (case_match; [injection H as <-; bool_hyps; simpl;
    repeat match goal with HH : _ || _ = true |- _ => apply orb_true_iff in HH as [HH|HH]; bool_hyps end;
    (split; [lia|simpl; lia])|]); done.
Qed.

Lemma utf8_cons c s :
  utf8 (c :: s) <->
  if decide (ord c < 0x80) then utf8 s
  else match utf8_ranges (ord c) with Some rs => utf8_from rs s | None => False end.
Proof.
  split.
  - inversion 1 as [|c' s' Hc Hs|c' rs s0 s' Hr Hm Hs]; subst.
    + by rewrite decide_True.
    + pose proof (utf8_ranges_lead _ _ Hr). rewrite decide_False by lia. rewrite Hr. by exists s'.
  - case_decide as Hc; [by apply utf8_ascii|]. destruct (utf8_ranges (ord c)) as [rs|] eqn:Hr; [|done].
    intros (s' & Hm & Hs). by eapply utf8_multi.
Qed.

Lemma utf8_from_nil s : utf8_from [] s <-> utf8 s.
Proof. unfold utf8_from. simpl. naive_solver. Qed.

Lemma utf8_from_cons lo hi rs s :
  utf8_from ((lo, hi) :: rs) s <->
  match s with
  | c :: s' => (lo <=? ord c) && (ord c <=? hi) = true /\ utf8_from rs s'
  | [] => False
  end.
Proof.
  unfold utf8_from. destruct s as [|c s]; simpl; [naive_solver|].
  destruct (_ && _); naive_solver.
Qed.

Lemma escape_byte_high c : 0x80 <= ord c -> escape_byte c = [c].
Proof.
  intros H. unfold escape_byte.
  repeat (rewrite (proj2 (Z.eqb_neq _ _)) by lia). destruct (Z.leb_spec (ord c) 0x1F); [lia|done].
Qed.

(** The state of the loop when bytes in the ranges [rs] are expected; the
    string buffer has room. *)
Definition esc_ready (rs : list (Z * Z)) (e : esc) : Prop :=
  match rs with
  | [] => e_state e = 0 /\ (length (e_buffer e) <= 499)%nat
  | _ => waiting (e_state e) (e_codepoint e) rs /\ (length (e_buffer e) + length rs <= 503)%nat
  end.

Definition esc_text (e : esc) : str := e_out e ++ e_buffer e.

Lemma put_small cs b : (length b + length cs <= 512)%nat -> put cs b = Done (b ++ cs).
Proof. intros H. unfold put, string_buffer_size. by rewrite (proj2 (Nat.ltb_ge _ _) H). Qed.

Lemma put_printf_small cs b : (length b + length cs + 1 <= 512)%nat -> put_printf cs b = Done (b ++ cs).
Proof. intros H. unfold put_printf, string_buffer_size. by rewrite (proj2 (Nat.ltb_ge _ _) H). Qed.

Lemma escape_ascii c b :
  ord c < 0x80 -> (length b <= 499)%nat ->
  escape_codepoint false (ord c) c b = Done (b ++ escape_byte c).
Proof.
  intros Hc Hb. unfold escape_codepoint, escape_byte. simpl andb. rewrite orb_false_r.
  repeat (case_match; [apply put_small; simpl; lia|]).
  case_match; [|apply put_small; simpl; lia].
  rewrite (proj2 (Z.leb_le (ord c) 0xFFFF)) by lia. apply put_printf_small. simpl. lia.
Qed.

Lemma escape_codepoint_copy cp c b :
  0x80 <= cp -> (length b <= 502)%nat -> escape_codepoint false cp c b = Done (b ++ [c]).
Proof.
  intros Hc Hb. unfold escape_codepoint. simpl andb. rewrite orb_false_r.
  repeat (rewrite (proj2 (Z.eqb_neq _ _)) by lia). destruct (Z.leb_spec cp 0x1F); [lia|].
  apply put_small. simpl. lia.
Qed.

Lemma flush_spec b out :
  (length b <= 512)%nat ->
  exists b' out', flush b out = (b', out') /\ (length b' <= 499)%nat /\ out' ++ b' = out ++ b.
Proof.
  intros Hb. unfold flush, string_buffer_size. destruct (Nat.ltb_spec (512 - length b) 13).
  - exists [], (out ++ b). rewrite app_nil_r. simpl. split_and!; [done|lia|done].
  - exists b, out. split_and!; [done|lia|done].
Qed.

Lemma length_escape_byte c : (length (escape_byte c) <= 6)%nat.
Proof. unfold escape_byte. repeat case_match; simpl; lia. Qed.

(** An accepted code point: [w] is what is appended for it. *)
Lemma esc_step_accept byte e cp w :
  decode (e_state e) (e_codepoint e) (ord byte) = (0, cp) ->
  escape_codepoint false cp byte (e_buffer e) = Done (e_buffer e ++ w) ->
  (length (e_buffer e ++ w) <= 512)%nat ->
  exists e', esc_step strict false byte e = Done (e', false) /\ esc_ready [] e' /\
    esc_text e' = esc_text e ++ w.
Proof.
  intros Hd He Hl. unfold esc_step. rewrite Hd. simpl. rewrite He. simpl.
  destruct (flush_spec (e_buffer e ++ w) (e_out e) Hl) as (b' & out' & -> & Hb & Ht).
  eexists. split; [done|]. split; [done|]. unfold esc_text. simpl. by rewrite Ht, app_assoc.
Qed.

(** One byte from a ready state. *)
Lemma esc_step_ready rs byte e :
  esc_ready rs e ->
  (exists e' rs', esc_step strict false byte e = Done (e', false) /\ esc_ready rs' e' /\
     esc_text e' = esc_text e ++ escape_byte byte /\
     forall s, utf8_from rs (byte :: s) <-> utf8_from rs' s) \/
  (esc_step strict false byte e = Thrown (type_error 316) /\ forall s, ~ utf8_from rs (byte :: s)).
Proof.
  destruct rs as [|[lo hi] rs]; simpl.
  - intros [Hst Hb]. pose proof (decode_start byte) as Hd. rewrite <- (decode_accept (e_codepoint e)) in Hd.
    setoid_rewrite utf8_from_nil. setoid_rewrite utf8_cons. case_decide as Hc.
    + left. destruct (esc_step_accept byte e (ord byte) (escape_byte byte)) as (e' & E & Hr & Ht).
      * by rewrite Hst.
      * by apply escape_ascii.
      * rewrite length_app. pose proof (length_escape_byte byte). lia.
      * exists e', []. split_and!; try done; try apply Hr. intros s. by rewrite utf8_from_nil.
    + destruct (utf8_ranges (ord byte)) as [rs|] eqn:Hur.
      * left. pose proof (utf8_ranges_lead _ _ Hur) as [_ Hlen].
        unfold esc_step. rewrite Hst. destruct (decode 0 (e_codepoint e) (ord byte)) as [st cp] eqn:Ed.
        simpl in Hd. destruct Hd as (Hin & Hrs & Hcp).
        assert (st <> 0 /\ st <> 1) as [Hs0 Hs1] by (split; intros ->; simpl in Hin; lia).
        unfold UTF8_ACCEPT, UTF8_REJECT.
        rewrite (proj2 (Z.eqb_neq _ _) Hs0), (proj2 (Z.eqb_neq _ _) Hs1).
        rewrite put_small by (simpl; lia). simpl. eexists _, rs. split; [done|].
        assert (Hne : rs <> []) by (intros ->; simpl in Hlen; lia).
        split_and!; [|unfold esc_text; simpl; rewrite escape_byte_high by lia; by rewrite app_assoc|done].
        destruct rs as [|r rs]; [done|]. split; [exact (conj Hin (conj Hrs Hcp))|].
        cbn [e_buffer]. rewrite length_app. simpl in *. lia.
      * right. unfold esc_step. rewrite Hst.
        destruct (decode 0 (e_codepoint e) (ord byte)) as [st cp]. simpl in Hd. subst st. simpl.
        split; [done|]. naive_solver.
  - intros [Hw Hb]. pose proof (decode_more _ _ byte _ _ _ Hw) as Hd.
    setoid_rewrite utf8_from_cons. destruct ((lo <=? ord byte) && (ord byte <=? hi)) eqn:Er.
    + left. assert (Hlo : 0x80 <= ord byte).
      { destruct Hw as (Hin & Hr & _). bool_hyps. simpl in Hin. clear -Hin Hr H.
        repeat (destruct Hin as [Es |Hin]; [rewrite <- Es in Hr; injection Hr as <- <- _; lia|]). done. }
      destruct (decode (e_state e) (e_codepoint e) (ord byte)) as [st cp] eqn:Ed. simpl in Hd.
      destruct rs as [|r rs].
      * destruct Hd as [-> Hcp].
        destruct (esc_step_accept byte e cp [byte]) as (e' & E & Hr & Ht); [done| |rewrite length_app; simpl in *; lia|].
        { apply escape_codepoint_copy; [done|simpl in *; lia]. }
        exists e', []. rewrite escape_byte_high by done. split_and!; try done; try apply Hr. naive_solver.
      * destruct Hd as (Hin & Hrs & Hcp).
        assert (st <> 0 /\ st <> 1) as [Hs0 Hs1] by (split; intros ->; simpl in Hin; lia).
        unfold esc_step. rewrite Ed. unfold UTF8_ACCEPT, UTF8_REJECT.
        rewrite (proj2 (Z.eqb_neq _ _) Hs0), (proj2 (Z.eqb_neq _ _) Hs1).
        rewrite put_small by (simpl in *; lia). simpl. eexists _, (r :: rs). split; [done|].
        split_and!; [|unfold esc_text; simpl; rewrite escape_byte_high by done; by rewrite app_assoc|naive_solver].
        split; [exact (conj Hin (conj Hrs Hcp))|]. cbn [e_buffer]. rewrite length_app. simpl in *. lia.
    + right. unfold esc_step.
      destruct (decode (e_state e) (e_codepoint e) (ord byte)) as [st cp]. simpl in Hd. subst st. simpl.
      split; [done|]. naive_solver.
Qed.

(** The loop as a recursion on the bytes; one that is read again is read again
    once. *)
Fixpoint esc_bytes (h : error_handler_t) (ensure_ascii : bool) (s : str) (e : esc) : ser_result esc :=
  match s with
  | [] => Done e
  | byte :: s' =>
      '(e, again) ← esc_step h ensure_ascii byte e;
      if again : bool then
        '(e, _) ← esc_step h ensure_ascii byte e; esc_bytes h ensure_ascii s' e
      else esc_bytes h ensure_ascii s' e
  end.

Lemma esc_step_again h ea byte e e' again :
  esc_step h ea byte e = Done (e', again) -> (again = true -> e_undumped_chars e' = 0%nat) /\ (e_undumped_chars e = 0%nat -> again = false).
Proof.
  unfold esc_step. destruct (decode _ _ _) as [st cp]. destruct (st =? UTF8_ACCEPT).
  { destruct (escape_codepoint _ _ _ _) as [b| |]; try done. cbn [mbind ser_bind]. destruct (flush _ _) as [b' o]. by intros [= <- <-]. }
  destruct (st =? UTF8_REJECT).
  - destruct h; [done|..].
    + destruct (put _ _) as [b| |]; try done. cbn [mbind ser_bind]. destruct (flush _ _) as [b' o]. intros [= <- <-]. split; [done|]. by intros ->.
    + intros [= <- <-]. split; [done|]. by intros ->.
  - destruct (if negb ea then _ else _) as [b| |]; try done. cbn [mbind ser_bind]. by intros [= <- <-].
Qed.

(** The loop ends within two iterations per byte and one. *)
Lemma esc_loop_bytes h ea pre s e fuel :
  (2 * length s < fuel)%nat -> esc_loop fuel h ea (pre ++ s) (zlen pre) e = esc_bytes h ea s e.
Proof.
  revert pre e fuel. induction s as [|byte s IH]; intros pre e fuel Hf; (destruct fuel as [|fuel]; [lia|]); cbn [esc_loop esc_bytes].
  - rewrite app_nil_r. by rewrite Z.ltb_irrefl.
  - assert (Hread : (zlen pre <? zlen (pre ++ byte :: s)) = true) by (apply Z.ltb_lt; unfold zlen; rewrite length_app; simpl; lia).
    assert (Hi : (if zlen pre <? 0 then None else (pre ++ byte :: s) !! Z.to_nat (zlen pre)) = Some byte).
    { rewrite (proj2 (Z.ltb_ge _ _)) by apply zlen_nonneg. unfold zlen. rewrite Nat2Z.id. by apply list_lookup_middle. }
    assert (Hnext : forall f e', (2 * length s < f)%nat -> esc_loop f h ea (pre ++ byte :: s) (zlen pre + 1) e' = esc_bytes h ea s e').
    { intros f e' Hlt. rewrite <- (IH (pre ++ [byte]) e' f) by lia. rewrite <- app_assoc. f_equal. unfold zlen. rewrite length_app. simpl. lia. }
    rewrite Hread, Hi. simpl in Hf. destruct (esc_step h ea byte e) as [[e' again]| |] eqn:E; [|done|done]. cbn [mbind ser_bind].
    destruct again; [|apply Hnext; lia]. replace (zlen pre - 1 + 1) with (zlen pre) by lia.
    destruct fuel as [|fuel]; [lia|]. cbn [esc_loop]. rewrite Hread, Hi. apply esc_step_again in E as [H0 _].
    destruct (esc_step h ea byte e') as [[e2 ag]| |] eqn:E2; [|done|done]. cbn [mbind ser_bind]. apply esc_step_again in E2 as [_ Hag].
    rewrite Hag by by apply H0. apply Hnext. lia.
Qed.

Lemma esc_loop_all h ea s e : esc_loop (S (2 * length s)) h ea s 0 e = esc_bytes h ea s e.
Proof. apply (esc_loop_bytes h ea []). lia. Qed.

Lemma esc_bytes_spec rs s e :
  esc_ready rs e ->
  (utf8_from rs s /\ exists e', esc_bytes strict false s e = Done e' /\ e_state e' = 0 /\
     esc_text e' = esc_text e ++ escape s) \/
  (~ utf8_from rs s /\
   (esc_bytes strict false s e = Thrown (type_error 316) \/
    exists e', esc_bytes strict false s e = Done e' /\ e_state e' <> 0)).
Proof.
  revert rs e. induction s as [|byte s IH]; intros rs e He.
  - destruct rs as [|[lo hi] rs].
    + left. split; [apply utf8_from_nil; constructor|]. exists e. split; [done|]. split; [apply He|].
      by rewrite app_nil_r.
    + right. rewrite utf8_from_cons. split; [by intros []|]. right. exists e. split; [done|].
      destruct He as [(Hin & _) _]. intros Hz. rewrite Hz in Hin. simpl in Hin. lia.
  - cbn [esc_bytes]. destruct (esc_step_ready rs byte e He) as [(e' & rs' & -> & He' & Ht & Hu)|[-> Hu]].
    + cbn [mbind ser_bind]. destruct (IH rs' e' He') as [(Hu' & e2 & E & Hst & Ht2)|(Hu' & Hr)].
      * left. split; [by apply Hu|]. exists e2. split_and!; [done|done|].
        rewrite Ht2, Ht. unfold escape. by rewrite bind_cons, app_assoc.
      * right. split; [by rewrite Hu|]. done.
    + right. split; [apply Hu|]. by left.
Qed.

(** The string is written escaped when it is well-formed UTF-8, and refused
    otherwise. *)
Lemma dump_escaped_strict s out :
  (utf8 s /\ dump_escaped strict false s out = Done (out ++ escape s)) \/
  (~ utf8 s /\ dump_escaped strict false s out = Thrown (type_error 316)).
Proof.
  unfold dump_escaped. rewrite esc_loop_all.
  destruct (esc_bytes_spec [] s (Esc 0 UTF8_ACCEPT [] 0 0 out)) as [(Hu & e' & E & Hst & Ht)|(Hu & Hr)];
    [by split; [|simpl; lia]|..]; rewrite utf8_from_nil in Hu.
  - left. split; [done|]. rewrite E. cbn [mbind ser_bind]. rewrite Hst. simpl.
    unfold esc_text in Ht. simpl in Ht. rewrite Ht. by rewrite app_nil_r.
  - right. split; [done|]. destruct Hr as [-> |(e' & -> & Hst)]; [done|]. cbn [mbind ser_bind].
    unfold UTF8_ACCEPT. by rewrite (proj2 (Z.eqb_neq _ _) Hst).
Qed.

(** ** The string buffer *)

(** For every error handler and with or without escaping: what is in the
    buffer beyond the last accepted position are the pending bytes. *)
Definition esc_inv (ensure_ascii : bool) (rs : list (Z * Z)) (e : esc) : Prop :=
  (e_bytes_after_last_accept e <= 499)%nat /\
  length (e_buffer e) =
    (e_bytes_after_last_accept e + if ensure_ascii then 0 else e_undumped_chars e)%nat /\
  match rs with
  | [] => e_state e = 0 /\ e_undumped_chars e = 0%nat
  | _ => waiting (e_state e) (e_codepoint e) rs /\ (e_undumped_chars e + length rs <= 4)%nat
  end.

Lemma flush_length b out b' out' :
  flush b out = (b', out') -> (length b <= 512)%nat -> (length b' <= 499)%nat.
Proof.
  intros H Hb. destruct (flush_spec b out Hb) as (b1 & o1 & E & Hl & _). congruence.
Qed.

Lemma escape_codepoint_bounded ea cp c b :
  (length b <= 499)%nat \/ (ea = false /\ 0x80 <= cp /\ (length b <= 502)%nat) ->
  exists b', escape_codepoint ea cp c b = Done b' /\ (length b' <= 512)%nat.
Proof.
  intros H. unfold escape_codepoint.
  destruct H as [H|(-> & Hcp & H)].
  - repeat (case_match; [eexists; split; [apply put_small; simpl; lia|rewrite length_app; simpl; lia]|]).
    case_match; [|eexists; split; [apply put_small; simpl; lia|rewrite length_app; simpl; lia]].
    case_match; (eexists; split; [apply put_printf_small; simpl; lia|rewrite length_app; simpl; lia]).
  - pose proof (escape_codepoint_copy cp c b Hcp H) as E. unfold escape_codepoint in E. rewrite E.
    eexists. split; [done|]. rewrite length_app. simpl. lia.
Qed.

Lemma replacement_length ea : (length (replacement ea) <= 6)%nat.
Proof. destruct ea; vm_compute; lia. Qed.

Lemma esc_step_bounded h ea rs byte e :
  esc_inv ea rs e ->
  esc_step h ea byte e <> OutOfBounds /\
  forall e' again, esc_step h ea byte e = Done (e', again) -> exists rs', esc_inv ea rs' e'.
Proof.
  intros (Ha & Hlen & Hrs).
  set (st := (decode (e_state e) (e_codepoint e) (ord byte)).1).
  set (cp := (decode (e_state e) (e_codepoint e) (ord byte)).2).
  assert (Hcase : (st = 0 /\ ((length (e_buffer e) <= 499)%nat \/
                     (ea = false /\ 0x80 <= cp /\ (length (e_buffer e) <= 502)%nat))) \/
                  st = 1 \/
                  exists rs', rs' <> [] /\ waiting st cp rs' /\ (S (e_undumped_chars e) + length rs' <= 4)%nat).
  { destruct rs as [|[lo hi] rs].
    - destruct Hrs as [Hst Hu]. subst st cp. rewrite Hst, decode_accept.
      pose proof (decode_start byte) as Hd. case_decide.
      + left. rewrite Hd. simpl. split; [done|]. left. destruct ea; lia.
      + destruct (utf8_ranges (ord byte)) as [rs|] eqn:Hr; [|by right; left].
        right; right. apply utf8_ranges_lead in Hr as [_ Hr]. exists rs. rewrite Hu.
        split; [|split; [done|lia]]. intros ->. simpl in Hr. lia.
    - destruct Hrs as [Hw Hu]. pose proof (decode_more _ _ byte _ _ _ Hw) as Hd.
      destruct (_ && _); [|by right; left]. destruct rs as [|r rs].
      + left. destruct Hd as [Hd Hcp]. split; [done|]. simpl in Hu.
        destruct ea; [left; lia|]. right. split_and!; [done|done|lia].
      + right; right. exists (r :: rs). split_and!; [done|done|simpl in *; lia]. }
  unfold esc_step. subst st cp.
  destruct (decode (e_state e) (e_codepoint e) (ord byte)) as [st cp]. simpl in Hcase.
  unfold UTF8_ACCEPT, UTF8_REJECT.
  destruct Hcase as [[-> Hb]|[-> |(rs' & Hne & Hw & Hu)]].
  - simpl. destruct (escape_codepoint_bounded ea cp byte _ Hb) as (b' & -> & Hb'). simpl.
    destruct (flush b' (e_out e)) as [b2 o2] eqn:Ef. apply flush_length in Ef; [|done].
    split; [done|]. intros e' ag [= <- <-]. exists []. unfold esc_inv. simpl.
    split_and!; [done|destruct ea; lia|done..].
  - simpl. assert (Htake : (length (take (e_bytes_after_last_accept e) (e_buffer e)) <= 499)%nat)
      by (rewrite length_take; lia).
    destruct h.
    + split; [done|]. intros e' ag [=].
    + rewrite put_small by (pose proof (replacement_length ea); lia). simpl.
      destruct (flush _ (e_out e)) as [b2 o2] eqn:Ef. apply flush_length in Ef.
      2:{ rewrite length_app. pose proof (replacement_length ea). lia. }
      split; [done|]. intros e' ag [= <- <-]. exists []. unfold esc_inv. simpl.
      split_and!; [done|destruct ea; lia|done..].
    + split; [done|]. intros e' ag [= <- <-]. exists []. unfold esc_inv. simpl.
      split_and!; [done|rewrite length_take; destruct ea; lia|done..].
  - assert (st <> 0 /\ st <> 1) as [Hs0 Hs1].
    { destruct Hw as (Hin & _). split; intros ->; simpl in Hin; lia. }
    rewrite (proj2 (Z.eqb_neq _ _) Hs0), (proj2 (Z.eqb_neq _ _) Hs1).
    destruct ea; cbn [negb].
    + cbn [mbind ser_bind]. split; [done|]. intros e' ag [= <- <-]. exists rs'. unfold esc_inv.
      cbn [e_bytes_after_last_accept e_buffer e_undumped_chars e_state e_codepoint].
      split_and!; [done|done|]. by destruct rs'.
    + rewrite put_small by (simpl; lia). cbn [mbind ser_bind]. split; [done|].
      intros e' ag [= <- <-]. exists rs'. unfold esc_inv.
      cbn [e_bytes_after_last_accept e_buffer e_undumped_chars e_state e_codepoint].
      split_and!; [done|rewrite length_app; simpl; lia|]. by destruct rs'.
Qed.

Lemma esc_bytes_bounded h ea s rs e :
  esc_inv ea rs e -> esc_bytes h ea s e <> OutOfBounds.
Proof.
  revert rs e. induction s as [|byte s IH]; intros rs e He; [done|]. cbn [esc_bytes].
  destruct (esc_step_bounded h ea rs byte e He) as [Hno Hnext].
  destruct (esc_step h ea byte e) as [[e' again]| |] eqn:E; [|done|done]. cbn [mbind ser_bind].
  destruct (Hnext e' again eq_refl) as [rs' He']. destruct again; [|by eapply IH].
  destruct (esc_step_bounded h ea rs' byte e' He') as [Hno' Hnext'].
  destruct (esc_step h ea byte e') as [[e2 ag]| |] eqn:E2; [|done|done]. cbn [mbind ser_bind].
  destruct (Hnext' e2 ag eq_refl) as [rs2 He2]. by eapply IH.
Qed.

(** C37: [dump_escaped] writes nothing outside its 512-byte [string_buffer], its index is that of a byte of the string
    wherever it reads one, also after [--i], and its loop ends within two iterations per byte, whatever the bytes of the
    string, the error handler and [ensure_ascii]. *)
Theorem dump_escaped_in_bounds h ensure_ascii s out : dump_escaped h ensure_ascii s out <> OutOfBounds.
Proof.
  unfold dump_escaped. rewrite esc_loop_all. pose proof (esc_bytes_bounded h ensure_ascii s [] (Esc 0 UTF8_ACCEPT [] 0 0 out)) as Hb.
  destruct (esc_bytes h ensure_ascii s _) as [e| |]; cbn [mbind ser_bind]; [|done|].
  - repeat case_match; done.
  - exfalso. apply Hb; [|done]. unfold esc_inv. simpl. destruct ensure_ascii; split_and!; done || lia.
Qed.
