(* ===== verification/JsonIntegers.v ===== *)
(** * Integers of JSON texts

    [dump_integer] fills its buffer from the end, two digits at a time; what it
    writes is the decimal representation [dec_str], which [strtoull] and
    [strtoll] convert back. *)

From S2P Require Import Prelude StdMap JsonNumber JsonValue JsonLexer JsonSerializer.

(** ** Decimal representation *)

Definition digit (d : Z) : ascii := chr (48 + d).

(** The decimal digits of a number with at most [fuel + 1] of them. *)
Fixpoint dec_fuel (fuel : nat) (x : Z) : str :=
  match fuel with
  | O => [digit x]
  | S fuel' => if x <? 10 then [digit x] else dec_fuel fuel' (x / 10) ++ [digit (x mod 10)]
  end.

Definition dec_str (x : Z) : str := dec_fuel 30 x.

Lemma pow10_S n : 10 ^ Z.of_nat (S n) = 10 * 10 ^ Z.of_nat n.
Proof. rewrite Nat2Z.inj_succ, Z.pow_succ_r by lia. done. Qed.

Lemma dec_fuel_irrel f g x :
  0 <= x -> x < 10 ^ Z.of_nat (S f) -> x < 10 ^ Z.of_nat (S g) -> dec_fuel f x = dec_fuel g x.
Proof.
  revert g x. induction f as [|f IH]; intros [|g] x Hx Hf Hg; [done|..]; rewrite ?pow10_S in *; simpl.
  - change (10 ^ Z.of_nat 0) with 1 in *. by rewrite (proj2 (Z.ltb_lt x 10)) by lia.
  - change (10 ^ Z.of_nat 0) with 1 in *. by rewrite (proj2 (Z.ltb_lt x 10)) by lia.
  - destruct (x <? 10); [done|]. f_equal.
    apply IH; [apply Z.div_pos; lia|apply Z.div_lt_upper_bound; rewrite ?pow10_S; lia..].
Qed.

Lemma dec_fuel_S f x :
  dec_fuel (S f) x = if x <? 10 then [digit x] else dec_fuel f (x / 10) ++ [digit (x mod 10)].
Proof. done. Qed.

Lemma dec_str_step x : 10 <= x < 10 ^ 30 -> dec_str x = dec_str (x / 10) ++ [digit (x mod 10)].
Proof.
  intros Hx. unfold dec_str. rewrite dec_fuel_S, (proj2 (Z.ltb_ge x 10)) by lia.
  rewrite (dec_fuel_irrel 29 30); [reflexivity|apply Z.div_pos; lia|..];
    (apply Z.div_lt_upper_bound; [lia|]); rewrite !pow10_S; lia.
Qed.

Lemma dec_str_small x : x < 10 -> dec_str x = [digit x].
Proof. intros H. unfold dec_str. by rewrite dec_fuel_S, (proj2 (Z.ltb_lt x 10) H). Qed.

Lemma digit_ord d : 0 <= d < 10 -> ord (digit d) = 48 + d.
Proof. intros. apply ord_chr_small. lia. Qed.

(** Induction on a number by its last digit. *)
Lemma dec_ind (P : Z -> Prop) :
  (forall x, 0 <= x < 10 -> P x) ->
  (forall x, 10 <= x < 10 ^ 30 -> P (x / 10) -> P x) ->
  forall x, 0 <= x < 10 ^ 30 -> P x.
Proof.
  intros Hs Hstep x. assert (H : forall n x, 0 <= x < 10 ^ Z.of_nat n -> x < 10 ^ 30 -> P x).
  { intros n. induction n as [|n IH]; intros y Hy Hy'.
    - apply Hs. simpl in Hy. lia.
    - destruct (decide (y < 10)); [apply Hs; lia|]. apply Hstep; [lia|]. rewrite pow10_S in Hy.
      apply IH; [split; [apply Z.div_pos; lia|apply Z.div_lt_upper_bound; lia]|].
      apply Z.div_lt_upper_bound; lia. }
  intros Hx. apply (H 30%nat); lia.
Qed.

Lemma dec_value_str x : 0 <= x < 10 ^ 30 -> dec_value (dec_str x) = x.
Proof.
  revert x. apply dec_ind; intros x Hx.
  - rewrite dec_str_small by lia. unfold dec_value, digit_val. simpl. rewrite digit_ord by lia. lia.
  - intros IH. rewrite dec_str_step, dec_value_app, IH by lia. rewrite zlen_cons, zlen_nil.
    unfold dec_value, digit_val. simpl fold_left.
    rewrite digit_ord by (apply Z.mod_pos_bound; lia). change (10 ^ (0 + 1)) with 10.
    pose proof (Z.div_mod x 10). lia.
Qed.

(** The number of digits, and the form of the first one. *)
Lemma dec_str_length x :
  0 <= x < 10 ^ 30 -> (1 <= length (dec_str x) <= 30)%nat.
Proof.
  intros Hx. assert (H : forall n x, 0 <= x < 10 ^ Z.of_nat (S n) -> x < 10 ^ 30 ->
    (1 <= length (dec_str x) <= S n)%nat).
  { clear. intros n. induction n as [|n IH]; intros x Hx Hx'.
    - rewrite dec_str_small by (simpl in Hx; lia). simpl. lia.
    - destruct (decide (x < 10)); [rewrite dec_str_small by lia; simpl; lia|].
      rewrite dec_str_step by lia. rewrite length_app. simpl length at 2 4. rewrite pow10_S in Hx.
      assert (1 <= length (dec_str (x / 10)) <= S n)%nat; [|simpl; lia].
      apply IH; [split; [apply Z.div_pos; lia|apply Z.div_lt_upper_bound; lia]|].
      apply Z.div_lt_upper_bound; lia. }
  apply (H 29%nat); lia.
Qed.

Lemma dec_str_digits x :
  0 <= x < 10 ^ 30 -> Forall (fun c => 48 <= ord c <= 57) (dec_str x).
Proof.
  revert x. apply dec_ind; intros x Hx.
  - rewrite dec_str_small by lia. constructor; [|done]. rewrite digit_ord by lia. lia.
  - intros IH. rewrite dec_str_step by lia. apply Forall_app. split; [done|]. constructor; [|done].
    pose proof (Z.mod_pos_bound x 10). rewrite digit_ord by lia. lia.
Qed.

Lemma dec_str_head x :
  0 < x < 10 ^ 30 -> exists c t, dec_str x = c :: t /\ 49 <= ord c <= 57.
Proof.
  intros Hx. assert (H : forall x, 0 <= x < 10 ^ 30 -> 0 < x ->
    exists c t, dec_str x = c :: t /\ 49 <= ord c <= 57); [|apply H; lia].
  clear. apply (dec_ind (fun x => 0 < x -> exists c t, dec_str x = c :: t /\ 49 <= ord c <= 57)).
  - intros x Hx H0. rewrite dec_str_small by lia. eexists _, _. split; [done|].
    rewrite digit_ord by lia. lia.
  - intros x Hx IH H0. destruct IH as (c & t & E & Hc).
    { apply Z.div_str_pos. lia. }
    rewrite dec_str_step, E by lia. by eexists _, _.
Qed.

(** ** count_digits *)

Lemma dec_str_shift4 x :
  10000 <= x < 10 ^ 30 -> length (dec_str x) = (length (dec_str (x / 10000)) + 4)%nat.
Proof.
  intros Hx. assert (H1 : forall y, 10 <= y < 10 ^ 30 -> length (dec_str y) = S (length (dec_str (y / 10)))).
  { intros y Hy. rewrite dec_str_step by done. rewrite length_app. simpl. lia. }
  assert (Hd : forall a b y, 0 < a -> 0 < b -> y / a / b = y / (a * b)) by (intros; apply Z.div_div; lia).
  assert (Hb : forall k, 0 < k <= 1000 -> 10 <= x / k) by (intros; apply Z.div_le_lower_bound; lia).
  assert (Hu : forall k, 0 < k -> x / k < 10 ^ 30) by (intros; apply Z.div_lt_upper_bound; nia).
  rewrite H1 by lia. rewrite H1 by (split; [apply (Hb 10); lia|apply Hu; lia]). rewrite (Hd 10 10) by lia. change (10 * 10) with 100.
  rewrite H1 by (split; [apply (Hb 100); lia|apply Hu; lia]). rewrite (Hd 100 10) by lia.
  change (100 * 10) with 1000.
  rewrite H1 by (split; [apply (Hb 1000); lia|apply Hu; lia]). rewrite (Hd 1000 10) by lia.
  change (1000 * 10) with 10000. lia.
Qed.

Lemma dec_str_len1 x d : 0 <= x < 10 ^ 30 -> 0 < d -> 10 ^ (d - 1) <= x < 10 ^ d -> zlen (dec_str x) = d.
Proof.
  intros Hx. revert x Hx d. apply (dec_ind (fun x => forall d, 0 < d -> 10 ^ (d - 1) <= x < 10 ^ d -> zlen (dec_str x) = d)).
  - intros x Hx d Hd Hx'. rewrite dec_str_small by lia. rewrite zlen_cons, zlen_nil.
    destruct (decide (d = 1)); [lia|]. exfalso.
    assert (10 ^ 1 <= 10 ^ (d - 1)) by (apply Z.pow_le_mono_r; lia). lia.
  - intros x Hx IH d Hd Hx'. rewrite dec_str_step, zlen_app, zlen_cons, zlen_nil by lia.
    destruct (decide (d = 1)) as [-> |Hd1]; [simpl in Hx'; lia|].
    rewrite (IH (d - 1)); [lia|lia|].
    replace (10 ^ d) with (10 * 10 ^ (d - 1)) in Hx' by (rewrite <- Z.pow_succ_r by lia; f_equal; lia).
    replace (10 ^ (d - 1)) with (10 * 10 ^ (d - 1 - 1)) in Hx' at 1
      by (rewrite <- Z.pow_succ_r by lia; f_equal; lia).
    split; [apply Z.div_le_lower_bound; lia|apply Z.div_lt_upper_bound; lia].
Qed.

Lemma count_digits_spec rounds x n :
  0 <= x < 10 ^ (4 * Z.of_nat rounds) -> x < 10 ^ 30 ->
  count_digits_loop rounds x n = n - 1 + zlen (dec_str x).
Proof.
  intros Hx Hx'. revert x n Hx Hx'. induction rounds as [|rounds IH]; intros x n Hx Hx'.
  { simpl in Hx. assert (x = 0) as -> by lia. simpl. rewrite dec_str_small by lia.
    rewrite zlen_cons, zlen_nil. lia. }
  cbn [count_digits_loop].
  destruct (Z.ltb_spec x 10); [rewrite dec_str_small by lia; rewrite zlen_cons, zlen_nil; lia|].
  destruct (Z.ltb_spec x 100); [rewrite (dec_str_len1 x 2) by (simpl; lia); lia|].
  destruct (Z.ltb_spec x 1000); [rewrite (dec_str_len1 x 3) by (simpl; lia); lia|].
  destruct (Z.ltb_spec x 10000); [rewrite (dec_str_len1 x 4) by (simpl; lia); lia|].
  replace (4 * Z.of_nat (S rounds)) with (4 + 4 * Z.of_nat rounds) in Hx by lia.
  rewrite Z.pow_add_r in Hx by lia. change (10 ^ 4) with 10000 in Hx.
  rewrite IH.
  - unfold zlen. rewrite (dec_str_shift4 x) by lia. lia.
  - split; [apply Z.div_pos; lia|apply Z.div_lt_upper_bound; lia].
  - apply Z.div_lt_upper_bound; lia.
Qed.

Lemma count_digits_dec x : 0 <= x < 2 ^ 64 -> count_digits x = zlen (dec_str x).
Proof. intros Hx. unfold count_digits. rewrite count_digits_spec; [lia|simpl; lia|lia]. Qed.

(** ** dump_integer *)

Lemma store_back_spec c (b : list ascii) p :
  (0 < p <= length b)%nat ->
  store_back c (b, p) = (take (p - 1) b ++ c :: drop p b, (p - 1)%nat).
Proof.
  intros Hp. unfold store_back. simpl. f_equal. rewrite insert_take_drop by lia.
  by replace (S (p - 1)) with p by lia.
Qed.

Lemma dec_str_step2 x :
  100 <= x < 10 ^ 30 ->
  dec_str x = dec_str (x / 100) ++ [(digits_to_99 (x mod 100)).1; (digits_to_99 (x mod 100)).2].
Proof.
  intros Hx. rewrite dec_str_step by lia.
  rewrite (dec_str_step (x / 10)) by (split; [apply Z.div_le_lower_bound; lia|apply Z.div_lt_upper_bound; lia]).
  rewrite <- app_assoc, Z.div_div by lia. change (10 * 10) with 100. f_equal.
  unfold digits_to_99, digit. simpl.
  assert (x / 10 mod 10 = x mod 100 / 10 /\ x mod 10 = (x mod 100) mod 10) as [-> ->]; [|done].
  split; Z.div_mod_to_equations; lia.
Qed.

(** The digits of the value end up before position [p]; the rest of the buffer
    is as it was. *)
Definition fill_digits (rounds : nat) (v : Z) (st : list ascii * nat) : list ascii * nat :=
  let '(abs_value, st) := two_digits_loop rounds v st in
  if 10 <=? abs_value then
    let '(d0, d1) := digits_to_99 abs_value in store_back d0 (store_back d1 st)
  else store_back (chr (48 + abs_value)) st.

Lemma fill_digits_spec rounds v b p :
  0 <= v < 10 ^ (2 * Z.of_nat rounds + 2) -> v < 10 ^ 30 ->
  (length (dec_str v) <= p <= length b)%nat ->
  (fill_digits rounds v (b, p)).1 = take (p - length (dec_str v)) b ++ dec_str v ++ drop p b.
Proof.
  revert v b p. induction rounds as [|rounds IH]; intros v b p Hv Hv' Hp.
  - assert (Hv99 : v < 100) by (simpl in Hv; lia). unfold fill_digits. simpl two_digits_loop. cbv iota beta.
    destruct (Z.leb_spec 10 v).
    + rewrite dec_str_step in * by lia. rewrite dec_str_small in * by (apply Z.div_lt_upper_bound; lia).
      simpl length in *. unfold digits_to_99. rewrite store_back_spec by lia.
      rewrite store_back_spec by (rewrite length_app, length_take; simpl; lia). simpl fst.
      rewrite take_app_le by (rewrite length_take; lia). rewrite take_take, Nat.min_l by lia.
      replace (p - 1 - 1)%nat with (p - 2)%nat by lia. f_equal. simpl. f_equal.
      by rewrite drop_app_length' by (rewrite length_take; lia).
    + rewrite dec_str_small in * by lia. simpl length in *. rewrite store_back_spec by lia. done.
  - unfold fill_digits. cbn [two_digits_loop]. destruct (Z.leb_spec 100 v).
    + pose proof (dec_str_step2 v ltac:(lia)) as E. destruct (digits_to_99 (v mod 100)) as [d0 d1].
      simpl in E. rewrite E in Hp. rewrite length_app in Hp. simpl in Hp.
      assert (Hlen : (1 <= length (dec_str (v / 100)))%nat)
        by (apply dec_str_length; split; [apply Z.div_pos; lia|apply Z.div_lt_upper_bound; lia]).
      rewrite (store_back_spec d1) by lia.
      rewrite store_back_spec by (rewrite length_app, length_take; simpl; lia).
      rewrite take_app_le by (rewrite length_take; lia). rewrite take_take, Nat.min_l by lia.
      rewrite (drop_app_length' (take (p - 1) b)) by (rewrite length_take; lia).
      replace (p - 1 - 1)%nat with (p - 2)%nat by lia.
      change (let '(abs_value, st) := two_digits_loop rounds (v / 100) ?s in
        if 10 <=? abs_value then let '(d0, d1) := digits_to_99 abs_value in store_back d0 (store_back d1 st)
        else store_back (chr (48 + abs_value)) st) with (fill_digits rounds (v / 100) s).
      rewrite IH.
      * rewrite E, length_app. simpl length.
        rewrite take_app_le by (rewrite length_take; lia). rewrite take_take, Nat.min_l by lia.
        rewrite drop_app_length' by (rewrite length_take; lia). rewrite <- app_assoc. simpl app.
        f_equal. f_equal. lia.
      * replace (2 * Z.of_nat (S rounds) + 2) with (2 + (2 * Z.of_nat rounds + 2)) in Hv by lia.
        rewrite Z.pow_add_r in Hv by lia. change (10 ^ 2) with 100 in Hv.
        split; [apply Z.div_pos; lia|apply Z.div_lt_upper_bound; lia].
      * apply Z.div_lt_upper_bound; lia.
      * rewrite length_app, length_take. simpl. rewrite length_drop. lia.
    + change ((fill_digits 0 v (b, p)).1 = take (p - length (dec_str v)) b ++ dec_str v ++ drop p b).
      assert (H0 : 0 <= v < 10 ^ (2 * Z.of_nat 0 + 2)) by (simpl; lia).
      destruct rounds as [|rounds]; [by apply IH|].
      specialize (IH v b p). unfold fill_digits in IH. cbn [two_digits_loop] in IH.
      rewrite (proj2 (Z.leb_gt 100 v)) in IH by lia. apply IH; [|done|done].
      split; [lia|]. assert (10 ^ 2 <= 10 ^ (2 * Z.of_nat (S rounds) + 2)) by (apply Z.pow_le_mono_r; lia).
      change (10 ^ 2) with 100 in *. lia.
Qed.

Lemma dump_integer_nonneg x : 0 <= x < 2 ^ 64 -> dump_integer x = dec_str x.
Proof.
  intros Hx. unfold dump_integer. destruct (Z.eqb_spec x 0) as [-> |Hx0]; [by rewrite dec_str_small by lia|].
  rewrite (proj2 (Z.ltb_ge x 0)) by lia. rewrite u64_small, count_digits_dec by lia.
  assert (Hlen : (1 <= length (dec_str x) <= 30)%nat) by (apply dec_str_length; lia).
  unfold zlen. rewrite Nat2Z.id.
  pose proof (fill_digits_spec 10 x (replicate number_buffer_size (chr 0)) (length (dec_str x))) as Hf.
  unfold fill_digits in Hf.
  destruct (two_digits_loop 10 x _) as [a st]. rewrite length_replicate in Hf. unfold number_buffer_size in *.
  destruct (10 <=? a); [destruct (digits_to_99 a) as [d0 d1]|];
    (destruct (store_back _ _) as [b q]; simpl fst in Hf; rewrite Hf by (simpl; lia));
    rewrite Nat.sub_diag; simpl app; by rewrite take_app_length.
Qed.

Lemma dump_integer_neg x : - 2 ^ 63 <= x < 0 -> dump_integer x = chr 45 :: dec_str (- x).
Proof.
  intros Hx. unfold dump_integer. rewrite (proj2 (Z.eqb_neq x 0)) by lia.
  rewrite (proj2 (Z.ltb_lt x 0)) by lia.
  assert (remove_sign x = - x) as ->.
  { unfold remove_sign. rewrite (u64_small (- (x + 1))) by lia. rewrite u64_small by lia. lia. }
  rewrite count_digits_dec by lia.
  assert (Hlen : (1 <= length (dec_str (- x)) <= 30)%nat) by (apply dec_str_length; lia).
  replace (Z.to_nat (1 + zlen (dec_str (- x)))) with (S (length (dec_str (- x)))) by (unfold zlen; lia).
  pose proof (fill_digits_spec 10 (- x) (<[0%nat := chr 45]> (replicate number_buffer_size (chr 0)))
    (S (length (dec_str (- x))))) as Hf.
  unfold fill_digits in Hf. destruct (two_digits_loop 10 (- x) _) as [a st].
  rewrite length_insert, length_replicate in Hf. unfold number_buffer_size in *.
  destruct (10 <=? a); [destruct (digits_to_99 a) as [d0 d1]|];
    (destruct (store_back _ _) as [b q]; simpl fst in Hf; rewrite Hf by (simpl; lia));
    replace (S (length (dec_str (- x))) - length (dec_str (- x)))%nat with 1%nat by lia;
    change (take 1 (<[0%nat := chr 45]> (replicate 64 (chr 0)))) with [chr 45];
    cbn [app take]; f_equal; apply take_app_length.
Qed.

(** [dump_integer] writes the decimal digits of every 64-bit integer: reading the characters with
    [strtoull], or [strtoll] for a negative one, gives the integer back, and they fit the 64-byte
    [number_buffer]. *)
Theorem dump_integer_reads_back x :
  (0 <= x < 2 ^ 64 -> strtoull (dump_integer x) = Some x) /\
  (- 2 ^ 63 <= x < 0 -> strtoll (dump_integer x) = Some x) /\
  (- 2 ^ 63 <= x < 2 ^ 64 -> (1 <= length (dump_integer x) <= number_buffer_size)%nat).
Proof.
  split_and!.
  - intros Hx. rewrite dump_integer_nonneg by done. unfold strtoull. rewrite dec_value_str by lia.
    by rewrite (proj2 (Z.ltb_lt x (2 ^ 64))) by lia.
  - intros Hx. rewrite dump_integer_neg by done. unfold strtoll. change (Ascii.eqb (chr 45) "-"%char) with true. cbv iota.
    rewrite dec_value_str by lia.
    by rewrite (proj2 (Z.leb_le (- 2 ^ 63) (- - x))), (proj2 (Z.ltb_lt (- - x) (2 ^ 63))), Z.opp_involutive by lia.
  - intros Hx. unfold number_buffer_size. destruct (Z.lt_ge_cases x 0).
    + rewrite dump_integer_neg by lia. simpl. pose proof (dec_str_length (- x) ltac:(lia)). lia.
    + rewrite dump_integer_nonneg by lia. pose proof (dec_str_length x ltac:(lia)). lia.
Qed.

Module IntegersDemo.

(** The three forms at the extreme values. *)
Lemma dump_integer_reads_back_witness :
  strtoull (dump_integer (2 ^ 64 - 1)) = Some (2 ^ 64 - 1) /\ strtoll (dump_integer (- 2 ^ 63)) = Some (- 2 ^ 63) /\
  (1 <= length (dump_integer (- 2 ^ 63)) <= number_buffer_size)%nat.
Proof.
  split_and!.
  1: apply (dump_integer_reads_back (2 ^ 64 - 1)); lia.
  all: apply (dump_integer_reads_back (- 2 ^ 63)); lia.
Defined.
End IntegersDemo.
