(* ===== verification/JsonTokens.v ===== *)
(** * The tokens the lexer reads

    The lexer on the text of each token: punctuation, literals, strings with
    their escapes, integers and floating-point numbers.  These lemmas are about the scanner alone; the
    round trip of values builds on them. *)

From S2P Require Import Prelude StdMap JsonNumber Dtoa JsonValue JsonLexer JsonParser JsonSerializer.
From S2P Require Import JsonStrings JsonIntegers DtoaFormat.

(** ** The lexer between characters *)

(** No character is to be read again, [r] is the input left, [tb] the token
    buffer, and at least [n] characters were read. *)
Definition lst (s : lexer) (r tb : str) (n : Z) : Prop :=
  next_unget s = false /\ ia s = r /\ token_buffer s = tb /\ n <= chars_read_total (position s).

Lemma get_lst s c r tb n :
  lst s (c :: r) tb n -> exists s', get s = Some (ord c, s') /\ lst s' r tb (n + 1) /\ current s' = ord c.
Proof.
  intros (Hu & Hi & Ht & Hn). unfold get. rewrite Hu, Hi. eexists. split; [done|].
  unfold lst, upd_get. simpl. split; [|done]. split_and!; [done..|].
  destruct (ord c =? 10); simpl; lia.
Qed.

Lemma get_eof s tb n :
  lst s [] tb n -> exists s', get s = Some (EOF, s') /\ lst s' [] tb (n + 1) /\ current s' = EOF.
Proof.
  intros (Hu & Hi & Ht & Hn). unfold get. rewrite Hu, Hi. eexists. split; [done|].
  unfold lst, upd_get. simpl. split; [|done]. split_and!; [done..|lia].
Qed.

Lemma add_lst s c r tb n :
  lst s r tb n -> exists s', add c s = Some (tt, s') /\ lst s' r (tb ++ [chr c]) n /\ current s' = current s.
Proof. intros (Hu & Hi & Ht & Hn). eexists. split; [done|]. unfold lst. simpl. by rewrite Ht. Qed.

Lemma lst_weaken s r tb n m : lst s r tb n -> m <= n -> lst s r tb m.
Proof. unfold lst. intuition lia. Qed.

Lemma lex_bind_step {A B} (m : lex A) (k : A -> lex B) s a s' :
  m s = Some (a, s') -> (m ≫= k) s = k a s'.
Proof. intros H. unfold mbind, lex_bind. by rewrite H. Qed.

(** Runs the next [get] or [add] of the goal's computation. *)
Ltac lex_get H :=
  let s' := fresh "s" in let E := fresh "E" in let H' := fresh "H" in let Hc := fresh "Hc" in
  first [ destruct (get_lst _ _ _ _ _ H) as (s' & E & H' & Hc)
        | destruct (get_eof _ _ _ H) as (s' & E & H' & Hc) ];
  erewrite (lex_bind_step get) by exact E; clear E; clear H; rename H' into H.

Ltac lex_add c H :=
  let s' := fresh "s" in let E := fresh "E" in let H' := fresh "H" in let Hc := fresh "Hc" in
  destruct (add_lst _ c _ _ _ H) as (s' & E & H' & Hc);
  erewrite (lex_bind_step (add c)) by exact E; clear E; clear H; rename H' into H.

(** Decides the tests of the goal that compare closed integers. *)
Ltac eval_tests :=
  repeat match goal with
  | |- context [?a =? ?b] =>
      let v := eval vm_compute in (a =? b) in
      lazymatch v with true => idtac | false => idtac end; change (a =? b) with v
  end; cbv iota.

(** ** Strings *)

Lemma ord_hex_lower d : 0 <= d < 16 -> ord (hex_lower d) = if d <? 10 then 48 + d else 87 + d.
Proof. intros H. unfold hex_lower. destruct (Z.ltb_spec d 10); apply ord_chr_small; lia. Qed.

Lemma codepoint_digit d f fs cp s r tb n :
  0 <= d < 16 -> lst s (hex_lower d :: r) tb n ->
  exists s', codepoint_loop (f :: fs) cp s = codepoint_loop fs (cp + Z.shiftl d f) s' /\
    lst s' r tb (n + 1).
Proof.
  intros Hd H. cbn [codepoint_loop]. lex_get H. exists s0. split; [|done].
  rewrite ord_hex_lower by done. destruct (Z.ltb_spec d 10).
  - rewrite (proj2 (Z.leb_le 48 (48 + d))), (proj2 (Z.leb_le (48 + d) 57)) by lia. cbn [andb].
    f_equal. f_equal. f_equal. lia.
  - rewrite (proj2 (Z.leb_le 48 (87 + d))), (proj2 (Z.leb_gt (87 + d) 57)) by lia.
    rewrite (proj2 (Z.leb_le 65 (87 + d))), (proj2 (Z.leb_gt (87 + d) 70)) by lia.
    rewrite (proj2 (Z.leb_le 97 (87 + d))), (proj2 (Z.leb_le (87 + d) 102)) by lia. cbn [andb].
    f_equal. f_equal. f_equal. lia.
Qed.

(** The four digits of [u_escape v] are read as [v]. *)
Lemma get_codepoint_reads v s r tb n :
  0 <= v < 2 ^ 16 -> lst s (drop 2 (u_escape v) ++ r) tb n ->
  exists s', get_codepoint s = Some (v, s') /\ lst s' r tb n.
Proof.
  intros Hv H. unfold get_codepoint. simpl drop in H. cbn [app] in H.
  edestruct (codepoint_digit (Z.shiftr v 12 mod 16) 12 [8; 4; 0]) as (s1 & -> & H1);
    [apply Z.mod_pos_bound; lia|exact H|].
  edestruct (codepoint_digit (Z.shiftr v 8 mod 16) 8 [4; 0]) as (s2 & -> & H2);
    [apply Z.mod_pos_bound; lia|exact H1|].
  edestruct (codepoint_digit (Z.shiftr v 4 mod 16) 4 [0]) as (s3 & -> & H3);
    [apply Z.mod_pos_bound; lia|exact H2|].
  edestruct (codepoint_digit (v mod 16) 0 []) as (s4 & -> & H4);
    [apply Z.mod_pos_bound; lia|exact H3|].
  exists s4. split; [|eapply lst_weaken; [exact H4|lia]]. simpl. unfold mret, lex_ret. do 2 f_equal.
  rewrite !Z.shiftr_div_pow2, !Z.shiftl_mul_pow2 by lia. Z.div_mod_to_equations. lia.
Qed.

Lemma control_char_spec c : (0 <= c < 32 -> control_char c <> None) /\ (32 <= c -> control_char c = None).
Proof.
  unfold control_char. split; intros H; rewrite (proj2 (Z.leb_le 0 c)) by lia.
  - intros Hn. apply lookup_ge_None in Hn. change (length control_messages) with 32%nat in Hn. lia.
  - apply lookup_ge_None. change (length control_messages) with 32%nat. lia.
Qed.

(** The ranges of a multi-byte character are read and added. *)
Lemma ranges_loop_reads ranges r s tb n s0 rest :
  match_ranges ranges s0 = Some r -> lst s (s0 ++ rest) tb n ->
  exists w s', s0 = w ++ r /\ ranges_loop ranges s = Some (true, s') /\
    lst s' (r ++ rest) (tb ++ w) n.
Proof.
  revert s0 s tb n. induction ranges as [|[lo hi] ranges IH]; intros s0 s tb n Hm H.
  - injection Hm as ->. exists [], s. rewrite app_nil_r. done.
  - simpl in Hm. destruct s0 as [|c s0]; [done|]. destruct (_ && _) eqn:E in Hm; [|done].
    cbn [ranges_loop app] in *. lex_get H. rewrite E. cbn [andb].
    lex_add (ord c) H. destruct (IH s0 _ (tb ++ [chr (ord c)]) (n + 1) Hm H) as (w & s' & -> & Er & H').
    exists (c :: w), s'. rewrite Er. split_and!; [done|done|].
    eapply lst_weaken; [|instantiate (1 := n + 1); lia]. rewrite chr_ord, <- app_assoc in H'. done.
Qed.

(** A character after a backslash that stands for [c]. *)
Lemma scan_escape_simple e c s r tb n :
  In (e, c) [(34, 34); (92, 92); (98, 8); (102, 12); (110, 10); (114, 13); (116, 9)] ->
  lst s (chr e :: r) tb n ->
  exists s', scan_escape s = Some (None, s') /\ lst s' r (tb ++ [chr c]) n.
Proof.
  intros Hin H. simpl in Hin. unfold scan_escape.
  repeat (destruct Hin as [[= <- <-]|Hin]; [
    lex_get H; match goal with |- context [ord (chr ?x)] => change (ord (chr x)) with x end;
    eval_tests;
    match goal with |- context [add ?x ≫= _] => lex_add x H end;
    eexists; split; [done|]; eapply lst_weaken; [exact H|lia]|]).
  done.
Qed.

Lemma scan_escape_unicode v s r tb n :
  0 <= v < 0x80 -> lst s (drop 1 (u_escape v) ++ r) tb n ->
  exists s', scan_escape s = Some (None, s') /\ lst s' r (tb ++ [chr v]) n.
Proof.
  intros Hv H. unfold scan_escape. simpl drop in H. cbn [app] in H. lex_get H.
  change (ord (chr 117)) with 117. eval_tests. unfold scan_unicode_escape.
  destruct (get_codepoint_reads v s0 r tb (n + 1)) as (s1 & E & H1); [lia|exact H|].
  erewrite lex_bind_step by exact E. destruct (Z.eqb_spec v (-1)); [lia|].
  rewrite (proj2 (Z.leb_gt 0xD800 v)), (proj2 (Z.leb_gt 0xDC00 v)) by lia. cbn [andb].
  unfold add_utf8. rewrite (proj2 (Z.ltb_lt v 0x80)) by lia. lex_add v H1.
  eexists. split; [done|]. eapply lst_weaken; [exact H1|lia].
Qed.

(** One byte below 0x80, escaped or not. *)
Lemma scan_string_ascii c fuel s r tb n :
  ord c < 0x80 -> lst s (escape_byte c ++ r) tb n ->
  exists s', scan_string_loop (S fuel) s = scan_string_loop fuel s' /\ lst s' r (tb ++ [c]) n.
Proof.
  intros Hc H. cbn [scan_string_loop].
  assert (Hback : forall e, lst s (chr 92 :: e ++ r) tb n ->
    (forall s1, lst s1 (e ++ r) tb (n + 1) ->
       exists s', scan_escape s1 = Some (None, s') /\ lst s' r (tb ++ [c]) n) ->
    exists s', (get ≫= fun c0 => if c0 =? EOF then fail_with $"invalid string: missing closing quote"
      else if c0 =? 34 then mret value_string
      else if c0 =? 92 then
        scan_escape ≫= fun r => match r : option token_type with Some t => mret t | None => scan_string_loop fuel end
      else match control_char c0 with
        | Some m => fail_with m
        | None =>
            if plain_char c0 then add c0 ≫= fun _ => scan_string_loop fuel
            else
              match utf8_ranges c0 with
              | Some ranges => next_byte_in_range ranges ≫= fun ok : bool =>
                  if ok then scan_string_loop fuel else mret tok_parse_error
              | None => fail_with $"invalid string: ill-formed UTF-8 byte"
              end
        end) s = scan_string_loop fuel s' /\ lst s' r (tb ++ [c]) n).
  { intros e He Hs. lex_get He. change (ord (chr 92)) with 92. eval_tests.
    destruct (Hs _ He) as (s' & E & H'). exists s'. split; [|done].
    erewrite lex_bind_step by exact E. done. }
  unfold escape_byte in H.
  assert (Hsimple : forall e b, ord c = b ->
    In (e, b) [(34, 34); (92, 92); (98, 8); (102, 12); (110, 10); (114, 13); (116, 9)] ->
    forall s1, lst s1 ([chr e] ++ r) tb (n + 1) ->
       exists s', scan_escape s1 = Some (None, s') /\ lst s' r (tb ++ [c]) n).
  { intros e b Hb Hin s1 H1. destruct (scan_escape_simple e b s1 r tb (n + 1) Hin H1) as (s' & E & H').
    exists s'. split; [done|]. rewrite <- Hb, chr_ord in H'. eapply lst_weaken; [exact H'|lia]. }
  destruct (Z.eqb_spec (ord c) 0x08) as [Eb|N1]; [eapply (Hback ["b"%char]); [exact H|]; eapply (Hsimple 98); [exact Eb|simpl; tauto]|].
  destruct (Z.eqb_spec (ord c) 0x09) as [Eb|N2]; [eapply (Hback ["t"%char]); [exact H|]; eapply (Hsimple 116); [exact Eb|simpl; tauto]|].
  destruct (Z.eqb_spec (ord c) 0x0A) as [Eb|N3]; [eapply (Hback ["n"%char]); [exact H|]; eapply (Hsimple 110); [exact Eb|simpl; tauto]|].
  destruct (Z.eqb_spec (ord c) 0x0C) as [Eb|N4]; [eapply (Hback ["f"%char]); [exact H|]; eapply (Hsimple 102); [exact Eb|simpl; tauto]|].
  destruct (Z.eqb_spec (ord c) 0x0D) as [Eb|N5]; [eapply (Hback ["r"%char]); [exact H|]; eapply (Hsimple 114); [exact Eb|simpl; tauto]|].
  destruct (Z.eqb_spec (ord c) 0x22) as [Eb|N6]; [eapply (Hback [chr 34]); [exact H|]; eapply (Hsimple 34); [exact Eb|simpl; tauto]|].
  destruct (Z.eqb_spec (ord c) 0x5C) as [Eb|N7]; [eapply (Hback [chr 92]); [exact H|]; eapply (Hsimple 92); [exact Eb|simpl; tauto]|].
  pose proof (ord_range c) as Hr. destruct (Z.leb_spec (ord c) 0x1F).
  - eapply (Hback (drop 1 (u_escape (ord c)))); [exact H|]. intros s1 H1.
    destruct (scan_escape_unicode (ord c) s1 r tb (n + 1)) as (s' & E & H'); [lia|exact H1|].
    exists s'. split; [done|]. rewrite chr_ord in H'. eapply lst_weaken; [exact H'|lia].
  - cbn [app] in H. lex_get H. unfold EOF.
    rewrite !(proj2 (Z.eqb_neq _ _)) by lia. rewrite (proj2 (control_char_spec (ord c))) by lia.
    assert (plain_char (ord c) = true) as ->.
    { unfold plain_char. rewrite !(proj2 (Z.eqb_neq _ _)) by lia.
      by rewrite (proj2 (Z.leb_le 0x20 (ord c))), (proj2 (Z.leb_le (ord c) 0x7F)) by lia. }
    lex_add (ord c) H. eexists. split; [done|]. rewrite chr_ord in H. eapply lst_weaken; [exact H|lia].
Qed.

(** One character of several bytes. *)
Lemma scan_string_multi c ranges s0 s' fuel st rest tb n :
  utf8_ranges (ord c) = Some ranges -> match_ranges ranges s0 = Some s' ->
  lst st (c :: s0 ++ rest) tb n ->
  exists w st', s0 = w ++ s' /\ scan_string_loop (S fuel) st = scan_string_loop fuel st' /\
    lst st' (s' ++ rest) (tb ++ c :: w) n.
Proof.
  intros Hr Hm H. cbn [scan_string_loop]. lex_get H.
  pose proof (utf8_ranges_lead _ _ Hr) as [Hlead _]. unfold EOF.
  rewrite !(proj2 (Z.eqb_neq _ _)) by lia. rewrite (proj2 (control_char_spec (ord c))) by lia.
  assert (plain_char (ord c) = false) as ->.
  { unfold plain_char. by rewrite (proj2 (Z.leb_gt (ord c) 0x7F)), andb_false_r by lia. }
  rewrite Hr. unfold next_byte_in_range.
  destruct (add_lst s (ord c) _ _ _ H) as (s1 & E1 & H1 & _).
  destruct (ranges_loop_reads ranges s' s1 _ _ s0 rest Hm H1) as (w & s2 & -> & E2 & H2).
  exists w, s2. split; [done|]. split.
  - assert (E : (get_current ≫= fun c0 => add c0 ≫= fun _ => ranges_loop ranges) s = Some (true, s2)).
    { erewrite (lex_bind_step get_current) by done. cbn beta. rewrite Hc.
      erewrite lex_bind_step by exact E1. done. }
    erewrite lex_bind_step by exact E. done.
  - rewrite chr_ord, <- app_assoc in H2. eapply lst_weaken; [exact H2|lia].
Qed.

Lemma escape_app a b : escape (a ++ b) = escape a ++ escape b.
Proof. unfold escape. apply bind_app. Qed.

Lemma match_ranges_high ranges c s s' :
  utf8_ranges c = Some ranges -> match_ranges ranges s = Some s' ->
  exists w, s = w ++ s' /\ escape w = w.
Proof.
  intros Hr. assert (Hlo : Forall (fun r => 0x80 <= r.1) ranges).
  { unfold utf8_ranges in Hr.
    repeat (case_match; [injection Hr as <-; repeat (apply Forall_cons; split; [simpl; lia|]); by apply Forall_nil|]).
    done. }
  clear Hr. revert s. induction Hlo as [|[lo hi] ranges Hlo _ IH]; intros s Hm.
  - injection Hm as ->. by exists [].
  - destruct s as [|d s]; [done|]. simpl in Hm. destruct (_ && _) eqn:E; [|done].
    destruct (IH s Hm) as (w & -> & Hw). exists (d :: w). split; [done|].
    bool_hyps. unfold escape in *. rewrite bind_cons, escape_byte_high by (simpl in Hlo; lia). by rewrite Hw.
Qed.

(** The text of a string is read as the string. *)
Lemma scan_string_reads s :
  utf8 s -> forall fuel st rest tb n,
  (length s < fuel)%nat -> lst st (escape s ++ chr 34 :: rest) tb n ->
  exists st', scan_string_loop fuel st = Some (value_string, st') /\ lst st' rest (tb ++ s) n.
Proof.
  induction 1 as [|c s Hc Hs IH|c ranges s s' Hr Hm Hs IH]; intros fuel st rest tb n Hf H.
  - destruct fuel as [|fuel]; [lia|]. cbn [scan_string_loop]. simpl in H. lex_get H.
    change (ord (chr 34)) with 34. unfold EOF. eval_tests. eexists. split; [done|].
    rewrite app_nil_r. eapply lst_weaken; [exact H|lia].
  - destruct fuel as [|fuel]; [simpl in Hf; lia|]. simpl in Hf.
    unfold escape in H. rewrite bind_cons, <- app_assoc in H.
    destruct (scan_string_ascii c fuel st _ tb n Hc H) as (st1 & -> & H1).
    destruct (IH fuel st1 rest (tb ++ [c]) n) as (st' & E & H'); [lia|exact H1|].
    exists st'. split; [done|]. by rewrite <- app_assoc in H'.
  - destruct fuel as [|fuel]; [simpl in Hf; lia|]. simpl in Hf.
    destruct (match_ranges_high _ _ _ _ Hr Hm) as (w & -> & Hw).
    pose proof (utf8_ranges_lead _ _ Hr) as [Hc _].
    assert (Htext : escape (c :: w ++ s') = c :: w ++ escape s').
    { unfold escape. rewrite bind_cons, bind_app, escape_byte_high by lia. unfold escape in Hw. by rewrite Hw. }
    rewrite Htext in H. cbn [app] in H. rewrite <- app_assoc in H.
    assert (Hm' : match_ranges ranges (w ++ escape s' ++ chr 34 :: rest) = Some (escape s' ++ chr 34 :: rest)).
    { clear -Hm. revert w Hm. induction ranges as [|[lo hi] ranges IHr]; intros w Hm.
      - simpl in *. injection Hm as Hm. destruct w as [|x w]; [done|]. exfalso.
        apply (f_equal length) in Hm. rewrite length_app in Hm. simpl in Hm. lia.
      - destruct w as [|x w]; simpl in Hm |- *.
        + exfalso. destruct s' as [|y s']; [done|]. destruct (_ && _); [|done].
          assert (Hle : forall rs u v, match_ranges rs u = Some v -> (length v <= length u)%nat).
          { clear. intros rs. induction rs as [|[lo hi] rs IH]; intros u v; simpl; [by intros [= ->]|].
            destruct u as [|z u]; [done|]. destruct (_ && _); [|done]. intros E%IH. simpl. lia. }
          apply Hle in Hm. simpl in Hm. lia.
        + destruct (_ && _); [|done]. by apply IHr. }
    assert (Hsplit : c :: w ++ escape s' ++ chr 34 :: rest = c :: (w ++ escape s' ++ chr 34 :: rest) ++ [])
      by by rewrite app_nil_r.
    rewrite Hsplit in H.
    destruct (scan_string_multi c ranges _ _ fuel st [] tb n Hr Hm' H) as (w' & st1 & Ew & -> & H1).
    apply app_inv_tail in Ew. subst w'. rewrite app_nil_r in H1.
    destruct (IH fuel st1 rest (tb ++ c :: w) n) as (st' & E & H');
      [rewrite length_app in Hf; lia|exact H1|].
    exists st'. split; [done|]. by rewrite <- app_assoc in H'.
Qed.

(** ** The lexer between tokens *)

(** [r] is the input left, the character to be read again included. *)
Definition at_rest (s : lexer) (r : str) : Prop :=
  if next_unget s then
    (current s = EOF /\ r = [] /\ ia s = []) \/ (exists c, current s = ord c /\ r = c :: ia s)
  else ia s = r.

(** Between two tokens, or before the first one. *)
Definition boundary (s : lexer) (r : str) : Prop :=
  at_rest s r /\
  (0 < chars_read_total (position s) \/
   (chars_read_total (position s) = 0 /\ head (ord <$> r) <> Some 0xEF)).

Lemma lst_rest s r tb n : lst s r tb n -> at_rest s r.
Proof. intros (Hu & Hi & _). unfold at_rest. by rewrite Hu. Qed.

Lemma get_rest s c r :
  at_rest s (c :: r) ->
  exists s', get s = Some (ord c, s') /\ lst s' r (token_buffer s) (chars_read_total (position s) + 1) /\
    current s' = ord c.
Proof.
  unfold at_rest, get. destruct (next_unget s).
  - intros [(_ & ? & _)|(c' & Hc & [= <- ->])]; [done|]. rewrite Hc. eexists. split; [done|].
    unfold lst, upd_get. simpl. split; [|done]. split_and!; [done..|]. destruct (ord c =? 10); simpl; lia.
  - intros ->. eexists. split; [done|]. unfold lst, upd_get. simpl. split; [|done].
    split_and!; [done..|]. destruct (ord c =? 10); simpl; lia.
Qed.

Lemma get_rest_eof s :
  at_rest s [] ->
  exists s', get s = Some (EOF, s') /\ lst s' [] (token_buffer s) (chars_read_total (position s) + 1) /\
    current s' = EOF.
Proof.
  unfold at_rest, get. destruct (next_unget s).
  - intros [(Hc & _ & Hi)|(c' & Hc & [=])]. rewrite Hc. eexists. split; [done|].
    unfold lst, upd_get. simpl. split; [|done]. split_and!; [done..|lia].
  - intros ->. eexists. split; [done|]. unfold lst, upd_get. simpl. split; [|done].
    split_and!; [done..|lia].
Qed.

Lemma unget_rest s r tb n :
  lst s r tb n ->
  exists s', unget s = Some (tt, s') /\ ia s' = r /\ next_unget s' = true /\ current s' = current s /\
    token_buffer s' = tb /\ n - 1 <= chars_read_total (position s').
Proof.
  intros (Hu & Hi & Ht & Hn). eexists. split; [done|]. simpl. split_and!; [done..|].
  case_match; simpl; lia.
Qed.

(** The white space before a token that is not preceded by any. *)
Lemma skip_whitespace_rest s c r :
  at_rest s (c :: r) -> is_space (ord c) = false ->
  exists s', skip_whitespace s = Some (tt, s') /\
    lst s' r (token_buffer s) (chars_read_total (position s) + 1) /\ current s' = ord c.
Proof.
  intros H Hsp. unfold skip_whitespace, with_state. cbn [skip_whitespace_loop].
  destruct (get_rest s c r H) as (s' & E & H' & Hc). erewrite lex_bind_step by exact E. rewrite Hsp.
  by exists s'.
Qed.

Lemma skip_whitespace_eof s :
  at_rest s [] ->
  exists s', skip_whitespace s = Some (tt, s') /\
    lst s' [] (token_buffer s) (chars_read_total (position s) + 1) /\ current s' = EOF.
Proof.
  intros H. unfold skip_whitespace, with_state. cbn [skip_whitespace_loop].
  destruct (get_rest_eof s H) as (s' & E & H' & Hc). erewrite lex_bind_step by exact E. by exists s'.
Qed.

(** [scan()] at the first character of a token. *)
Lemma lex_scan_token s c r :
  boundary s (c :: r) -> is_space (ord c) = false ->
  exists s' tb, lex_scan s = scan_token s' /\ lst s' r tb 1 /\ current s' = ord c.
Proof.
  intros [H Hb] Hsp. unfold lex_scan, with_state.
  destruct (Z.eqb_spec (chars_read_total (position s)) 0) as [H0|H0].
  - destruct Hb as [Hb|[_ Hef]]; [lia|]. simpl in Hef.
    destruct (get_rest s c r H) as (s1 & E1 & H1 & Hc1).
    destruct (unget_rest s1 r _ _ H1) as (s2 & E2 & Hi2 & Hu2 & Hc2 & Ht2 & Hn2).
    assert (Hbom : skip_bom s = Some (true, s2)).
    { unfold skip_bom. erewrite lex_bind_step by exact E1.
      rewrite (proj2 (Z.eqb_neq (ord c) 0xEF)) by congruence.
      erewrite lex_bind_step by exact E2. done. }
    erewrite lex_bind_step by exact Hbom.
    assert (Hr2 : at_rest s2 (c :: r)).
    { unfold at_rest. rewrite Hu2. right. exists c. by rewrite Hc2, Hc1, Hi2. }
    destruct (skip_whitespace_rest s2 c r Hr2 Hsp) as (s3 & E3 & H3 & Hc3).
    exists s3, (token_buffer s2). erewrite lex_bind_step by exact E3. split_and!; [done| |done].
    eapply lst_weaken; [exact H3|lia].
  - destruct (skip_whitespace_rest s c r H Hsp) as (s3 & E3 & H3 & Hc3).
    exists s3, (token_buffer s). erewrite lex_bind_step by exact E3. split_and!; [done| |done].
    eapply lst_weaken; [exact H3|]. lia.
Qed.

(** The token [t] is read from [text] when [ok] holds of what follows it; [Q]
    holds of the lexer then. *)
Definition lexes (text : str) (t : token_type) (ok : str -> Prop) (Q : lexer -> Prop) : Prop :=
  forall s r, boundary s (text ++ r) -> ok r ->
  exists s', lex_scan s = Some (t, s') /\ at_rest s' r /\ 0 < chars_read_total (position s') /\ Q s'.

Definition anything {A} (_ : A) : Prop := True.

Lemma lexes_char c t :
  In (c, t) [("["%char, begin_array); ("]"%char, end_array); ("{"%char, begin_object);
             ("}"%char, end_object); (":"%char, name_separator); (","%char, value_separator)] ->
  lexes [c] t anything anything.
Proof.
  intros Hin s r Hb _. simpl in Hin.
  assert (is_space (ord c) = false) as Hsp.
  { repeat (destruct Hin as [[= <- <-]|Hin]; [reflexivity|]). done. }
  destruct (lex_scan_token s c r Hb Hsp) as (s1 & tb & -> & H1 & Hc).
  exists s1. split; [|split; [by eapply lst_rest|split; [destruct H1 as (_ & _ & _ & ?); lia|done]]].
  unfold scan_token. erewrite (lex_bind_step get_current) by done. rewrite Hc.
  repeat (destruct Hin as [[= <- <-]|Hin]; [reflexivity|]). done.
Qed.

Lemma literal_loop_reads text t s r tb n :
  lst s (text ++ r) tb n -> exists s', literal_loop (ord <$> text) t s = Some (t, s') /\ lst s' r tb n.
Proof.
  revert s n. induction text as [|c text IH]; intros s n H; [by exists s|].
  rewrite fmap_cons. cbn [literal_loop app] in *. lex_get H.
  unfold u8. rewrite Z.mod_small by apply ord_range. rewrite Z.eqb_refl. cbn [negb].
  destruct (IH s0 (n + 1) H) as (s' & E & H'). exists s'. split; [done|].
  eapply lst_weaken; [exact H'|lia].
Qed.

Lemma lexes_literal text t :
  In (text, t) [($"true", literal_true); ($"false", literal_false); ($"null", literal_null)] ->
  lexes text t anything anything.
Proof.
  intros Hin s r Hb _. simpl in Hin.
  repeat (destruct Hin as [[= <- <-]|Hin]; [
    match goal with H : boundary _ ((?c :: ?text') ++ _) |- _ =>
      destruct (lex_scan_token s c (text' ++ r) H eq_refl) as (s1 & tb & -> & H1 & Hc);
      unfold scan_token; erewrite (lex_bind_step get_current) by done; rewrite Hc;
      match goal with |- context [ord ?x] => let v := eval vm_compute in (ord x) in change (ord x) with v end;
      eval_tests; unfold scan_literal; simpl tail;
      match goal with |- context [literal_loop _ ?t _] =>
        destruct (literal_loop_reads text' t s1 r tb 1 H1) as (s' & E & H') end;
      exists s'; split; [exact E|split; [by eapply lst_rest|split; [destruct H' as (_ & _ & _ & ?); lia|done]]]
    end|]).
  done.
Qed.

Lemma length_escape s : (length s <= length (escape s))%nat.
Proof.
  induction s as [|c s IH]; [done|]. unfold escape in *. rewrite bind_cons, length_app.
  assert (1 <= length (escape_byte c))%nat by (unfold escape_byte; repeat case_match; simpl; lia).
  simpl. lia.
Qed.

Lemma lexes_string s :
  utf8 s -> lexes (chr 34 :: escape s ++ [chr 34]) value_string anything (fun l => get_string l = s).
Proof.
  intros Hu st r Hb _. cbn [app] in Hb. rewrite <- app_assoc in Hb. cbn [app] in Hb.
  destruct (lex_scan_token st (chr 34) _ Hb eq_refl) as (s1 & tb & -> & H1 & Hc).
  unfold scan_token. erewrite (lex_bind_step get_current) by done. rewrite Hc.
  change (ord (chr 34)) with 34. eval_tests. unfold scan_string.
  destruct H1 as (Hu1 & Hi1 & Ht1 & Hn1). eassert (E : reset s1 = Some (tt, _)) by done.
  erewrite lex_bind_step by exact E. unfold with_state.
  destruct (scan_string_reads s Hu (S (lex_left (Lexer (ia s1) (current s1) (next_unget s1) (position s1)
     [chr (current s1)] [] (error_message s1) (lex_integer s1) (lex_unsigned s1) (lex_float s1))))
    (Lexer (ia s1) (current s1) (next_unget s1) (position s1)
     [chr (current s1)] [] (error_message s1) (lex_integer s1) (lex_unsigned s1) (lex_float s1)) r [] 1)
    as (s' & E' & H').
  - unfold lex_left. simpl. rewrite Hi1, length_app. pose proof (length_escape s). lia.
  - unfold lst. simpl. done.
  - exists s'. split; [exact E'|]. destruct H' as (Ha & Hb' & Hc' & Hd). split_and!; [|lia|done].
    unfold at_rest. by rewrite Ha.
Qed.

(** ** Numbers *)

(** What follows a number does not continue it. *)
Definition num_end (r : str) : Prop :=
  match r with
  | [] => True
  | c :: _ => is_digit (ord c) = false /\ ord c <> 46 /\ is_e (ord c) = false
  end.

(** The lexer has read the character after a number, with [tb] collected. *)
Definition past_number (s : lexer) (r tb : str) (n : Z) : Prop :=
  match r with
  | [] => lst s [] tb n /\ current s = EOF
  | c :: r' => lst s r' tb n /\ current s = ord c
  end.

Lemma get_past s r tb n :
  lst s r tb n -> exists s', get s = Some (match r with [] => EOF | c :: _ => ord c end, s') /\
    past_number s' r tb (n + 1).
Proof.
  intros H. destruct r as [|c r].
  - destruct (get_eof s tb n H) as (s' & E & H' & Hc). by exists s'.
  - destruct (get_lst s c r tb n H) as (s' & E & H' & Hc). by exists s'.
Qed.

(** The states of the number grammar along a text, and the type of the number
    on the way. *)
Fixpoint num_run (l : num_state) (nt : token_type) (cs : str) : option (num_state * token_type) :=
  match cs with
  | [] => Some (l, num_type l nt)
  | c :: cs' => match num_step l (ord c) with Goto l' => num_run l' (num_type l nt) cs' | _ => None end
  end.

(** States in which a number may end. *)
Definition num_final (l : num_state) : bool :=
  match l with
  | scan_number_zero | scan_number_any1 | scan_number_decimal2 | scan_number_any2 => true
  | _ => false
  end.

Lemma num_step_end l r :
  num_end r -> num_final l = true -> num_step l (match r with [] => EOF | c :: _ => ord c end) = NumDone.
Proof.
  intros Hr Hl. destruct r as [|c r]; [by destruct l|].
  destruct Hr as (Hd & Hp & He). by destruct l; cbn [num_step]; rewrite ?Hd, ?He, ?(proj2 (Z.eqb_neq _ _) Hp).
Qed.

Lemma num_loop_reads cs r l nt l' nt' fuel s tb n :
  num_run l nt cs = Some (l', nt') -> num_final l' = true -> num_end r -> (length cs < fuel)%nat ->
  lst s (cs ++ r) tb n ->
  exists s1, num_loop fuel l nt s = scan_number_done nt' s1 /\ past_number s1 r (tb ++ cs) (n + 1).
Proof.
  intros Hrun Hfin Hr. revert l nt fuel s tb n Hrun.
  induction cs as [|c cs IH]; intros l nt [|fuel] s tb n Hrun Hf H; try (simpl in Hf; lia);
    cbn [num_loop num_run] in *.
  - simplify_eq. simpl in H. destruct (get_past s r tb n H) as (s1 & E & H1). erewrite lex_bind_step by exact E.
    rewrite num_step_end by done. exists s1. split; [done|]. by rewrite app_nil_r.
  - cbn [app] in H. lex_get H. destruct (num_step l (ord c)) as [l1| |]; try done.
    lex_add (ord c) H. rewrite chr_ord in H.
    destruct (IH l1 (num_type l nt) fuel s1 (tb ++ [c]) (n + 1)) as (s2 & E & H2); [done|simpl in Hf; lia|done|].
    exists s2. split; [exact E|]. rewrite <- app_assoc in H2.
    destruct r; (destruct H2 as [H2 ?]; split; [eapply lst_weaken; [exact H2|lia]|done]).
Qed.

Lemma is_digit_char c : 48 <= ord c <= 57 -> is_digit (ord c) = true.
Proof. intros H. unfold is_digit. by rewrite (proj2 (Z.leb_le 48 _)), (proj2 (Z.leb_le _ 57)) by lia. Qed.

(** Digits keep the grammar in one of its three digit states. *)
Lemma num_run_digits l nt ds cs :
  l = scan_number_any1 \/ l = scan_number_decimal2 \/ l = scan_number_any2 -> all_digits ds ->
  num_run l nt (ds ++ cs) = num_run l nt cs.
Proof.
  intros Hl Hd. induction Hd as [|c ds Hc _ IH]; [done|]. cbn [app num_run].
  assert (E : num_step l (ord c) = Goto l /\ num_type l nt = nt).
  { destruct Hl as [-> |[-> | ->]]; simpl; by rewrite is_digit_char. }
  destruct E as [-> ->]. exact IH.
Qed.

(** The end of a number: the character after it is put back. *)
Lemma scan_number_done_reads nt s r tb n :
  past_number s r tb n ->
  exists s0, at_rest s0 r /\ n - 1 <= chars_read_total (position s0) /\ token_buffer s0 = tb /\
    scan_number_done nt s =
      (let as_float := set_number value_float (strtod tb) in
       match nt with
       | value_unsigned => match strtoull tb with Some x => set_number value_unsigned x | None => as_float end
       | value_integer => match strtoll tb with Some x => set_number value_integer x | None => as_float end
       | _ => as_float
       end) s0.
Proof.
  intros H. unfold scan_number_done.
  assert (Hl : exists r', lst s r' tb n /\ ((r = [] /\ r' = [] /\ current s = EOF) \/
    exists c, r = c :: r' /\ current s = ord c)).
  { destruct r as [|c r]; destruct H as [H Hc]; [exists []|exists r]; split; try done; [by left|].
    right. by exists c. }
  destruct Hl as (r' & Hl & Hcase).
  destruct (unget_rest s r' tb n Hl) as (s0 & E & Hi & Hu & Hc & Ht & Hn).
  exists s0. split_and!; [|done|done|].
  - unfold at_rest. rewrite Hu, Hc, Hi.
    destruct Hcase as [(-> & -> & ->)|(c & -> & ->)]; [by left|right; by exists c].
  - erewrite lex_bind_step by exact E. unfold with_state. rewrite Ht. done.
Qed.

(** The token and the value of the text of a number. *)
Definition number_token (nt : token_type) (tb : str) : token_type * Z :=
  let as_float := (value_float, strtod tb) in
  match nt with
  | value_unsigned => match strtoull tb with Some x => (value_unsigned, x) | None => as_float end
  | value_integer => match strtoll tb with Some x => (value_integer, x) | None => as_float end
  | _ => as_float
  end.

Definition number_is (t : token_type) (v : Z) (l : lexer) : Prop :=
  match t with
  | value_unsigned => get_number_unsigned l = v
  | value_integer => get_number_integer l = v
  | _ => get_number_float l = v
  end.

Lemma set_number_rest t v s0 r :
  at_rest s0 r -> t = value_unsigned \/ t = value_integer \/ t = value_float ->
  exists s', set_number t v s0 = Some (t, s') /\ at_rest s' r /\
    position s' = position s0 /\
    number_is t v s'.
Proof. intros H Ht. eexists. split; [done|]. split_and!; [done|done|]. by destruct Ht as [-> |[-> | ->]]. Qed.

(** A text of the number grammar that starts with [c]. *)
Lemma lexes_number c cs l nt :
  ord c = 45 \/ 48 <= ord c <= 57 ->
  num_run (if ord c =? 45 then scan_number_minus else if ord c =? 48 then scan_number_zero else scan_number_any1)
    value_unsigned cs = Some (l, nt) ->
  num_final l = true ->
  let '(t, v) := number_token nt (c :: cs) in lexes (c :: cs) t num_end (number_is t v).
Proof.
  intros Hc Hrun Hfin. destruct (number_token nt (c :: cs)) as [t v] eqn:Etok. intros s r Hb Hr. cbn [app] in Hb.
  assert (Hsp : is_space (ord c) = false) by (unfold is_space; by rewrite !(proj2 (Z.eqb_neq _ _)) by lia).
  destruct (lex_scan_token s c _ Hb Hsp) as (s1 & tb & -> & (Hu1 & Hi1 & Ht1 & Hn1) & Hcur).
  unfold scan_token. erewrite (lex_bind_step get_current) by done. rewrite Hcur.
  assert (Hnum : (ord c =? 45) || is_digit (ord c) = true).
  { destruct Hc as [-> |Hc]; [done|]. rewrite is_digit_char by done. apply orb_true_r. }
  rewrite Hnum. repeat (rewrite (proj2 (Z.eqb_neq (ord c) _)) by lia). cbv iota.
  unfold scan_number. eassert (E : reset s1 = Some (tt, _)) by done.
  erewrite lex_bind_step by exact E. clear E. erewrite (lex_bind_step get_current) by done. cbn [current].
  rewrite Hcur. set (s2 := Lexer _ _ _ _ _ _ _ _ _ _).
  assert (H2 : lst s2 (cs ++ r) [] 1) by done.
  lex_add (ord c) H2. rewrite chr_ord in H2. cbn [app] in H2. unfold with_state.
  destruct (num_loop_reads cs r _ _ l nt (S (lex_left s0)) s0 [c] 1 Hrun Hfin Hr) as (s3 & -> & H3); [|done|].
  { unfold lex_left. destruct H2 as (_ & Hi & _). rewrite Hi, length_app. lia. }
  destruct (scan_number_done_reads nt s3 r (c :: cs) 2 H3) as (s4 & Hr4 & Hn4 & Ht4 & ->).
  assert (Eset : exists s', (let as_float := set_number value_float (strtod (c :: cs)) in
       match nt with
       | value_unsigned => match strtoull (c :: cs) with Some x => set_number value_unsigned x | None => as_float end
       | value_integer => match strtoll (c :: cs) with Some x => set_number value_integer x | None => as_float end
       | _ => as_float
       end) s4 = Some (t, s') /\ at_rest s' r /\ position s' = position s4 /\ number_is t v s').
  { unfold number_token in Etok. destruct nt; repeat case_match; simplify_eq; apply set_number_rest; auto. }
  destruct Eset as (s' & E' & Hr' & Hp & Hv). exists s'. split_and!; [exact E'|done|rewrite Hp; lia|done].
Qed.

Lemma dec_str_run x :
  0 <= x < 2 ^ 64 -> exists c cs l, dec_str x = c :: cs /\ 48 <= ord c <= 57 /\ num_final l = true /\
    forall nt, num_run (if ord c =? 48 then scan_number_zero else scan_number_any1) nt cs = Some (l, nt).
Proof.
  intros Hx. destruct (decide (x = 0)) as [-> |Hx0].
  - exists (chr 48), [], scan_number_zero. split_and!; try done; vm_compute; done.
  - destruct (dec_str_head x) as (c & cs & E & Hc); [lia|]. exists c, cs, scan_number_any1.
    pose proof (dec_str_digits x ltac:(lia)) as Hd. rewrite E in Hd. apply Forall_cons in Hd as [_ Hd].
    split_and!; try done; [lia|lia|]. intros nt. rewrite (proj2 (Z.eqb_neq _ 48)) by lia.
    rewrite <- (app_nil_r cs). by rewrite num_run_digits by auto.
Qed.

Lemma lexes_unsigned x :
  0 <= x < 2 ^ 64 ->
  lexes (dec_str x) value_unsigned num_end (fun l => get_number_unsigned l = x).
Proof.
  intros Hx. destruct (dec_str_run x Hx) as (c & cs & l & E & Hc & Hfin & Hrun).
  pose proof (lexes_number c cs l value_unsigned ltac:(lia)) as H.
  rewrite (proj2 (Z.eqb_neq _ 45)) in H by lia. specialize (H (Hrun _) Hfin). rewrite <- E in H.
  unfold number_token, strtoull in H. rewrite dec_value_str, (proj2 (Z.ltb_lt x (2 ^ 64))) in H by lia. exact H.
Qed.

Lemma lexes_negative x :
  - 2 ^ 63 <= x < 0 ->
  lexes (chr 45 :: dec_str (- x)) value_integer num_end (fun l => get_number_integer l = x).
Proof.
  intros Hx. destruct (dec_str_head (- x)) as (c & cs & E & Hc); [lia|].
  pose proof (dec_str_digits (- x) ltac:(lia)) as Hd. rewrite E in Hd. apply Forall_cons in Hd as [_ Hd].
  pose proof (lexes_number (chr 45) (dec_str (- x)) scan_number_any1 value_integer ltac:(by left)) as H.
  change (ord (chr 45) =? 45) with true in H. ospecialize* H; [|done|].
  - rewrite E. cbn [num_run num_step num_type]. rewrite (proj2 (Z.eqb_neq (ord c) 48)) by lia.
    unfold is_digit19. rewrite (proj2 (Z.leb_le 49 _)), (proj2 (Z.leb_le _ 57)) by lia. cbn [andb].
    rewrite <- (app_nil_r cs). by rewrite num_run_digits by auto.
  - unfold number_token, strtoll in H. change (Ascii.eqb (chr 45) "-") with true in H. cbv iota in H.
    rewrite dec_value_str in H by lia. rewrite Z.opp_involutive in H.
    rewrite (proj2 (Z.leb_le (- 2 ^ 63) x)), (proj2 (Z.ltb_lt x (2 ^ 63))) in H by lia. exact H.
Qed.

(** The states along a floating-point token. *)
Lemma num_run_exp l nt ex :
  match ex with Some (_, ds) => all_digits ds /\ ds <> [] | None => True end ->
  num_final l = true -> (l = scan_number_decimal2 \/ ex <> None) -> l <> scan_number_any2 ->
  exists l', num_final l' = true /\
    num_run l nt (exp_text ex) = Some (l', if ex is Some _ then value_float else nt).
Proof.
  intros Hex Hfin Hl Hne. destruct ex as [[neg ds]|].
  - destruct Hex as [Hd Hds]. exists scan_number_any2. split; [done|]. cbn [exp_text].
    assert (Estep : num_run l nt ("e"%char :: (if neg then "-"%char else "+"%char) :: ds) =
      num_run scan_number_sign value_float ds) by (destruct l; try done; by destruct neg).
    rewrite Estep. destruct Hd as [|c ds Hc Hd]; [done|]. cbn [num_run num_step num_type].
    rewrite is_digit_char by done. rewrite <- (app_nil_r ds). by rewrite num_run_digits by auto.
  - exists l. split; [done|]. destruct Hl as [-> |?]; [done|done].
Qed.

Lemma num_run_fraction l nt fp ex :
  all_digits fp -> match ex with Some (_, ds) => all_digits ds /\ ds <> [] | None => fp <> [] end ->
  l = scan_number_zero \/ l = scan_number_any1 ->
  exists l', num_final l' = true /\ num_run l nt (point_text fp ++ exp_text ex) = Some (l', value_float).
Proof.
  intros Hf Hex Hl. assert (Hex' : match ex with Some (_, ds) => all_digits ds /\ ds <> [] | None => True end)
    by (by destruct ex as [[]|]).
  destruct Hf as [|c fp Hc Hf]; cbn [point_text app].
  - destruct ex as [e|]; [|done].
    destruct (num_run_exp l nt (Some e) Hex') as (l' & ? & E); [destruct Hl as [-> | ->]; auto..|].
    by exists l'.
  - destruct (num_run_exp scan_number_decimal2 value_float ex Hex') as (l' & ? & E); [auto..|].
    exists l'. split; [done|].
    assert (Estep : num_run l nt ("."%char :: c :: fp ++ exp_text ex) =
      num_run scan_number_decimal2 value_float (fp ++ exp_text ex)).
    { transitivity (match num_step scan_number_decimal1 (ord c) with
        | Goto l' => num_run l' value_float (fp ++ exp_text ex) | _ => None end); [by destruct Hl as [-> | ->]|].
      cbn [num_step]. by rewrite is_digit_char. }
    rewrite Estep, num_run_digits by auto. rewrite E. by destruct ex.
Qed.

Lemma float_text_run neg ip fp ex :
  float_ok ip fp ex -> exists c cs l, float_text neg ip fp ex = c :: cs /\ (ord c = 45 \/ 48 <= ord c <= 57) /\
    num_final l = true /\
    num_run (if ord c =? 45 then scan_number_minus else if ord c =? 48 then scan_number_zero else scan_number_any1)
      value_unsigned cs = Some (l, value_float).
Proof.
  intros (Hi & Hf & Hex). unfold float_text.
  assert (Hint : exists c t l0, ip = c :: t /\ 48 <= ord c <= 57 /\ (l0 = scan_number_zero \/ l0 = scan_number_any1) /\
    (if ord c =? 48 then scan_number_zero else scan_number_any1) = l0 /\
    (ord c <> 48 -> is_digit19 (ord c) = true) /\ forall nt cs, num_run l0 nt (t ++ cs) = num_run l0 nt cs).
  { destruct Hi as [-> |[Ha (c & t & -> & Hc)]].
    - exists "0"%char, [], scan_number_zero. split_and!; try done; [vm_compute; done..|by left].
    - apply Forall_cons in Ha as [_ Ha]. exists c, t, scan_number_any1. split_and!; [done|lia|lia|by right|..].
      + by rewrite (proj2 (Z.eqb_neq _ 48)) by lia.
      + intros _. unfold is_digit19. by rewrite (proj2 (Z.leb_le 49 _)), (proj2 (Z.leb_le _ 57)) by lia.
      + intros nt cs. apply num_run_digits; auto. }
  destruct Hint as (c & t & l0 & -> & Hc & Hl0 & El0 & H19 & Hrun).
  destruct neg; cbn [app].
  - destruct (num_run_fraction l0 value_integer fp ex Hf Hex Hl0) as (l' & Hfin & E).
    eexists "-"%char, _, l'. split; [reflexivity|]. split; [by left|]. split; [done|].
    change (ord "-" =? 45) with true. cbv iota. cbn [num_run num_step num_type].
    destruct (Z.eqb_spec (ord c) 48) as [Hz|Hz]; [|rewrite H19 by done]; by rewrite El0, Hrun.
  - destruct (num_run_fraction l0 value_unsigned fp ex Hf Hex Hl0) as (l' & Hfin & E).
    eexists c, _, l'. split; [reflexivity|]. split; [by right|]. split; [done|].
    by rewrite (proj2 (Z.eqb_neq _ 45)), El0, Hrun by lia.
Qed.

Lemma lexes_float x :
  0 <= x < 2 ^ 64 -> isfinite x = true ->
  lexes (to_chars x) value_float num_end (fun l => get_number_float l = x).
Proof.
  intros Hx Hfin. destruct (to_chars_token x Hx Hfin) as (ip & fp & ex & -> & Hok & Hv).
  destruct (float_text_run (2 ^ 63 <=? x) ip fp ex Hok) as (c & cs & l & E & Hc & Hl & Hrun). rewrite E in *.
  pose proof (lexes_number c cs l value_float Hc Hrun Hl) as H. simpl in H. by rewrite Hv in H.
Qed.

(** The end of the input. *)
Lemma lex_scan_end s :
  at_rest s [] -> 0 < chars_read_total (position s) ->
  exists s', lex_scan s = Some (end_of_input, s').
Proof.
  intros H Hp. unfold lex_scan, with_state. rewrite (proj2 (Z.eqb_neq _ 0)) by lia.
  destruct (skip_whitespace_eof s H) as (s1 & E & H1 & Hc). erewrite lex_bind_step by exact E.
  unfold scan_token. erewrite (lex_bind_step get_current) by done. rewrite Hc. by eexists.
Qed.

