(* ===== verification/JsonRoundtrip.v ===== *)
(** * What is written is read back

    The text of a value, [dump] writes it, and [parse] reads it back. *)

From Stdlib Require Import Sorting.Sorted.
From S2P Require Import Prelude StdMap JsonNumber JsonValue JsonLexer JsonParser JsonSerializer.
From S2P Require Import JsonStrings JsonIntegers DtoaFormat JsonTokens.

(** ** The text of a value *)

Definition string_text (s : str) : str := chr 34 :: escape s ++ [chr 34].

Fixpoint text (j : json) : str :=
  match j with
  | JNull => $"null"
  | JBool b => if b then $"true" else $"false"
  | JInteger z => dump_integer z
  | JUnsigned z => dump_integer z
  | JFloat x => dump_float x
  | JString s => string_text s
  | JDiscarded => $"<discarded>"
  | JArray l =>
      $"[" ++
      (fix elems (l : list json) : str :=
         match l with
         | [] => []
         | v :: l' => text v ++ match l' with [] => [] | _ => $"," ++ elems l' end
         end) l ++ $"]"
  | JObject m =>
      $"{" ++
      (fix members (m : list (str * json)) : str :=
         match m with
         | [] => []
         | (k, v) :: m' =>
             (string_text k ++ $":" ++ text v) ++ match m' with [] => [] | _ => $"," ++ members m' end
         end) m ++ $"}"
  end.

(** The texts of elements and members separated by commas. *)
Fixpoint commas (ts : list str) : str :=
  match ts with
  | [] => []
  | t :: ts' => t ++ match ts' with [] => [] | _ => $"," ++ commas ts' end
  end.

Definition member_text (e : str * json) : str := string_text e.1 ++ $":" ++ text e.2.

Lemma text_array l : text (JArray l) = $"[" ++ commas (text <$> l) ++ $"]".
Proof.
  simpl. do 2 f_equal. induction l as [|v l IH]; [done|]. rewrite fmap_cons. cbn [commas]. f_equal.
  destruct l as [|v' l]; [done|]. by rewrite IH.
Qed.

Lemma text_object m : text (JObject m) = $"{" ++ commas (member_text <$> m) ++ $"}".
Proof.
  cbn [text]. do 2 f_equal. induction m as [|[k v] m IH]; [done|]. rewrite fmap_cons. cbn [commas].
  unfold member_text at 1. simpl fst. simpl snd. f_equal. destruct m as [|e m]; [done|]. by rewrite IH.
Qed.

(** All strings and keys are well-formed UTF-8. *)
Fixpoint json_utf8 (j : json) : Prop :=
  match j with
  | JString s => utf8 s
  | JArray l =>
      (fix each (l : list json) : Prop :=
         match l with [] => True | v :: l' => json_utf8 v /\ each l' end) l
  | JObject m =>
      (fix each (m : list (str * json)) : Prop :=
         match m with [] => True | (k, v) :: m' => (utf8 k /\ json_utf8 v) /\ each m' end) m
  | _ => True
  end.

Lemma json_utf8_array l : json_utf8 (JArray l) <-> Forall json_utf8 l.
Proof. simpl. induction l as [|v l IH]; [by split|]. rewrite Forall_cons, IH. done. Qed.

Lemma json_utf8_object m : json_utf8 (JObject m) <-> Forall (fun e => utf8 e.1 /\ json_utf8 e.2) m.
Proof. simpl. induction m as [|[k v] m IH]; [by split|]. rewrite Forall_cons, IH. done. Qed.

(** ** dump writes the text *)

Abbreviation compact := (dump strict false false 0 " "%char).

(** A writer that appends [w]. *)
Definition writes (m : ser unit) (ok : Prop) (w : str) : Prop :=
  forall t i, (ok /\ m (Out t i) = Done (tt, Out (t ++ w) i)) \/
              (~ ok /\ m (Out t i) = Thrown (type_error 316)).

Lemma writes_seq (m k : ser unit) P Q v w :
  writes m P v -> writes k Q w -> writes (ser_m_bind _ _ (fun _ => k) m) (P /\ Q) (v ++ w).
Proof.
  intros Hm Hk t i. unfold ser_m_bind. destruct (Hm t i) as [[HP ->]|[HP ->]]; [|right; tauto].
  destruct (Hk (t ++ v) i) as [[HQ ->]|[HQ ->]]; [|right; tauto]. left. by rewrite app_assoc.
Qed.

Lemma writes_iff m P Q v w : writes m P v -> (P <-> Q) -> v = w -> writes m Q w.
Proof. intros Hm HPQ -> t i. destruct (Hm t i); [left|right]; tauto. Qed.

Lemma writes_write w : writes (write w) True w.
Proof. intros t i. by left. Qed.

Lemma writes_nothing : writes (ser_m_ret _ tt) True [].
Proof. intros t i. left. by rewrite app_nil_r. Qed.

Lemma writes_escaped s : writes (write_escaped strict false s) (utf8 s) (escape s).
Proof.
  intros t i. unfold write_escaped. simpl.
  destruct (dump_escaped_strict s t) as [[Hu ->]|[Hu ->]]; [left|right]; done.
Qed.

Lemma dump_compact j : forall ci, writes (compact j ci) (json_utf8 j) (text j).
Proof.
  induction j as [|m IH|l IH|s|b|z|z|z|] using json_induct; intros ci; try apply writes_write.
  - rewrite text_object. destruct m as [|e m]; [apply writes_write|].
    eapply writes_iff; [|symmetry; apply json_utf8_object|reflexivity].
    cbn [dump]. eapply writes_iff; [eapply writes_seq; [apply writes_write|eapply writes_seq; [|apply writes_write]]| |reflexivity].
    2: { instantiate (1 := Forall (fun e => utf8 e.1 /\ json_utf8 e.2) (e :: m)). tauto. }
    revert e IH. induction m as [|e' m IHm]; intros [k v] IH; apply Forall_cons in IH as [Hv IH];
      rewrite fmap_cons; cbn [commas member_text fst snd].
    + eapply writes_iff; [repeat (eapply writes_seq; [first [apply writes_write|apply writes_escaped|apply Hv]|])|..].
      1: apply writes_nothing.
      * rewrite Forall_cons, Forall_nil. simpl. tauto.
      * unfold member_text, string_text. simpl. by rewrite <- !app_assoc, !app_nil_r.
    + specialize (IHm e' IH). 
      eapply writes_iff; [repeat (eapply writes_seq; [first [apply writes_write|apply writes_escaped|apply Hv]|])|..].
      1: exact IHm.
      * rewrite (Forall_cons _ (k, v)). simpl. tauto.
      * unfold member_text at 3. unfold string_text. simpl. by rewrite <- !app_assoc.
  - rewrite text_array. destruct l as [|v l]; [apply writes_write|].
    eapply writes_iff; [|symmetry; apply json_utf8_array|reflexivity].
    cbn [dump]. eapply writes_iff; [eapply writes_seq; [apply writes_write|eapply writes_seq; [|apply writes_write]]| |reflexivity].
    2: { instantiate (1 := Forall json_utf8 (v :: l)). tauto. }
    revert v IH. induction l as [|v' l IHl]; intros v IH; apply Forall_cons in IH as [Hv IH];
      rewrite fmap_cons; cbn [commas].
    + eapply writes_iff; [repeat (eapply writes_seq; [first [apply writes_write|apply Hv]|])|..].
      1: apply writes_nothing.
      * rewrite Forall_cons, Forall_nil. tauto.
      * done.
    + specialize (IHl v' IH).
      eapply writes_iff; [repeat (eapply writes_seq; [first [apply writes_write|apply Hv]|])|..].
      1: exact IHl.
      * rewrite (Forall_cons _ v). tauto.
      * done.
  - eapply writes_iff; [eapply writes_seq; [apply writes_write|eapply writes_seq; [apply writes_escaped|apply writes_write]]| |].
    + simpl. tauto.
    + done.
Qed.

Lemma json_dump_text j :
  (json_utf8 j /\ json_dump j = Done (text j)) \/
  (~ json_utf8 j /\ json_dump j = Thrown (type_error 316)).
Proof.
  unfold json_dump, json_dump_with. change (0 <=? -1) with false. cbv iota.
  destruct (dump_compact j 0 [] 512) as [[Hu E]|[Hu E]]; [left|right]; (split; [done|]); simpl in E |- *;
    unfold mbind, ser_bind; by rewrite E.
Qed.

(** ** parse reads the text *)

(** A nonnegative integer is read as an unsigned one; infinities and NaN are
    written as [null]. *)
Fixpoint norm (j : json) : json :=
  match j with
  | JInteger z => if 0 <=? z then JUnsigned z else JInteger z
  | JFloat x => if isfinite x then JFloat x else JNull
  | JArray l => JArray (norm <$> l)
  | JObject m => JObject ((fun '(k, v) => (k, norm v)) <$> m)
  | _ => j
  end.

(** The parser that has read the first token of [txt] builds [v] from it, in at
    most as many iterations as [txt] has characters. *)
Definition parses (txt : str) (v : json) : Prop :=
  forall l r, boundary l (txt ++ r) -> num_end r ->
  exists tok1 l1, lex_scan l = Some (tok1, l1) /\ tok1 <> end_array /\
  exists k l' tok, (k <= length txt)%nat /\ at_rest l' r /\ 0 < chars_read_total (position l') /\
    forall st sx f,
      sax_parse_internal (k + S f) false (Parser l1 tok1 st sx) =
      sax_parse_internal (S f) true (Parser l' tok st (handle_value v sx)).

(** A value of one token. *)
Lemma parses_token txt t ok (Q : lexer -> Prop) v :
  lexes txt t ok Q -> (forall r, num_end r -> ok r) -> t <> end_array ->
  (forall l st sx, Q l ->
     parse_value (Parser l t st sx) = evaluate_state (with_sdp (handle_value v) (Parser l t st sx))) ->
  parses txt v.
Proof.
  intros Hl Hok Ht Hp l r Hb Hr. destruct (Hl l r Hb (Hok r Hr)) as (l1 & E & Hrest & Hpos & HQ).
  exists t, l1. split_and!; [done..|]. exists 0%nat, l1, t. split_and!; [lia|done..|].
  intros st sx f. simpl. by rewrite Hp.
Qed.

Lemma boundary_rest l r : at_rest l r -> 0 < chars_read_total (position l) -> boundary l r.
Proof. intros Hr Hp. split; [done|by left]. Qed.

Lemma get_token_scan l t st sx t' l' :
  lex_scan l = Some (t', l') -> get_token (Parser l t st sx) = Some (Parser l' t' st sx).
Proof. intros E. unfold get_token. simpl. by rewrite E. Qed.

(** A character of punctuation at the start of what is left. *)
Lemma scan_char l c t r :
  In (c, t) [("["%char, begin_array); ("]"%char, end_array); ("{"%char, begin_object);
             ("}"%char, end_object); (":"%char, name_separator); (","%char, value_separator)] ->
  boundary l (c :: r) ->
  exists l', lex_scan l = Some (t, l') /\ boundary l' r /\ at_rest l' r /\ 0 < chars_read_total (position l').
Proof.
  intros Hin Hb. destruct (lexes_char c t Hin l r Hb I) as (l' & E & Hr & Hp & _).
  exists l'. split_and!; try done. by apply boundary_rest.
Qed.

(** The elements of an array, from its first one. *)
Lemma array_rest t ts v vs acc :
  parses t v -> Forall2 parses ts vs ->
  forall l r, boundary l (commas (t :: ts) ++ "]"%char :: r) ->
  exists tok1 l1, lex_scan l = Some (tok1, l1) /\ tok1 <> end_array /\
  exists k l' tok, (k <= length (commas (t :: ts)) + 1)%nat /\ at_rest l' r /\
    0 < chars_read_total (position l') /\
    forall st rt fs f,
      sax_parse_internal (k + S f) false (Parser l1 tok1 (true :: st) (Sax rt (InArray acc :: fs))) =
      sax_parse_internal (S f) true (Parser l' tok st (handle_value (JArray (acc ++ v :: vs)) (Sax rt fs))).
Proof.
  intros Hv Hvs. revert t v acc Hv. induction Hvs as [|t2 v2 ts vs Hv2 Hvs IH]; intros t v acc Hv l r Hb.
  - cbn [commas] in Hb. rewrite app_nil_r in Hb.
    destruct (Hv l _ Hb) as (tok1 & l1 & E1 & Hne & k & l' & tok & Hk & Hr & Hp & Hstep); [done|].
    destruct (scan_char l' "]"%char end_array r) as (l2 & E2 & _ & Hr2 & Hp2);
      [simpl; tauto|by apply boundary_rest|].
    exists tok1, l1. split_and!; [done..|]. exists (k + 1)%nat, l2, end_array. split_and!; [|done..|].
    { cbn [commas]. rewrite length_app. simpl. lia. }
    intros st rt fs f. replace (k + 1 + S f)%nat with (k + S (S f))%nat by lia. rewrite Hstep.
    cbn [sax_parse_internal evaluate_state states].
    rewrite (get_token_scan _ _ _ _ _ _ E2). simpl. done.
  - change (commas (t :: t2 :: ts)) with (t ++ $"," ++ commas (t2 :: ts)) in Hb. rewrite <- !app_assoc in Hb.
    destruct (Hv l _ Hb) as (tok1 & l1 & E1 & Hne & k & l' & tok & Hk & Hr & Hp & Hstep); [done|].
    destruct (scan_char l' ","%char value_separator _ ltac:(simpl; tauto) (boundary_rest _ _ Hr Hp))
      as (l2 & E2 & Hb2 & _).
    destruct (IH t2 v2 (acc ++ [v]) Hv2 l2 r) as (tok3 & l3 & E3 & Hne3 & k3 & l4 & tok4 & Hk3 & Hr4 & Hp4 & Hstep3);
      [exact Hb2|].
    exists tok1, l1. split_and!; [done..|]. exists (k + 1 + k3)%nat, l4, tok4. split_and!; [|done..|].
    { change (commas (t :: t2 :: ts)) with (t ++ $"," ++ commas (t2 :: ts)). rewrite !length_app.
      change (length ($",")) with 1%nat. lia. }
    intros st rt fs f. replace (k + 1 + k3 + S f)%nat with (k + S (k3 + S f))%nat by lia. rewrite Hstep.
    cbn [sax_parse_internal evaluate_state states].
    rewrite (get_token_scan _ _ _ _ _ _ E2). cbn [mbind option_bind last_token]. rewrite bool_decide_true by done.
    rewrite (get_token_scan _ _ _ _ _ _ E3). cbn [mbind option_bind]. simpl ref_stack.
    change (handle_value v (Sax rt (InArray acc :: fs))) with (Sax rt (InArray (acc ++ [v]) :: fs)).
    rewrite Hstep3. by rewrite <- app_assoc.
Qed.

Lemma parses_array ts vs : Forall2 parses ts vs -> parses ($"[" ++ commas ts ++ $"]") (JArray vs).
Proof.
  intros Hvs l r Hb Hr. rewrite <- !app_assoc in Hb. cbn [app] in Hb.
  destruct (scan_char l "["%char begin_array _ ltac:(simpl; tauto) Hb) as (l1 & E1 & Hb1 & _).
  exists begin_array, l1. split_and!; [done..|]. destruct Hvs as [|t v ts vs Hv Hvs].
  - destruct (scan_char l1 "]"%char end_array _ ltac:(simpl; tauto) Hb1) as (l2 & E2 & _ & Hr2 & Hp2).
    exists 0%nat, l2, end_array. split_and!; [lia|done..|]. intros st [rt fs] f.
    cbn [Nat.add sax_parse_internal parse_value last_token]. unfold with_sdp. cbn [m_lexer last_token states sdp].
    rewrite (get_token_scan _ _ _ _ _ _ E2). done.
  - destruct (array_rest t ts v vs [] Hv Hvs l1 r Hb1) as (tok1 & l2 & E2 & Hne & k & l' & tok & Hk & Hr' & Hp & Hstep).
    exists (S k), l', tok. split_and!; [rewrite !length_app; change (length ($"[")) with 1%nat; change (length ($"]")) with 1%nat; lia|done..|].
    intros st [rt fs] f.
    cbn [Nat.add sax_parse_internal parse_value last_token]. unfold with_sdp. cbn [m_lexer last_token states sdp].
    rewrite (get_token_scan _ _ _ _ _ _ E2). cbn [mbind option_bind last_token].
    rewrite bool_decide_false by done. exact (Hstep st rt fs f).
Qed.
(** What is built for the member with key [k] and value [v]. *)
Definition put_member (k : str) (v : json) (acc : list (str * json)) : list (str * json) :=
  map_assign k v (match map_find k acc with Some _ => acc | None => map_assign k JNull acc end).

(** A member, from its key. *)
Lemma member_reads k t v :
  utf8 k -> parses t v -> forall l r, boundary l (string_text k ++ ":"%char :: t ++ r) -> num_end r ->
  exists l1, lex_scan l = Some (value_string, l1) /\
  exists n l' tok, (n <= length t)%nat /\ at_rest l' r /\ 0 < chars_read_total (position l') /\
    forall st rt acc k0 fs into (g : list bool -> list bool) f,
      (forall p, into p = with_states (g (states p)) p) ->
      exists p', parse_member (Parser l1 value_string st (Sax rt (InObject acc k0 :: fs))) into = Some (Next false p') /\
        sax_parse_internal (n + S f) false p' =
        sax_parse_internal (S f) true (Parser l' tok (g st) (Sax rt (InObject (put_member k v acc) k :: fs))).
Proof.
  intros Hu Hv l r Hb Hr. unfold string_text in Hb.
  destruct (lexes_string k Hu l _ Hb I) as (l1 & E1 & Hr1 & Hp1 & Hk).
  destruct (scan_char l1 ":"%char name_separator (t ++ r) ltac:(simpl; tauto) (boundary_rest _ _ Hr1 Hp1))
    as (l2 & E2 & Hb2 & _).
  destruct (Hv l2 r Hb2 Hr) as (tok3 & l3 & E3 & _ & n & l' & tok & Hn & Hr' & Hp' & Hstep).
  exists l1. split; [done|]. exists n, l', tok. split_and!; [done..|].
  intros st rt acc k0 fs into g f Hinto. eexists. split.
  - unfold parse_member. cbn [last_token m_lexer]. rewrite bool_decide_false by (intros Hf; by apply Hf).
    unfold with_sdp. cbn [m_lexer last_token states sdp]. rewrite (get_token_scan _ _ _ _ _ _ E2).
    cbn [mbind option_bind last_token]. rewrite bool_decide_false by (intros Hf; by apply Hf). rewrite Hinto.
    unfold with_states. cbn [m_lexer last_token states sdp]. rewrite (get_token_scan _ _ _ _ _ _ E3).
    cbn [mbind option_bind]. done.
  - rewrite Hstep. rewrite Hk. done.
Qed.

(** The members of an object, from the first one. *)
Lemma object_rest e es v vs acc k0 into g :
  utf8 e.1 -> parses (text e.2) v -> Forall2 (fun e v => utf8 e.1 /\ parses (text e.2) v) es vs ->
  (forall p, into p = with_states (g (states p)) p) ->
  forall l r, boundary l (commas (member_text <$> (e :: es)) ++ "}"%char :: r) ->
  exists l1, lex_scan l = Some (value_string, l1) /\
  exists n l' tok, (n <= length (commas (member_text <$> (e :: es))))%nat /\ at_rest l' r /\
    0 < chars_read_total (position l') /\
    forall st st' rt fs f, g st = false :: st' -> exists p',
      parse_member (Parser l1 value_string st (Sax rt (InObject acc k0 :: fs))) into = Some (Next false p') /\
      sax_parse_internal (n + S f) false p' =
      sax_parse_internal (S f) true
        (Parser l' tok st'
          (handle_value (JObject (foldl (fun m e => put_member e.1 e.2 m) acc (zip (e :: es).*1 (v :: vs)))) (Sax rt fs))).
Proof.
  intros He Hv Hvs. revert e v acc k0 into g He Hv.
  induction Hvs as [|e2 v2 es vs [He2 Hv2] Hvs IH]; intros e v acc k0 into g He Hv Hinto l r Hb.
  - cbn [fmap list_fmap commas] in Hb. rewrite app_nil_r in Hb. unfold member_text in Hb. rewrite <- !app_assoc in Hb.
    destruct (member_reads e.1 (text e.2) v He Hv l _ Hb) as (l1 & E1 & n & l' & tok & Hn & Hr & Hp & Hstep); [done|].
    destruct (scan_char l' "}"%char end_object r ltac:(simpl; tauto) (boundary_rest _ _ Hr Hp)) as (l2 & E2 & _ & Hr2 & Hp2).
    exists l1. split; [done|]. exists (n + 1)%nat, l2, end_object. split_and!; [|done..|].
    { cbn [fmap list_fmap commas]. unfold member_text. rewrite !length_app. change (length ($":")) with 1%nat. lia. }
    intros st st' rt fs f Hg. destruct (Hstep st rt acc k0 fs into g (S f) Hinto) as (p' & Ep & Es).
    exists p'. split; [done|]. replace (n + 1 + S f)%nat with (n + S (S f))%nat by lia. rewrite Es, Hg.
    cbn [sax_parse_internal evaluate_state states].
    rewrite (get_token_scan _ _ _ _ _ _ E2). simpl. done.
  - rewrite fmap_cons in Hb. change (commas (member_text e :: (member_text <$> (e2 :: es)))) with
      (member_text e ++ $"," ++ commas (member_text <$> (e2 :: es))) in Hb.
    unfold member_text in Hb at 1. rewrite <- !app_assoc in Hb.
    destruct (member_reads e.1 (text e.2) v He Hv l _ Hb) as (l1 & E1 & n & l' & tok & Hn & Hr & Hp & Hstep); [done|].
    destruct (scan_char l' ","%char value_separator _ ltac:(simpl; tauto) (boundary_rest _ _ Hr Hp))
      as (l2 & E2 & Hb2 & _).
    destruct (IH e2 v2 (put_member e.1 v acc) e.1 id id He2 Hv2) with (l := l2) (r := r)
      as (l3 & E3 & n3 & l4 & tok4 & Hn3 & Hr4 & Hp4 & Hstep3); [by intros []|exact Hb2|].
    exists l1. split; [done|]. exists (n + 1 + n3)%nat, l4, tok4. split_and!; [|done..|].
    { rewrite (fmap_cons member_text e). change (commas (member_text e :: (member_text <$> (e2 :: es)))) with
      (member_text e ++ $"," ++ commas (member_text <$> (e2 :: es))). unfold member_text at 1.
      rewrite !length_app. change (length ($":")) with 1%nat. change (length ($",")) with 1%nat. lia. }
    intros st st' rt fs f Hg. destruct (Hstep st rt acc k0 fs into g (n3 + S f)%nat Hinto) as (p' & Ep & Es).
    exists p'. split; [done|]. replace (n + 1 + n3 + S f)%nat with (n + S (n3 + S f))%nat by lia. rewrite Es, Hg.
    cbn [sax_parse_internal evaluate_state states].
    rewrite (get_token_scan _ _ _ _ _ _ E2). cbn [mbind option_bind last_token]. rewrite bool_decide_true by done.
    rewrite (get_token_scan _ _ _ _ _ _ E3). cbn [mbind option_bind].
    destruct (Hstep3 (false :: st') st' rt fs f eq_refl) as (p3 & Ep3 & Es3). rewrite Ep3. exact Es3.
Qed.

Lemma parses_object m vs :
  Forall2 (fun e v => utf8 e.1 /\ parses (text e.2) v) m vs ->
  parses (text (JObject m)) (JObject (foldl (fun m e => put_member e.1 e.2 m) [] (zip m.*1 vs))).
Proof.
  intros Hvs l r Hb Hr. rewrite text_object in Hb |- *. rewrite <- !app_assoc in Hb. cbn [app] in Hb.
  destruct (scan_char l "{"%char begin_object _ ltac:(simpl; tauto) Hb) as (l1 & E1 & Hb1 & _).
  exists begin_object, l1. split_and!; [done..|]. destruct Hvs as [|e v es vs [He Hv] Hvs].
  - destruct (scan_char l1 "}"%char end_object _ ltac:(simpl; tauto) Hb1) as (l2 & E2 & _ & Hr2 & Hp2).
    exists 0%nat, l2, end_object. split_and!; [lia|done..|]. intros st [rt fs] f.
    cbn [Nat.add sax_parse_internal parse_value last_token]. unfold with_sdp. cbn [m_lexer last_token states sdp].
    rewrite (get_token_scan _ _ _ _ _ _ E2). done.
  - destruct (object_rest e es v vs [] [] (fun p => with_states (false :: states p) p) (cons false) He Hv Hvs)
      with (l := l1) (r := r) as (l2 & E2 & n & l' & tok & Hn & Hr' & Hp & Hstep); [done|exact Hb1|].
    exists (S n), l', tok. split_and!;
      [rewrite !length_app; change (length ($"{")) with 1%nat; change (length ($"}")) with 1%nat; lia|done..|].
    intros st [rt fs] f.
    cbn [Nat.add sax_parse_internal parse_value last_token]. unfold with_sdp. cbn [m_lexer last_token states sdp].
    rewrite (get_token_scan _ _ _ _ _ _ E2). cbn [mbind option_bind last_token].
    rewrite bool_decide_false by discriminate. destruct (Hstep st st rt fs f eq_refl) as (p' & Ep & Es).
    unfold start_object. cbn [root ref_stack]. rewrite Ep. exact Es.
Qed.

Lemma put_member_last k v acc :
  Forall (fun e => str_ltb e.1 k = true) acc -> put_member k v acc = acc ++ [(k, v)].
Proof.
  intros H. unfold put_member.
  destruct (map_find k acc) eqn:E; [by rewrite map_assign_last|].
  rewrite (map_assign_last k JNull) by done. clear E. induction H as [|[k' v'] acc Hk _ IH]; simpl in *.
  - by rewrite !str_ltb_irrefl.
  - by rewrite Hk, IH.
Qed.

Lemma put_members_sorted m acc :
  map_sorted (acc ++ m) -> foldl (fun m e => put_member e.1 e.2 m) acc m = acc ++ m.
Proof.
  revert acc. induction m as [|[k v] m IH]; intros acc Hs; simpl; [by rewrite app_nil_r|].
  rewrite put_member_last.
  - rewrite IH; rewrite <- app_assoc; done.
  - clear IH. induction acc as [|[k' v'] acc IHa]; [done|].
    apply StronglySorted_inv in Hs as [Hs Hf]. apply Forall_cons. split; [|by apply IHa].
    rewrite Forall_forall in Hf. apply (Hf (k, v)). set_solver.
Qed.

Definition norm_member (e : str * json) : str * json := (e.1, norm e.2).

Lemma norm_object m : norm (JObject m) = JObject (norm_member <$> m).
Proof. simpl. f_equal. apply list_fmap_ext. by intros ? []. Qed.

Lemma norm_members_sorted m : map_sorted m -> map_sorted (norm_member <$> m).
Proof.
  unfold map_sorted. induction 1 as [|e m Hs IH Hf]; [constructor|]. rewrite fmap_cons. constructor; [done|].
  by apply Forall_fmap.
Qed.

Lemma zip_norm m : zip m.*1 ((fun e => norm e.2) <$> m) = norm_member <$> m.
Proof. induction m as [|[k v] m IH]; [done|]. rewrite !fmap_cons. simpl. by rewrite IH. Qed.

Lemma text_parses j : json_ok j -> json_utf8 j -> parses (text j) (norm j).
Proof.
  induction j as [|m IH|l IH|s|b|z|z|z|] using json_induct; intros Hok Hu; try done.
  - eapply parses_token; [apply (lexes_literal $"null"); simpl; tauto|done..].
  - apply json_ok_object in Hok as [Hs Hok]. apply json_utf8_object in Hu. rewrite norm_object.
    pose proof (put_members_sorted (norm_member <$> m) [] (norm_members_sorted m Hs)) as Hput.
    cbn [app] in Hput. rewrite <- Hput, <- zip_norm. apply parses_object.
    rewrite Forall2_fmap_r. apply Forall_Forall2_diag. rewrite !Forall_forall in *.
    intros [k v] Hin. split; [by apply (Hu _ Hin)|]. apply (IH _ Hin); [by apply (Hok _ Hin)|by apply (Hu _ Hin)].
  - apply json_ok_array in Hok. apply json_utf8_array in Hu. rewrite text_array.
    apply parses_array. rewrite Forall2_fmap. apply Forall_Forall2_diag. rewrite !Forall_forall in *. auto.
  - eapply parses_token; [by apply (lexes_string s)|done..|]. intros l st sx Hl. cbn [parse_value last_token m_lexer]. by rewrite Hl.
  - destruct b; (eapply parses_token; [apply lexes_literal; simpl; tauto|done..]).
  - cbn [text norm json_ok] in *. destruct (Z.leb_spec 0 z).
    + rewrite dump_integer_nonneg by lia. eapply parses_token; [apply lexes_unsigned; lia|done..|].
      intros l st sx Hl. cbn [parse_value last_token m_lexer]. by rewrite Hl.
    + rewrite dump_integer_neg by lia. eapply parses_token; [apply lexes_negative; lia|done..|].
      intros l st sx Hl. cbn [parse_value last_token m_lexer]. by rewrite Hl.
  - cbn [text norm json_ok] in *. rewrite dump_integer_nonneg by lia.
    eapply parses_token; [apply lexes_unsigned; lia|done..|]. intros l st sx Hl. cbn [parse_value last_token m_lexer]. by rewrite Hl.
  - cbn [text norm json_ok] in *. unfold dump_float. destruct (isfinite z) eqn:Hfin; cbn [negb].
    + eapply parses_token; [by apply lexes_float|done..|]. intros l st sx Hl.
      cbn [parse_value last_token m_lexer]. by rewrite Hl, Hfin.
    + eapply parses_token; [apply (lexes_literal $"null"); simpl; tauto|done..].
Qed.

(** No text starts with the first byte of a byte order mark. *)
Lemma text_head j : json_ok j -> head (ord <$> text j) <> Some 0xEF.
Proof.
  assert (Hdigits : forall z, 0 <= z < 10 ^ 30 -> head (ord <$> dec_str z) <> Some 0xEF).
  { intros z Hz. pose proof (dec_str_digits z Hz) as Hd. destruct Hd as [|c ds Hc]; [done|]. simpl. intros [= Hc']. lia. }
  destruct j; try done; cbn [json_ok text]; intros Hok.
  - by destruct b.
  - destruct (decide (0 <= z)); [rewrite dump_integer_nonneg by lia; apply Hdigits; lia|by rewrite dump_integer_neg by lia].
  - rewrite dump_integer_nonneg by lia. apply Hdigits. lia.
  - unfold dump_float. destruct (isfinite bits) eqn:Hfin; [|done].
    destruct (to_chars_token bits Hok Hfin) as (ip & fp & ex & -> & Hf & _).
    destruct (float_text_run (2 ^ 63 <=? bits) ip fp ex Hf) as (c & cs & l & -> & Hc & _). simpl. intros [= Hc']. lia.
Qed.

Lemma text_parse j : json_ok j -> json_utf8 j -> json_parse (text j) = Some (Ok (norm j)).
Proof.
  intros Hok Hu.
  destruct (text_parses j Hok Hu (new_lexer (text j)) []) as
    (tok1 & l1 & E1 & _ & k & l' & tok & Hk & Hr & Hp & Hstep); [|done|].
  { rewrite app_nil_r. split; [done|]. right. split; [done|by apply text_head]. }
  unfold json_parse. rewrite (get_token_scan _ _ _ _ _ _ E1). cbn [mbind option_bind].
  replace (length (text j) + 3)%nat with (k + S (length (text j) + 2 - k))%nat by lia. rewrite Hstep.
  cbn [sax_parse_internal evaluate_state states mbind option_bind].
  destruct (lex_scan_end l' Hr Hp) as (l2 & E2). rewrite (get_token_scan _ _ _ _ _ _ E2). done.
Qed.
