(* ===== verification/JsonTotal.v ===== *)
(** * The parser on any input

    A weakest precondition for the scanner's monad.  The scanner reads a token
    from any state of the input, and what it stores is of the type of the
    token; the parser ends within the number of iterations its model allows,
    with a well-formed value or with an exception. *)

From Stdlib Require Import Sorting.Sorted.
From S2P Require Import Prelude StdMap JsonNumber JsonValue JsonLexer JsonParser JsonSerializer.
From S2P Require Import JsonStrings JsonIntegers JsonTokens JsonRoundtrip.

(** ** Weakest preconditions *)

Definition wp {A} (m : lex A) (Q : A -> lexer -> Prop) (s : lexer) : Prop :=
  exists a s', m s = Some (a, s') /\ Q a s'.

Lemma wp_ret {A} (a : A) Q s : Q a s -> wp (mret a) Q s.
Proof. intros H. by exists a, s. Qed.

Lemma wp_bind {A B} (m : lex A) (k : A -> lex B) Q s :
  wp m (fun a s' => wp (k a) Q s') s -> wp (m ≫= k) Q s.
Proof. intros (a & s' & E & b & s'' & E' & H). exists b, s''. split; [|done]. by rewrite (lex_bind_step m k s a s' E). Qed.

Lemma wp_mono {A} (m : lex A) (Q R : A -> lexer -> Prop) s :
  wp m Q s -> (forall a s', Q a s' -> R a s') -> wp m R s.
Proof. intros (a & s' & E & H) HR. exists a, s'. auto. Qed.

Lemma wp_with_state {A} (k : lexer -> lex A) Q s : wp (k s) Q s -> wp (with_state k) Q s.
Proof. done. Qed.

(** ** Reading *)

Definition lok (s : lexer) : Prop := current s = EOF \/ 0 <= current s < 256.

(** The characters not yet read. *)
Definition unread (s : lexer) : nat :=
  (length (ia s) + (if next_unget s && negb (current s =? EOF)%Z then 1 else 0))%nat.

Lemma unread_left s : (unread s <= lex_left s)%nat.
Proof. unfold unread, lex_left. destruct (next_unget s); simpl; [case_match|]; lia. Qed.

Lemma wp_get Q s :
  lok s ->
  (forall c s', lok s' -> current s' = c -> next_unget s' = false -> token_buffer s' = token_buffer s ->
     (c = EOF /\ (unread s' <= unread s)%nat) \/ (0 <= c < 256 /\ (unread s' < unread s)%nat) -> Q c s') ->
  wp get Q s.
Proof.
  intros Hok HQ. unfold wp, get, unread in *. destruct (next_unget s) eqn:Hu.
  - do 2 eexists. split; [done|]. apply HQ; try done. simpl.
    destruct Hok as [-> |Hr]; [left; simpl; split; [done|lia]|right].
    rewrite (proj2 (Z.eqb_neq (current s) EOF)) by (unfold EOF; lia). simpl. lia.
  - destruct (ia s) as [|c r]; do 2 eexists; (split; [done|]); apply HQ; try done; simpl; rewrite ?Hu; simpl.
    + by left.
    + left. split; [done|lia].
    + right. apply ord_range.
    + right. pose proof (ord_range c). lia.
Qed.

(** [unget] gives back the character just read. *)
Lemma wp_unget (Q : unit -> lexer -> Prop) s :
  lok s -> next_unget s = false ->
  (forall s', lok s' -> token_buffer s' = token_buffer s ->
     unread s' = (unread s + (if (current s =? EOF)%Z then 0 else 1))%nat -> Q tt s') ->
  wp unget Q s.
Proof.
  intros Hok Hu HQ. do 2 eexists. split; [done|]. apply HQ; try done. unfold unread. simpl. rewrite Hu. simpl.
  destruct (current s =? EOF); simpl; lia.
Qed.

Lemma wp_add c Q s :
  lok s ->
  (forall s', lok s' -> token_buffer s' = token_buffer s ++ [chr c] -> unread s' = unread s ->
     current s' = current s -> next_unget s' = next_unget s -> Q tt s') ->
  wp (add c) Q s.
Proof. intros Hok HQ. do 2 eexists. split; [done|]. by apply HQ. Qed.

Lemma wp_reset (Q : unit -> lexer -> Prop) s :
  lok s ->
  (forall s', lok s' -> token_buffer s' = [] -> unread s' = unread s -> current s' = current s -> Q tt s') ->
  wp reset Q s.
Proof. intros Hok HQ. do 2 eexists. split; [done|]. by apply HQ. Qed.

Lemma wp_get_current Q s : Q (current s) s -> wp get_current Q s.
Proof. intros H. by do 2 eexists. Qed.

Lemma wp_fail m (Q : token_type -> lexer -> Prop) s :
  lok s -> (forall s', lok s' -> unread s' = unread s -> Q tok_parse_error s') -> wp (fail_with m) Q s.
Proof. intros Hok HQ. do 2 eexists. split; [done|]. by apply HQ. Qed.

Lemma wp_fail_some m (Q : option token_type -> lexer -> Prop) s :
  lok s -> (forall s', lok s' -> unread s' = unread s -> Q (Some tok_parse_error) s') -> wp (fail_some m) Q s.
Proof. intros Hok HQ. apply wp_bind, wp_fail; [done|]. intros s' Hs' Hn. by apply wp_ret, HQ. Qed.

(** ** Strings *)

Lemma match_ranges_app ranges s s' t :
  match_ranges ranges s = Some s' -> match_ranges ranges (s ++ t) = Some (s' ++ t).
Proof.
  revert s. induction ranges as [|[lo hi] ranges IH]; intros s H; simpl in *; [by injection H as ->|].
  destruct s as [|c s]; [done|]. simpl. destruct (_ && _); [|done]. auto.
Qed.

Lemma utf8_app s t : utf8 s -> utf8 t -> utf8 (s ++ t).
Proof.
  induction 1 as [|c s Hc Hs IH|c ranges s s' Hr Hm Hs IH]; intros Ht; simpl; [done| |].
  - apply utf8_ascii; auto.
  - eapply utf8_multi; [done|by apply match_ranges_app|auto].
Qed.

(** One hexadecimal digit at a time. *)
Lemma wp_codepoint_loop fs cp (Q : Z -> lexer -> Prop) s :
  lok s -> Forall (fun f => 0 <= f) fs -> 0 <= cp ->
  cp + fold_right (fun f a => 15 * 2 ^ f + a) 0 fs <= 0xFFFF ->
  (forall v s', lok s' -> token_buffer s' = token_buffer s -> (unread s' <= unread s)%nat ->
     v = -1 \/ 0 <= v <= 0xFFFF -> Q v s') ->
  wp (codepoint_loop fs cp) Q s.
Proof.
  intros Hok Hfs. revert cp s Hok. induction Hfs as [|f fs Hf Hfs IH]; intros cp s Hok Hcp Hle HQ; simpl in Hle.
  - apply wp_ret, HQ; try done. lia.
  - cbn [codepoint_loop]. apply wp_bind, wp_get; [done|]. intros c s1 Hok1 _ _ Ht Hc.
    assert (0 < 2 ^ f) by (apply Z.pow_pos_nonneg; lia).
    assert (Hstep : forall d, 0 <= d <= 15 -> wp (codepoint_loop fs (cp + Z.shiftl d f)) Q s1).
    { intros d Hd. rewrite Z.shiftl_mul_pow2 by lia. apply IH; [done|nia|nia|].
      intros v s' Hok' Ht' Hn Hv. apply HQ; try done; [congruence|lia]. }
    repeat case_match; bool_hyps; try (apply Hstep; lia).
    apply wp_ret, HQ; try done; [lia|by left].
Qed.

Lemma wp_get_codepoint (Q : Z -> lexer -> Prop) s :
  lok s ->
  (forall v s', lok s' -> token_buffer s' = token_buffer s -> (unread s' <= unread s)%nat ->
     v = -1 \/ 0 <= v <= 0xFFFF -> Q v s') ->
  wp get_codepoint Q s.
Proof.
  intros Hok HQ. apply wp_codepoint_loop; [done| |lia|vm_compute; congruence|done].
  repeat (apply Forall_cons; split; [lia|]). by apply Forall_nil.
Qed.

Lemma lor_add a b n : 0 <= n -> 0 <= b < 2 ^ n -> Z.lor (a * 2 ^ n) b = a * 2 ^ n + b.
Proof.
  intros Hn Hb. rewrite <- Z.add_lor_land.
  assert (Z.land (a * 2 ^ n) b = 0) as ->; [|lia].
  rewrite <- Z.shiftl_mul_pow2 by lia. apply Z.bits_inj'. intros i Hi. rewrite Z.land_spec, Z.bits_0.
  destruct (Z.lt_ge_cases i n).
  - by rewrite Z.shiftl_spec_low.
  - assert (Z.testbit b i = false) as ->; [|by rewrite andb_false_r].
    apply Z.testbit_false; [lia|]. rewrite Z.div_small; [done|]. split; [lia|].
    eapply Z.lt_le_trans; [apply Hb|]. apply Z.pow_le_mono_r; lia.
Qed.

Lemma continuation_byte v n : 0 <= n -> Z.lor 0x80 (Z.land (Z.shiftr v n) 0x3F) = 0x80 + (v / 2 ^ n) mod 64.
Proof.
  intros Hn. change 0x3F with (Z.ones 6). rewrite Z.land_ones, Z.shiftr_div_pow2 by lia.
  change 0x80 with (2 * 2 ^ 6) at 1. rewrite lor_add by (Z.div_mod_to_equations; lia). done.
Qed.

(** The code points of characters: all but the surrogates. *)
Definition scalar_value (cp : Z) : Prop := 0 <= cp < 0xD800 \/ 0xE000 <= cp <= 0x10FFFF.

Lemma in_range lo hi c : lo <= ord c <= hi -> (lo <=? ord c) && (ord c <=? hi) = true.
Proof. intros. by rewrite (proj2 (Z.leb_le _ _)), (proj2 (Z.leb_le _ _)) by lia. Qed.

(** A lead byte and continuation bytes in the ranges of the lead byte. *)
Ltac utf8_char :=
  rewrite utf8_cons, ord_chr_small by (Z.div_mod_to_equations; lia);
  rewrite decide_False by (Z.div_mod_to_equations; lia);
  unfold utf8_ranges; repeat case_match; simplify_eq;
  first [exfalso; Z.div_mod_to_equations; lia |
    repeat (apply utf8_from_cons; rewrite ord_chr_small by (Z.div_mod_to_equations; lia);
            split; [Z.div_mod_to_equations; lia|]);
    apply utf8_from_nil; constructor].

Lemma utf8_two cp : 0x80 <= cp <= 0x7FF -> utf8 [chr (0xC0 + cp / 64); chr (0x80 + cp mod 64)].
Proof. intros H. utf8_char. Qed.

Lemma utf8_three cp :
  0x800 <= cp <= 0xFFFF -> scalar_value cp ->
  utf8 [chr (0xE0 + cp / 4096); chr (0x80 + (cp / 64) mod 64); chr (0x80 + cp mod 64)].
Proof. intros H Hs. unfold scalar_value in Hs. utf8_char. Qed.

Lemma utf8_four cp :
  0x10000 <= cp <= 0x10FFFF ->
  utf8 [chr (0xF0 + cp / 262144); chr (0x80 + (cp / 4096) mod 64); chr (0x80 + (cp / 64) mod 64);
        chr (0x80 + cp mod 64)].
Proof. intros H. utf8_char. Qed.

(** The bytes added for a character are well-formed. *)
Lemma wp_add_utf8 cp (Q : unit -> lexer -> Prop) s :
  lok s -> scalar_value cp -> utf8 (token_buffer s) ->
  (forall s', lok s' -> utf8 (token_buffer s') -> unread s' = unread s -> Q tt s') ->
  wp (add_utf8 cp) Q s.
Proof.
  intros Hok Hcp Hu HQ. unfold add_utf8, scalar_value in *.
  assert (Hadd : forall c bs (k : lex unit) s1, lok s1 -> utf8 (token_buffer s) -> unread s1 = unread s ->
    token_buffer s1 = token_buffer s ++ bs ->
    (forall s2, lok s2 -> unread s2 = unread s -> token_buffer s2 = token_buffer s ++ bs ++ [chr c] -> wp k Q s2) ->
    wp (add c ≫= fun _ => k) Q s1).
  { intros c bs k s1 Hok1 _ Hn Ht Hk. apply wp_bind, wp_add; [done|]. intros s2 Hok2 Ht2 Hn2 _ _.
    apply Hk; [done|congruence|]. by rewrite Ht2, Ht, app_assoc. }
  assert (Hlast : forall c bs s1, lok s1 -> unread s1 = unread s -> token_buffer s1 = token_buffer s ++ bs ->
    utf8 (bs ++ [chr c]) -> wp (add c) Q s1).
  { intros c bs s1 Hok1 Hn Ht Hbs. apply wp_add; [done|]. intros s2 Hok2 Ht2 Hn2 _ _.
    apply HQ; [done| |congruence]. rewrite Ht2, Ht, <- app_assoc. by apply utf8_app. }
  destruct (Z.ltb_spec cp 0x80).
  { apply (Hlast _ []); [done|done|by rewrite app_nil_r|]. apply utf8_ascii; [rewrite ord_chr_small; lia|constructor]. }
  assert (Ec : Z.land cp 0x3F = Z.land (Z.shiftr cp 0) 0x3F) by done. rewrite Ec, !continuation_byte by lia.
  rewrite !Z.shiftr_div_pow2 by lia. change 0xC0 with (3 * 2 ^ 6). change 0xE0 with (7 * 2 ^ 5).
  change 0xF0 with (15 * 2 ^ 4). change (2 ^ 0) with 1. rewrite Z.div_1_r.
  destruct (Z.leb_spec cp 0x7FF); [|destruct (Z.leb_spec cp 0xFFFF)];
    rewrite lor_add by (Z.div_mod_to_equations; lia).
  - apply (Hadd _ []); [done|done|done|by rewrite app_nil_r|]. intros s1 Hok1 Hn1 Ht1. eapply Hlast; [done..|].
    apply utf8_two. lia.
  - apply (Hadd _ []); [done|done|done|by rewrite app_nil_r|]. intros s1 Hok1 Hn1 Ht1.
    eapply Hadd; [done..|]. intros s2 Hok2 Hn2 Ht2. eapply Hlast; [done..|].
    apply utf8_three; [lia|done].
  - apply (Hadd _ []); [done|done|done|by rewrite app_nil_r|]. intros s1 Hok1 Hn1 Ht1.
    eapply Hadd; [done..|]. intros s2 Hok2 Hn2 Ht2. eapply Hadd; [done..|]. intros s3 Hok3 Hn3 Ht3.
    eapply Hlast; [done..|]. apply utf8_four. lia.
Qed.

(** What a scan leaves: no more to read than before. *)
Definition scanned (n : nat) (s' : lexer) : Prop := lok s' /\ (unread s' <= n)%nat.

Lemma wp_scan_unicode_escape s :
  lok s -> utf8 (token_buffer s) ->
  wp scan_unicode_escape (fun r s' => scanned (unread s) s' /\
    (r = Some tok_parse_error \/ r = None /\ utf8 (token_buffer s'))) s.
Proof.
  intros Hok Hu. unfold scan_unicode_escape, scanned. apply wp_bind, wp_get_codepoint; [done|].
  intros v s1 Hok1 Ht1 Hn1 Hv. destruct (Z.eqb_spec v (-1)).
  { apply wp_fail_some; [done|]. intros s2 Hok2 Hn2. split; [split; [done|lia]|by left]. }
  case_match eqn:E1; bool_hyps.
  - apply wp_bind, wp_get; [done|]. intros c2 s2 Hok2 _ _ Ht2 Hc2. case_match.
    { apply wp_fail_some; [done|]. intros s3 Hok3 Hn3. split; [split; [done|lia]|by left]. }
    apply wp_bind, wp_get; [done|]. intros c3 s3 Hok3 _ _ Ht3 Hc3. case_match.
    { apply wp_fail_some; [done|]. intros s4 Hok4 Hn4. split; [split; [done|lia]|by left]. }
    apply wp_bind, wp_get_codepoint; [done|]. intros v2 s4 Hok4 Ht4 Hn4 Hv2. destruct (Z.eqb_spec v2 (-1)).
    { apply wp_fail_some; [done|]. intros s5 Hok5 Hn5. split; [split; [done|lia]|by left]. }
    case_match eqn:E2; bool_hyps.
    2: { apply wp_fail_some; [done|]. intros s5 Hok5 Hn5. split; [split; [done|lia]|by left]. }
    apply wp_bind, wp_add_utf8; [done| |congruence|].
    { right. rewrite Z.shiftl_mul_pow2 by lia. rewrite (u32_small (v * 2 ^ 10)) by lia. rewrite u32_small; lia. }
    intros s5 Hok5 Hu5 Hn5. apply wp_ret. split; [split; [done|lia]|by right].
  - case_match eqn:E2.
    { apply wp_fail_some; [done|]. intros s5 Hok5 Hn5. split; [split; [done|lia]|by left]. }
    apply wp_bind, wp_add_utf8; [done|unfold scalar_value; lia|congruence|].
    intros s5 Hok5 Hu5 Hn5. apply wp_ret. split; [split; [done|lia]|by right].
Qed.

Lemma wp_scan_escape s :
  lok s -> utf8 (token_buffer s) ->
  wp scan_escape (fun r s' => scanned (unread s) s' /\
    (r = Some tok_parse_error \/ r = None /\ utf8 (token_buffer s'))) s.
Proof.
  intros Hok Hu. unfold scan_escape. apply wp_bind, wp_get; [done|]. intros c s1 Hok1 _ _ Ht Hc.
  assert (Hadd : forall b, 0 <= b < 0x80 -> wp (add b ≫= fun _ => mret None) (fun r s' => scanned (unread s) s' /\
    (r = Some tok_parse_error \/ r = None /\ utf8 (token_buffer s'))) s1).
  { intros b Hb. apply wp_bind, wp_add; [done|]. intros s2 Hok2 Ht2 Hn2 _ _. apply wp_ret. unfold scanned.
    split; [split; [done|lia]|]. right. split; [done|]. rewrite Ht2, Ht. apply utf8_app; [done|].
    apply utf8_ascii; [rewrite ord_chr_small; lia|constructor]. }
  repeat (case_match; [first [apply Hadd; lia|idtac]|]).
  - eapply wp_mono; [apply wp_scan_unicode_escape; [done|congruence]|].
    unfold scanned. intros r s' [[? ?] ?]. split; [split; [done|lia]|done].
  - apply wp_fail_some; [done|]. unfold scanned. intros s2 Hok2 Hn2. split; [split; [done|lia]|by left].
Qed.

(** The bytes that follow a lead byte: the ones of the buffer are in the
    ranges. *)
Lemma wp_ranges_loop rs s :
  lok s -> Forall (fun r => 0 <= r.1) rs ->
  wp (ranges_loop rs) (fun ok s' => scanned (unread s) s' /\
    (ok = true -> exists w, token_buffer s' = token_buffer s ++ w /\ match_ranges rs w = Some [])) s.
Proof.
  intros Hok Hrs. revert s Hok. induction Hrs as [|[lo hi] rs Hlo Hrs IH]; intros s Hok; cbn [ranges_loop].
  { apply wp_ret. split; [split; [done|lia]|]. intros _. exists []. by rewrite app_nil_r. }
  simpl in Hlo. apply wp_bind, wp_get; [done|]. intros c s1 Hok1 _ _ Ht Hc. case_match eqn:E; bool_hyps.
  - apply wp_bind, wp_add; [done|]. intros s2 Hok2 Ht2 Hn2 _ _. eapply wp_mono; [by apply IH|].
    unfold scanned, EOF in *. intros ok s' [[? ?] Hw]. split; [split; [done|lia]|]. intros Hk.
    destruct (Hw Hk) as (w & Hs' & Hm). exists (chr c :: w). split.
    + by rewrite Hs', Ht2, Ht, <- app_assoc.
    + cbn [match_ranges]. rewrite in_range by (rewrite ord_chr_small; lia). done.
  - apply wp_bind, wp_fail; [done|]. intros s2 Hok2 Hn2. apply wp_ret. split; [split; [done|lia]|done].
Qed.

Lemma utf8_ranges_nonneg c rs : utf8_ranges c = Some rs -> Forall (fun r => 0 <= r.1) rs.
Proof.
  unfold utf8_ranges. intros H. repeat (case_match; [injection H as <-; repeat constructor; simpl; lia|]). done.
Qed.

Lemma wp_scan_string_loop fuel s :
  lok s -> utf8 (token_buffer s) -> (unread s < fuel)%nat ->
  wp (scan_string_loop fuel) (fun t s' => scanned (unread s) s' /\
    (t = tok_parse_error \/ t = value_string /\ utf8 (get_string s'))) s.
Proof.
  revert s. induction fuel as [|fuel IH]; intros s Hok Hu Hf; [lia|]. cbn [scan_string_loop].
  apply wp_bind, wp_get; [done|]. intros c s1 Hok1 Hc1 _ Ht Hc. unfold scanned.
  assert (Hfail : forall m, wp (fail_with m) (fun t s' => (lok s' /\ (unread s' <= unread s)%nat) /\
    (t = tok_parse_error \/ t = value_string /\ utf8 (get_string s'))) s1).
  { intros m. apply wp_fail; [done|]. intros s2 Hok2 Hn2. split; [split; [done|lia]|by left]. }
  destruct (Z.eqb_spec c EOF); [apply Hfail|]. destruct Hc as [[? _]|[Hc Hn]]; [done|].
  assert (Hgo : forall s2, lok s2 -> (unread s2 <= unread s1)%nat -> utf8 (token_buffer s2) ->
    wp (scan_string_loop fuel) (fun t s' => (lok s' /\ (unread s' <= unread s)%nat) /\
    (t = tok_parse_error \/ t = value_string /\ utf8 (get_string s'))) s2).
  { intros s2 Hok2 Hn2 Hu2. eapply wp_mono; [apply IH; [done..|lia]|]. intros t s' [[? ?] ?].
    split; [split; [done|lia]|done]. }
  case_match.
  { apply wp_ret. split; [split; [done|lia]|]. right. split; [done|]. unfold get_string. congruence. }
  case_match.
  { apply wp_bind. eapply wp_mono; [apply wp_scan_escape; [done|congruence]|].
    intros r s2 [[Hok2 Hn2] [-> |[-> Hu2]]]; [|by apply Hgo].
    apply wp_ret. split; [split; [done|lia]|by left]. }
  destruct (control_char c); [apply Hfail|]. destruct (plain_char c) eqn:Ep.
  { apply wp_bind, wp_add; [done|]. intros s2 Hok2 Ht2 Hn2 _ _. apply Hgo; [done|lia|].
    rewrite Ht2, Ht. apply utf8_app; [done|]. unfold plain_char in Ep. bool_hyps.
    apply utf8_ascii; [rewrite ord_chr_small; lia|constructor]. }
  destruct (utf8_ranges c) as [rs|] eqn:Er; [|apply Hfail].
  apply wp_bind. unfold next_byte_in_range. apply wp_bind, wp_get_current, wp_bind, wp_add; [done|].
  intros s2 Hok2 Ht2 Hn2 _ _. eapply wp_mono; [apply wp_ranges_loop; [done|by eapply utf8_ranges_nonneg]|].
  intros [] s3 [[Hok3 Hn3] Hw]; [|apply wp_ret; split; [split; [done|lia]|by left]].
  destruct (Hw eq_refl) as (w & Ht3 & Hm). apply Hgo; [done|lia|].
  rewrite Ht3, Ht2, Ht, Hc1, <- app_assoc. apply utf8_app; [done|].
  eapply utf8_multi; [by rewrite ord_chr_small|exact Hm|constructor].
Qed.

(** ** Numbers *)

(** What the token promises of the value stored with it. *)
Definition token_ok (t : token_type) (s : lexer) : Prop :=
  match t with
  | value_string => utf8 (get_string s)
  | value_unsigned => 0 <= get_number_unsigned s < 2 ^ 64
  | value_integer => - 2 ^ 63 <= get_number_integer s < 2 ^ 63
  | value_float => 0 <= get_number_float s < 2 ^ 64
  | _ => True
  end.

(** The token ends the parse at once, or a character was read for it. *)
Definition last_one (t : token_type) : Prop := t = end_of_input \/ t = tok_parse_error.

Lemma wp_scan_number_done nt s :
  lok s -> next_unget s = false -> (nt = value_unsigned -> all_digits (token_buffer s)) ->
  wp (scan_number_done nt) (fun t s' => lok s' /\ token_ok t s' /\
    unread s' = (unread s + (if (current s =? EOF)%Z then 0 else 1))%nat) s.
Proof.
  intros Hok Hu Hd. apply wp_bind, wp_unget; [done..|]. intros s1 Hok1 Ht1 Hn1. apply wp_with_state.
  assert (Hset : forall t v, (t = value_unsigned -> 0 <= v < 2 ^ 64) ->
    (t = value_integer -> - 2 ^ 63 <= v < 2 ^ 63) -> (t = value_float -> 0 <= v < 2 ^ 64) -> t <> value_string ->
    wp (set_number t v) (fun t s' => lok s' /\ token_ok t s' /\
      unread s' = (unread s + (if (current s =? EOF)%Z then 0 else 1))%nat) s1).
  { intros t v H1 H2 H3 H4. do 2 eexists. split; [done|]. split_and!; [done| |exact Hn1]. by destruct t; simpl; auto. }
  assert (Hfl : wp (set_number value_float (strtod (token_buffer s1))) (fun t s' => lok s' /\ token_ok t s' /\
      unread s' = (unread s + (if (current s =? EOF)%Z then 0 else 1))%nat) s1).
  { apply Hset; try done. intros _. apply strtod_range. }
  cbv zeta. destruct nt; try done.
  - destruct (strtoull _) as [v|] eqn:E; [|done]. unfold strtoull in E. case_match; [|done]. simplify_eq. bool_hyps. apply Hset; try done.
    intros _. split; [|done]. apply dec_value_nonneg. rewrite Ht1. by apply Hd.
  - destruct (strtoll _) as [v|] eqn:E; [|done]. unfold strtoll in E.
    match goal with H : (if ?b then Some ?v else None) = Some _ |- _ => destruct b eqn:Eb; [|done] end.
    simplify_eq. apply Hset; try done. intros _. lia.
Qed.

(** At a label of the integer part a number without sign is made of digits. *)
Definition num_inv (l : num_state) (nt : token_type) (s : lexer) : Prop :=
  match l with
  | scan_number_zero | scan_number_any1 => nt = value_unsigned -> all_digits (token_buffer s)
  | scan_number_decimal2 | scan_number_sign | scan_number_any2 => nt <> value_unsigned
  | _ => True
  end.

Lemma num_inv_step l l' nt c s s' :
  num_inv l nt s -> num_step l c = Goto l' -> 0 <= c < 256 -> token_buffer s' = token_buffer s ++ [chr c] ->
  num_inv l' (num_type l nt) s'.
Proof.
  intros Hi Hs Hc Ht.
  assert (Hdig : is_digit c = true -> all_digits (token_buffer s) -> all_digits (token_buffer s')).
  { intros Hd Ha. rewrite Ht. unfold is_digit in Hd. bool_hyps. apply Forall_app. split; [done|].
    apply Forall_cons. split; [rewrite ord_chr_small; lia|by apply Forall_nil]. }
  destruct l; cbn [num_step num_type num_inv] in *; repeat case_match; simplify_eq; simpl; auto; done.
Qed.

Lemma num_goto_eof l c l' : num_step l c = Goto l' -> c <> EOF.
Proof. intros H ->. by destruct l. Qed.

Lemma wp_num_loop fuel l nt s :
  lok s -> (unread s < fuel)%nat -> num_inv l nt s ->
  wp (num_loop fuel l nt) (fun t s' => scanned (unread s) s' /\ token_ok t s') s.
Proof.
  revert l nt s. induction fuel as [|fuel IH]; intros l nt s Hok Hf Hi; [lia|]. cbn [num_loop].
  apply wp_bind, wp_get; [done|]. intros c s1 Hok1 Hc1 Hu1 Ht Hc. unfold scanned.
  destruct (num_step l c) as [l'| |m] eqn:E.
  - apply wp_bind, wp_add; [done|]. intros s2 Hok2 Ht2 Hn2 _ _.
    pose proof (num_goto_eof _ _ _ E). destruct Hc as [[? _]|[Hc Hn]]; [done|].
    eapply wp_mono; [apply IH; [done|lia|]|].
    + eapply num_inv_step; [exact Hi|exact E|done|congruence].
    + intros t s' [[? ?] ?]. split; [split; [done|lia]|done].
  - eapply wp_mono; [apply wp_scan_number_done; [done..|]|].
    + rewrite Ht. destruct l; cbn [num_step num_type num_inv] in *; try done;
        repeat case_match; done.
    + intros t s' (? & ? & Hn). split; [|done]. split; [done|]. rewrite Hn, Hc1.
      destruct Hc as [[-> ?]|[? ?]]; [rewrite Z.eqb_refl; lia|]. destruct (c =? EOF); lia.
  - apply wp_fail; [done|]. intros s2 Hok2 Hn2. split; [split; [done|lia]|done].
Qed.

(** ** Tokens *)

Lemma wp_literal_loop text t s :
  lok s -> token_ok t = (fun _ => True) ->
  wp (literal_loop text t) (fun t' s' => scanned (unread s) s' /\ token_ok t' s') s.
Proof.
  intros Hok Ht. revert s Hok. induction text as [|c text IH]; intros s Hok; cbn [literal_loop].
  { apply wp_ret. rewrite Ht. split; [split; [done|lia]|done]. }
  apply wp_bind, wp_get; [done|]. intros c1 s1 Hok1 _ _ _ Hc. unfold scanned. case_match.
  - apply wp_fail; [done|]. intros s2 Hok2 Hn2. split; [split; [done|lia]|done].
  - eapply wp_mono; [by apply IH|]. intros t' s' [[? ?] ?]. split; [split; [done|lia]|done].
Qed.

Lemma wp_skip_whitespace_loop fuel s :
  lok s -> (unread s < fuel)%nat ->
  wp (skip_whitespace_loop fuel) (fun _ s' => lok s' /\
    ((unread s' < unread s)%nat \/ current s' = EOF /\ (unread s' <= unread s)%nat)) s.
Proof.
  revert s. induction fuel as [|fuel IH]; intros s Hok Hf; [lia|]. cbn [skip_whitespace_loop].
  apply wp_bind, wp_get; [done|]. intros c s1 Hok1 Hc1 _ _ Hc. case_match eqn:E.
  - destruct Hc as [[-> ?]|[? ?]]; [done|]. eapply wp_mono; [apply IH; [done|lia]|].
    intros _ s' [? Hs']. split; [done|]. lia.
  - apply wp_ret. split; [done|]. destruct Hc as [[-> ?]|[? ?]]; [by right|by left].
Qed.

Lemma wp_scan_token s :
  lok s ->
  wp scan_token (fun t s' => scanned (unread s) s' /\ token_ok t s' /\ (last_one t \/ current s <> EOF)) s.
Proof.
  intros Hok. unfold scan_token. apply wp_bind, wp_get_current.
  assert (Hw : forall m, wp m (fun t s' => scanned (unread s) s' /\ token_ok t s') s -> current s <> EOF ->
    wp m (fun t s' => scanned (unread s) s' /\ token_ok t s' /\ (last_one t \/ current s <> EOF)) s).
  { intros m Hm Hc. eapply wp_mono; [exact Hm|]. intros t s' [? ?]. split_and!; [done..|by right]. }
  assert (Hr : forall t, token_ok t = (fun _ => True) -> wp (mret t) (fun t s' => scanned (unread s) s' /\ token_ok t s') s).
  { intros t Ht. apply wp_ret. rewrite Ht. split; [split; [done|lia]|done]. }
  repeat (case_match eqn:E; [bool_hyps; first [
     apply Hw; [by apply Hr|rewrite E; done]
   | apply Hw; [by apply wp_literal_loop|rewrite E; done] | idtac] | clear E]).
  - apply Hw; [|rewrite E; done]. unfold scan_string. apply wp_bind, wp_reset; [done|].
    intros s1 Hok1 Ht1 Hn1 _. apply wp_with_state. eapply wp_mono; [apply wp_scan_string_loop; [done| |]|].
    + rewrite Ht1. constructor.
    + pose proof (unread_left s1). lia.
    + unfold scanned. intros t s' [[? ?] [-> |[-> ?]]]; (split; [split; [done|lia]|done]).
  - apply Hw; [|by intros Hc; rewrite Hc in E]. unfold scan_number. apply wp_bind, wp_reset; [done|].
    intros s1 Hok1 Ht1 Hn1 Hc1. apply wp_bind, wp_get_current, wp_bind, wp_add; [done|].
    intros s2 Hok2 Ht2 Hn2 _ _. apply wp_with_state. eapply wp_mono; [apply wp_num_loop; [done| |]|].
    + pose proof (unread_left s2). lia.
    + rewrite Hc1. repeat case_match; simpl; try done; intros _; rewrite Ht2, Ht1, Hc1; simpl;
        (apply Forall_cons; split; [|by apply Forall_nil]); bool_hyps; unfold is_digit in *; rewrite ord_chr_small; lia.
    + unfold scanned. intros t s' [[? ?] ?]. split; [split; [done|lia]|done].
  - apply wp_ret. split_and!; [split; [done|lia]|done|left; by left].
  - apply wp_fail; [done|]. intros s1 Hok1 Hn1. split_and!; [split; [done|lia]|done|left; by right].
Qed.

(** [scan()] reads a token from any input. *)
Lemma wp_lex_scan s :
  lok s ->
  wp lex_scan (fun t s' => lok s' /\ token_ok t s' /\ (unread s' <= unread s)%nat /\
    (last_one t \/ (unread s' < unread s)%nat)) s.
Proof.
  intros Hok. unfold lex_scan. apply wp_with_state.
  assert (Htok : forall s1, lok s1 -> (unread s1 <= unread s)%nat ->
    wp (skip_whitespace ≫= fun _ => scan_token) (fun t s' => lok s' /\ token_ok t s' /\ (unread s' <= unread s)%nat /\
    (last_one t \/ (unread s' < unread s)%nat)) s1).
  { intros s1 Hok1 Hn1. apply wp_bind. unfold skip_whitespace. apply wp_with_state.
    eapply wp_mono; [apply wp_skip_whitespace_loop; [done|pose proof (unread_left s1); lia]|].
    intros _ s2 [Hok2 Hs2]. eapply wp_mono; [by apply wp_scan_token|]. unfold scanned.
    intros t s' ([? ?] & ? & Hl). split_and!; [done|done|lia|]. destruct Hl; [by left|].
    destruct Hs2 as [?|[? ?]]; [right; lia|done]. }
  case_match; [|by apply Htok].
  unfold skip_bom. apply wp_bind, wp_bind, wp_get; [done|]. intros c s1 Hok1 Hc1 Hu1 _ Hc.
  destruct (Z.eqb_spec c 0xEF) as [-> |].
  - apply wp_bind, wp_get; [done|]. intros c2 s2 Hok2 _ _ _ Hc2. case_match.
    + apply wp_bind, wp_get; [done|]. intros c3 s3 Hok3 _ _ _ Hc3. apply wp_ret. case_match.
      * apply Htok; [done|lia].
      * apply wp_fail; [done|]. intros s4 Hok4 Hn4. split_and!; [done|done|lia|left; by right].
    + apply wp_ret, wp_fail; [done|]. intros s4 Hok4 Hn4. split_and!; [done|done|lia|left; by right].
  - apply wp_bind, wp_unget; [done..|]. intros s2 Hok2 _ Hn2. apply wp_ret, Htok; [done|].
    rewrite Hn2, Hc1. destruct Hc as [[-> ?]|[? ?]]; [rewrite Z.eqb_refl; lia|]. destruct (c =? EOF); lia.
Qed.

(** ** The parser *)

(** A value [parse] may return: well-formed, with text in UTF-8. *)
Definition good (j : json) : Prop := json_ok j /\ json_utf8 j.

Definition good_member (e : str * json) : Prop := utf8 e.1 /\ good e.2.

Definition frame_ok (f : frame) : Prop :=
  match f with
  | InArray l => Forall good l
  | InObject m k => map_sorted m /\ Forall good_member m /\ utf8 k
  end.

Definition sax_ok (s : sax) : Prop := good (root s) /\ Forall frame_ok (ref_stack s).

Lemma map_assign_good k v m :
  good_member (k, v) -> Forall good_member m -> Forall good_member (map_assign k v m).
Proof.
  intros Hkv. induction 1 as [|[k' v'] m Hm' Hm IH]; simpl; [by apply Forall_singleton|].
  destruct (str_ltb k' k); [by constructor|]. destruct (str_ltb k k'); constructor; try done; [by constructor|].
  split; [apply Hm'|apply Hkv].
Qed.

Lemma handle_value_ok v s : good v -> sax_ok s -> sax_ok (handle_value v s).
Proof.
  intros Hv [Hr Hf]. unfold handle_value. destruct (ref_stack s) as [|[l|m k] fs] eqn:E; [by split|..];
    apply Forall_cons in Hf as [Hf Hfs]; (split; [done|]); apply Forall_cons; (split; [|done]).
  - apply Forall_app. split; [done|by apply Forall_singleton].
  - destruct Hf as (Hs & Hm & Hk). split_and!; [by apply map_assign_sorted|by apply map_assign_good|done].
Qed.

Lemma start_ok s : sax_ok s -> sax_ok (start_object s) /\ sax_ok (start_array s).
Proof.
  intros [Hr Hf]. split; (split; [done|]); apply Forall_cons; split; try done.
  - split_and!; constructor.
  - by constructor.
Qed.

Lemma sax_key_ok k s : utf8 k -> sax_ok s -> sax_ok (sax_key k s).
Proof.
  intros Hk [Hr Hf]. unfold sax_key. destruct (ref_stack s) as [|[l|m k'] fs] eqn:E; try (split; [done|by rewrite E]).
  apply Forall_cons in Hf as [(Hs & Hm & _) Hfs]. split; [done|]. apply Forall_cons. split; [|done].
  split_and!; [|..|done]; case_match; try done; [by apply map_assign_sorted|].
  by apply map_assign_good.
Qed.

Lemma frame_value_good f : frame_ok f -> good (frame_value f).
Proof.
  destruct f as [l|m k]; simpl.
  - intros H. unfold good. rewrite json_ok_array, json_utf8_array. by rewrite <- Forall_and.
  - intros (Hs & Hm & _). unfold good. rewrite json_ok_object, json_utf8_object.
    rewrite !Forall_forall in *. split; [split; [done|]|]; intros e He; destruct (Hm e He) as [? [? ?]]; done.
Qed.

Lemma end_container_ok s : sax_ok s -> sax_ok (end_container s).
Proof.
  intros [Hr Hf]. unfold end_container. destruct (ref_stack s) as [|f fs] eqn:E; [by split; [|rewrite E]|].
  apply Forall_cons in Hf as [Hf Hfs]. apply handle_value_ok; [by apply frame_value_good|by split].
Qed.

Definition parser_ok (p : parser) : Prop :=
  lok (m_lexer p) /\ token_ok (last_token p) (m_lexer p) /\ sax_ok (sdp p).

Abbreviation ahead p := (unread (m_lexer p)).

Lemma get_token_total p :
  parser_ok p ->
  exists p', get_token p = Some p' /\ parser_ok p' /\ states p' = states p /\ (ahead p' <= ahead p)%nat /\
    (last_one (last_token p') \/ (ahead p' < ahead p)%nat).
Proof.
  intros (Hok & _ & Hs). destruct (wp_lex_scan _ Hok) as (t & l & E & Hl & Ht & Hn & Hlast).
  exists (Parser l t (states p) (sdp p)). unfold get_token. rewrite E. by split_and!.
Qed.

(** An iteration that does not end the loop reads a character, or is followed
    by one that throws. *)
Definition iteration_ok (n : nat) (it : iteration) : Prop :=
  match it with
  | Next skip p => parser_ok p /\ ((ahead p < n)%nat \/ skip = false /\ last_one (last_token p))
  | ReturnTrue p => parser_ok p
  | ThrowParse e => e = parse_error 101 \/ e = out_of_range 406
  end.

Lemma iteration_ok_mono n m it : iteration_ok n it -> (n <= m)%nat -> iteration_ok m it.
Proof. destruct it; simpl; try done. intros [? [?|?]] ?; (split; [done|]); [left; lia|by right]. Qed.

(** The iteration throws a parse error. *)
Ltac throws := eexists; split; [reflexivity|]; by left.

Lemma parse_member_total p into g :
  (forall p, into p = with_states (g (states p)) p) -> parser_ok p ->
  exists it, parse_member p into = Some it /\ iteration_ok (ahead p) it.
Proof.
  intros Hinto (Hok & Ht & Hs). unfold parse_member. case_bool_decide as Hv; [throws|].
  assert (Et : last_token p = value_string) by (destruct (last_token p); try done; exfalso; apply Hv; done).
  rewrite Et in Ht.
  destruct (get_token_total (with_sdp (sax_key (get_string (m_lexer p))) p)) as (p1 & -> & Hp1 & _ & Hn1 & _).
  { split_and!; [done|by simpl; rewrite Et|by apply sax_key_ok]. }
  simpl in Hn1. cbn [mbind option_bind]. case_bool_decide as Hsep; [throws|].
  assert (Et1 : last_token p1 = name_separator) by (destruct (last_token p1); try done; exfalso; apply Hsep; done).
  rewrite Hinto. destruct (get_token_total (with_states (g (states p1)) p1)) as (p2 & -> & Hp2 & _ & Hn2 & Hl2).
  { destruct Hp1 as (? & ? & ?). done. }
  simpl in Hn2, Hl2. eexists. split; [done|]. split; [done|]. destruct Hl2; [by right|left; lia].
Qed.

Lemma evaluate_state_total p :
  parser_ok p -> exists it, evaluate_state p = Some it /\ iteration_ok (ahead p) it.
Proof.
  intros Hp. unfold evaluate_state. destruct (states p) as [|[] st] eqn:Est; [by eexists|..];
    destruct (get_token_total p Hp) as (p1 & -> & Hp1 & _ & Hn1 & Hl1); cbn [mbind option_bind];
    case_bool_decide as Hsep.
  - destruct (get_token_total p1 Hp1) as (p2 & -> & Hp2 & _ & Hn2 & Hl2). eexists. split; [done|].
    split; [done|]. left. rewrite Hsep in Hl1. destruct Hl1 as [[?|?]|?]; [done..|lia].
  - case_bool_decide as Hend; [|throws]. eexists. split; [done|].
    destruct Hp1 as (? & Ht1 & ?). split; [split_and!; [done..|by apply end_container_ok]|].
    left. rewrite Hend in Hl1. destruct Hl1 as [[?|?]|?]; [done..|simpl; lia].
  - destruct (get_token_total p1 Hp1) as (p2 & -> & Hp2 & _ & Hn2 & Hl2). cbn [mbind option_bind].
    destruct (parse_member_total p2 id id) as (it & -> & Hit); [by intros []|done|].
    exists it. split; [done|]. eapply iteration_ok_mono; [done|]. lia.
  - case_bool_decide as Hend; [|throws]. eexists. split; [done|].
    destruct Hp1 as (? & Ht1 & ?). split; [split_and!; [done..|by apply end_container_ok]|].
    left. rewrite Hend in Hl1. destruct Hl1 as [[?|?]|?]; [done..|simpl; lia].
Qed.

Lemma parse_value_total p :
  parser_ok p -> exists it, parse_value p = Some it /\ iteration_ok (ahead p) it /\
    (last_one (last_token p) -> it = ThrowParse (parse_error 101)).
Proof.
  intros Hp. pose proof Hp as (Hok & Ht & Hs). unfold parse_value.
  assert (Hval : forall (f : sax -> sax) q, sax_ok (f (sdp q)) -> parser_ok q -> (ahead q <= ahead p)%nat ->
    exists it, evaluate_state (with_sdp f q) = Some it /\ iteration_ok (ahead p) it).
  { intros f q Hf (Hq & Hqt & Hqs) Hn. destruct (evaluate_state_total (with_sdp f q)) as (it & -> & Hit).
    - by split_and!.
    - exists it. split; [done|]. by eapply iteration_ok_mono. }
  destruct (start_ok (sdp p) Hs) as [Hso Hsa].
  assert (Hsplit : forall (t : token_type) (o : option iteration), t <> end_of_input -> t <> tok_parse_error ->
    (exists it, o = Some it /\ iteration_ok (ahead p) it) ->
    exists it, o = Some it /\ iteration_ok (ahead p) it /\ (last_one t -> it = ThrowParse (parse_error 101))).
  { intros t o H1 H2 (it & ? & ?). exists it. split_and!; [done..|]. by intros [?|?]. }
  destruct (last_token p) eqn:Et; try (eexists; split; [reflexivity|]; split; [by left|done]);
    (apply Hsplit; [done..|]); try (apply Hval; [apply handle_value_ok; [by split|done]|done|lia]).
  - case_match; [eexists; split; [done|]; by right|]. apply Hval; [apply handle_value_ok; [by split|done]|done|lia].
  - destruct (get_token_total (with_sdp start_array p)) as (p1 & -> & Hp1 & _ & Hn1 & Hl1).
    { by split_and!; [|simpl; rewrite Et|]. }
    cbn [mbind option_bind]. simpl in Hn1, Hl1. case_bool_decide.
    + apply Hval; [apply end_container_ok, Hp1|done|done].
    + eexists. split; [done|]. split; [by destruct Hp1|]. destruct Hl1; [by right|by left].
  - destruct (get_token_total (with_sdp start_object p)) as (p1 & -> & Hp1 & _ & Hn1 & Hl1).
    { by split_and!; [|simpl; rewrite Et|]. }
    cbn [mbind option_bind]. simpl in Hn1, Hl1. case_bool_decide.
    + apply Hval; [apply end_container_ok, Hp1|done|done].
    + destruct (parse_member_total p1 (fun p => with_states (false :: states p) p) (cons false)) as (it & -> & Hit);
        [done..|]. exists it. split; [done|]. by eapply iteration_ok_mono.
Qed.

Lemma sax_parse_internal_total fuel skip p :
  parser_ok p -> (ahead p + 2 <= fuel)%nat \/ (skip = false /\ last_one (last_token p) /\ (1 <= fuel)%nat) ->
  exists r, sax_parse_internal fuel skip p = Some r /\
    match r with Ok p' => parser_ok p' | Throw e => e = parse_error 101 \/ e = out_of_range 406 end.
Proof.
  revert skip p. induction fuel as [|fuel IH]; intros skip p Hp Hf; [lia|]. cbn [sax_parse_internal].
  assert (Hit : exists it, (if skip then evaluate_state p else parse_value p) = Some it /\
    iteration_ok (ahead p) it /\ (skip = false -> last_one (last_token p) -> it = ThrowParse (parse_error 101))).
  { destruct skip.
    - destruct (evaluate_state_total p Hp) as (it & ? & ?). by exists it.
    - destruct (parse_value_total p Hp) as (it & ? & ? & ?). exists it. by split_and!. }
  destruct Hit as (it & -> & Hit & Hlast). destruct it as [skip' p'|p'|e]; [|by eexists..].
  destruct Hit as [Hp' Hn]. destruct Hf as [Hf|(-> & Hl & _)]; [|by specialize (Hlast eq_refl Hl)].
  apply IH; [done|]. destruct Hn as [?|[-> ?]]; [left; lia|right]. split_and!; [done..|lia].
Qed.

Lemma json_parse_sound input :
  exists r, json_parse input = Some r /\
    match r with Ok j => good j | Throw e => e = parse_error 101 \/ e = out_of_range 406 end.
Proof.
  unfold json_parse.
  destruct (get_token_total (Parser (new_lexer input) uninitialized [] new_sax)) as (p1 & -> & Hp1 & _ & Hn1 & _).
  { split_and!; [by left|done|]. split; [done|by apply Forall_nil]. }
  cbn [mbind option_bind]. simpl in Hn1. unfold unread in Hn1 at 2. simpl in Hn1.
  destruct (sax_parse_internal_total (length input + 3) false p1 Hp1) as (r & -> & Hr); [left; lia|].
  cbn [mbind option_bind]. destruct r as [p2|e]; [|by eexists].
  destruct (get_token_total p2 Hr) as (p3 & -> & Hp3 & _). cbn [mbind option_bind].
  case_bool_decide; eexists; (split; [done|]); [by left|]. apply Hp3.
Qed.

(** ** Theorems *)

(** C11: [json::parse] ends on every input, malformed UTF-8 and truncated documents included: with a value that
    satisfies the class invariant (sorted keys, 64-bit numbers) and has only UTF-8 strings, or with
    [parse_error] 101 or, for a number too large for a double, [out_of_range] 406. *)
Theorem json_parse_total input :
  exists r, json_parse input = Some r /\
    match r with
    | Ok j => json_ok j /\ json_utf8 j
    | Throw e => e = parse_error 101 \/ e = out_of_range 406
    end.
Proof. exact (json_parse_sound input). Qed.

(** [dump()] writes the compact text of the value when all its strings and keys are UTF-8 and throws
    [type_error] 316 otherwise; it never reads or writes out of bounds. *)
Theorem json_dump_iff_utf8 j :
  (json_utf8 j /\ json_dump j = Done (text j)) \/
  (~ json_utf8 j /\ json_dump j = Thrown (type_error 316)).
Proof. exact (json_dump_text j). Qed.

(** C4: what [dump()] writes is read back by [json::parse] as the same value, except that a nonnegative signed
    integer comes back as an unsigned one and a floating-point infinity or NaN as [null]; every finite double
    comes back bit for bit. *)
Theorem json_dump_parse j :
  json_ok j -> json_utf8 j ->
  exists t, json_dump j = Done t /\ json_parse t = Some (Ok (norm j)).
Proof.
  intros Hok Hu. destruct (json_dump_text j) as [[_ E]|[? _]]; [|done].
  exists (text j). split; [done|]. by apply text_parse.
Qed.

(** A document that was accepted can be written and read again: [dump()] does not throw on a
    parsed value, and parsing its output gives the same value up to the signedness of integers. *)
Theorem json_parse_dump_parse input j :
  json_parse input = Some (Ok j) ->
  exists t, json_dump j = Done t /\ json_parse t = Some (Ok (norm j)).
Proof.
  intros Hp. destruct (json_parse_sound input) as (r & E & Hr). rewrite Hp in E. simplify_eq.
  destruct Hr as [Hok Hu]. destruct (json_dump_text j) as [[_ Ed]|[? _]]; [|done].
  exists (text j). split; [done|]. by apply text_parse.
Qed.

Module JsonDemo.

Definition doc : json :=
  JObject [($"a", JArray [JUnsigned 18446744073709551615; JInteger (-9223372036854775808); JNull; JBool true;
             JFloat 0x3FB999999999999A; JFloat (2 ^ 63 + 1)]);
           ($"b", JObject []); ($"key" ++ [chr 10], JString (chr 0xC3 :: chr 0xA9 :: $"/" ++ [chr 34]))].

Definition doc_text : str := text doc.

Lemma doc_ok : json_ok doc.
Proof.
  simpl. split_and!; try done; try lia; repeat constructor.
Qed.

Lemma doc_utf8 : json_utf8 doc.
Proof.
  simpl. split_and!; try done; repeat (first [apply utf8_nil|apply utf8_ascii; [vm_compute; done|]
    | eapply utf8_multi; [vm_compute; reflexivity|vm_compute; reflexivity|]]).
Qed.

(** The round trip of a document with every kind of value. *)
Lemma json_dump_parse_witness :
  norm doc = doc /\ exists t, json_dump doc = Done t /\ json_parse t = Some (Ok (norm doc)).
Proof. split; [reflexivity|]. exact (json_dump_parse doc doc_ok doc_utf8). Defined.

(** A document with white space, escapes and a duplicate key. *)
Definition input : str :=
  $" { " ++ [chr 34] ++ $"a\u00e9" ++ [chr 34] ++ $" : [ -1, 2, 1e-2 ], " ++ [chr 34] ++ $"b" ++ [chr 34] ++
  $": null, " ++ [chr 34] ++ $"b" ++ [chr 34] ++ $":true}".

Definition input_value : json :=
  JObject [($"a" ++ [chr 0xC3; chr 0xA9], JArray [JInteger (-1); JUnsigned 2; JFloat 0x3F847AE147AE147B]); ($"b", JBool true)].

Lemma json_parse_dump_parse_witness :
  json_parse input = Some (Ok input_value) /\
  exists t, json_dump input_value = Done t /\ json_parse t = Some (Ok (norm input_value)).
Proof.
  assert (E : json_parse input = Some (Ok input_value)) by (vm_compute; reflexivity).
  split; [exact E|]. exact (json_parse_dump_parse input input_value E).
Defined.
End JsonDemo.
