(* ===== verification/JsonCompare.v ===== *)
(** * Comparison of JSON values (operator== and operator<=> of basic_json)

    The macro JSON_IMPLEMENT_OPERATOR of include/nlohmann/json.hpp at its two
    uses, with the comparisons of the containers and of doubles it relies on.
    A result of type std::partial_ordering is an optional [comparison], [None]
    is [unordered]. *)

From S2P Require Import Prelude StdMap JsonNumber Doubles JsonValue.

(** ** Doubles *)

(** [std::isnan] *)
Definition isnan (b : Z) : bool := (double_exp b =? 0x7FF) && negb (double_man b =? 0).

(** The magnitudes of doubles are ordered as their bit patterns; the two zeros
    have the same key. *)
Definition double_key (b : Z) : Z := if double_sign b then 2 ^ 63 - b else b.

Definition double_cmp (a b : Z) : option comparison :=
  if isnan a || isnan b then None else Some (double_key a ?= double_key b).

Definition double_eq (a b : Z) : bool :=
  negb (isnan a || isnan b) && (double_key a =? double_key b).

(** [static_cast<double>] of an integer: rounding to nearest. *)
Definition double_of_int (z : Z) : Z :=
  if z =? 0 then 0
  else if 0 <? z then double_of_ratio z 1 else 2 ^ 63 + double_of_ratio (- z) 1.

(** ** Strings and containers *)

Definition str_cmp3 (s t : str) : comparison :=
  if str_ltb s t then Lt else if str_ltb t s then Gt else Eq.

Section Containers.
Context {A : Type} (eqv : A -> A -> bool) (cmp : A -> A -> option comparison).

(** [operator==] of std::vector: equal sizes and equal elements. *)
Fixpoint vec_eq (l r : list A) : bool :=
  match l, r with
  | [], [] => true
  | x :: l', y :: r' => eqv x y && vec_eq l' r'
  | _, _ => false
  end.

(** [std::lexicographical_compare_three_way] *)
Fixpoint vec_cmp (l r : list A) : option comparison :=
  match l, r with
  | [], [] => Some Eq
  | [], _ :: _ => Some Lt
  | _ :: _, [] => Some Gt
  | x :: l', y :: r' =>
      match cmp x y with
      | Some Eq => vec_cmp l' r'
      | c => c
      end
  end.

(** The entries of a std::map are pairs: the key decides first. *)
Fixpoint map_eq_by (l r : list (str * A)) : bool :=
  match l, r with
  | [], [] => true
  | (k, x) :: l', (k', y) :: r' => str_eqb k k' && eqv x y && map_eq_by l' r'
  | _, _ => false
  end.

Fixpoint map_cmp_by (l r : list (str * A)) : option comparison :=
  match l, r with
  | [], [] => Some Eq
  | [], _ :: _ => Some Lt
  | _ :: _, [] => Some Gt
  | (k, x) :: l', (k', y) :: r' =>
      match str_cmp3 k k' with
      | Eq => match cmp x y with
              | Some Eq => map_cmp_by l' r'
              | c => c
              end
      | c => Some c
      end
  end.
End Containers.

(** ** Types *)

(** The array [order] of [operator<=>(value_t, value_t)]; [discarded] lies
    outside it. *)
Definition type_order (j : json) : option Z :=
  match j with
  | JNull => Some 0
  | JObject _ => Some 3
  | JArray _ => Some 4
  | JString _ => Some 5
  | JBool _ => Some 1
  | JInteger _ | JUnsigned _ | JFloat _ => Some 2
  | JDiscarded => None
  end.

Definition type_cmp (lhs rhs : json) : option comparison :=
  l ← type_order lhs; r ← type_order rhs; Some (l ?= r).

Definition is_number (j : json) : bool :=
  match j with JInteger _ | JUnsigned _ | JFloat _ => true | _ => false end.

Definition is_discarded (j : json) : bool :=
  match j with JDiscarded => true | _ => false end.

Definition nan_number (j : json) : bool :=
  match j with JFloat b => isnan b | _ => false end.

Definition compares_unordered (lhs rhs : json) : bool :=
  if (nan_number lhs && is_number rhs) || (nan_number rhs && is_number lhs) then true
  else is_discarded lhs || is_discarded rhs.

Definition bool_cmp (a b : bool) : comparison :=
  match a, b with false, true => Lt | true, false => Gt | _, _ => Eq end.

(** ** The operators *)

(** JSON_IMPLEMENT_OPERATOR( ==, true, false, false) *)
Fixpoint json_eq (lhs rhs : json) {struct lhs} : bool :=
  match lhs, rhs with
  | JArray l, JArray r => vec_eq json_eq l r
  | JObject l, JObject r => map_eq_by json_eq l r
  | JNull, JNull => true
  | JString s, JString t => str_eqb s t
  | JBool a, JBool b => Bool.eqb a b
  | JInteger x, JInteger y => x =? y
  | JUnsigned x, JUnsigned y => x =? y
  | JFloat x, JFloat y => double_eq x y
  | JDiscarded, JDiscarded => false
  | JInteger x, JFloat y => double_eq (double_of_int x) y
  | JFloat x, JInteger y => double_eq x (double_of_int y)
  | JUnsigned x, JFloat y => double_eq (double_of_int x) y
  | JFloat x, JUnsigned y => double_eq x (double_of_int y)
  | JUnsigned x, JInteger y => i64 x =? y
  | JInteger x, JUnsigned y => x =? i64 y
  | _, _ => if compares_unordered lhs rhs then false else false
  end.

(** [operator!=] *)
Definition json_ne (lhs rhs : json) : bool :=
  if compares_unordered lhs rhs then false else negb (json_eq lhs rhs).

(** JSON_IMPLEMENT_OPERATOR(<=>, equivalent, unordered, lhs_type <=> rhs_type) *)
Fixpoint json_cmp (lhs rhs : json) {struct lhs} : option comparison :=
  match lhs, rhs with
  | JArray l, JArray r => vec_cmp json_cmp l r
  | JObject l, JObject r => map_cmp_by json_cmp l r
  | JNull, JNull => Some Eq
  | JString s, JString t => Some (str_cmp3 s t)
  | JBool a, JBool b => Some (bool_cmp a b)
  | JInteger x, JInteger y => Some (x ?= y)
  | JUnsigned x, JUnsigned y => Some (x ?= y)
  | JFloat x, JFloat y => double_cmp x y
  | JDiscarded, JDiscarded => None
  | JInteger x, JFloat y => double_cmp (double_of_int x) y
  | JFloat x, JInteger y => double_cmp x (double_of_int y)
  | JUnsigned x, JFloat y => double_cmp (double_of_int x) y
  | JFloat x, JUnsigned y => double_cmp x (double_of_int y)
  | JUnsigned x, JInteger y => Some (i64 x ?= y)
  | JInteger x, JUnsigned y => Some (x ?= i64 y)
  | _, _ => if compares_unordered lhs rhs then None else type_cmp lhs rhs
  end.

(** The relational operators the compiler derives from [operator<=>]. *)
Definition json_lt (lhs rhs : json) : bool :=
  match json_cmp lhs rhs with Some Lt => true | _ => false end.

Definition json_le (lhs rhs : json) : bool :=
  match json_cmp lhs rhs with Some Lt | Some Eq => true | _ => false end.

Example cmp_types : json_lt (JBool true) (JInteger 0) = true /\ json_lt (JArray []) (JString []) = true.
Proof. by_compute. Qed.
Example cmp_mixed : json_eq (JUnsigned 1) (JFloat 0x3FF0000000000000) = true.
Proof. by_compute. Qed.
Example cmp_zeros : json_eq (JFloat 0) (JFloat (2 ^ 63)) = true.
Proof. by_compute. Qed.
Example ne_nan : json_ne (JFloat (double_inf + 1)) (JInteger 1) = false.
Proof. by_compute. Qed.

(** ** The order of doubles *)

(** The value of a finite double of non-negative sign, in units of 2^-1074. *)
Definition double_units (b : Z) : Z := d_man b * 2 ^ (d_exp b + 1074).

Lemma double_units_step b : 0 <= b -> double_units b < double_units (b + 1).
Proof.
  intros Hb. unfold double_units, d_man, d_exp, d_E, d_F.
  pose proof (Z.mod_pos_bound b (2 ^ 52) ltac:(lia)) as Hm. pose proof (Z.div_pos b (2 ^ 52) Hb ltac:(lia)) as Hd.
  pose proof (Z.div_mod b (2 ^ 52) ltac:(lia)) as Hdm. set (q := b / 2 ^ 52) in *. set (r := b mod 2 ^ 52) in *.
  assert (Hc : (r < 2 ^ 52 - 1 /\ (b + 1) / 2 ^ 52 = q /\ (b + 1) mod 2 ^ 52 = r + 1) \/
               (r = 2 ^ 52 - 1 /\ (b + 1) / 2 ^ 52 = q + 1 /\ (b + 1) mod 2 ^ 52 = 0)).
  { destruct (Z.lt_ge_cases r (2 ^ 52 - 1)); [left|right]; (split_and!; [lia|..]).
    - symmetry; apply (Z.div_unique _ _ _ (r + 1)); lia.
    - symmetry; apply (Z.mod_unique _ _ q); lia.
    - symmetry; apply (Z.div_unique _ _ _ 0); lia.
    - symmetry; apply (Z.mod_unique _ _ (q + 1)); lia. }
  destruct Hc as [(Hr & -> & ->)|(Hr & -> & ->)].
  - destruct (Z.eqb_spec q 0) as [->|Hq].
    + simpl. lia.
    + apply Z.mul_lt_mono_pos_r; [apply Z.pow_pos_nonneg; lia|lia].
  - destruct (Z.eqb_spec (q + 1) 0); [lia|]. destruct (Z.eqb_spec q 0) as [->|Hq]; [rewrite Hr; simpl; lia|].
    replace (q + 1 - 1075 + 1074) with (Z.succ (q - 1)) by lia. replace (q - 1075 + 1074) with (q - 1) by lia.
    rewrite Z.pow_succ_r by lia. assert (0 < 2 ^ (q - 1)) by (apply Z.pow_pos_nonneg; lia). nia.
Qed.

(** Bit patterns of non-negative doubles are ordered as their values. *)
Lemma double_units_mono a b : 0 <= a -> a < b -> double_units a < double_units b.
Proof.
  intros Ha Hab. replace b with (a + 1 + (b - a - 1)) by lia.
  assert (Hn : 0 <= b - a - 1) by lia. revert Hn. generalize (b - a - 1). clear Hab b.
  intros n Hn. revert n Hn. apply natlike_ind.
  - rewrite Z.add_0_r. by apply double_units_step.
  - intros n Hn IH. etransitivity; [exact IH|]. replace (a + 1 + Z.succ n) with (a + 1 + n + 1) by lia.
    apply double_units_step. lia.
Qed.

(** ** Lemmas: equality is the equivalence of the order *)

Lemma double_cmp_eq a b : double_cmp a b = Some Eq <-> double_eq a b = true.
Proof.
  unfold double_cmp, double_eq. destruct (isnan a || isnan b); simpl; [done|].
  rewrite Z.eqb_eq, <- Z.compare_eq_iff. split; congruence.
Qed.

Lemma double_cmp_flip a b : double_cmp b a = CompOpp <$> double_cmp a b.
Proof.
  unfold double_cmp. rewrite orb_comm. destruct (isnan a || isnan b); simpl; [done|]. by rewrite Z.compare_antisym.
Qed.

Lemma str_cmp3_eq s t : str_cmp3 s t = Eq <-> s = t.
Proof.
  unfold str_cmp3. destruct (str_cmp s t) as [(E & E' & ?)|[(E & E' & ?)|(E & E' & ?)]]; rewrite E, ?E'; split; congruence.
Qed.

Lemma str_cmp3_flip s t : str_cmp3 t s = CompOpp (str_cmp3 s t).
Proof.
  unfold str_cmp3. by destruct (str_cmp s t) as [(E & E' & ?)|[(E & E' & ?)|(E & E' & ?)]]; rewrite E, E'.
Qed.

Lemma vec_cmp_eq {A} (eqv : A -> A -> bool) cmp l r :
  Forall (fun x => forall y, cmp x y = Some Eq <-> eqv x y = true) l ->
  vec_cmp cmp l r = Some Eq <-> vec_eq eqv l r = true.
Proof.
  intros Hl. revert r. induction Hl as [|x l Hx _ IH]; intros [|y r]; try done. simpl.
  rewrite andb_true_iff, <- Hx, <- IH. destruct (cmp x y) as [[]|]; simpl; split; intros; destruct_and?; try done; by split_and?.
Qed.

Lemma map_cmp_eq {A} (eqv : A -> A -> bool) cmp l r :
  Forall (fun e : str * A => forall y, cmp e.2 y = Some Eq <-> eqv e.2 y = true) l ->
  map_cmp_by cmp l r = Some Eq <-> map_eq_by eqv l r = true.
Proof.
  intros Hl. revert r. induction Hl as [|[k x] l Hx _ IH]; intros [|[k' y] r]; try done. simpl in *.
  rewrite !andb_true_iff, <- Hx, <- IH. unfold str_eqb. rewrite bool_decide_eq_true, <- str_cmp3_eq.
  destruct (str_cmp3 k k'), (cmp x y) as [[]|]; simpl; split; intros; destruct_and?; try done; by split_and?.
Qed.

Lemma vec_cmp_flip {A} (cmp : A -> A -> option comparison) l r :
  Forall (fun x => forall y, cmp y x = CompOpp <$> cmp x y) l ->
  vec_cmp cmp r l = CompOpp <$> vec_cmp cmp l r.
Proof.
  intros Hl. revert r. induction Hl as [|x l Hx _ IH]; intros [|y r]; try done. simpl.
  rewrite Hx. by destruct (cmp x y) as [[]|]; simpl.
Qed.

Lemma map_cmp_flip {A} (cmp : A -> A -> option comparison) l r :
  Forall (fun e : str * A => forall y, cmp y e.2 = CompOpp <$> cmp e.2 y) l ->
  map_cmp_by cmp r l = CompOpp <$> map_cmp_by cmp l r.
Proof.
  intros Hl. revert r. induction Hl as [|[k x] l Hx _ IH]; intros [|[k' y] r]; try done. simpl in *.
  rewrite str_cmp3_flip, Hx. destruct (str_cmp3 k k'); simpl; try done. by destruct (cmp x y) as [[]|]; simpl.
Qed.

Lemma Zcmp_eq a b : Some (a ?= b) = Some Eq <-> (a =? b) = true.
Proof. rewrite Z.eqb_eq, <- Z.compare_eq_iff. split; congruence. Qed.

Lemma Zcmp_flip a b : Some (b ?= a) = CompOpp <$> Some (a ?= b).
Proof. simpl. by rewrite Z.compare_antisym. Qed.

Lemma json_cmp_eq_iff a b : json_cmp a b = Some Eq <-> json_eq a b = true.
Proof.
  revert b. induction a as [|m IH|l IH|s|x|z|z|z|] using json_induct; intros b;
    destruct b as [|m'|l'|t|y|w|w|w|]; cbn [json_cmp json_eq];
    try (destruct (compares_unordered _ _); split; discriminate);
    try solve [apply Zcmp_eq | apply double_cmp_eq | split; done].
  - by apply map_cmp_eq.
  - by apply vec_cmp_eq.
  - unfold str_eqb. rewrite bool_decide_eq_true, <- str_cmp3_eq. split; congruence.
  - by destruct x, y.
Qed.

Lemma compares_unordered_comm a b : compares_unordered b a = compares_unordered a b.
Proof. unfold compares_unordered. by rewrite orb_comm, (orb_comm (is_discarded b)). Qed.

Lemma type_cmp_flip a b : type_cmp b a = CompOpp <$> type_cmp a b.
Proof. unfold type_cmp. destruct (type_order a), (type_order b); try done. apply Zcmp_flip. Qed.

Lemma json_cmp_flip a b : json_cmp b a = CompOpp <$> json_cmp a b.
Proof.
  revert b. induction a as [|m IH|l IH|s|x|z|z|z|] using json_induct; intros b;
    destruct b as [|m'|l'|t|y|w|w|w|]; cbn [json_cmp];
    try (rewrite compares_unordered_comm, type_cmp_flip; by destruct (compares_unordered _ _));
    try solve [apply Zcmp_flip | apply double_cmp_flip | done].
  - by apply map_cmp_flip.
  - by apply vec_cmp_flip.
  - simpl. by rewrite str_cmp3_flip.
  - by destruct x, y.
Qed.

(** ** Lemmas: which values can be compared *)

(** No NaN and no discarded value inside. *)
Fixpoint comparable (j : json) : bool :=
  match j with
  | JObject m => forallb (fun e => comparable e.2) m
  | JArray l => forallb comparable l
  | JFloat b => negb (isnan b)
  | JDiscarded => false
  | _ => true
  end.

Lemma le_inf_not_nan b : 0 <= b <= double_inf -> isnan b = false.
Proof.
  intros Hb. unfold isnan, double_exp, double_man. change 0x7FF with (Z.ones 11). replace (2 ^ 52 - 1) with (Z.ones 52) by done.
  rewrite !Z.land_ones, Z.shiftr_div_pow2 by lia. apply andb_false_iff.
  unfold double_inf in Hb. rewrite Z.shiftl_mul_pow2 in Hb by lia. change (Z.ones 11) with 2047.
  destruct (Z.eq_dec b (0x7FF * 2 ^ 52)) as [->|Hne]; [right; by rewrite Z.mod_mul|left].
  apply Z.eqb_neq. assert (b / 2 ^ 52 < 2047) by (apply Z.div_lt_upper_bound; lia).
  rewrite Z.mod_small; [lia|]. split; [apply Z.div_pos; lia|lia].
Qed.

Lemma neg_not_nan b : 0 <= b < 2 ^ 63 -> isnan (2 ^ 63 + b) = isnan b.
Proof.
  intros Hb. unfold isnan, double_exp, double_man. change 0x7FF with (Z.ones 11). replace (2 ^ 52 - 1) with (Z.ones 52) by done.
  rewrite !Z.land_ones, !Z.shiftr_div_pow2 by lia.
  replace (2 ^ 63 + b) with (b + 2 ^ 11 * 2 ^ 52) by lia. rewrite Z.div_add by lia.
  rewrite Z.mod_add by lia. replace (b / 2 ^ 52 + 2 ^ 11) with (b / 2 ^ 52 + 1 * 2 ^ 11) by lia. by rewrite Z.mod_add by lia.
Qed.

(** The conversion of an integer is never NaN. *)
Lemma double_of_int_not_nan z : isnan (double_of_int z) = false.
Proof.
  unfold double_of_int. destruct (Z.eqb_spec z 0); [done|]. destruct (Z.ltb_spec 0 z).
  - apply le_inf_not_nan, double_of_ratio_inf; lia.
  - rewrite neg_not_nan by (apply double_of_ratio_range; lia). apply le_inf_not_nan, double_of_ratio_inf; lia.
Qed.

Lemma double_cmp_total a b : isnan a = false -> isnan b = false -> double_cmp a b <> None.
Proof. unfold double_cmp. by intros -> ->. Qed.

Lemma vec_cmp_total {A} (cmp : A -> A -> option comparison) (ok : A -> bool) l r :
  Forall (fun x => forall y, ok x = true -> ok y = true -> cmp x y <> None) l ->
  forallb ok l = true -> forallb ok r = true -> vec_cmp cmp l r <> None.
Proof.
  intros Hl. revert r. induction Hl as [|x l Hx _ IH]; intros [|y r] Hl' Hr; try done. simpl in *. bool_hyps.
  specialize (Hx y). destruct (cmp x y) as [[]|]; auto.
Qed.

Lemma map_cmp_total {A} (cmp : A -> A -> option comparison) (ok : A -> bool) l r :
  Forall (fun e : str * A => forall y, ok e.2 = true -> ok y = true -> cmp e.2 y <> None) l ->
  forallb (fun e => ok e.2) l = true -> forallb (fun e => ok e.2) r = true -> map_cmp_by cmp l r <> None.
Proof.
  intros Hl. revert r. induction Hl as [|[k x] l Hx _ IH]; intros [|[k' y] r] Hl' Hr; try done. simpl in *. bool_hyps.
  specialize (Hx y). destruct (str_cmp3 k k'); try done. destruct (cmp x y) as [[]|]; auto.
Qed.

Lemma json_cmp_total a b : comparable a = true -> comparable b = true -> json_cmp a b <> None.
Proof.
  revert b. induction a as [|m IH|l IH|s|x|z|z|z|] using json_induct; intros b;
    destruct b as [|m'|l'|t|y|w|w|w|]; cbn [json_cmp comparable]; intros Ha Hb;
    try discriminate Ha; try discriminate Hb; bool_hyps;
    try (unfold compares_unordered; cbn [nan_number is_number is_discarded];
         rewrite ?andb_false_r; discriminate);
    try discriminate; try (apply double_cmp_total; by rewrite ?double_of_int_not_nan).
  - by eapply map_cmp_total.
  - by eapply vec_cmp_total.
Qed.

Lemma json_eq_refl_iff a : json_eq a a = true <-> comparable a = true.
Proof.
  induction a as [|m IH|l IH|s|x|z|z|z|] using json_induct; cbn [json_eq comparable]; try done.
  - induction IH as [|[k x] m Hx _ IHm]; [done|]. simpl in *. unfold str_eqb.
    rewrite bool_decide_eq_true_2 by done. simpl. by rewrite !andb_true_iff, Hx, IHm.
  - induction IH as [|x l Hx _ IHl]; [done|]. simpl. by rewrite !andb_true_iff, Hx, IHl.
  - unfold str_eqb. by rewrite bool_decide_eq_true_2.
  - by rewrite Bool.eqb_reflx.
  - by rewrite Z.eqb_refl.
  - by rewrite Z.eqb_refl.
  - unfold double_eq. rewrite Z.eqb_refl, andb_true_r, orb_diag. done.
Qed.

(** [operator==] and [operator<=>] of JSON values agree: two values are equal exactly when their comparison
    is [equivalent]; the comparison with swapped operands is the reversed one; a value is equal to itself exactly
    when it contains no NaN and no discarded value, and two such values are never unordered. *)
Theorem json_comparison_laws a b :
  (json_cmp a b = Some Eq <-> json_eq a b = true) /\
  json_cmp b a = CompOpp <$> json_cmp a b /\
  (json_eq a a = true <-> comparable a = true) /\
  (comparable a && comparable b = true -> json_cmp a b <> None).
Proof.
  split_and!; [apply json_cmp_eq_iff|apply json_cmp_flip|apply json_eq_refl_iff|].
  intros [Ha Hb]%andb_prop. by apply json_cmp_total.
Qed.

(** An unsigned number of 2^63 and more is compared with a signed one as a negative number, and equality is not
    transitive where integers and doubles meet. *)
Theorem json_comparison_faults :
  json_eq (JUnsigned (2 ^ 64 - 1)) (JInteger (-1)) = true /\
  json_lt (JUnsigned (2 ^ 63)) (JInteger 0) = true /\
  json_eq (JInteger (2 ^ 53)) (JFloat (double_of_int (2 ^ 53))) = true /\
  json_eq (JFloat (double_of_int (2 ^ 53))) (JInteger (2 ^ 53 + 1)) = true /\
  json_eq (JInteger (2 ^ 53)) (JInteger (2 ^ 53 + 1)) = false.
Proof. by_compute. Qed.
