(* ===== verification/JsonAccess.v ===== *)
(** * Element access and modifiers of JSON values (basic_json)

    The member functions of include/nlohmann/json.hpp that read, add, remove
    and merge elements.  A function that changes [*this] returns the new value;
    one that may have changed it before it throws returns both.  Indexes are
    natural numbers, a vector never has 2^64 elements.  Iterators are positions
    of the value they were made from, so the checks that an iterator fits the
    value do not appear. *)

From S2P Require Import Prelude StdMap JsonValue.

(** ** Lookup *)

(** [object->find(k) != object->end()] *)
Definition map_has {V} (k : str) (m : list (str * V)) : bool :=
  match map_find k m with Some _ => true | None => false end.

(** [at(idx)] *)
Definition json_at_idx (j : json) (idx : nat) : res json :=
  match j with
  | JArray l =>
      match l !! idx with
      | Some v => Ok v
      | None => Throw (out_of_range 401)
      end
  | _ => Throw (type_error 304)
  end.

(** [find(key)]; [None] is [end()]. *)
Definition json_find (j : json) (key : str) : option json :=
  match j with JObject m => map_find key m | _ => None end.

(** [count(key)], [contains(key)] *)
Definition json_count (j : json) (key : str) : nat :=
  match j with JObject m => Nat.b2n (map_has key m) | _ => 0%nat end.

Definition json_contains (j : json) (key : str) : bool :=
  match j with JObject m => map_has key m | _ => false end.

(** ** Capacity *)

Definition json_empty (j : json) : bool :=
  match j with
  | JNull => true
  | JArray l => match l with [] => true | _ => false end
  | JObject m => match m with [] => true | _ => false end
  | _ => false
  end.

Definition json_size (j : json) : nat :=
  match j with
  | JNull => 0
  | JArray l => length l
  | JObject m => length m
  | _ => 1
  end%nat.

(** ** Subscripts *)

(** [resize(idx + 1)] of an array that is too short for the index. *)
Definition filled (l : list json) (idx : nat) : list json :=
  if (length l <=? idx)%nat then l ++ replicate (idx + 1 - length l) JNull else l.

(** The value after [operator[](idx)]: a null becomes an array, an array that
    is too short is filled up with nulls. *)
Definition json_sub_idx (j : json) (idx : nat) : res json :=
  let j := match j with JNull => JArray [] | _ => j end in
  match j with
  | JArray l => Ok (JArray (filled l idx))
  | _ => Throw (type_error 305)
  end.

(** [j[idx] = v] *)
Definition json_set_idx (j : json) (idx : nat) (v : json) : res json :=
  j' ← json_sub_idx j idx;
  match j' with JArray l => Ok (JArray (<[idx := v]> l)) | _ => Ok j' end.

(** [object->emplace(key, v)]: an existing entry is kept. *)
Definition map_emplace {V} (k : str) (v : V) (m : list (str * V)) : list (str * V) :=
  match map_find k m with Some _ => m | None => map_assign k v m end.

(** The value after [operator[](key)]. *)
Definition json_sub_key (j : json) (key : str) : res json :=
  let j := match j with JNull => JObject [] | _ => j end in
  match j with
  | JObject m => Ok (JObject (map_emplace key JNull m))
  | _ => Throw (type_error 305)
  end.

(** ** Modifiers *)

(** [clear()] *)
Definition json_clear (j : json) : json :=
  match j with
  | JInteger _ => JInteger 0
  | JUnsigned _ => JUnsigned 0
  | JFloat _ => JFloat 0
  | JBool _ => JBool false
  | JString _ => JString []
  | JArray _ => JArray []
  | JObject _ => JObject []
  | JNull => JNull
  | JDiscarded => JDiscarded
  end.

(** [push_back(val)] of an array, and of an object with an entry. *)
Definition json_push_back (j : json) (val : json) : res json :=
  match j with
  | JNull => Ok (JArray [val])
  | JArray l => Ok (JArray (l ++ [val]))
  | _ => Throw (type_error 308)
  end.

Definition json_push_entry (j : json) (k : str) (val : json) : res json :=
  match j with
  | JNull => Ok (JObject (map_emplace k val []))
  | JObject m => Ok (JObject (map_emplace k val m))
  | _ => Throw (type_error 308)
  end.

(** [emplace_back(val)] *)
Definition json_emplace_back (j : json) (val : json) : res json :=
  match j with
  | JNull => Ok (JArray [val])
  | JArray l => Ok (JArray (l ++ [val]))
  | _ => Throw (type_error 311)
  end.

(** [emplace(key, val)]: the value, and whether the entry is new. *)
Definition json_emplace (j : json) (k : str) (val : json) : res (json * bool) :=
  match j with
  | JNull => Ok (JObject (map_emplace k val []), true)
  | JObject m => Ok (JObject (map_emplace k val m), negb (map_has k m))
  | _ => Throw (type_error 311)
  end.

(** [insert(begin() + pos, first, last)]; one element and [cnt] copies of it
    are the lists [[val]] and [replicate cnt val]. *)
Definition json_insert (j : json) (pos : nat) (vals : list json) : res json :=
  match j with
  | JArray l => Ok (JArray (take pos l ++ vals ++ drop pos l))
  | _ => Throw (type_error 309)
  end.

(** [insert(first, last)] of the entries of an object. *)
Definition json_insert_entries (j : json) (es : list (str * json)) : res json :=
  match j with
  | JObject m => Ok (JObject (fold_left (fun m e => map_emplace e.1 e.2 m) es m))
  | _ => Throw (type_error 309)
  end.

(** [erase(key)]: the number of entries removed; [erase(idx)] *)
Definition json_erase_key (j : json) (key : str) : res (json * nat) :=
  match j with
  | JObject m => Ok (JObject (map_erase key m), Nat.b2n (map_has key m))
  | _ => Throw (type_error 307)
  end.

Definition json_erase_idx (j : json) (idx : nat) : res json :=
  match j with
  | JArray l =>
      if (length l <=? idx)%nat then Throw (out_of_range 401)
      else Ok (JArray (take idx l ++ drop (S idx) l))
  | _ => Throw (type_error 307)
  end.

(** The loop of [update(first, last, merge_objects)] over the entries of the
    other object; [upd] is the call for a nested object. *)
Section UpdateEach.
Variable upd : json -> json -> res () * json.

Fixpoint update_each (merge_objects : bool) (es m : list (str * json)) : res () * list (str * json) :=
  match es with
  | [] => (Ok (), m)
  | (k, v) :: es' =>
      match (if merge_objects && is_object v then map_find k m else None) with
      | Some v2 =>
          match upd v2 v with
          | (Ok _, v2') => update_each merge_objects es' (map_assign k v2' m)
          | (Throw e, v2') => (Throw e, map_assign k v2' m)
          end
      | None => update_each merge_objects es' (map_assign k v m)
      end
  end.
End UpdateEach.

(** [update(j, merge_objects)]: the outcome, and [*this] afterwards. *)
Fixpoint json_update (merge_objects : bool) (this j : json) {struct j} : res () * json :=
  let this := match this with JNull => JObject [] | _ => this end in
  match this, j with
  | JObject m, JObject es =>
      let '(r, m') := update_each (json_update true) merge_objects es m in (r, JObject m')
  | _, _ => (Throw (type_error 312), this)
  end.

Example update_flat :
  json_update false (JObject [($"a", JNull); ($"c", JNull)]) (JObject [($"a", JBool true); ($"b", JNull)]) =
  (Ok (), JObject [($"a", JBool true); ($"b", JNull); ($"c", JNull)]).
Proof. by_compute. Qed.
Example update_merge :
  json_update true (JObject [($"a", JObject [($"x", JNull)])]) (JObject [($"a", JObject [($"y", JNull)])]) =
  (Ok (), JObject [($"a", JObject [($"x", JNull); ($"y", JNull)])]).
Proof. by_compute. Qed.
Example sub_fills : json_set_idx (JArray [JBool true]) 2 (JBool false) = Ok (JArray [JBool true; JNull; JBool false]).
Proof. by_compute. Qed.

(** ** A call of a modifier *)

Inductive modifier :=
  | SetIdx (idx : nat) (v : json)
  | SetKey (key : str) (v : json)
  | TouchIdx (idx : nat)
  | TouchKey (key : str)
  | Clear
  | PushBack (v : json)
  | PushEntry (key : str) (v : json)
  | EmplaceBack (v : json)
  | Emplace (key : str) (v : json)
  | Insert (pos : nat) (vs : list json)
  | InsertEntries (es : list (str * json))
  | EraseKey (key : str)
  | EraseIdx (idx : nat)
  | Update (merge : bool) (v : json).

(** The outcome of a call and the value after it; a function that only
    returns a value leaves the old one when it throws. *)
Definition kept {A} (j : json) (proj : A -> json) (r : res A) : res () * json :=
  match r with Ok a => (Ok (), proj a) | Throw e => (Throw e, j) end.

Definition modify (f : modifier) (j : json) : res () * json :=
  match f with
  | SetIdx idx v => kept j id (json_set_idx j idx v)
  | SetKey key v => kept j id (json_set j key v)
  | TouchIdx idx => kept j id (json_sub_idx j idx)
  | TouchKey key => kept j id (json_sub_key j key)
  | Clear => (Ok (), json_clear j)
  | PushBack v => kept j id (json_push_back j v)
  | PushEntry k v => kept j id (json_push_entry j k v)
  | EmplaceBack v => kept j id (json_emplace_back j v)
  | Emplace k v => kept j fst (json_emplace j k v)
  | Insert pos vs => kept j id (json_insert j pos vs)
  | InsertEntries es => kept j id (json_insert_entries j es)
  | EraseKey k => kept j fst (json_erase_key j k)
  | EraseIdx idx => kept j id (json_erase_idx j idx)
  | Update b v => json_update b j v
  end.

(** The argument values of a call. *)
Definition modifier_args (f : modifier) : list json :=
  match f with
  | SetIdx _ v | SetKey _ v | PushBack v | PushEntry _ v | EmplaceBack v | Emplace _ v | Update _ v => [v]
  | Insert _ vs => vs
  | InsertEntries es => es.*2
  | TouchIdx _ | TouchKey _ | Clear | EraseKey _ | EraseIdx _ => []
  end.

(** ** Lemmas: the invariant of the class *)

(** The entries of an object that satisfies it. *)
Definition entries_ok (m : list (str * json)) : Prop := map_sorted m /\ Forall (fun e => json_ok e.2) m.

Lemma entries_ok_nil : entries_ok [].
Proof. split; constructor. Qed.

Lemma entries_ok_assign k v m : entries_ok m -> json_ok v -> entries_ok (map_assign k v m).
Proof.
  intros [Hs Hm] Hv. split; [by apply map_assign_sorted|]. apply Forall_forall. rewrite Forall_forall in Hm.
  intros [k' x] Hx. simpl. apply map_find_elem in Hx; [|by apply map_assign_sorted].
  destruct (decide (k = k')) as [<-|Hne].
  - rewrite map_find_assign_eq in Hx by done. by simplify_eq.
  - rewrite map_find_assign_ne in Hx by done. apply map_find_elem in Hx; [|done]. by apply (Hm (k', x)).
Qed.

Lemma entries_ok_single k v : json_ok v -> entries_ok [(k, v)].
Proof. intros. apply (entries_ok_assign k v []); [apply entries_ok_nil|done]. Qed.

Lemma entries_ok_erase k m : entries_ok m -> entries_ok (map_erase k m).
Proof.
  intros [Hs Hm]. split; [by apply map_erase_sorted|]. apply Forall_forall. rewrite Forall_forall in Hm.
  intros e He. apply Hm. by eapply map_erase_subset.
Qed.

Lemma entries_ok_emplace k v m : entries_ok m -> json_ok v -> entries_ok (map_emplace k v m).
Proof. intros. unfold map_emplace. destruct (map_find k m); [done|]. by apply entries_ok_assign. Qed.

Lemma entries_ok_find k v m : entries_ok m -> map_find k m = Some v -> json_ok v.
Proof.
  intros [Hs Hm] Hf. apply map_find_elem in Hf; [|done]. rewrite Forall_forall in Hm. by apply (Hm (k, v)).
Qed.

Lemma json_ok_entries m : json_ok (JObject m) <-> entries_ok m.
Proof. apply json_ok_object. Qed.

#[export] Hint Resolve entries_ok_nil entries_ok_single entries_ok_assign entries_ok_erase entries_ok_emplace : p2p.

Lemma entries_ok_emplace_all es m :
  entries_ok m -> Forall json_ok es.*2 -> entries_ok (fold_left (fun m e => map_emplace e.1 e.2 m) es m).
Proof.
  revert m. induction es as [|[k v] es IH]; intros m Hm Hes; simpl in *; [done|].
  apply Forall_cons in Hes as [Hv Hes]. apply IH; [|done]. by apply entries_ok_emplace.
Qed.

Lemma update_each_ok upd b es m :
  Forall (fun e => forall this, json_ok this -> json_ok (upd this e.2).2) es ->
  Forall (fun e => json_ok e.2) es -> entries_ok m -> entries_ok (update_each upd b es m).2.
Proof.
  intros Hu. revert m. induction Hu as [|[k v] es Hv _ IH]; intros m Hes Hm; simpl in *; [done|].
  apply Forall_cons in Hes as [Hvk Hes]. simpl in Hvk.
  destruct (if b && is_object v then map_find k m else None) as [v2|] eqn:E; [|auto with p2p].
  assert (Hv2 : json_ok v2) by (destruct (b && is_object v); [by eapply entries_ok_find|done]).
  specialize (Hv v2 Hv2). destruct (upd v2 v) as [[] v2']; simpl in *; auto with p2p.
Qed.

Lemma json_update_ok b this j : json_ok this -> json_ok j -> json_ok (json_update b this j).2.
Proof.
  revert b this. induction j as [|es IH|l IH|s|x|z|z|z|] using json_induct; intros b this Ht Hj;
    destruct this; cbn [json_update snd]; try exact Ht; try exact (proj2 (json_ok_entries []) entries_ok_nil).
  all: apply json_ok_object in Hj as [Hs Hes].
  all: assert (Hu : Forall (fun e => forall this, json_ok this -> json_ok (json_update true this e.2).2) es)
    by (apply Forall_forall; rewrite Forall_forall in IH, Hes; intros e He this' Ht'; apply IH; auto).
  - pose proof (update_each_ok (json_update true) b es [] Hu Hes entries_ok_nil) as H.
    destruct (update_each _ _ _ _). by apply json_ok_entries.
  - apply json_ok_entries in Ht. pose proof (update_each_ok (json_update true) b es m Hu Hes Ht) as H.
    destruct (update_each _ _ _ _). by apply json_ok_entries.
Qed.

Lemma filled_ok l idx : Forall json_ok l -> Forall json_ok (filled l idx).
Proof. intros Hl. unfold filled. case_match; [|done]. apply Forall_app. split; [done|]. by apply Forall_replicate. Qed.

Lemma json_sub_idx_ok j idx j' : json_ok j -> json_sub_idx j idx = Ok j' -> json_ok j'.
Proof.
  intros Hj. unfold json_sub_idx. destruct j; try discriminate; intros [= <-]; rewrite json_ok_array in *;
    apply filled_ok; [constructor|done].
Qed.

Lemma kept_ok {A} j (proj : A -> json) r :
  json_ok j -> (forall a, r = Ok a -> json_ok (proj a)) -> json_ok (kept j proj r).2.
Proof. destruct r; simpl; auto. Qed.

Lemma modify_ok f j : json_ok j -> Forall json_ok (modifier_args f) -> json_ok (modify f j).2.
Proof.
  intros Hj Ha. destruct f; cbn [modifier_args modify] in *; repeat (apply Forall_cons in Ha as [Hv Ha]);
    try (apply kept_ok; [done|]; unfold id).
  - intros a. unfold json_set_idx. destruct (json_sub_idx j idx) as [j'|] eqn:E; [|done]. simpl.
    apply json_sub_idx_ok in E; [|done]. destruct j'; intros [= <-]; try exact E.
    rewrite json_ok_array in *. by apply Forall_insert.
  - intros a. destruct j; try discriminate; intros [= <-]; rewrite json_ok_entries in *; auto with p2p.
  - intros a. by apply json_sub_idx_ok.
  - intros a. destruct j; try discriminate; intros [= <-]; rewrite json_ok_entries in *; [by apply entries_ok_single|by apply entries_ok_emplace].
  - destruct j; cbn [json_clear snd]; try exact I; try (cbn [json_ok]; lia); [apply json_ok_entries, entries_ok_nil|done].
  - intros a. destruct j; try discriminate; intros [= <-]; rewrite json_ok_array in *; [by constructor|].
    apply Forall_app. split; [done|by constructor].
  - intros a. destruct j; try discriminate; intros [= <-]; rewrite json_ok_entries in *; auto with p2p.
  - intros a. destruct j; try discriminate; intros [= <-]; rewrite json_ok_array in *; [by constructor|].
    apply Forall_app. split; [done|by constructor].
  - intros a. destruct j; try discriminate; intros [= <-]; simpl fst; rewrite json_ok_entries in *; auto with p2p.
  - intros a. destruct j; try discriminate; intros [= <-]; rewrite json_ok_array in *.
    rewrite !Forall_app. split_and!; [by apply Forall_take|done|by apply Forall_drop].
  - intros a. destruct j; try discriminate; intros [= <-]; rewrite json_ok_entries in *. by apply entries_ok_emplace_all.
  - intros a. destruct j; try discriminate; intros [= <-]; simpl fst; rewrite json_ok_entries in *; auto with p2p.
  - intros a. unfold json_erase_idx. destruct j; try discriminate. destruct (_ <=? idx)%nat; [discriminate|].
    intros [= <-]. rewrite json_ok_array in *. apply Forall_app. split; [by apply Forall_take|by apply Forall_drop].
  - by apply json_update_ok.
Qed.

(** Every sequence of calls that change a JSON value, whether they return or throw, keeps the invariant of the
    class: keys sorted and unique, integers of 64 bits, no discarded element. *)
Theorem modifiers_keep_invariant fs j :
  json_ok j -> Forall (fun f => Forall json_ok (modifier_args f)) fs ->
  json_ok (fold_left (fun j f => (modify f j).2) fs j).
Proof.
  intros Hj Hfs. revert j Hj. induction Hfs as [|f fs Hf _ IH]; intros j Hj; [done|]. simpl. by apply IH, modify_ok.
Qed.

(** A null that becomes an object, is merged with another one, and refuses an index. *)
Lemma modifiers_keep_invariant_witness :
  json_ok (fold_left (fun j f => (modify f j).2)
    [SetKey $"b" (JInteger 1); Update true (JObject [($"a", JNull)]); SetIdx 3 JNull] JNull).
Proof. apply modifiers_keep_invariant; repeat constructor; simpl; lia. Defined.

(** ** Lemmas: [update] entry by entry *)

(** What the entry of a key is after [update], from the ones of both objects. *)
Definition updated (b : bool) (old new : option json) : option json :=
  match new with
  | None => old
  | Some v =>
      match (if b && is_object v then old else None) with
      | Some v2 => Some (json_update true v2 v).2
      | None => Some v
      end
  end.

Lemma update_each_find b es m m' k :
  map_sorted es -> map_sorted m -> update_each (json_update true) b es m = (Ok (), m') ->
  map_find k m' = updated b (map_find k m) (map_find k es).
Proof.
  revert m. induction es as [|[k0 v] es IH]; intros m Hes Hm; cbn [update_each]; [by intros [= <-]|].
  rewrite map_find_cons by done. pose proof Hes as [Hs Hlt]%map_sorted_cons.
  assert (Hstep : forall x, update_each (json_update true) b es (map_assign k0 x m) = (Ok (), m') ->
    map_find k m' = if decide (k = k0) then Some x else updated b (map_find k m) (map_find k es)).
  { intros x Hx. rewrite (IH (map_assign k0 x m) Hs (map_assign_sorted _ _ _ Hm) Hx). destruct (decide (k = k0)) as [->|Hne].
    - rewrite map_find_assign_eq by done. by rewrite map_find_lt.
    - by rewrite map_find_assign_ne by done. }
  destruct (if b && is_object v then map_find k0 m else None) as [v2|] eqn:E.
  - destruct (json_update true v2 v) as [[[]|] v2'] eqn:Eu; [|done]. intros H. rewrite (Hstep _ H).
    destruct (decide (k = k0)) as [->|]; [|done]. unfold updated. rewrite E. by rewrite Eu.
  - intros H. rewrite (Hstep _ H). destruct (decide (k = k0)) as [->|]; [|done]. unfold updated. by rewrite E.
Qed.

Lemma update_each_returns es m : (update_each (json_update true) false es m).1 = Ok ().
Proof. revert m. induction es as [|[k v] es IH]; intros m; [done|]. simpl. apply IH. Qed.

(** [update(j)] on an object or a null with an object [j] returns, and every key of [j] then has its value from
    [j] while the others keep theirs; with [merge_objects], a returned call gives a key whose value in [j] is an
    object, and which was present, the old value updated by the new one. *)
Theorem update_entries b this j m es :
  json_ok this -> json_ok j -> j = JObject es ->
  (this = JObject m \/ (this = JNull /\ m = [])) ->
  (b = false -> (json_update b this j).1 = Ok ()) /\
  ((json_update b this j).1 = Ok () -> forall k,
     json_find (json_update b this j).2 k = updated b (map_find k m) (map_find k es)).
Proof.
  intros Ht Hj -> Hthis.
  assert (Hm : map_sorted m) by (destruct Hthis as [->|[_ ->]]; [by apply json_ok_object in Ht as [? _]|constructor]).
  apply json_ok_object in Hj as [Hes _].
  assert (E : json_update b this (JObject es) =
    let '(r, m') := update_each (json_update true) b es m in (r, JObject m')) by (by destruct Hthis as [->|[-> ->]]).
  rewrite E. split.
  - intros ->. pose proof (update_each_returns es m) as H. by destruct (update_each _ _ _ _).
  - destruct (update_each _ _ _ _) as [[[]|] m'] eqn:Eu; simpl; [|done]. intros _ k. by eapply update_each_find.
Qed.

Lemma update_entries_witness :
  let this := JObject [($"a", JObject [($"x", JNull)]); ($"c", JNull)] in
  let j := JObject [($"a", JObject [($"y", JNull)]); ($"b", JNull)] in
  (false = false -> (json_update false this j).1 = Ok ()) /\
  ((json_update false this j).1 = Ok () -> forall k,
     json_find (json_update false this j).2 k = updated false
       (map_find k [($"a", JObject [($"x", JNull)]); ($"c", JNull)]) (map_find k [($"a", JObject [($"y", JNull)]); ($"b", JNull)])).
Proof. apply update_entries; [by repeat constructor| |done|by left]. repeat constructor. Defined.
