(* ===== verification/JsonPointer.v ===== *)
(** * JSON pointers (json_pointer of include/nlohmann/json.hpp)

    The string syntax of RFC 6901 with its escapes, the resolution of a
    pointer in a value, and [flatten] and [unflatten].  A pointer is the list
    of its reference tokens.  The code hands out references; here a function
    that returns a reference takes the function [f] that the caller applies
    to the value it refers to.  Memory is unbounded: an index makes an array
    as long as it asks for. *)

From S2P Require Import Prelude StdMap JsonNumber JsonValue JsonIntegers JsonAccess.

Abbreviation json_pointer := (list str).

(** ** Escapes *)

Section Replace.
Variables f t : str.

(** [replace_substring(s, f, t)]: the occurrences of [f] from the left; after
    one, the scan goes on behind it ([skip] characters of it remain). *)
Fixpoint replace_from (skip : nat) (s : str) : str :=
  match s with
  | [] => []
  | c :: s' =>
      match skip with
      | S k => replace_from k s'
      | O => if starts_with f s then t ++ replace_from (pred (length f)) s' else c :: replace_from 0 s'
      end
  end.
End Replace.

Definition replace_substring (s f t : str) : str := replace_from f t 0 s.

Definition escape (s : str) : str :=
  replace_substring (replace_substring s $"~" $"~0") $"/" $"~1".

Definition unescape (s : str) : str :=
  replace_substring (replace_substring s $"~1" $"/") $"~0" $"~".

(** ** Pointers as strings *)

(** [to_string()] *)
Definition ptr_to_string (p : json_pointer) : str :=
  fold_left (fun a b => a ++ $"/" ++ escape b) p [].

(** The text between the slashes. *)
Fixpoint split_slash (s : str) : str * list str :=
  match s with
  | [] => ([], [])
  | c :: s' =>
      let '(tok, toks) := split_slash s' in
      if Ascii.eqb c "/"%char then ([], tok :: toks) else (c :: tok, toks)
  end.

(** Every tilde is followed by 0 or 1. *)
Fixpoint escapes_ok (s : str) : bool :=
  match s with
  | [] => true
  | c :: s' =>
      (if Ascii.eqb c "~"%char then
         match s' with
         | [] => false
         | d :: _ => negb (negb (Ascii.eqb d "0"%char) && negb (Ascii.eqb d "1"%char))
         end
       else true) && escapes_ok s'
  end.

Fixpoint read_tokens (toks : list str) : res (list str) :=
  match toks with
  | [] => Ok []
  | tok :: toks' =>
      if negb (escapes_ok tok) then Throw (parse_error 108)
      else rest ← read_tokens toks'; Ok (unescape tok :: rest)
  end.

(** [split(reference_string)], the constructor of a pointer. *)
Definition ptr_split (reference_string : str) : res json_pointer :=
  match reference_string with
  | [] => Ok []
  | c :: s =>
      if negb (Ascii.eqb c "/"%char) then Throw (parse_error 107)
      else let '(tok, toks) := split_slash s in read_tokens (tok :: toks)
  end.

(** ** Tokens *)

(** [std::to_string(i)] of an index *)
Definition idx_str (i : nat) : str := dec_str (Z.of_nat i).

(** [operator/=] with a pointer, a token, an index *)
Definition ptr_append (p q : json_pointer) : json_pointer := p ++ q.
Definition ptr_push_back (p : json_pointer) (token : str) : json_pointer := p ++ [token].
Definition ptr_append_idx (p : json_pointer) (array_idx : nat) : json_pointer :=
  ptr_push_back p (idx_str array_idx).

Definition ptr_pop_back (p : json_pointer) : res json_pointer :=
  match p with [] => Throw (out_of_range 405) | _ => Ok (take (pred (length p)) p) end.

Definition ptr_back (p : json_pointer) : res str :=
  match last p with None => Throw (out_of_range 405) | Some t => Ok t end.

Definition ptr_pop_front (p : json_pointer) : res json_pointer :=
  match p with [] => Throw (out_of_range 405) | _ :: p' => Ok p' end.

Definition ptr_front (p : json_pointer) : res str :=
  match p with [] => Throw (out_of_range 405) | t :: _ => Ok t end.

Definition ptr_push_front (p : json_pointer) (token : str) : json_pointer := token :: p.

Definition ptr_top (p : json_pointer) : res json_pointer :=
  match p with [] => Throw (out_of_range 405) | t :: _ => Ok [t] end.

Definition parent_pointer (p : json_pointer) : json_pointer :=
  match p with [] => [] | _ => take (pred (length p)) p end.

(** [array_index(s)]: [strtoull] converts the digits at the beginning; a
    string of one character that is none gives no conversion. *)
Definition array_index (s : str) : res nat :=
  if (1 <? length s)%nat && match s with c :: _ => Ascii.eqb c "0"%char | [] => false end
  then Throw (parse_error 106)
  else if (1 <? length s)%nat &&
          match s with c :: _ => negb ((49 <=? ord c) && (ord c <=? 57)) | [] => false end
  then Throw (parse_error 109)
  else
    let '(digits, rest) := take_digits s in
    match digits, strtoull digits, rest with
    | _ :: _, Some r, [] =>
        if 2 ^ 64 - 1 <=? r then Throw (out_of_range 410) else Ok (Z.to_nat r)
    | _, _, _ => Throw (out_of_range 404)
    end.

(** ** Resolution *)

(** [get_checked(ptr)], which is [at(ptr)] of a value: the value referred to. *)
Fixpoint get_checked (p : json_pointer) (j : json) : res json :=
  match p with
  | [] => Ok j
  | reference_token :: p' =>
      match j with
      | JObject _ => v ← json_at j reference_token; get_checked p' v
      | JArray _ =>
          if str_eqb reference_token $"-" then Throw (out_of_range 402)
          else idx ← array_index reference_token; v ← json_at_idx j idx; get_checked p' v
      | _ => Throw (out_of_range 404)
      end
  end.

(** The same with what the caller does to the value it refers to. *)
Fixpoint at_update (p : json_pointer) (f : json -> res json) (j : json) : res json :=
  match p with
  | [] => f j
  | reference_token :: p' =>
      match j with
      | JObject m =>
          v ← json_at j reference_token; v' ← at_update p' f v;
          Ok (JObject (map_assign reference_token v' m))
      | JArray l =>
          if str_eqb reference_token $"-" then Throw (out_of_range 402)
          else idx ← array_index reference_token; v ← json_at_idx j idx; v' ← at_update p' f v;
               Ok (JArray (<[idx := v']> l))
      | _ => Throw (out_of_range 404)
      end
  end.

(** [get_unchecked(ptr)] of a const value: [None] where the behaviour is
    undefined, because the element does not exist. *)
Fixpoint get_unchecked_const (p : json_pointer) (j : json) : option (res json) :=
  match p with
  | [] => Some (Ok j)
  | reference_token :: p' =>
      match j with
      | JObject m => v ← map_find reference_token m; get_unchecked_const p' v
      | JArray l =>
          if str_eqb reference_token $"-" then Some (Throw (out_of_range 402))
          else match array_index reference_token with
               | Throw e => Some (Throw e)
               | Ok idx => v ← l !! idx; get_unchecked_const p' v
               end
      | _ => Some (Throw (out_of_range 404))
      end
  end.

Definition all_digits_b (s : str) : bool := forallb (fun c => (48 <=? ord c) && (ord c <=? 57)) s.

(** [get_unchecked(ptr)], which is [operator[](ptr)]: containers and elements
    that are missing are made, and stay when it throws. *)
Fixpoint get_unchecked (p : json_pointer) (f : json -> json) (j : json) : res () * json :=
  match p with
  | [] => (Ok (), f j)
  | reference_token :: p' =>
      let j := match j with
               | JNull => if all_digits_b reference_token || str_eqb reference_token $"-"
                          then JArray [] else JObject []
               | _ => j
               end in
      match j with
      | JObject m =>
          let m := map_emplace reference_token JNull m in
          let '(r, v) := get_unchecked p' f (default JNull (map_find reference_token m)) in
          (r, JObject (map_assign reference_token v m))
      | JArray l =>
          match (if str_eqb reference_token $"-" then Ok (length l) else array_index reference_token) with
          | Throw e => (Throw e, j)
          | Ok idx =>
              let l := filled l idx in
              let '(r, v) := get_unchecked p' f (default JNull (l !! idx)) in
              (r, JArray (<[idx := v]> l))
          end
      | _ => (Throw (out_of_range 404), j)
      end
  end.

(** [contains(ptr)] *)
Definition index_chars_ok (t : str) : bool :=
  match t with
  | [] => true
  | [c] => (48 <=? ord c) && (ord c <=? 57)
  | c :: t' => (49 <=? ord c) && (ord c <=? 57) && all_digits_b t'
  end.

Fixpoint ptr_contains (p : json_pointer) (j : json) : res bool :=
  match p with
  | [] => Ok true
  | reference_token :: p' =>
      match j with
      | JObject m =>
          match map_find reference_token m with
          | None => Ok false
          | Some v => ptr_contains p' v
          end
      | JArray l =>
          if str_eqb reference_token $"-" then Ok false
          else if negb (index_chars_ok reference_token) then Ok false
          else
            idx ← array_index reference_token;
            match l !! idx with
            | None => Ok false
            | Some v => ptr_contains p' v
            end
      | _ => Ok false
      end
  end.

(** ** Flattening *)

Section FlattenEach.
Variable fl : str -> json -> list (str * json) -> list (str * json).

Fixpoint flatten_items (reference_string : str) (i : nat) (l : list json) (result : list (str * json)) :=
  match l with
  | [] => result
  | v :: l' =>
      flatten_items reference_string (S i) l'
        (fl (reference_string ++ $"/" ++ idx_str i) v result)
  end.

Fixpoint flatten_entries (reference_string : str) (m : list (str * json)) (result : list (str * json)) :=
  match m with
  | [] => result
  | (k, v) :: m' =>
      flatten_entries reference_string m' (fl (reference_string ++ $"/" ++ escape k) v result)
  end.
End FlattenEach.

(** [flatten(reference_string, value, result)] *)
Fixpoint flatten (reference_string : str) (value : json) (result : list (str * json)) {struct value}
  : list (str * json) :=
  match value with
  | JArray [] | JObject [] => map_assign reference_string JNull result
  | JArray l => flatten_items flatten reference_string 0 l result
  | JObject m => flatten_entries flatten reference_string m result
  | _ => map_assign reference_string value result
  end.

Definition json_flatten (j : json) : json := JObject (flatten [] j []).

(** [get_and_create(j)], with what is done to the reference. *)
Fixpoint get_and_create (p : json_pointer) (f : json -> json) (j : json) : res json :=
  match p with
  | [] => Ok (f j)
  | reference_token :: p' =>
      let at_key m :=
        let m := map_emplace reference_token JNull m in
        v ← get_and_create p' f (default JNull (map_find reference_token m));
        Ok (JObject (map_assign reference_token v m)) in
      let at_idx l idx :=
        let l := filled l idx in
        v ← get_and_create p' f (default JNull (l !! idx));
        Ok (JArray (<[idx := v]> l)) in
      match j with
      | JNull => if str_eqb reference_token $"0" then at_idx [] 0%nat else at_key []
      | JObject m => at_key m
      | JArray l => idx ← array_index reference_token; at_idx l idx
      | _ => Throw (type_error 313)
      end
  end.

Definition is_primitive (j : json) : bool :=
  match j with JObject _ | JArray _ | JDiscarded => false | _ => true end.

Fixpoint unflatten_each (m : list (str * json)) (result : json) : res json :=
  match m with
  | [] => Ok result
  | (k, v) :: m' =>
      if negb (is_primitive v) then Throw (type_error 315)
      else p ← ptr_split k; result ← get_and_create p (fun _ => v) result; unflatten_each m' result
  end.

(** [unflatten(value)] *)
Definition json_unflatten (value : json) : res json :=
  match value with
  | JObject m => unflatten_each m JNull
  | _ => Throw (type_error 314)
  end.

Definition doc1 : json :=
  JObject [($"a/b", JArray [JNull; JObject [($"~", JBool true)]]); ($"c", JInteger (-1))].

Example flatten_doc1 : json_flatten doc1 =
  JObject [($"/a~1b/0", JNull); ($"/a~1b/1/~0", JBool true); ($"/c", JInteger (-1))].
Proof. by_compute. Qed.
Example unflatten_doc1 : json_unflatten (json_flatten doc1) = Ok doc1.
Proof. by_compute. Qed.
Example at_doc1 : (p ← ptr_split $"/a~1b/1/~0"; get_checked p doc1) = Ok (JBool true).
Proof. by_compute. Qed.
Example index_leading_zero : array_index $"01" = Throw (parse_error 106) /\ array_index $"1a" = Throw (out_of_range 404).
Proof. by_compute. Qed.

(** ** Lemmas: escapes *)

Definition esc_char (c : ascii) : str :=
  if Ascii.eqb c "~"%char then $"~0" else if Ascii.eqb c "/"%char then $"~1" else [c].

Definition tilde_char (c : ascii) : str := if Ascii.eqb c "~"%char then $"~0" else [c].

Lemma replace_char c t s :
  replace_from [c] t 0 s = flat_map (fun x => if Ascii.eqb c x then t else [x]) s.
Proof.
  induction s as [|x s IH]; [done|]. simpl. rewrite andb_true_r, IH. by destruct (Ascii.eqb c x).
Qed.

Lemma flat_map_app {A B} (f : A -> list B) l r : flat_map f (l ++ r) = flat_map f l ++ flat_map f r.
Proof. induction l as [|x l IH]; [done|]. simpl. by rewrite IH, app_assoc. Qed.

Lemma escape_chars s : escape s = flat_map esc_char s.
Proof.
  unfold escape, replace_substring. simpl ($"~"). simpl ($"/"). rewrite !replace_char.
  induction s as [|c s IH]; [done|]. cbn [flat_map]. rewrite flat_map_app, IH. f_equal.
  unfold esc_char. rewrite (Ascii.eqb_sym c). destruct (Ascii.eqb_spec "~"%char c) as [<-|Hc]; [done|].
  cbn [flat_map]. rewrite (Ascii.eqb_sym c). destruct (Ascii.eqb "/"%char c); by rewrite app_nil_r.
Qed.

Lemma replace_other d f t c s : c <> d -> replace_from (d :: f) t 0 (c :: s) = c :: replace_from (d :: f) t 0 s.
Proof. intros Hc. cbn [replace_from starts_with]. by rewrite (proj2 (Ascii.eqb_neq d c) (not_eq_sym Hc)). Qed.

Lemma unescape_slashes s : replace_from $"~1" $"/" 0 (flat_map esc_char s) = flat_map tilde_char s.
Proof.
  induction s as [|c s IH]; [done|]. cbn [flat_map]. unfold esc_char at 1, tilde_char at 1.
  destruct (Ascii.eqb_spec c "~"%char) as [->|Hc]; [simpl in *; by rewrite IH|].
  destruct (Ascii.eqb_spec c "/"%char) as [->|Hc']; [simpl in *; by rewrite IH|].
  cbn [app]. by rewrite (replace_other "~" $"1" $"/" c _ Hc), <- IH.
Qed.

Lemma unescape_tildes s : replace_from $"~0" $"~" 0 (flat_map tilde_char s) = s.
Proof.
  induction s as [|c s IH]; [done|]. cbn [flat_map]. unfold tilde_char at 1.
  destruct (Ascii.eqb_spec c "~"%char) as [->|Hc]; [simpl in *; by rewrite IH|].
  cbn [app]. rewrite (replace_other "~" $"0" $"~" c _ Hc). by rewrite <- IH at 2.
Qed.

Lemma unescape_escape s : unescape (escape s) = s.
Proof. rewrite escape_chars. unfold unescape, replace_substring. by rewrite unescape_slashes, unescape_tildes. Qed.

Definition no_slash (s : str) : Prop := Forall (fun c => c <> "/"%char) s.

Lemma esc_char_ok c t : escapes_ok t = true -> no_slash t -> escapes_ok (esc_char c ++ t) = true /\ no_slash (esc_char c ++ t).
Proof.
  intros Ht Hn. unfold esc_char. destruct (Ascii.eqb_spec c "~"%char) as [->|Hc]; [split; [exact Ht|by repeat constructor]|].
  destruct (Ascii.eqb_spec c "/"%char) as [->|Hc']; [split; [exact Ht|by repeat constructor]|].
  split; [|by constructor]. cbn [app escapes_ok]. by rewrite (proj2 (Ascii.eqb_neq c "~") Hc).
Qed.

Lemma escape_ok s : escapes_ok (escape s) = true /\ no_slash (escape s).
Proof. rewrite escape_chars. induction s as [|c s [IH1 IH2]]; [by repeat constructor|]. by apply esc_char_ok. Qed.

(** Every well-escaped token is the escape of one string. *)
Lemma escaped_form t : escapes_ok t = true -> no_slash t -> exists s, t = escape s.
Proof.
  induction t as [t IH] using (induction_ltof1 _ (@length ascii)). unfold ltof in IH. intros Ho Hn.
  destruct t as [|c t]; [by exists []|]. cbn [escapes_ok] in Ho. apply Forall_cons in Hn as [Hc Hn].
  destruct (Ascii.eqb_spec c "~"%char) as [->|Hc'].
  - destruct t as [|d t]; [done|]. apply Forall_cons in Hn as [Hd Hn].
    apply andb_prop in Ho as [Hd' Ho]. cbn [escapes_ok] in Ho. apply andb_prop in Ho as [_ Ho].
    destruct (IH t) as [s ->]; [simpl; lia|done|done|].
    destruct (Ascii.eqb_spec d "0"%char) as [->|?]; [exists ("~"%char :: s); by rewrite !escape_chars|].
    destruct (Ascii.eqb_spec d "1"%char) as [->|?]; [exists ("/"%char :: s); by rewrite !escape_chars|done].
  - destruct (IH t) as [s ->]; [simpl; lia|done|done|]. exists (c :: s). rewrite !escape_chars. cbn [flat_map].
    unfold esc_char at 2. by rewrite (proj2 (Ascii.eqb_neq c "~") Hc'), (proj2 (Ascii.eqb_neq c "/") Hc).
Qed.

(** ** Lemmas: the syntax *)

Definition slashed (toks : list str) : str := flat_map (fun t => "/"%char :: t) toks.

Lemma ptr_to_string_slashed p : ptr_to_string p = slashed (escape <$> p).
Proof.
  unfold ptr_to_string. enough (H : forall a, fold_left (fun a b => a ++ $"/" ++ escape b) p a = a ++ slashed (escape <$> p))
    by apply H.
  induction p as [|t p IH]; intros a; simpl; [by rewrite app_nil_r|]. rewrite IH. by rewrite <- app_assoc.
Qed.

Lemma slashed_split t toks :
  no_slash t -> Forall no_slash toks -> split_slash (t ++ slashed toks) = (t, toks).
Proof.
  intros Ht Htoks. induction Ht as [|c t Hc _ IH].
  - simpl. induction Htoks as [|t toks Ht _ IH]; [done|]. simpl.
    assert (split_slash (t ++ slashed toks) = (t, toks)) as ->; [|done].
    clear -Ht IH. induction Ht as [|c t Hc _ IHt]; [done|]. simpl. rewrite IHt.
    by destruct (Ascii.eqb_spec c "/"%char).
  - simpl. rewrite IH. by destruct (Ascii.eqb_spec c "/"%char).
Qed.

Lemma split_slash_inv s t toks :
  split_slash s = (t, toks) -> s = t ++ slashed toks /\ no_slash t /\ Forall no_slash toks.
Proof.
  revert t toks. induction s as [|c s IH]; simpl; intros t toks; [intros [= <- <-]; by repeat constructor|].
  destruct (split_slash s) as [t1 toks1]. destruct (IH _ _ eq_refl) as (-> & H1 & H2).
  destruct (Ascii.eqb_spec c "/"%char) as [->|Hc]; intros [= <- <-]; (split; [done|]); split; try done; by constructor.
Qed.

Lemma read_tokens_escaped p : read_tokens (escape <$> p) = Ok p.
Proof.
  induction p as [|t p IH]; [done|]. cbn [fmap list_fmap read_tokens]. rewrite (proj1 (escape_ok t)).
  cbn [negb]. fold (escape <$> p). rewrite IH. cbn. by rewrite unescape_escape.
Qed.

Lemma read_tokens_inv toks p :
  Forall no_slash toks -> read_tokens toks = Ok p -> toks = escape <$> p.
Proof.
  intros Hn. revert p. induction Hn as [|t toks Ht _ IH]; intros p; cbn [read_tokens]; [by intros [= <-]|].
  destruct (escapes_ok t) eqn:Eo; cbn [negb]; [|done].
  destruct (read_tokens toks) as [rest|]; cbn; [|done]. intros [= <-].
  destruct (escaped_form t Eo Ht) as [s ->]. cbn. rewrite unescape_escape. f_equal. by apply IH.
Qed.

Lemma read_tokens_error toks e : read_tokens toks = Throw e -> e = parse_error 108.
Proof.
  induction toks as [|t toks IH]; cbn [read_tokens]; [done|]. destruct (escapes_ok t); cbn [negb]; [|by intros [= <-]].
  destruct (read_tokens toks); cbn; [done|]. intros [= <-]. by apply IH.
Qed.

Lemma ptr_split_to_string p : ptr_split (ptr_to_string p) = Ok p.
Proof.
  rewrite ptr_to_string_slashed. destruct p as [|t p]; [done|]. cbn [fmap list_fmap slashed flat_map].
  fold (escape <$> p). fold (slashed (escape <$> p)). cbn [ptr_split app]. rewrite Ascii.eqb_refl. cbn [negb].
  rewrite slashed_split; [|apply escape_ok|apply Forall_fmap, Forall_true; intros; apply escape_ok].
  exact (read_tokens_escaped (t :: p)).
Qed.

Lemma ptr_split_inv s p : ptr_split s = Ok p -> ptr_to_string p = s.
Proof.
  rewrite ptr_to_string_slashed. destruct s as [|c s]; cbn [ptr_split]; [by intros [= <-]|].
  destruct (Ascii.eqb_spec c "/"%char) as [->|]; cbn [negb]; [|done].
  destruct (split_slash s) as [t toks] eqn:E. apply split_slash_inv in E as (-> & Ht & Htoks).
  intros H. apply read_tokens_inv in H; [|by constructor]. by rewrite <- H.
Qed.

(** C27: The text of a JSON pointer and its tokens determine each other: a string is accepted exactly when it is the
    text of a pointer, which is then the one returned; a string that does not begin with a slash is refused with
    [parse_error] 107, every other one with [parse_error] 108. *)
Theorem json_pointer_syntax s :
  (forall p, ptr_split s = Ok p <-> ptr_to_string p = s) /\
  (ptr_split s = Throw (parse_error 107) <-> s <> [] /\ head s <> Some "/"%char) /\
  (forall e, ptr_split s = Throw e -> e = parse_error 107 \/ e = parse_error 108).
Proof.
  split_and!.
  - intros p. split; [apply ptr_split_inv|]. intros <-. apply ptr_split_to_string.
  - destruct s as [|c s]; [by split; [|intros [? _]]|]. cbn [ptr_split head].
    destruct (Ascii.eqb_spec c "/"%char) as [->|Hc]; cbn [negb].
    + destruct (split_slash s) as [t toks]. split; [intros H%read_tokens_error; discriminate|by intros [_ ?]].
    + split; [intros _; split; congruence|done].
  - intros e. destruct s as [|c s]; [done|]. cbn [ptr_split]. destruct (Ascii.eqb c "/"%char); cbn [negb].
    + destruct (split_slash s) as [t toks]. intros H%read_tokens_error. by right.
    + intros [= <-]. by left.
Qed.

(** ** Lemmas: array indexes *)

Lemma take_digits_all s : all_digits s -> take_digits s = (s, []).
Proof.
  induction 1 as [|c s Hc _ IH]; [done|]. cbn [take_digits]. rewrite (proj2 (Z.leb_le 48 (ord c))), (proj2 (Z.leb_le (ord c) 57)) by lia.
  cbn [andb]. by rewrite IH.
Qed.

Lemma take_digits_join s d r : take_digits s = (d, r) -> s = d ++ r.
Proof.
  revert d r. induction s as [|c s IH]; intros d r; cbn [take_digits]; [by intros [= <- <-]|].
  destruct (_ && _); [|by intros [= <- <-]]. destruct (take_digits s) as [d' r']. intros [= <- <-].
  by rewrite (IH _ _ eq_refl).
Qed.

Lemma all_digits_b_spec s : all_digits_b s = true <-> all_digits s.
Proof.
  unfold all_digits_b, all_digits. rewrite forallb_forall, Forall_forall. setoid_rewrite list_elem_of_In.
  split; intros H c Hc; specialize (H c Hc); [bool_hyps; lia|]. apply andb_true_iff. by rewrite !Z.leb_le.
Qed.

(** A token with the characters [contains] asks for is an index, but for its
    size; every other one is refused. *)
Lemma array_index_digits t :
  t <> [] -> index_chars_ok t = true ->
  array_index t = (if dec_value t <? 2 ^ 64 then
                     if 2 ^ 64 - 1 <=? dec_value t then Throw (out_of_range 410) else Ok (Z.to_nat (dec_value t))
                   else Throw (out_of_range 404)).
Proof.
  intros Hne Hok. unfold array_index.
  assert (Hd : all_digits t /\ (forall c d u, t = c :: d :: u -> 49 <= ord c)).
  { destruct t as [|c [|d u]]; [done|..]; cbn [index_chars_ok] in Hok; bool_hyps.
    - split; [repeat constructor; lia|done].
    - split; [|intros ??? [= -> -> ->]; lia]. constructor; [lia|]. by apply all_digits_b_spec. }
  destruct Hd as [Hd Hf]. rewrite take_digits_all by done. unfold strtoull. destruct t as [|c [|d u]]; [done|..].
  - cbn [length Nat.ltb Nat.leb andb]. by destruct (_ <? 2 ^ 64).
  - specialize (Hf _ _ _ eq_refl). inversion Hd as [|? ? Hc]; subst.
    destruct (Ascii.eqb_spec c "0"%char) as [->|_]; [by vm_compute in Hf|].
    rewrite (proj2 (Z.leb_le 49 (ord c))), (proj2 (Z.leb_le (ord c) 57)) by lia. cbn [negb]. rewrite !andb_false_r.
    by destruct (_ <? 2 ^ 64).
Qed.

Lemma array_index_ok t i : array_index t = Ok i ->
  t <> [] /\ index_chars_ok t = true /\ str_eqb t $"-" = false /\ dec_value t < 2 ^ 64 - 1 /\ i = Z.to_nat (dec_value t).
Proof.
  intros H. assert (Hc : t <> [] /\ index_chars_ok t = true).
  { unfold array_index in H. destruct t as [|c t]; [done|]. split; [done|].
    destruct ((1 <? length (c :: t))%nat && Ascii.eqb c "0"%char); [done|].
    destruct ((1 <? length (c :: t))%nat && _) eqn:E2; [done|].
    pose proof (take_digits_digits (c :: t)) as Hd. destruct (take_digits (c :: t)) as [d r] eqn:E. simpl in Hd.
    apply take_digits_join in E. destruct d as [|c' d]; [done|]. destruct (strtoull _), r; try done.
    rewrite app_nil_r in E. rewrite E. apply all_digits_b_spec in Hd. destruct d as [|d1 d].
    - cbn [all_digits_b forallb] in Hd. by rewrite andb_true_r in Hd.
    - injection E as <- ->. cbn [length Nat.ltb Nat.leb andb] in E2. apply negb_false_iff in E2. cbn [index_chars_ok].
      cbn [all_digits_b forallb] in Hd. bool_hyps. unfold all_digits_b. cbn [forallb]. repeat (apply andb_true_iff; split); try done; by apply Z.leb_le. }
  destruct Hc as [Hne Hc]. split_and!; try done.
  - unfold str_eqb. apply bool_decide_eq_false. intros ->. by vm_compute in Hc.
  - rewrite array_index_digits in H by done. destruct (_ <? 2 ^ 64); [|done]. destruct (Z.leb_spec (2 ^ 64 - 1) (dec_value t)); [done|lia].
  - rewrite array_index_digits in H by done. destruct (_ <? 2 ^ 64); [|done]. destruct (2 ^ 64 - 1 <=? _); [done|]. by injection H.
Qed.

Lemma dec_str_index_ok z : 0 <= z < 2 ^ 64 -> index_chars_ok (dec_str z) = true /\ dec_str z <> [].
Proof.
  intros Hz. pose proof (dec_str_digits z ltac:(lia)) as Hd. pose proof (dec_str_length z ltac:(lia)) as Hl.
  destruct (decide (z = 0)) as [->|]; [split; [reflexivity|done]|].
  destruct (dec_str_head z ltac:(lia)) as (c & t & E & Hc). rewrite E in *. split; [|done].
  apply Forall_cons in Hd as [_ Hd]. destruct t as [|d t]; cbn [index_chars_ok].
  - rewrite !andb_true_iff, !Z.leb_le. lia.
  - rewrite !andb_true_iff, !Z.leb_le, all_digits_b_spec. split; [lia|done].
Qed.

(** The token the code writes for an index is read back. *)
Lemma array_index_idx i : Z.of_nat i < 2 ^ 64 - 1 -> array_index (idx_str i) = Ok i.
Proof.
  intros Hi. unfold idx_str. destruct (dec_str_index_ok (Z.of_nat i)) as [Hok Hne]; [lia|].
  rewrite array_index_digits, dec_value_str by (done || lia).
  rewrite (proj2 (Z.ltb_lt _ _)) by lia. rewrite (proj2 (Z.leb_gt _ _)) by lia. by rewrite Nat2Z.id.
Qed.

Lemma idx_str_inj i k : Z.of_nat i < 2 ^ 64 -> Z.of_nat k < 2 ^ 64 -> idx_str i = idx_str k -> i = k.
Proof. intros Hi Hk H. apply Nat2Z.inj. rewrite <- (dec_value_str (Z.of_nat i)), <- (dec_value_str (Z.of_nat k)) by lia. by f_equal. Qed.

Lemma escape_digits s : all_digits s -> escape s = s.
Proof.
  intros H. rewrite escape_chars. induction H as [|c s Hc _ IH]; [done|]. cbn [flat_map]. rewrite IH. unfold esc_char.
  destruct (Ascii.eqb_spec c "~"%char) as [->|_]; [by vm_compute in Hc; destruct Hc|].
  destruct (Ascii.eqb_spec c "/"%char) as [->|_]; [by vm_compute in Hc; destruct Hc|]. done.
Qed.

Lemma escape_idx i : Z.of_nat i < 2 ^ 64 -> escape (idx_str i) = idx_str i.
Proof. intros Hi. apply escape_digits, dec_str_digits. lia. Qed.

Lemma ptr_to_string_cons t p : ptr_to_string (t :: p) = "/"%char :: escape t ++ ptr_to_string p.
Proof. by rewrite !ptr_to_string_slashed. Qed.

Lemma ptr_to_string_inj p q : ptr_to_string p = ptr_to_string q -> p = q.
Proof. intros H. assert (E : Ok p = Ok q) by (by rewrite <- !ptr_split_to_string, H). by injection E. Qed.

Lemma array_index_not_dash t i : array_index t = Ok i -> str_eqb t $"-" = false.
Proof. intros H. apply array_index_ok in H as (_ & _ & H & _). exact H. Qed.

Lemma array_index_error t e :
  index_chars_ok t = true -> array_index t = Throw e -> e = out_of_range 404 \/ e = out_of_range 410.
Proof.
  intros Hok. destruct t as [|c t]; [intros [= <-]; by left|]. rewrite array_index_digits by done.
  destruct (_ <? 2 ^ 64); [|intros [= <-]; by left]. destruct (2 ^ 64 - 1 <=? _); [intros [= <-]; by right|done].
Qed.

(** ** Lemmas: resolution *)

Lemma json_at_idx_lookup l i v : json_at_idx (JArray l) i = Ok v <-> l !! i = Some v.
Proof. unfold json_at_idx. destruct (l !! i); naive_solver. Qed.

Lemma json_at_find m k v : json_at (JObject m) k = Ok v <-> map_find k m = Some v.
Proof. unfold json_at. destruct (map_find k m); naive_solver. Qed.

(** One step of a resolution that succeeds. *)
Lemma get_checked_object t p m v :
  get_checked (t :: p) (JObject m) = Ok v <-> exists w, map_find t m = Some w /\ get_checked p w = Ok v.
Proof.
  cbn [get_checked]. setoid_rewrite <- json_at_find. destruct (json_at _ t) as [w|]; cbn [mbind res_bind option_bind]; [|naive_solver].
  split; [by exists w|]. by intros (w' & [= <-] & ?).
Qed.

Lemma get_checked_array t p l v :
  get_checked (t :: p) (JArray l) = Ok v <-> exists i w, array_index t = Ok i /\ l !! i = Some w /\ get_checked p w = Ok v.
Proof.
  cbn [get_checked]. setoid_rewrite <- json_at_idx_lookup. split.
  - destruct (str_eqb t $"-"); [done|]. destruct (array_index t) as [i|]; [|done]. cbn [mbind res_bind option_bind].
    destruct (json_at_idx _ i) as [w|] eqn:E; [|done]. cbn [mbind res_bind option_bind]. intros H. by exists i, w.
  - intros (i & w & Hi & Hw & H). by rewrite (array_index_not_dash _ _ Hi), Hi; cbn [mbind res_bind option_bind]; rewrite Hw.
Qed.

Lemma ptr_contains_iff p j : ptr_contains p j = Ok true <-> exists v, get_checked p j = Ok v.
Proof.
  revert j. induction p as [|t p IH]; intros j; [split; [intros _; by exists j|done]|].
  destruct j as [|m|l|s|b|z|z|z|]; try (split; [done|intros [v Hv]; done]).
  - setoid_rewrite get_checked_object. cbn [ptr_contains]. destruct (map_find t m) as [w|]; [rewrite IH|]; naive_solver.
  - setoid_rewrite get_checked_array. cbn [ptr_contains]. split.
    + destruct (str_eqb t $"-"); [done|]. destruct (index_chars_ok t); [|done]. cbn [negb].
      destruct (array_index t) as [i|]; [|done]. cbn [mbind res_bind option_bind]. destruct (l !! i) as [w|] eqn:E; [|done]. intros [v Hv]%IH. eauto 10.
    + intros (v & i & w & Hi & Hw & H). destruct (array_index_ok _ _ Hi) as (_ & Hc & Hd & _). rewrite Hd, Hc, Hi. cbn [mbind res_bind option_bind].
      rewrite Hw. apply IH. by exists v.
Qed.

Lemma ptr_contains_error p j e : ptr_contains p j = Throw e -> e = out_of_range 404 \/ e = out_of_range 410.
Proof.
  revert j. induction p as [|t p IH]; intros j; [done|]. destruct j; cbn [ptr_contains]; try done.
  - destruct (map_find t m); [apply IH|done].
  - destruct (str_eqb t $"-"); [done|]. destruct (index_chars_ok t) eqn:Ec; [|done]. cbn [negb].
    destruct (array_index t) as [i|e'] eqn:Ei; cbn [mbind res_bind option_bind]; [|intros [= <-]; by eapply array_index_error].
    destruct (l !! i); [apply IH|done].
Qed.

Lemma get_unchecked_const_iff p j v : get_unchecked_const p j = Some (Ok v) <-> get_checked p j = Ok v.
Proof.
  revert j. induction p as [|t p IH]; intros j; [cbn; naive_solver|].
  destruct j as [|m|l|s|b|z|z|z|]; try (split; done).
  - rewrite get_checked_object. cbn [get_unchecked_const]. destruct (map_find t m) as [w|]; cbn [mbind res_bind option_bind]; [rewrite IH|]; naive_solver.
  - rewrite get_checked_array. cbn [get_unchecked_const]. split.
    + destruct (str_eqb t $"-"); [done|]. destruct (array_index t) as [i|]; [|done].
      destruct (l !! i) as [w|] eqn:E; cbn [mbind res_bind option_bind]; [|done]. intros H%IH. by exists i, w.
    + intros (i & w & Hi & Hw & H). rewrite (array_index_not_dash _ _ Hi), Hi, Hw. by apply IH.
Qed.

(** [contains(ptr)] answers true exactly when [at(ptr)] returns, and then the unchecked access of a constant
    value is defined and gives the same element; it never reports a malformed index ([parse_error] 106 and 109), but
    it does throw for an index that is empty ([out_of_range] 404) or too large (404 or 410). *)
Theorem pointer_contains_at p j :
  (ptr_contains p j = Ok true <-> exists v, get_checked p j = Ok v) /\
  (forall v, get_unchecked_const p j = Some (Ok v) <-> get_checked p j = Ok v) /\
  (forall e, ptr_contains p j = Throw e -> e = out_of_range 404 \/ e = out_of_range 410).
Proof. split_and!; [apply ptr_contains_iff|apply get_unchecked_const_iff|apply ptr_contains_error]. Qed.

(** [contains] on the pointer with one empty token throws. *)
Theorem contains_throws : ptr_split $"/" = Ok [[]] /\ ptr_contains [[]] (JArray []) = Throw (out_of_range 404).
Proof. by_compute. Qed.

(** ** Lemmas: assignment through a pointer *)

Lemma filled_length l idx : length (filled l idx) = Nat.max (length l) (S idx).
Proof. unfold filled. destruct (Nat.leb_spec (length l) idx); [|lia]. rewrite length_app, length_replicate. lia. Qed.

Lemma filled_lookup l idx (v : json) : (<[idx := v]> (filled l idx)) !! idx = Some v.
Proof. apply list_lookup_insert_eq. rewrite filled_length. lia. Qed.

Lemma emplace_sorted k (v : json) m : map_sorted m -> map_sorted (map_emplace k v m).
Proof. intros Hm. unfold map_emplace. destruct (map_find k m); [done|]. by apply map_assign_sorted. Qed.

Lemma default_ok m t : entries_ok m -> json_ok (default JNull (map_find t m)).
Proof. intros Hm. destruct (map_find t m) eqn:E; [|done]. by eapply entries_ok_find. Qed.

Lemma lookup_ok l (i : nat) : Forall json_ok l -> json_ok (default JNull (l !! i)).
Proof. intros Hl. destruct (l !! i) eqn:E; [|done]. by eapply Forall_lookup_1. Qed.

Lemma get_unchecked_get p v j j' :
  json_ok j -> Forall (fun t => str_eqb t $"-" = false) p ->
  get_unchecked p (fun _ => v) j = (Ok (), j') -> get_checked p j' = Ok v.
Proof.
  revert j j'. induction p as [|t p IH]; intros j j' Hj Hp; [cbn; by intros [= <-]|].
  apply Forall_cons in Hp as [Ht Hp]. cbn [get_unchecked]. rewrite Ht, orb_false_r.
  set (j0 := match j with JNull => if all_digits_b t then JArray [] else JObject [] | _ => j end).
  assert (Hj0 : json_ok j0) by (destruct j; try done; cbn; destruct (all_digits_b t); [exact I|apply json_ok_entries, entries_ok_nil]).
  destruct j0 as [|m|l|s|b|z|z|z|]; try done.
  - apply json_ok_entries in Hj0. pose proof (entries_ok_emplace t JNull m Hj0 I) as Hm.
    destruct (get_unchecked p _ _) as [r x] eqn:E. intros [= -> <-]. apply get_checked_object. exists x.
    split; [apply map_find_assign_eq, Hm|]. eapply IH; [|done|exact E]. by apply default_ok.
  - destruct (array_index t) as [idx|] eqn:Ei; [|done]. apply json_ok_array in Hj0.
    destruct (get_unchecked p _ _) as [r x] eqn:E. intros [= -> <-]. apply get_checked_array. exists idx, x.
    split_and!; [done|apply filled_lookup|]. eapply IH; [|done|exact E]. by apply lookup_ok, filled_ok.
Qed.

(** A value stored through [operator[](ptr)] is found by [at(ptr)], whatever containers the store had to make on
    its way, for every pointer without the token "-". *)
Theorem pointer_set_get p v j j' :
  json_ok j -> Forall (fun t => str_eqb t $"-" = false) p ->
  get_unchecked p (fun _ => v) j = (Ok (), j') -> get_checked p j' = Ok v /\ ptr_contains p j' = Ok true.
Proof.
  intros Hj Hp H. pose proof (get_unchecked_get _ _ _ _ Hj Hp H) as Hg. split; [done|]. apply ptr_contains_iff. by exists v.
Qed.

Lemma pointer_set_get_witness :
  exists j', get_unchecked [$"a"; $"1"; $"b"] (fun _ => JBool true) JNull = (Ok (), j') /\
    get_checked [$"a"; $"1"; $"b"] j' = Ok (JBool true) /\ ptr_contains [$"a"; $"1"; $"b"] j' = Ok true.
Proof.
  eexists. split; [vm_compute; reflexivity|].
  eapply (pointer_set_get _ _ JNull); [exact I|repeat constructor|vm_compute; reflexivity].
Defined.
