(* ===== verification/JsonFlatten.v ===== *)
(** * Flattening and unflattening JSON values

    [flatten] writes one entry per leaf, under the text of its path; the keys
    of the result are in the order of these texts, and [unflatten] stores the
    leaves in that order.  The proof follows the value that grows: [built P j r]
    says that [r] is what the leaves of [j] with paths in [P] have made. *)

From S2P Require Import Prelude StdMap JsonNumber JsonValue JsonIntegers JsonAccess JsonPointer.

(** ** Leaves *)

Section LeavesEach.
Variable lv : json -> list (json_pointer * json).

Fixpoint item_leaves (i : nat) (l : list json) : list (json_pointer * json) :=
  match l with
  | [] => []
  | x :: l' => map (fun e => (idx_str i :: e.1, e.2)) (lv x) ++ item_leaves (S i) l'
  end.

Fixpoint entry_leaves (m : list (str * json)) : list (json_pointer * json) :=
  match m with
  | [] => []
  | (k, x) :: m' => map (fun e => (k :: e.1, e.2)) (lv x) ++ entry_leaves m'
  end.
End LeavesEach.

(** The paths to the values that are not containers, with these values. *)
Fixpoint leaves (j : json) : list (json_pointer * json) :=
  match j with
  | JArray [] | JObject [] => [([], JNull)]
  | JArray l => item_leaves leaves 0 l
  | JObject m => entry_leaves leaves m
  | _ => [([], j)]
  end.

(** What can be restored: no empty container (it is flattened to null), no
    object with the key 0 (it is taken for an index), indexes that fit. *)
Fixpoint flattenable (j : json) : bool :=
  match j with
  | JArray l => negb (json_empty j) && (zlen l <? 2 ^ 64 - 1) && forallb flattenable l
  | JObject m => negb (json_empty j) && forallb (fun e => negb (str_eqb e.1 $"0") && flattenable e.2) m
  | JDiscarded => false
  | _ => true
  end.

Lemma elem_of_item_leaves i0 l p v :
  (p, v) ∈ item_leaves leaves i0 l <-> exists i x p', p = idx_str (i0 + i) :: p' /\ l !! i = Some x /\ (p', v) ∈ leaves x.
Proof.
  revert i0. induction l as [|x l IH]; intros i0; cbn [item_leaves].
  - split; [by intros ?%not_elem_of_nil|]. by intros (i & x & p' & _ & H & _).
  - rewrite elem_of_app, IH. setoid_rewrite list_elem_of_fmap. split.
    + intros [([p' v'] & [= -> ->] & H)|(i & y & p' & -> & Hi & H)].
      * exists 0%nat, x, p'. by rewrite Nat.add_0_r.
      * exists (S i), y, p'. by rewrite Nat.add_succ_r.
    + intros ([|i] & y & p' & -> & Hi & H).
      * left. rewrite Nat.add_0_r. injection Hi as <-. by exists (p', v).
      * right. exists i, y, p'. by rewrite Nat.add_succ_r.
Qed.

Lemma elem_of_entry_leaves m p v :
  (p, v) ∈ entry_leaves leaves m <-> exists k x p', p = k :: p' /\ (k, x) ∈ m /\ (p', v) ∈ leaves x.
Proof.
  induction m as [|[k x] m IH]; cbn [entry_leaves].
  - split; [by intros ?%not_elem_of_nil|]. intros (? & ? & ? & _ & Hin & _); by apply not_elem_of_nil in Hin.
  - rewrite elem_of_app, IH. setoid_rewrite list_elem_of_fmap. setoid_rewrite elem_of_cons. split.
    + intros [([p' v'] & [= -> ->] & H)|(i & y & p' & -> & Hi & H)]; [exists k, x, p'|exists i, y, p']; auto.
    + intros (i & y & p' & -> & [E|Hi] & Hl); [left; simplify_eq; by exists (p', v)|right; by exists i, y, p'].
Qed.

Lemma leaves_array l p v : l <> [] ->
  (p, v) ∈ leaves (JArray l) <-> exists i x p', p = idx_str i :: p' /\ l !! i = Some x /\ (p', v) ∈ leaves x.
Proof. intros Hl. destruct l; [done|]. cbn [leaves]. by rewrite elem_of_item_leaves. Qed.

Lemma leaves_object m p v : m <> [] ->
  (p, v) ∈ leaves (JObject m) <-> exists k x p', p = k :: p' /\ (k, x) ∈ m /\ (p', v) ∈ leaves x.
Proof. intros Hm. destruct m; [done|]. cbn [leaves]. by rewrite elem_of_entry_leaves. Qed.

Lemma leaves_primitive j p v : is_primitive j = true -> (p, v) ∈ leaves j <-> p = [] /\ v = j.
Proof. destruct j; try done; intros _; cbn [leaves]; rewrite list_elem_of_singleton; naive_solver. Qed.

Lemma flattenable_array l : flattenable (JArray l) = true ->
  l <> [] /\ zlen l < 2 ^ 64 - 1 /\ forall i x, l !! i = Some x -> flattenable x = true.
Proof.
  cbn [flattenable]. intros H. bool_hyps. split; [by destruct l|]. split; [done|].
  intros i x Hx. match goal with H : forallb _ _ = true |- _ => rewrite forallb_forall in H; apply H end.
  by apply list_elem_of_In, (list_elem_of_lookup_2 _ i).
Qed.

Lemma flattenable_object m : flattenable (JObject m) = true ->
  m <> [] /\ forall k x, (k, x) ∈ m -> str_eqb k $"0" = false /\ flattenable x = true.
Proof.
  cbn [flattenable]. intros H. bool_hyps. split; [by destruct m|].
  intros k x Hx. match goal with H : forallb _ _ = true |- _ => rewrite forallb_forall in H; specialize (H (k, x)) end.
  simpl in *. apply list_elem_of_In in Hx. by match goal with H : _ -> _ && _ = true |- _ => apply H, andb_prop in Hx as [?%negb_true_iff ?] end.
Qed.

Lemma leaves_exist j : flattenable j = true -> exists p v, (p, v) ∈ leaves j.
Proof.
  induction j as [|m IH|l IH|s|b|z|z|z|] using json_induct; intros Hf;
    try (eexists _, _; cbn [leaves]; by apply list_elem_of_singleton).
  - apply flattenable_object in Hf as [Hm Hf]. destruct m as [|[k x] m]; [done|]. apply Forall_cons in IH as [IH _].
    destruct IH as (p & v & H); [by apply (Hf k x); left|]. exists (k :: p), v. apply leaves_object; [done|].
    exists k, x, p. split_and!; [done|by left|done].
  - apply flattenable_array in Hf as (Hl & _ & Hf). destruct l as [|x l]; [done|]. apply Forall_cons in IH as [IH _].
    destruct IH as (p & v & H); [by apply (Hf 0%nat x)|]. exists (idx_str 0 :: p), v. apply leaves_array; [done|].
    by exists 0%nat, x, p.
Qed.

(** ** The value some of the leaves make *)

Abbreviation under P t := (fun p => P (t :: p)).

Definition none (P : json_pointer -> Prop) (j : json) : Prop := forall p v, (p, v) ∈ leaves j -> ~ P p.

Inductive built : (json_pointer -> Prop) -> json -> json -> Prop :=
  | built_none P j : none P j -> built P j JNull
  | built_leaf P j : is_primitive j = true -> built P j j
  | built_array P l l' :
      (length l' <= length l)%nat ->
      (forall i x, l !! i = Some x -> l' !! i = None -> none (under P (idx_str i)) x) ->
      (forall i x y, l !! i = Some x -> l' !! i = Some y -> built (under P (idx_str i)) x y) ->
      built P (JArray l) (JArray l')
  | built_object P m m' :
      map_sorted m' -> (forall k, map_find k m = None -> map_find k m' = None) ->
      (forall k x, map_find k m = Some x -> map_find k m' = None -> none (under P k) x) ->
      (forall k x y, map_find k m = Some x -> map_find k m' = Some y -> built (under P k) x y) ->
      built P (JObject m) (JObject m').

Lemma none_ext P Q j : (forall p, Q p -> P p) -> none P j -> none Q j.
Proof. intros H Hn p v Hp HQ. by eapply Hn, H. Qed.

Lemma built_ext P Q j r : (forall p, Q p <-> P p) -> built P j r -> built Q j r.
Proof.
  intros HPQ H. revert Q HPQ. induction H as [P j Hn|P j Hp|P l l' Hl Hn Hb IH|P m m' Hs H0 Hn Hb IH]; intros Q HPQ.
  - apply built_none. eapply none_ext; [|exact Hn]. naive_solver.
  - by apply built_leaf.
  - apply built_array; [done|..].
    + intros i x Hx Hy. eapply none_ext; [|by eapply Hn]. naive_solver.
    + intros i x y Hx Hy. eapply IH; [done..|]. naive_solver.
  - apply built_object; [done..| |].
    + intros k x Hx Hy. eapply none_ext; [|by eapply Hn]. naive_solver.
    + intros k x y Hx Hy. eapply IH; [done..|]. naive_solver.
Qed.

(** All the leaves make the value. *)
Lemma built_all P j r :
  json_ok j -> flattenable j = true -> (forall p v, (p, v) ∈ leaves j -> P p) -> built P j r -> r = j.
Proof.
  intros Hok Hf HP H. induction H as [P j Hn|P j Hp|P l l' Hl Hn Hb IH|P m m' Hs H0 Hn Hb IH].
  - destruct (leaves_exist j Hf) as (p & v & Hp). destruct (Hn p v Hp). by eapply HP.
  - done.
  - apply flattenable_array in Hf as (Hne & _ & Hf). apply json_ok_array in Hok. f_equal. apply list_eq. intros i.
    destruct (l !! i) as [x|] eqn:Hx; [|apply lookup_ge_None in Hx; apply lookup_ge_None; lia].
    assert (Hx' : forall p v, (p, v) ∈ leaves x -> P (idx_str i :: p)).
    { intros p v Hp. eapply HP. apply leaves_array; [done|]. by exists i, x, p. }
    destruct (l' !! i) as [y|] eqn:Hy.
    + f_equal. eapply IH; [done..| |by eapply Hf|done]. by eapply Forall_lookup_1.
    + destruct (leaves_exist x) as (p & v & Hp); [by eapply Hf|]. destruct (Hn _ _ Hx Hy p v Hp). by eapply Hx'.
  - apply flattenable_object in Hf as (Hne & Hf). apply json_ok_entries in Hok as Hm. f_equal. apply to_gmap_inj; [done|apply Hm|].
    apply map_eq. intros k. rewrite <- !map_find_gmap by (done || apply Hm).
    destruct (map_find k m) as [x|] eqn:Hx; [|by apply H0]. apply map_find_elem in Hx as Hin; [|apply Hm].
    assert (Hx' : forall p v, (p, v) ∈ leaves x -> P (k :: p)).
    { intros p v Hp. eapply HP. apply leaves_object; [done|]. by exists k, x, p. }
    destruct (map_find k m') as [y|] eqn:Hy.
    + f_equal. eapply IH; [done..| |by eapply Hf|done]. by eapply entries_ok_find.
    + destruct (leaves_exist x) as (p & v & Hp); [by eapply Hf|]. destruct (Hn _ _ Hx Hy p v Hp). by eapply Hx'.
Qed.

(** ** The order of the leaves *)

(** Along the path, an array nothing was stored in is entered at index 0. *)
Fixpoint enters (P : json_pointer -> Prop) (p : json_pointer) (j : json) : Prop :=
  match p with
  | [] => True
  | t :: p' =>
      match j with
      | JArray l => exists i x, t = idx_str i /\ l !! i = Some x /\ (none P j -> i = 0%nat) /\ enters (under P t) p' x
      | JObject m => exists x, (t, x) ∈ m /\ enters (under P t) p' x
      | _ => False
      end
  end.

Lemma str_ltb_prefix a s t : str_ltb (a ++ s) (a ++ t) = str_ltb s t.
Proof. induction a as [|c a IH]; [done|]. cbn [app str_ltb]. by rewrite Z.ltb_irrefl. Qed.

Lemma ptr_ltb_cons t p q : str_ltb (ptr_to_string (t :: p)) (ptr_to_string (t :: q)) = str_ltb (ptr_to_string p) (ptr_to_string q).
Proof. rewrite !ptr_to_string_cons. exact (str_ltb_prefix ("/"%char :: escape t) _ _). Qed.

Lemma idx_first i p q : (0 < i)%nat -> Z.of_nat i < 2 ^ 64 ->
  str_ltb (ptr_to_string (idx_str 0 :: p)) (ptr_to_string (idx_str i :: q)) = true.
Proof.
  intros Hi Hb. rewrite !ptr_to_string_cons, !escape_idx by lia. unfold idx_str at 2.
  destruct (dec_str_head (Z.of_nat i)) as (c & t & -> & Hc); [lia|]. cbn [app str_ltb]. rewrite Z.ltb_irrefl.
  change (idx_str 0) with ["0"%char]. cbn [app str_ltb]. change (ord "0"%char) with 48.
  by rewrite (proj2 (Z.ltb_lt 48 (ord c))) by lia.
Qed.

Lemma sorted_enters P p v j :
  flattenable j = true -> (p, v) ∈ leaves j ->
  (forall q w, (q, w) ∈ leaves j -> str_ltb (ptr_to_string q) (ptr_to_string p) = true -> P q) -> enters P p j.
Proof.
  revert P j. induction p as [|t p IH]; intros P j Hf Hp HP; [done|].
  destruct j as [|m|l|s|b|z|z|z|]; try (apply leaves_primitive in Hp as [Hp _]; [discriminate Hp|reflexivity]); [..|discriminate Hf].
  - apply flattenable_object in Hf as (Hne & Hf). pose proof Hp as (k & x & p' & [= <- <-] & Hx & Hp')%leaves_object; [|done].
    exists x. split; [done|]. eapply IH; [by eapply Hf|done|]. intros q w Hq Hlt. eapply HP; [|by rewrite ptr_ltb_cons].
    apply leaves_object; [done|]. by exists t, x, q.
  - pose proof Hf as (Hne & Hl & Hf')%flattenable_array. pose proof Hp as (i & x & p' & [= -> <-] & Hx & Hp')%leaves_array; [|done].
    assert (Z.of_nat i < 2 ^ 64) by (apply lookup_lt_Some in Hx; unfold zlen in Hl; lia).
    exists i, x. split_and!; [done..| |].
    + intros Hn. destruct (decide (i = 0%nat)) as [|Hi]; [done|]. destruct l as [|x0 l]; [done|].
      destruct (leaves_exist x0) as (p0 & v0 & H0); [by apply (Hf' 0%nat)|].
      assert (H0' : (idx_str 0 :: p0, v0) ∈ leaves (JArray (x0 :: l))) by (apply leaves_array; [done|]; by exists 0%nat, x0, p0).
      destruct (Hn _ _ H0'). eapply HP; [exact H0'|]. apply idx_first; lia.
    + eapply IH; [by eapply Hf'|done|]. intros q w Hq Hlt. eapply HP; [|by rewrite ptr_ltb_cons].
      apply leaves_array; [done|]. by exists i, x, q.
Qed.

(** ** One leaf is stored *)

Lemma filled_cases l i k y : filled l i !! k = Some y -> l !! k = Some y \/ (l !! k = None /\ y = JNull).
Proof.
  unfold filled. destruct (length l <=? i)%nat; [|by left]. intros [H|[H [H' _]%lookup_replicate]]%lookup_app_Some; [by left|].
  right. split; [by apply lookup_ge_None|done].
Qed.

Lemma filled_none l i k : filled l i !! k = None -> l !! k = None.
Proof. rewrite !lookup_ge_None, filled_length. lia. Qed.

Section StoreLeaf.
Variables (P : json_pointer -> Prop) (t : str) (p : json_pointer).

(** The paths after the leaf was stored, seen from an element. *)
Lemma stored_here q : (P (t :: q) \/ t :: q = t :: p) <-> (P (t :: q) \/ q = p).
Proof. split; intros [H|H]; auto; [by injection H; auto|subst; auto]. Qed.

Lemma stored_there u q : u <> t -> (P (u :: q) \/ u :: q = t :: p) <-> P (u :: q).
Proof. intros Hu. split; [|by left]. intros [H|H]; [done|]. by injection H. Qed.

Lemma store_item l l' i x v :
  Z.of_nat (length l) < 2 ^ 64 -> t = idx_str i -> l !! i = Some x -> (length l' <= length l)%nat ->
  (forall k x, l !! k = Some x -> l' !! k = None -> none (under P (idx_str k)) x) ->
  (forall k x y, l !! k = Some x -> l' !! k = Some y -> built (under P (idx_str k)) x y) ->
  (forall y, built (under P t) x y -> exists r, get_and_create p (fun _ => v) y = Ok r /\ built (fun q => P (t :: q) \/ q = p) x r) ->
  exists r, get_and_create p (fun _ => v) (default JNull (filled l' i !! i)) = Ok r /\
    built (fun q => P q \/ q = t :: p) (JArray l) (JArray (<[i := r]> (filled l' i))).
Proof.
  intros Hlen Ht Hx Hl Hn Hb IH. pose proof (lookup_lt_Some _ _ _ Hx) as Hi.
  assert (Hfb : forall k x y, l !! k = Some x -> filled l' i !! k = Some y -> built (under P (idx_str k)) x y).
  { intros k x' y Hx' [Hy|[Hy ->]]%filled_cases; [by eapply Hb|]. by apply built_none, Hn. }
  destruct (filled l' i !! i) as [y|] eqn:Ey; [|apply lookup_ge_None in Ey; rewrite filled_length in Ey; lia].
  destruct (IH y) as (r & Hr & Hbr); [rewrite Ht; by eapply Hfb|]. exists r. split; [done|].
  assert (Hne : forall k, k <> i -> (k < length l)%nat -> idx_str k <> t)
    by (intros k Hk Hkl H; apply Hk, idx_str_inj; [lia..|by rewrite H]).
  apply built_array; [rewrite length_insert, filled_length; lia|..].
  - intros k x' Hx' Hk. rewrite lookup_ge_None, length_insert in Hk. apply lookup_ge_None in Hk.
    assert (k <> i) by (intros ->; rewrite Ey in Hk; discriminate).
    eapply none_ext; [|eapply Hn; [exact Hx'|by eapply filled_none]].
    intros q. apply stored_there, Hne; [done|by eapply lookup_lt_Some].
  - intros k x' z Hx' Hz. destruct (decide (k = i)) as [->|Hk].
    + rewrite list_lookup_insert_eq in Hz by (rewrite filled_length; lia). rewrite Hx in Hx'.
      injection Hx' as <-. injection Hz as <-. rewrite <- Ht. eapply built_ext; [|exact Hbr]. intros q. apply stored_here.
    + rewrite list_lookup_insert_ne in Hz by done. eapply built_ext; [|by eapply Hfb].
      intros q. apply stored_there, Hne; [done|by eapply lookup_lt_Some].
Qed.

Lemma store_entry m m' x v :
  map_find t m = Some x -> map_sorted m' -> (forall k, map_find k m = None -> map_find k m' = None) ->
  (forall k x, map_find k m = Some x -> map_find k m' = None -> none (under P k) x) ->
  (forall k x y, map_find k m = Some x -> map_find k m' = Some y -> built (under P k) x y) ->
  (forall y, built (under P t) x y -> exists r, get_and_create p (fun _ => v) y = Ok r /\ built (fun q => P (t :: q) \/ q = p) x r) ->
  exists r, get_and_create p (fun _ => v) (default JNull (map_find t (map_emplace t JNull m'))) = Ok r /\
    built (fun q => P q \/ q = t :: p) (JObject m) (JObject (map_assign t r (map_emplace t JNull m'))).
Proof.
  intros Hx Hs H0 Hn Hb IH.
  assert (He : forall k, map_find k (map_emplace t JNull m') =
    if decide (k = t) then Some (default JNull (map_find t m')) else map_find k m').
  { intros k. unfold map_emplace. destruct (map_find t m') eqn:E; destruct (decide (k = t)) as [->|Hk]; try done.
    - by rewrite map_find_assign_eq.
    - by rewrite map_find_assign_ne. }
  pose proof (emplace_sorted t JNull m' Hs) as Hse. rewrite He, decide_True by done. cbn [default from_option id].
  destruct (IH (default JNull (map_find t m'))) as (r & Hr & Hbr).
  { destruct (map_find t m') eqn:E; [by eapply Hb|]. by apply built_none, Hn. }
  exists r. split; [done|].
  assert (Hf : forall k, map_find k (map_assign t r (map_emplace t JNull m')) = if decide (k = t) then Some r else map_find k m').
  { intros k. destruct (decide (k = t)) as [->|Hk]; [by apply map_find_assign_eq|].
    rewrite map_find_assign_ne, He by done. by rewrite decide_False. }
  apply built_object; [by apply map_assign_sorted|..].
  - intros k Hk. rewrite Hf. destruct (decide (k = t)) as [->|]; [congruence|by apply H0].
  - intros k x' Hx'. rewrite Hf. destruct (decide (k = t)) as [->|Hne]; [done|]. intros Hk.
    eapply none_ext; [|by eapply Hn]. intros q. by apply stored_there.
  - intros k x' z Hx'. rewrite Hf. destruct (decide (k = t)) as [->|Hne].
    + intros [= <-]. rewrite Hx in Hx'. injection Hx' as <-. eapply built_ext; [|exact Hbr]. intros q. apply stored_here.
    + intros Hz. eapply built_ext; [|by eapply Hb]. intros q. by apply stored_there.
Qed.
End StoreLeaf.

Lemma get_and_create_built p P j r v :
  json_ok j -> flattenable j = true -> (p, v) ∈ leaves j -> enters P p j -> built P j r ->
  exists r', get_and_create p (fun _ => v) r = Ok r' /\ built (fun q => P q \/ q = p) j r'.
Proof.
  revert P j r. induction p as [|t p IH]; intros P j r Hok Hf Hp He Hb.
  - assert (is_primitive j = true /\ v = j) as [Hprim ->].
    { destruct j; try (apply leaves_primitive in Hp as [_ ->]; [done|reflexivity]); [..|discriminate Hf].
      - apply flattenable_object in Hf as (Hne & _). apply leaves_object in Hp as (? & ? & ? & [=] & _). done.
      - apply flattenable_array in Hf as (Hne & _). apply leaves_array in Hp as (? & ? & ? & [=] & _). done. }
    exists j. split; [done|]. by apply built_leaf.
  - destruct j as [|m|l|s|b|z|z|z|]; try done.
    + destruct He as (x & Hx & He). apply json_ok_entries in Hok. pose proof Hok as [Hs _].
      pose proof Hf as (Hne & Hf')%flattenable_object. destruct (Hf' _ _ Hx) as [Ht Hfx].
      apply map_find_elem in Hx; [|done].
      assert (Hpx : (p, v) ∈ leaves x).
      { apply leaves_object in Hp as (k & y & p' & [= <- <-] & Hy & Hp'); [|done]. apply map_find_elem in Hy; [|done]. congruence. }
      assert (Hstore : forall m', map_sorted m' -> (forall k, map_find k m = None -> map_find k m' = None) ->
        (forall k x, map_find k m = Some x -> map_find k m' = None -> none (under P k) x) ->
        (forall k x y, map_find k m = Some x -> map_find k m' = Some y -> built (under P k) x y) ->
        exists r', (v ← get_and_create p (fun _ => v) (default JNull (map_find t (map_emplace t JNull m')));
          Ok (JObject (map_assign t v (map_emplace t JNull m')))) = Ok r' /\ built (fun q => P q \/ q = t :: p) (JObject m) r').
      { intros m' H1 H2 H3 H4. destruct (store_entry P t p m m' x v Hx H1 H2 H3 H4) as (r' & -> & Hr').
        - intros y Hy. apply IH; try done. by eapply entries_ok_find.
        - by eexists. }
      inversion Hb as [? ? Hn| |? ? ? ? ? ?|? ? m' ? ? ? ?]; subst; [|done|].
      * cbn [get_and_create]. rewrite Ht. apply Hstore; try done; [constructor|]. intros k y Hy _ q w Hq.
        eapply Hn. apply leaves_object; [done|]. exists k, y, q. split_and!; [done| |done]. by apply map_find_elem.
      * cbn [get_and_create]. by apply Hstore.
    + destruct He as (i & x & -> & Hx & H0 & He). apply json_ok_array in Hok.
      pose proof Hf as (Hne & Hlen & Hf')%flattenable_array. unfold zlen in Hlen. pose proof (lookup_lt_Some _ _ _ Hx) as Hi.
      assert (Hpx : (p, v) ∈ leaves x).
      { apply leaves_array in Hp as (k & y & p' & [= Hk <-] & Hy & Hp'); [|done]. pose proof (lookup_lt_Some _ _ _ Hy).
        apply idx_str_inj in Hk; [|lia..]. congruence. }
      assert (Hstore : forall l', (length l' <= length l)%nat ->
        (forall k x, l !! k = Some x -> l' !! k = None -> none (under P (idx_str k)) x) ->
        (forall k x y, l !! k = Some x -> l' !! k = Some y -> built (under P (idx_str k)) x y) ->
        exists r', (v ← get_and_create p (fun _ => v) (default JNull (filled l' i !! i));
          Ok (JArray (<[i := v]> (filled l' i)))) = Ok r' /\ built (fun q => P q \/ q = idx_str i :: p) (JArray l) r').
      { intros l' H1 H2 H3. destruct (store_item P (idx_str i) p l l' i x v ltac:(lia) eq_refl Hx H1 H2 H3) as (r' & -> & Hr').
        - intros y Hy. apply IH; [by eapply Forall_lookup_1|by eapply Hf'|done..].
        - by eexists. }
      inversion Hb as [? ? Hn| |? ? l' ? ? ?|? ? ? ? ? ? ?]; subst; [|done|].
      * rewrite (H0 Hn) in *. cbn [get_and_create]. change (str_eqb (idx_str 0) $"0") with true. cbv iota.
        apply (Hstore []); [simpl; lia| |done]. intros k y Hy _ q w Hq. eapply Hn. apply leaves_array; [done|]. by exists k, y, q.
      * cbn [get_and_create]. rewrite array_index_idx by lia. cbn [mbind res_bind]. by apply Hstore.
Qed.

(** ** The entries of the flattened value *)

Definition put (rs : str) (m : list (str * json)) (e : json_pointer * json) : list (str * json) :=
  map_assign (rs ++ ptr_to_string e.1) e.2 m.

Lemma put_under rs t m L :
  fold_left (put rs) (map (fun e => (t :: e.1, e.2)) L) m = fold_left (put (rs ++ "/"%char :: escape t)) L m.
Proof.
  revert m. induction L as [|e L IH]; intros m; [done|]. simpl. rewrite IH. f_equal. unfold put. simpl.
  by rewrite ptr_to_string_cons, <- app_assoc.
Qed.

Lemma flatten_leaves rs j m : flattenable j = true -> flatten rs j m = fold_left (put rs) (leaves j) m.
Proof.
  revert rs m. induction j as [|es IH|l IH|s|b|z|z|z|] using json_induct; intros rs m Hf;
    try (cbn; unfold put; cbn; by rewrite app_nil_r).
  - apply flattenable_object in Hf as (Hne & Hf).
    assert (H : flatten_entries flatten rs es m = fold_left (put rs) (entry_leaves leaves es) m); [|by destruct es].
    clear Hne. revert m. induction IH as [|[k x] es Hx _ IHes]; intros m; [done|]. cbn [flatten_entries entry_leaves].
    rewrite fold_left_app, put_under, <- Hx by (by apply (Hf k x); left). apply IHes. intros. apply Hf. by right.
  - apply flattenable_array in Hf as (Hne & Hl & Hf). unfold zlen in Hl.
    assert (H : forall i, Z.of_nat i + Z.of_nat (length l) < 2 ^ 64 ->
      flatten_items flatten rs i l m = fold_left (put rs) (item_leaves leaves i l) m); [|specialize (H 0%nat ltac:(lia)); by destruct l].
    clear Hne Hl. revert m. induction IH as [|x l Hx _ IHl]; intros m i Hi; [done|]. cbn [flatten_items item_leaves].
    simpl length in Hi. rewrite fold_left_app, put_under, <- Hx by (by apply (Hf 0%nat x)). rewrite escape_idx by lia.
    apply IHl; [|lia]. intros k y Hy. by apply (Hf (S k)).
Qed.

Lemma put_sorted rs L m : map_sorted m -> map_sorted (fold_left (put rs) L m).
Proof. revert m. induction L as [|e L IH]; intros m Hm; [done|]. simpl. by apply IH, map_assign_sorted. Qed.

Lemma put_entries L m s v :
  map_sorted m -> map_find s (fold_left (put []) L m) = Some v ->
  map_find s m = Some v \/ exists p, (p, v) ∈ L /\ s = ptr_to_string p.
Proof.
  revert m. induction L as [|[p w] L IH]; intros m Hm; [by left|]. simpl. intros [H|(q & Hq & ->)]%IH;
    [|right; exists q; split; [by right|done]|by apply map_assign_sorted].
  unfold put in H. simpl in H. destruct (decide (ptr_to_string p = s)) as [<-|Hne].
  - rewrite map_find_assign_eq in H by done. injection H as <-. right. exists p. split; [by left|done].
  - rewrite map_find_assign_ne in H by done. by left.
Qed.

Lemma put_keys L m p v :
  map_sorted m -> (p, v) ∈ L \/ is_Some (map_find (ptr_to_string p) m) -> is_Some (map_find (ptr_to_string p) (fold_left (put []) L m)).
Proof.
  revert m. induction L as [|[q w] L IH]; intros m Hm H; [by destruct H as [?%not_elem_of_nil|H]|]. simpl.
  apply IH; [by apply map_assign_sorted|]. unfold put. simpl. destruct (decide (ptr_to_string q = ptr_to_string p)) as [E|Hne].
  - right. rewrite E. by rewrite map_find_assign_eq.
  - destruct H as [[H|H]%elem_of_cons|H]; [congruence|by left|right]. by rewrite map_find_assign_ne.
Qed.

Lemma leaves_value j p v w : json_ok j -> flattenable j = true -> (p, v) ∈ leaves j -> (p, w) ∈ leaves j -> v = w.
Proof.
  revert j. induction p as [|t p IH]; intros j Hok Hf Hv Hw;
    (destruct j as [|m|l|s|b|z|z|z|]; try (apply leaves_primitive in Hv as [_ ->]; [|done]; by apply leaves_primitive in Hw as [_ ->])).
  - apply flattenable_object in Hf as (Hne & _). apply leaves_object in Hv as (? & ? & ? & [=] & _). done.
  - apply flattenable_array in Hf as (Hne & _). apply leaves_array in Hv as (? & ? & ? & [=] & _). done.
  - pose proof Hf as (Hne & Hf')%flattenable_object. apply json_ok_entries in Hok. pose proof Hok as [Hs _].
    apply leaves_object in Hv as (k & x & p' & [= <- <-] & Hx & Hv); [|done].
    apply leaves_object in Hw as (k' & y & p' & [= <- <-] & Hy & Hw); [|done].
    destruct (Hf' _ _ Hx) as [_ Hfx]. apply map_find_elem in Hx, Hy; [|done..]. assert (y = x) as -> by congruence.
    eapply IH; try done. by eapply entries_ok_find.
  - pose proof Hf as (Hne & Hl & Hf')%flattenable_array. unfold zlen in Hl. apply json_ok_array in Hok.
    apply leaves_array in Hv as (i & x & p' & [= -> <-] & Hx & Hv); [|done].
    apply leaves_array in Hw as (k & y & p' & [= Hk <-] & Hy & Hw); [|done].
    pose proof (lookup_lt_Some _ _ _ Hx). pose proof (lookup_lt_Some _ _ _ Hy). apply idx_str_inj in Hk; [|lia..]. subst k.
    assert (y = x) as -> by congruence. eapply IH; [by eapply Forall_lookup_1|by eapply Hf'|done..].
Qed.

Lemma leaves_values_primitive j p v : flattenable j = true -> (p, v) ∈ leaves j -> is_primitive v = true.
Proof.
  revert j. induction p as [|t p IH]; intros j Hf Hp;
    (destruct j as [|m|l|s|b|z|z|z|]; try (by apply leaves_primitive in Hp as [_ ->])).
  - apply flattenable_object in Hf as (Hne & _). apply leaves_object in Hp as (? & ? & ? & [=] & _). done.
  - apply flattenable_array in Hf as (Hne & _). apply leaves_array in Hp as (? & ? & ? & [=] & _). done.
  - apply flattenable_object in Hf as (Hne & Hf). apply leaves_object in Hp as (k & x & p' & [= <- <-] & Hx & Hp); [|done].
    eapply IH; [by eapply Hf|done].
  - apply flattenable_array in Hf as (Hne & _ & Hf). apply leaves_array in Hp as (i & x & p' & [= -> <-] & Hx & Hp); [|done].
    eapply IH; [by eapply Hf|done].
Qed.

Lemma elem_of_keys k (m : list (str * json)) : map_sorted m -> k ∈ m.*1 <-> is_Some (map_find k m).
Proof.
  intros Hs. rewrite list_elem_of_fmap. split.
  - intros ([k' v] & -> & H%map_find_elem); [|done]. by eexists.
  - intros [v H%map_find_elem]; [|done]. by exists (k, v).
Qed.

Lemma sorted_before m1 s (v : json) m2 k :
  map_sorted (m1 ++ (s, v) :: m2) -> k ∈ (m1 ++ (s, v) :: m2).*1 -> str_ltb k s = true -> k ∈ m1.*1.
Proof.
  induction m1 as [|[k' v'] m1 IH]; simpl; intros Hs Hk Hlt.
  - apply map_sorted_cons in Hs as [_ Hs]. apply elem_of_cons in Hk as [->|Hk]; [by rewrite str_ltb_irrefl in Hlt|].
    apply list_elem_of_fmap in Hk as ([k' v'] & -> & Hin). rewrite Forall_forall in Hs. specialize (Hs _ Hin). simpl in *.
    rewrite (str_ltb_asym _ _ Hlt) in Hs. done.
  - apply map_sorted_cons in Hs as [Hs _]. apply elem_of_cons in Hk as [->|Hk]; [by left|]. right. by apply IH.
Qed.

Lemma unflatten_rest j m1 m2 r :
  json_ok j -> flattenable j = true -> fold_left (put []) (leaves j) [] = m1 ++ m2 ->
  built (fun p => ptr_to_string p ∈ m1.*1) j r -> unflatten_each m2 r = Ok j.
Proof.
  intros Hok Hf. pose proof (put_sorted [] (leaves j) [] ltac:(constructor)) as Hs.
  assert (Hkey : forall q w, (q, w) ∈ leaves j -> ptr_to_string q ∈ (fold_left (put []) (leaves j) []).*1)
    by (intros q w Hq; apply elem_of_keys; [done|]; eapply put_keys; [constructor|by left]).
  revert m1 r. induction m2 as [|[s v] m2 IH]; intros m1 r E Hb; rewrite E in Hs, Hkey.
  - rewrite app_nil_r in *. cbn. f_equal. eapply built_all; [exact Hok|exact Hf|exact Hkey|exact Hb].
  - assert (exists p, (p, v) ∈ leaves j /\ s = ptr_to_string p) as (p & Hp & ->).
    { destruct (put_entries (leaves j) [] s v) as [H|H]; [constructor| |done|done]. rewrite E. apply map_find_elem; [done|].
      apply elem_of_app. right. by left. }
    destruct (get_and_create_built p (fun p => ptr_to_string p ∈ m1.*1) j r v Hok Hf Hp) as (r' & Hr' & Hb'); [|exact Hb|].
    { eapply sorted_enters; [done..|]. intros q w Hq Hlt. eapply sorted_before; [exact Hs|by eapply Hkey|done]. }
    cbn [unflatten_each]. rewrite (leaves_values_primitive _ _ _ Hf Hp), ptr_split_to_string. cbn [negb mbind res_bind].
    rewrite Hr'. cbn [mbind res_bind]. apply (IH (m1 ++ [(ptr_to_string p, v)])); [by rewrite E, <- app_assoc|].
    eapply built_ext; [|exact Hb']. intros q. rewrite fmap_app, elem_of_app. cbn [fmap list_fmap fst].
    rewrite list_elem_of_singleton. split; (intros [H|H]; [by left|right]); [by apply ptr_to_string_inj|by subst].
Qed.

(** C21: A flattened JSON value is restored by [unflatten], although its leaves come back in the order of the texts
    of their paths ("/10" before "/2"), if it has no empty array or object and no key "0". *)
Theorem flatten_unflatten j : json_ok j -> flattenable j = true -> json_unflatten (json_flatten j) = Ok j.
Proof.
  intros Hok Hf. unfold json_flatten, json_unflatten. rewrite flatten_leaves by done.
  eapply (unflatten_rest j []); [done..|]. apply built_none. intros p v _. apply not_elem_of_nil.
Qed.

Definition doc2 : json :=
  JArray (replicate 11 (JBool true) ++ [JObject [($"a/b", JNull); ($"x", JArray [JString $"~"])]]).

Lemma flatten_unflatten_witness : json_unflatten (json_flatten doc2) = Ok doc2.
Proof. apply flatten_unflatten; [|reflexivity]. repeat constructor. Defined.

(** Both conditions are needed: an empty array comes back as null, an object with the key 0 as an array. *)
Theorem unflatten_faults :
  json_unflatten (json_flatten (JArray [])) = Ok JNull /\
  json_unflatten (json_flatten (JObject [($"0", JNull)])) = Ok (JArray [JNull]).
Proof. by_compute. Qed.
