(* ===== verification/JsonPatch.v ===== *)
(** * JSON Patch and JSON Merge Patch (basic_json)

    [patch_inplace], [patch], [diff] and [merge_patch] of
    include/nlohmann/json.hpp.  [patch_inplace] changes the document one
    operation after the other, so it returns what it has made of it also when
    it throws. *)

From S2P Require Import Prelude StdMap JsonNumber JsonValue JsonSerializer JsonIntegers.
From S2P Require Import JsonCompare JsonAccess JsonPointer.

(** ** Patches *)

Inductive patch_operations := op_add | op_remove | op_replace | op_move | op_copy | op_test | op_invalid.

(** [get_op] *)
Definition get_op (op : str) : patch_operations :=
  if str_eqb op $"add" then op_add
  else if str_eqb op $"remove" then op_remove
  else if str_eqb op $"replace" then op_replace
  else if str_eqb op $"move" then op_move
  else if str_eqb op $"copy" then op_copy
  else if str_eqb op $"test" then op_test
  else op_invalid.

(** What [operation_add] does to the parent. *)
Definition add_child (last_path : str) (val parent : json) : res json :=
  match parent with
  | JNull | JObject _ => json_set parent last_path val
  | JArray l =>
      if str_eqb last_path $"-" then json_push_back parent val
      else
        idx ← array_index last_path;
        if (length l <? idx)%nat then Throw (out_of_range 401) else json_insert parent idx [val]
  | _ => Throw (out_of_range 411)
  end.

(** [operation_add] *)
Definition operation_add (ptr : json_pointer) (val result : json) : res json :=
  match ptr with
  | [] => Ok val
  | _ =>
      top_pointer ← ptr_top ptr;
      _ ← (if bool_decide (top_pointer <> ptr) then get_checked top_pointer result else Ok result);
      last_path ← ptr_back ptr;
      ptr ← ptr_pop_back ptr;
      at_update ptr (add_child last_path val) result
  end.

(** What [operation_remove] does to the parent; a value that is no container
    is left as it is. *)
Definition remove_child (last_path : str) (parent : json) : res json :=
  match parent with
  | JObject m =>
      match map_find last_path m with
      | Some _ => Ok (JObject (map_erase last_path m))
      | None => Throw (out_of_range 403)
      end
  | JArray _ => idx ← array_index last_path; json_erase_idx parent idx
  | _ => Ok parent
  end.

(** [operation_remove] *)
Definition operation_remove (ptr : json_pointer) (result : json) : res json :=
  last_path ← ptr_back ptr;
  ptr ← ptr_pop_back ptr;
  at_update ptr (remove_child last_path) result.

(** [get_value] *)
Definition get_value (val : list (str * json)) (member : str) (string_type : bool) : res json :=
  match map_find member val with
  | None => Throw (parse_error 105)
  | Some v =>
      if string_type && negb (match v with JString _ => true | _ => false end) then Throw (parse_error 105) else Ok v
  end.

Definition member_string (val : list (str * json)) (member : str) : res str :=
  v ← get_value val member true; get_str v.

(** The check of a test operation: the left operand of [==] is evaluated
    first, and only an [out_of_range] exception is caught. *)
Definition test_succeeds (ptr : json_pointer) (val : list (str * json)) (result : json) : res bool :=
  match (x ← get_checked ptr result; v ← get_value val $"value" false; Ok (json_eq x v)) with
  | Throw (out_of_range _) => Ok false
  | r => r
  end.

(** One element of the patch: the outcome, and the document after it. *)
Definition patch_step (val : json) (result : json) : res () * json :=
  match val with
  | JObject es =>
      match (op ← member_string es $"op"; path ← member_string es $"path"; ptr ← ptr_split path; Ok (op, ptr)) with
      | Throw e => (Throw e, result)
      | Ok (op, ptr) =>
          match get_op op with
          | op_add => kept result id (v ← get_value es $"value" false; operation_add ptr v result)
          | op_remove => kept result id (operation_remove ptr result)
          | op_replace => kept result id (v ← get_value es $"value" false; at_update ptr (fun _ => Ok v) result)
          | op_move =>
              match (from ← member_string es $"from"; from_ptr ← ptr_split from; v ← get_checked from_ptr result;
                     result ← operation_remove from_ptr result; Ok (v, result)) with
              | Throw e => (Throw e, result)
              | Ok (v, result) => kept result id (operation_add ptr v result)
              end
          | op_copy =>
              kept result id (from ← member_string es $"from"; from_ptr ← ptr_split from;
                              v ← get_checked from_ptr result; operation_add ptr v result)
          | op_test =>
              match test_succeeds ptr es result with
              | Throw e => (Throw e, result)
              | Ok true => (Ok (), result)
              | Ok false =>
                  (match json_dump val with Thrown e => Throw e | _ => Throw (other_error 501) end, result)
              end
          | op_invalid => (Throw (parse_error 105), result)
          end
      end
  | _ => (Throw (parse_error 104), result)
  end.

Fixpoint patch_each (vals : list json) (result : json) : res () * json :=
  match vals with
  | [] => (Ok (), result)
  | val :: vals' =>
      match patch_step val result with
      | (Ok _, result') => patch_each vals' result'
      | (Throw e, result') => (Throw e, result')
      end
  end.

Definition patch_inplace (json_patch this : json) : res () * json :=
  match json_patch with
  | JArray vals => patch_each vals this
  | _ => (Throw (parse_error 104), this)
  end.

(** [patch(json_patch)]: on a copy. *)
Definition json_patch (this p : json) : res json :=
  match patch_inplace p this with
  | (Ok _, result) => Ok result
  | (Throw e, _) => Throw e
  end.

(** ** Differences *)

Definition same_type (a b : json) : bool :=
  match a, b with
  | JNull, JNull | JObject _, JObject _ | JArray _, JArray _ | JString _, JString _ | JBool _, JBool _
  | JInteger _, JInteger _ | JUnsigned _, JUnsigned _ | JFloat _, JFloat _ | JDiscarded, JDiscarded => true
  | _, _ => false
  end.

Definition op_value (op path : str) (v : json) : json :=
  JObject [($"op", JString op); ($"path", JString path); ($"value", v)].

Definition op_only (op path : str) : json := JObject [($"op", JString op); ($"path", JString path)].

Section DiffEach.
Variable df : json -> json -> str -> list json.

(** The common elements of two arrays. *)
Fixpoint diff_items (path : str) (i : nat) (source target : list json) : list json :=
  match source, target with
  | x :: source', y :: target' =>
      df x y (path ++ $"/" ++ idx_str i) ++ diff_items path (S i) source' target'
  | _, _ => []
  end.

(** The entries of the source object. *)
Fixpoint diff_entries (path : str) (source target : list (str * json)) : list json :=
  match source with
  | [] => []
  | (k, x) :: source' =>
      let path_key := path ++ $"/" ++ escape k in
      match map_find k target with
      | Some y => df x y path_key
      | None => [op_only $"remove" path_key]
      end ++ diff_entries path source' target
  end.
End DiffEach.

(** [diff(source, target, path)]: the elements of the patch. *)
Fixpoint json_diff (source target : json) (path : str) {struct source} : list json :=
  if json_eq source target then []
  else if negb (same_type source target) then [op_value $"replace" path target]
  else
    match source, target with
    | JArray l, JArray r =>
        let i := Nat.min (length l) (length r) in
        diff_items json_diff path 0 l r ++
        rev (map (fun k => op_only $"remove" (path ++ $"/" ++ idx_str k)) (seq i (length l - i))) ++
        map (op_value $"add" (path ++ $"/-")) (drop i r)
    | JObject m, JObject n =>
        diff_entries json_diff path m n ++
        flat_map (fun e => match map_find e.1 m with
                           | Some _ => []
                           | None => [op_value $"add" (path ++ $"/" ++ escape e.1) e.2]
                           end) n
    | _, _ => [op_value $"replace" path target]
    end.

(** ** Merge patches *)

Section MergeEach.
Variable mp : json -> json -> json.

Fixpoint merge_each (es m : list (str * json)) : list (str * json) :=
  match es with
  | [] => m
  | (k, v) :: es' =>
      merge_each es'
        match v with
        | JNull => map_erase k m
        | _ => let m := map_emplace k JNull m in
               map_assign k (mp (default JNull (map_find k m)) v) m
        end
  end.
End MergeEach.

(** [merge_patch(apply_patch)] *)
Fixpoint merge_patch (this apply_patch : json) {struct apply_patch} : json :=
  match apply_patch with
  | JObject es => JObject (merge_each merge_patch es (match this with JObject m => m | _ => [] end))
  | _ => apply_patch
  end.

Definition src1 : json := JObject [($"a", JArray [JInteger 1; JInteger 2; JInteger 3]); ($"b", JString $"x"); ($"d~", JNull)].
Definition dst1 : json := JObject [($"a", JArray [JInteger 1; JBool true]); ($"c/", JArray []); ($"d~", JInteger 0)].

Example diff_ex : json_diff src1 dst1 [] =
  [op_value $"replace" $"/a/1" (JBool true); op_only $"remove" $"/a/2"; op_only $"remove" $"/b";
   op_value $"replace" $"/d~0" (JInteger 0); op_value $"add" $"/c~1" (JArray [])].
Proof. by_compute. Qed.
Example patch_diff_ex : json_patch src1 (JArray (json_diff src1 dst1 [])) = Ok dst1.
Proof. by_compute. Qed.
Example move_ex : json_patch src1 (JArray [JObject [($"from", JString $"/a/0"); ($"op", JString $"move"); ($"path", JString $"/b")]]) =
  Ok (JObject [($"a", JArray [JInteger 2; JInteger 3]); ($"b", JInteger 1); ($"d~", JNull)]).
Proof. by_compute. Qed.
Example test_ex : json_patch src1 (JArray [op_value $"test" $"/b" (JString $"y")]) = Throw (other_error 501).
Proof. by_compute. Qed.
Example merge_ex : merge_patch src1 (JObject [($"a", JNull); ($"b", JObject [($"c", JNull); ($"e", JBool true)])]) =
  JObject [($"b", JObject [($"e", JBool true)]); ($"d~", JNull)].
Proof. by_compute. Qed.
