(* ===== verification/JsonPatchSpec.v ===== *)
(** * Theorems on JSON Patch and JSON Merge Patch

    A patch made by [diff] is a list of abstract operations on paths; an
    operation below an element of a container changes only that element, so
    the operations for the elements can be run one element after the other. *)

From S2P Require Import Prelude StdMap JsonNumber JsonValue JsonSerializer JsonIntegers.
From S2P Require Import JsonCompare JsonAccess JsonPointer JsonPatch.

(** ** Lemmas: maps and lists *)

Lemma sorted_ext (m n : list (str * json)) :
  map_sorted m -> map_sorted n -> (forall k, map_find k m = map_find k n) -> m = n.
Proof.
  intros Hm Hn H. apply to_gmap_inj; [done..|]. apply map_eq. intros k. rewrite <- !map_find_gmap by done. apply H.
Qed.

Lemma map_find_assign k k' (v : json) m :
  map_sorted m -> map_find k' (map_assign k v m) = if decide (k = k') then Some v else map_find k' m.
Proof. intros Hm. destruct (decide (k = k')) as [<-|]; [by apply map_find_assign_eq|by apply map_find_assign_ne]. Qed.

Lemma vec_eq_lookup l r :
  length l = length r -> (forall (k : nat) x y, l !! k = Some x -> r !! k = Some y -> json_eq x y = true) -> vec_eq json_eq l r = true.
Proof.
  revert r. induction l as [|x l IH]; intros [|y r] Hl H; try done. cbn [vec_eq].
  rewrite (H 0%nat x y eq_refl eq_refl). cbn [andb]. apply IH; [by injection Hl|]. intros k. exact (H (S k)).
Qed.

Lemma map_eq_by_find m n :
  map_sorted m -> map_sorted n ->
  (forall k, match map_find k m, map_find k n with
             | Some x, Some y => json_eq x y = true
             | None, None => True
             | _, _ => False
             end) -> map_eq_by json_eq m n = true.
Proof.
  revert n. induction m as [|[k x] m IH]; intros [|[k' y] n] Hm Hn H; try done.
  - specialize (H k'). rewrite map_find_cons, decide_True in H by done. done.
  - specialize (H k). rewrite map_find_cons, decide_True in H by done. done.
  - pose proof Hm as [Hm' Hlm]%map_sorted_cons. pose proof Hn as [Hn' Hln]%map_sorted_cons.
    assert (k = k') as <-.
    { destruct (decide (k = k')) as [|Hne]; [done|]. exfalso.
      pose proof (H k) as Hk. rewrite !map_find_cons, decide_True, decide_False in Hk by done.
      pose proof (H k') as Hk'. rewrite !map_find_cons, decide_False, decide_True in Hk' by done.
      destruct (map_find k n) as [y'|] eqn:E; [|done]. destruct (map_find k' m) as [x'|] eqn:E'; [|done].
      apply map_find_elem in E, E'; [|done..]. rewrite Forall_forall in Hlm, Hln.
      specialize (Hlm _ E'). specialize (Hln _ E). simpl in *. by rewrite (str_ltb_asym _ _ Hln) in Hlm. }
    cbn [map_eq_by]. unfold str_eqb. rewrite bool_decide_eq_true_2 by done. cbn [andb].
    pose proof (H k) as Hk. rewrite !map_find_cons, !decide_True in Hk by done. rewrite Hk. apply IH; [done..|].
    intros k1. specialize (H k1). rewrite !map_find_cons in H by done. destruct (decide (k1 = k)) as [->|]; [|done].
    by rewrite !map_find_lt.
Qed.

(** ** Abstract operations *)

Inductive aop :=
  | AAdd (p : json_pointer) (v : json)
  | ARemove (p : json_pointer)
  | AReplace (p : json_pointer) (v : json).

Definition apply_aop (o : aop) (j : json) : res json :=
  match o with
  | AAdd p v => operation_add p v j
  | ARemove p => operation_remove p j
  | AReplace p v => at_update p (fun _ => Ok v) j
  end.

Fixpoint apply_aops (os : list aop) (j : json) : res json :=
  match os with
  | [] => Ok j
  | o :: os' => j ← apply_aop o j; apply_aops os' j
  end.

(** The element of a patch. *)
Definition encode (o : aop) : json :=
  match o with
  | AAdd p v => op_value $"add" (ptr_to_string p) v
  | ARemove p => op_only $"remove" (ptr_to_string p)
  | AReplace p v => op_value $"replace" (ptr_to_string p) v
  end.

(** The operation for an element, seen from its container. *)
Definition below (t : str) (o : aop) : aop :=
  match o with
  | AAdd p v => AAdd (t :: p) v
  | ARemove p => ARemove (t :: p)
  | AReplace p v => AReplace (t :: p) v
  end.

(** Additions and removals are inside the document. *)
Definition proper (o : aop) : Prop :=
  match o with AAdd p _ | ARemove p => p <> [] | AReplace _ _ => True end.

Lemma op_value_fields op s v (es := [($"op", JString op); ($"path", JString s); ($"value", v)]) :
  member_string es $"op" = Ok op /\ member_string es $"path" = Ok s /\ get_value es $"value" false = Ok v.
Proof. split_and!; reflexivity. Qed.

Lemma op_only_fields op s (es := [($"op", JString op); ($"path", JString s)]) :
  member_string es $"op" = Ok op /\ member_string es $"path" = Ok s.
Proof. split; reflexivity. Qed.

Lemma patch_step_encode o j : patch_step (encode o) j = kept j id (apply_aop o j).
Proof.
  destruct o as [p v|p|p v]; unfold encode, op_value, op_only, patch_step.
  - destruct (op_value_fields $"add" (ptr_to_string p) v) as (-> & -> & ->). cbn [mbind res_bind].
    rewrite ptr_split_to_string. reflexivity.
  - destruct (op_only_fields $"remove" (ptr_to_string p)) as (-> & ->). cbn [mbind res_bind].
    rewrite ptr_split_to_string. reflexivity.
  - destruct (op_value_fields $"replace" (ptr_to_string p) v) as (-> & -> & ->). cbn [mbind res_bind].
    rewrite ptr_split_to_string. reflexivity.
Qed.

Lemma patch_encode os j r : apply_aops os j = Ok r -> json_patch j (JArray (encode <$> os)) = Ok r.
Proof.
  intros H. unfold json_patch. cbn [patch_inplace].
  assert (E : patch_each (encode <$> os) j = (Ok (), r)); [|by rewrite E].
  revert j H. induction os as [|o os IH]; intros j; cbn [apply_aops fmap list_fmap patch_each]; [by intros [= <-]|].
  rewrite patch_step_encode. destruct (apply_aop o j); [|done]. cbn. apply IH.
Qed.

Lemma apply_aops_app os os' j : apply_aops (os ++ os') j = (j' ← apply_aops os j; apply_aops os' j').
Proof.
  revert j. induction os as [|o os IH]; intros j; [done|]. cbn [app apply_aops]. destruct (apply_aop o j); [apply IH|done].
Qed.

(** ** Lemmas: operations below an element *)

Lemma at_update_object t p f m x y :
  map_find t m = Some x -> at_update p f x = Ok y -> at_update (t :: p) f (JObject m) = Ok (JObject (map_assign t y m)).
Proof. intros Hx Hy. cbn [at_update]. rewrite (proj2 (json_at_find m t x) Hx). cbn [mbind res_bind]. by rewrite Hy. Qed.

Lemma at_update_array i p f l x y :
  Z.of_nat i < 2 ^ 64 - 1 -> l !! i = Some x -> at_update p f x = Ok y ->
  at_update (idx_str i :: p) f (JArray l) = Ok (JArray (<[i := y]> l)).
Proof.
  intros Hi Hx Hy. cbn [at_update]. rewrite (array_index_not_dash _ _ (array_index_idx i Hi)), array_index_idx by done.
  cbn [mbind res_bind]. rewrite (proj2 (json_at_idx_lookup l i x) Hx). cbn [mbind res_bind]. by rewrite Hy.
Qed.

Lemma ptr_ends (p : json_pointer) : p <> [] -> exists q t, p = q ++ [t] /\ ptr_back p = Ok t /\ ptr_pop_back p = Ok q.
Proof.
  intros Hp. destruct (exists_last Hp) as (q & t & ->). exists q, t. split; [done|]. unfold ptr_back, ptr_pop_back.
  rewrite last_snoc. split; [done|]. destruct (q ++ [t]) as [|a b] eqn:E; [by destruct q|]. rewrite <- E, length_app. cbn [length].
  rewrite Nat.add_1_r. cbn [pred]. by rewrite take_app_length.
Qed.

Lemma ptr_ends_cons t (p q : json_pointer) u :
  p = q ++ [u] -> ptr_back (t :: p) = Ok u /\ ptr_pop_back (t :: p) = Ok (t :: q).
Proof.
  intros ->. destruct (ptr_ends (t :: q ++ [u])) as (q' & u' & E & -> & ->); [done|].
  change (t :: q ++ [u]) with ((t :: q) ++ [u]) in E. by apply app_inj_tail in E as [-> ->].
Qed.

(** An operation on an element that succeeds does so inside the container
    [j], where [put y] is the container with the new element. *)
Lemma apply_below t o j x y put :
  proper o -> get_checked [t] j = Ok x ->
  (forall p f, at_update p f x = Ok y -> at_update (t :: p) f j = Ok (put y)) ->
  apply_aop o x = Ok y -> apply_aop (below t o) j = Ok (put y).
Proof.
  intros Hp Hx Hat. destruct o as [p v|p|p v]; cbn [proper below apply_aop] in *; [..|by apply Hat].
  - destruct (ptr_ends p Hp) as (q & u & Ep & Eb & Eo). destruct (ptr_ends_cons t p q u Ep) as [Eb' Eo'].
    unfold operation_add. rewrite Eb, Eo, Eb', Eo'. destruct p as [|p0 p]; [done|]. cbn [ptr_top mbind res_bind].
    rewrite (bool_decide_eq_true_2 ([t] <> t :: p0 :: p)) by (intros E; discriminate E). rewrite Hx. cbn [mbind res_bind].
    destruct (if bool_decide _ then _ else _); cbn [mbind res_bind]; [apply Hat|done].
  - destruct (ptr_ends p Hp) as (q & u & Ep & Eb & Eo). destruct (ptr_ends_cons t p q u Ep) as [Eb' Eo'].
    unfold operation_remove. rewrite Eb, Eo, Eb', Eo'. cbn [mbind res_bind]. apply Hat.
Qed.

Lemma apply_below_object t os m x y :
  map_sorted m -> Forall proper os -> map_find t m = Some x -> apply_aops os x = Ok y ->
  apply_aops (below t <$> os) (JObject m) = Ok (JObject (map_assign t y m)).
Proof.
  intros Hm Hos. revert m x Hm. induction Hos as [|o os Ho _ IH]; intros m x Hm Hx; cbn [apply_aops fmap list_fmap].
  - intros [= <-]. by rewrite map_assign_same.
  - destruct (apply_aop o x) as [z|] eqn:Eo; [|done]. cbn [mbind res_bind]. intros Hy.
    rewrite (apply_below t o (JObject m) x z (fun y => JObject (map_assign t y m))); [|done| | |done].
    + cbn [mbind res_bind]. erewrite IH; [| |by apply map_find_assign_eq|exact Hy]; [|by apply map_assign_sorted].
      by rewrite map_assign_twice.
    + apply get_checked_object. by exists x.
    + intros p f. by apply at_update_object.
Qed.

Lemma apply_below_array i os l x y :
  Z.of_nat i < 2 ^ 64 - 1 -> Forall proper os -> l !! i = Some x -> apply_aops os x = Ok y ->
  apply_aops (below (idx_str i) <$> os) (JArray l) = Ok (JArray (<[i := y]> l)).
Proof.
  intros Hi Hos. revert l x. induction Hos as [|o os Ho _ IH]; intros l x Hx; cbn [apply_aops fmap list_fmap].
  - intros [= <-]. by rewrite list_insert_id.
  - destruct (apply_aop o x) as [z|] eqn:Eo; [|done]. cbn [mbind res_bind]. intros Hy.
    rewrite (apply_below (idx_str i) o (JArray l) x z (fun y => JArray (<[i := y]> l))); [|done| | |done].
    + cbn [mbind res_bind]. erewrite IH; [|by apply list_lookup_insert_eq, (lookup_lt_Some _ _ _ Hx)|exact Hy].
      by rewrite list_insert_insert_eq.
    + apply get_checked_array. exists i, x. by rewrite array_index_idx.
    + intros p f. by apply at_update_array.
Qed.

(** ** The operations of a difference *)

Section DiffOps.
Variable df : json -> json -> list aop.

Fixpoint item_ops (i : nat) (source target : list json) : list aop :=
  match source, target with
  | x :: source', y :: target' => (below (idx_str i) <$> df x y) ++ item_ops (S i) source' target'
  | _, _ => []
  end.

Fixpoint entry_ops (source target : list (str * json)) : list aop :=
  match source with
  | [] => []
  | (k, x) :: source' =>
      match map_find k target with
      | Some y => below k <$> df x y
      | None => [ARemove [k]]
      end ++ entry_ops source' target
  end.
End DiffOps.

Definition removals (i n : nat) : list aop := rev (map (fun k => ARemove [idx_str k]) (seq i n)).

Definition additions (m : list (str * json)) (n : list (str * json)) : list aop :=
  flat_map (fun e => match map_find e.1 m with Some _ => [] | None => [AAdd [e.1] e.2] end) n.

Fixpoint diff_ops (source target : json) {struct source} : list aop :=
  if json_eq source target then []
  else if negb (same_type source target) then [AReplace [] target]
  else
    match source, target with
    | JArray l, JArray r =>
        let i := Nat.min (length l) (length r) in
        item_ops diff_ops 0 l r ++ removals i (length l - i) ++ map (AAdd [$"-"]) (drop i r)
    | JObject m, JObject n => entry_ops diff_ops m n ++ additions m n
    | _, _ => [AReplace [] target]
    end.

(** Arrays whose indexes the code can write and read. *)
Fixpoint indexable (j : json) : bool :=
  match j with
  | JArray l => (zlen l <? 2 ^ 64 - 1) && forallb indexable l
  | JObject m => forallb (fun e => indexable e.2) m
  | _ => true
  end.

Lemma forallb_Forall {A} (f : A -> bool) l : forallb f l = true -> Forall (fun x => f x = true) l.
Proof. rewrite forallb_forall, Forall_forall. setoid_rewrite list_elem_of_In. done. Qed.

Lemma indexable_array l : indexable (JArray l) = true -> zlen l < 2 ^ 64 - 1 /\ Forall (fun x => indexable x = true) l.
Proof. cbn [indexable]. intros [H1%Z.ltb_lt H2]%andb_prop. split; [done|by apply forallb_Forall]. Qed.

Lemma indexable_object m : indexable (JObject m) = true -> Forall (fun e => indexable e.2 = true) m.
Proof. apply forallb_Forall. Qed.

Lemma comparable_array l : comparable (JArray l) = true -> Forall (fun x => comparable x = true) l.
Proof. apply forallb_Forall. Qed.

Lemma comparable_object m : comparable (JObject m) = true -> Forall (fun e => comparable e.2 = true) m.
Proof. apply (forallb_Forall (fun e => comparable e.2)). Qed.

Lemma below_proper t os : Forall proper (below t <$> os).
Proof. apply Forall_fmap, Forall_true. by intros []. Qed.

Lemma diff_ops_proper a b : Forall proper (diff_ops a b).
Proof.
  destruct a; cbn [diff_ops]; destruct (json_eq _ b); try (by constructor); destruct b; cbn [same_type negb];
    try (by repeat constructor).
  - apply Forall_app. split.
    + induction m as [|[k x] m IH]; cbn [entry_ops]; [constructor|]. apply Forall_app. split; [|done].
      destruct (map_find k m0); [apply below_proper|by repeat constructor].
    + unfold additions. apply Forall_flat_map, Forall_true. intros e. destruct (map_find e.1 m); by repeat constructor.
  - rewrite !Forall_app. split_and!.
    + generalize 0%nat. revert l0. induction l as [|x l IH]; intros [|y l0] i; cbn [item_ops]; try constructor.
      apply Forall_app. split; [apply below_proper|apply IH].
    + unfold removals. apply Forall_rev, Forall_fmap, Forall_true. done.
    + apply Forall_fmap, Forall_true. done.
Qed.

(** ** The text of the operations *)

(** The operation with its path behind [q]. *)
Definition behind (q : json_pointer) (o : aop) : aop :=
  match o with
  | AAdd p v => AAdd (q ++ p) v
  | ARemove p => ARemove (q ++ p)
  | AReplace p v => AReplace (q ++ p) v
  end.

Lemma behind_below q t (os : list aop) : behind q <$> (below t <$> os) = behind (q ++ [t]) <$> os.
Proof. rewrite <- list_fmap_compose. apply list_fmap_ext. intros _ [p v|p|p v] _; simpl; by rewrite <- app_assoc. Qed.

Lemma ptr_to_string_snoc q t : ptr_to_string (q ++ [t]) = ptr_to_string q ++ $"/" ++ escape t.
Proof. unfold ptr_to_string. by rewrite fold_left_app. Qed.

Lemma fmap_rev {A B} (f : A -> B) l : f <$> rev l = rev (f <$> l).
Proof. induction l as [|x l IH]; [done|]. simpl. by rewrite fmap_app, IH. Qed.

Lemma json_diff_ops a b q :
  indexable a = true -> json_diff a b (ptr_to_string q) = encode <$> (behind q <$> diff_ops a b).
Proof.
  assert (Hrep : forall q v, [op_value $"replace" (ptr_to_string q) v] = encode <$> (behind q <$> [AReplace [] v]))
    by (intros q' v; simpl; by rewrite app_nil_r).
  revert b q. induction a as [|m IH|l IH|s|x|z|z|z|] using json_induct; intros b q Hi;
    cbn [json_diff diff_ops]; destruct (json_eq _ b); try done; destruct b as [|n|r|t|y|w|w|w|]; cbn [same_type negb]; try apply Hrep.
  - apply indexable_object in Hi. rewrite !fmap_app. f_equal.
    + induction IH as [|[k x] m Hx _ IHm]; [done|]. apply Forall_cons in Hi as [Hi Him].
      cbn [diff_entries entry_ops]. rewrite !fmap_app, IHm by done. f_equal. rewrite <- ptr_to_string_snoc.
      destruct (map_find k n); [|done]. by rewrite Hx, behind_below.
    + unfold additions. clear. induction n as [|[k y] n IH]; [done|]. cbn [flat_map]. rewrite !fmap_app, IH. f_equal.
      cbn [fst snd]. destruct (map_find k m); [done|]. simpl. by rewrite ptr_to_string_snoc.
  - apply indexable_array in Hi as [Hlen Hi]. unfold zlen in Hlen. rewrite !fmap_app. f_equal; [|f_equal].
    + assert (H : forall i, Z.of_nat i + Z.of_nat (length l) < 2 ^ 64 -> forall r,
        diff_items json_diff (ptr_to_string q) i l r = encode <$> (behind q <$> item_ops diff_ops i l r)); [|apply H; lia].
      clear Hlen. induction IH as [|x l Hx _ IHl]; intros i Hlen r'; [by destruct r'|]. destruct r' as [|y r']; [done|].
      apply Forall_cons in Hi as [Hi Hil]. simpl length in Hlen. cbn [diff_items item_ops]. rewrite !fmap_app, IHl by (done || lia).
      f_equal. rewrite <- (escape_idx i) at 1 by lia. rewrite <- ptr_to_string_snoc. by rewrite Hx, behind_below.
    + unfold removals. rewrite !fmap_rev. f_equal. rewrite <- !list_fmap_compose. apply list_fmap_ext.
      intros k i Hk. apply lookup_seq in Hk as [-> Hk]. simpl. rewrite ptr_to_string_snoc, escape_idx by lia. done.
    + rewrite <- !list_fmap_compose. apply list_fmap_ext. intros k i _. simpl. by rewrite ptr_to_string_snoc.
Qed.

(** ** The operations lead to the target *)

(** What is shown of a value by induction. *)
Definition reaches (a : json) : Prop :=
  forall b, json_ok a -> json_ok b -> indexable a = true -> comparable b = true ->
  exists r, apply_aops (diff_ops a b) a = Ok r /\ json_eq r b = true.

Lemma item_ops_run pre l r :
  Forall reaches l -> Forall json_ok l -> Forall json_ok r -> Forall (fun x => indexable x = true) l ->
  Forall (fun x => comparable x = true) r -> Z.of_nat (length pre + length l) < 2 ^ 64 - 1 ->
  exists l1, apply_aops (item_ops diff_ops (length pre) l r) (JArray (pre ++ l)) = Ok (JArray (pre ++ l1)) /\
    length l1 = length l /\ forall (k : nat) x y, l1 !! k = Some x -> r !! k = Some y -> json_eq x y = true.
Proof.
  intros Hre. revert pre r. induction Hre as [|x l Hx _ IH]; intros pre r Hl Hr Hi Hc Hlen; [by exists []|].
  destruct r as [|y r]; [by exists (x :: l)|].
  apply Forall_cons in Hl as [Hlx Hl], Hr as [Hry Hr], Hi as [Hix Hi], Hc as [Hcy Hc].
  destruct (Hx y Hlx Hry Hix Hcy) as (x1 & Hx1 & He1). simpl length in Hlen.
  destruct (IH (pre ++ [x1]) r Hl Hr Hi Hc) as (l1 & H1 & Hlen1 & Hk1); [rewrite length_app; simpl; lia|].
  exists (x1 :: l1). cbn [item_ops]. rewrite apply_aops_app.
  rewrite (apply_below_array (length pre) (diff_ops x y) (pre ++ x :: l) x x1);
    [|lia|apply diff_ops_proper|by apply list_lookup_middle|done].
  cbn [mbind res_bind]. rewrite insert_app_r_alt, Nat.sub_diag by done. cbn.
  rewrite length_app, Nat.add_1_r, <- !app_assoc in H1. cbn in H1. rewrite H1. split_and!; [done|simpl; lia|].
  intros [|k]; simpl; [by intros ? ? [= <-] [= <-]|apply Hk1].
Qed.

Lemma removals_run l0 l1 :
  Z.of_nat (length l0 + length l1) < 2 ^ 64 - 1 ->
  apply_aops (removals (length l0) (length l1)) (JArray (l0 ++ l1)) = Ok (JArray l0).
Proof.
  induction l1 as [|z l1 IH] using rev_ind; intros Hlen; [by rewrite app_nil_r|].
  rewrite length_app, Nat.add_1_r in *. unfold removals. rewrite seq_S, map_app, rev_app_distr. cbn [map rev app apply_aops].
  assert (E : apply_aop (ARemove [idx_str (length l0 + length l1)]) (JArray (l0 ++ l1 ++ [z])) = Ok (JArray (l0 ++ l1))).
  { cbn [apply_aop]. unfold operation_remove. cbn [ptr_back ptr_pop_back last length pred take at_update mbind res_bind remove_child].
    rewrite array_index_idx by lia. cbn [mbind res_bind json_erase_idx]. rewrite app_assoc, !length_app. cbn [length].
    destruct (Nat.leb_spec (length l0 + length l1 + 1) (length l0 + length l1)); [lia|].
    rewrite <- length_app, take_app_length, drop_app_ge by lia. rewrite Nat.sub_succ_l, Nat.sub_diag by lia. cbn. by rewrite app_nil_r. }
  rewrite E. cbn [mbind res_bind]. apply IH. lia.
Qed.

Lemma appends_run l vs : apply_aops (map (AAdd [$"-"]) vs) (JArray l) = Ok (JArray (l ++ vs)).
Proof.
  revert l. induction vs as [|v vs IH]; intros l; [by rewrite app_nil_r|]. cbn [map apply_aops].
  assert (E : apply_aop (AAdd [$"-"] v) (JArray l) = Ok (JArray (l ++ [v]))) by reflexivity.
  rewrite E. cbn [mbind res_bind]. by rewrite IH, <- app_assoc.
Qed.

Lemma array_reaches l r :
  Forall reaches l -> json_ok (JArray l) -> json_ok (JArray r) -> indexable (JArray l) = true -> comparable (JArray r) = true ->
  exists l1, apply_aops (item_ops diff_ops 0 l r ++ removals (Nat.min (length l) (length r)) (length l - Nat.min (length l) (length r)) ++
    map (AAdd [$"-"]) (drop (Nat.min (length l) (length r)) r)) (JArray l) = Ok (JArray l1) /\ vec_eq json_eq l1 r = true.
Proof.
  intros Hre Hl%json_ok_array Hr%json_ok_array [Hlen Hi]%indexable_array Hc%comparable_array. unfold zlen in Hlen.
  destruct (item_ops_run [] l r Hre Hl Hr Hi Hc) as (l1 & H1 & Hlen1 & Hk1); [simpl; lia|]. simpl in H1.
  set (i := Nat.min (length l) (length r)). exists (take i l1 ++ drop i r).
  rewrite apply_aops_app, H1. cbn [mbind res_bind]. rewrite apply_aops_app.
  rewrite <- (take_drop i l1) at 1. assert (Hti : length (take i l1) = i) by (rewrite length_take; unfold i; lia).
  assert (Hdi : length (drop i l1) = (length l - i)%nat) by (rewrite length_drop; lia).
  rewrite <- Hti at 1. rewrite <- Hdi, removals_run by lia. cbn [mbind res_bind]. rewrite appends_run. split; [done|].
  apply vec_eq_lookup; [rewrite length_app, length_drop; unfold i in *; lia|]. intros k x y Hx Hy.
  apply lookup_app_Some in Hx as [Hx|[Hk Hx]].
  - apply lookup_take_Some in Hx as [Hx _]. by eapply Hk1.
  - rewrite lookup_drop, Hti in Hx. replace (i + (k - i))%nat with k in Hx by lia. assert (y = x) as -> by congruence.
    apply json_eq_refl_iff. rewrite Forall_lookup in Hc. by eapply Hc.
Qed.

Lemma entry_ops_run es s n :
  map_sorted es -> Forall (fun e => reaches e.2) es -> Forall (fun e => json_ok e.2) es -> entries_ok n ->
  Forall (fun e => indexable e.2 = true) es -> Forall (fun e => comparable e.2 = true) n -> map_sorted s ->
  (forall k x, (k, x) ∈ es -> map_find k s = Some x) ->
  exists s', apply_aops (entry_ops diff_ops es n) (JObject s) = Ok (JObject s') /\ map_sorted s' /\
    (forall k, map_find k es = None -> map_find k s' = map_find k s) /\
    (forall k x, map_find k es = Some x ->
       match map_find k n with
       | Some y => exists x', map_find k s' = Some x' /\ json_eq x' y = true
       | None => map_find k s' = None
       end).
Proof.
  intros Hes Hre. revert s. induction Hre as [|[k x] es Hx _ IH]; intros s Hok Hn Hi Hc Hs Hf; [by exists s|].
  pose proof Hes as [Hes' Hlt]%map_sorted_cons. apply Forall_cons in Hok as [Hokx Hok], Hi as [Hix Hi]. cbn [snd] in Hokx, Hix, Hx.
  pose proof (Hf k x ltac:(by left)) as Hkx. pose proof (map_find_lt _ _ Hlt) as Hkes.
  assert (Hne : forall k' x', (k', x') ∈ es -> k <> k') by (intros k' x' H%map_find_elem ->; [congruence|done]).
  assert (Hstep : exists s1, apply_aops (match map_find k n with Some y => below k <$> diff_ops x y | None => [ARemove [k]] end)
      (JObject s) = Ok (JObject s1) /\ map_sorted s1 /\ (forall k', k <> k' -> map_find k' s1 = map_find k' s) /\
      match map_find k n with Some y => exists x', map_find k s1 = Some x' /\ json_eq x' y = true | None => map_find k s1 = None end).
  { destruct (map_find k n) as [y|] eqn:Ey.
    - destruct (Hx y Hokx) as (x' & Hx' & He); [by eapply entries_ok_find|done| |].
      { apply map_find_elem in Ey; [|apply Hn]. rewrite Forall_forall in Hc. by apply (Hc (k, y)). }
      exists (map_assign k x' s). split_and!; [|by apply map_assign_sorted|by intros; apply map_find_assign_ne|].
      + eapply apply_below_object; [done|apply diff_ops_proper|done..].
      + exists x'. split; [by apply map_find_assign_eq|done].
    - exists (map_erase k s). split_and!; [|by apply map_erase_sorted|..].
      + cbn [apply_aops apply_aop]. unfold operation_remove.
        cbn [ptr_back ptr_pop_back last length pred take at_update mbind res_bind remove_child]. by rewrite Hkx.
      + intros k' Hk'. rewrite map_find_erase by done. by rewrite decide_False.
      + rewrite map_find_erase by done. by rewrite decide_True. }
  destruct Hstep as (s1 & H1 & Hs1 & Hother & Hk1).
  destruct (IH Hes' s1 Hok Hn Hi Hc Hs1) as (s' & H' & Hs' & Hno & Hyes).
  { intros k' x' H. rewrite Hother by eauto. apply Hf. by right. }
  exists s'. cbn [entry_ops]. rewrite apply_aops_app, H1. cbn [mbind res_bind]. split_and!; [done..| |].
  - intros k'. rewrite map_find_cons by done. destruct (decide (k' = k)) as [->|]; [done|]. intros H. rewrite Hno, Hother by done. done.
  - intros k' x'. rewrite map_find_cons by done. destruct (decide (k' = k)) as [->|]; [|apply Hyes].
    intros _. by rewrite (Hno k Hkes).
Qed.

Lemma add_entry_run k v s : apply_aop (AAdd [k] v) (JObject s) = Ok (JObject (map_assign k v s)).
Proof. cbn. by rewrite bool_decide_eq_false_2 by naive_solver. Qed.

Lemma additions_run m n s :
  map_sorted n -> map_sorted s ->
  exists s', apply_aops (additions m n) (JObject s) = Ok (JObject s') /\ map_sorted s' /\
    forall k, map_find k s' = match map_find k n, map_find k m with
                              | Some y, None => Some y
                              | _, _ => map_find k s
                              end.
Proof.
  revert s. induction n as [|[k y] n IH]; intros s Hn Hs; [by exists s|].
  pose proof Hn as [Hn' Hlt]%map_sorted_cons. pose proof (map_find_lt _ _ Hlt) as Hkn.
  unfold additions. cbn [flat_map fst snd]. fold (additions m n).
  destruct (map_find k m) as [x|] eqn:Ek.
  - destruct (IH s Hn' Hs) as (s' & H' & Hs' & Hf). exists s'. split_and!; [done..|]. intros k'. rewrite Hf, map_find_cons by done.
    destruct (decide (k' = k)) as [->|]; [|done]. by rewrite Hkn, Ek.
  - destruct (IH (map_assign k y s) Hn' (map_assign_sorted _ _ _ Hs)) as (s' & H' & Hs' & Hf). exists s'.
    cbn [app apply_aops]. rewrite add_entry_run. cbn [mbind res_bind]. split_and!; [done..|]. intros k'.
    rewrite Hf, map_find_cons, map_find_assign by done. destruct (decide (k' = k)) as [->|Hne].
    + rewrite Hkn, Ek. by rewrite decide_True.
    + by rewrite decide_False.
Qed.

Lemma object_reaches m n :
  Forall (fun e => reaches e.2) m -> json_ok (JObject m) -> json_ok (JObject n) -> indexable (JObject m) = true ->
  comparable (JObject n) = true ->
  exists s, apply_aops (entry_ops diff_ops m n ++ additions m n) (JObject m) = Ok (JObject s) /\ map_eq_by json_eq s n = true.
Proof.
  intros Hre [Hm Hmo]%json_ok_object Hn%json_ok_entries Hi%indexable_object Hc%comparable_object.
  destruct (entry_ops_run m m n Hm Hre Hmo Hn Hi Hc Hm) as (s1 & H1 & Hs1 & Hno & Hyes); [intros k x; by apply map_find_elem|].
  destruct (additions_run m n s1) as (s & H2 & Hs & Hf); [apply Hn|done|].
  exists s. rewrite apply_aops_app, H1. cbn [mbind res_bind]. split; [done|]. apply map_eq_by_find; [done|apply Hn|].
  intros k. rewrite Hf. specialize (Hno k). specialize (Hyes k).
  destruct (map_find k m) as [x|] eqn:Ex; destruct (map_find k n) as [y|] eqn:Ey.
  - destruct (Hyes x eq_refl) as (x' & -> & He). done.
  - by rewrite (Hyes x eq_refl).
  - apply json_eq_refl_iff. apply map_find_elem in Ey; [|apply Hn]. rewrite Forall_forall in Hc. by apply (Hc (k, y)).
  - by rewrite Hno.
Qed.

Lemma diff_ops_reach a : reaches a.
Proof.
  assert (Hrep : forall a b, comparable b = true -> exists r, apply_aops [AReplace [] b] a = Ok r /\ json_eq r b = true)
    by (intros a' b Hc; exists b; split; [done|by apply json_eq_refl_iff]).
  induction a as [|m IH|l IH|s|x|z|z|z|] using json_induct; intros b Ha Hb Hi Hc;
    cbn [diff_ops]; destruct (json_eq _ b) eqn:Ee; try (by eexists; split; [reflexivity|]);
    destruct b as [|n|r|t|y|w|w|w|]; cbn [same_type negb]; try (by apply Hrep).
  - destruct (object_reaches m n) as (s & H & He); [done..|]. exists (JObject s). by split.
  - destruct (array_reaches l r) as (s & H & He); [done..|]. exists (JArray s). by split.
Qed.

(** C14: The patch [diff(a, b)] applied to [a] succeeds and gives a value equal to [b] for [operator==], when [b]
    contains no NaN (which no value equals) and the indexes of the arrays of [a] fit in [size_t]: removals come from
    the end, keys are escaped, additions append. *)
Theorem patch_diff a b :
  json_ok a -> json_ok b -> indexable a = true -> comparable b = true ->
  exists r, json_patch a (JArray (json_diff a b [])) = Ok r /\ json_eq r b = true.
Proof.
  intros Ha Hb Hi Hc. destruct (diff_ops_reach a b Ha Hb Hi Hc) as (r & Hr & He). exists r. split; [|done].
  change [] with (ptr_to_string []). rewrite json_diff_ops by done.
  replace (behind [] <$> diff_ops a b) with (diff_ops a b); [by apply patch_encode|].
  rewrite <- (list_fmap_id (diff_ops a b)) at 1. apply list_fmap_ext. by intros _ [] _.
Qed.

Lemma patch_diff_witness :
  exists r, json_patch src1 (JArray (json_diff src1 dst1 [])) = Ok r /\ json_eq r dst1 = true.
Proof. apply patch_diff; [repeat constructor; simpl; lia|repeat constructor; simpl; lia|reflexivity|reflexivity]. Defined.

(** A removal below a value that is no container is accepted and does nothing, although its target does not exist. *)
Theorem remove_missing_accepted :
  json_patch (JObject [($"a", JInteger 1)]) (JArray [op_only $"remove" $"/a/b"]) = Ok (JObject [($"a", JInteger 1)]).
Proof. by_compute. Qed.

(** A move whose target cannot be added has already removed its source. *)
Theorem move_keeps_removal :
  patch_inplace (JArray [JObject [($"from", JString $"/a"); ($"op", JString $"move"); ($"path", JString $"/b/c")]])
    (JObject [($"a", JInteger 1)]) = (Throw (out_of_range 403), JObject []).
Proof. by_compute. Qed.

(** ** Lemmas: the invariant of the class *)

Lemma at_update_ok p f j j' :
  (forall x y, json_ok x -> f x = Ok y -> json_ok y) -> json_ok j -> at_update p f j = Ok j' -> json_ok j'.
Proof.
  intros Hf. revert j j'. induction p as [|t p IH]; intros j j' Hj; cbn [at_update]; [by apply Hf|].
  destruct j as [|m|l|s|b|z|z|z|]; try done.
  - destruct (json_at _ t) as [x|] eqn:E; [|done]. cbn [mbind res_bind]. apply json_at_find in E.
    destruct (at_update p f x) as [y|] eqn:Ey; [|done]. cbn [mbind res_bind]. intros [= <-]. apply json_ok_entries in Hj. apply json_ok_entries.
    apply entries_ok_assign; [done|]. eapply IH; [|exact Ey]. by eapply entries_ok_find.
  - destruct (str_eqb t $"-"); [done|]. destruct (array_index t) as [i|]; [|done]. cbn [mbind res_bind].
    destruct (json_at_idx _ i) as [x|] eqn:E; [|done]. cbn [mbind res_bind]. apply json_at_idx_lookup in E.
    destruct (at_update p f x) as [y|] eqn:Ey; [|done]. cbn [mbind res_bind]. intros [= <-]. apply json_ok_array in Hj. apply json_ok_array.
    apply Forall_insert; [done|]. eapply IH; [|exact Ey]. by eapply Forall_lookup_1.
Qed.

Lemma get_checked_ok p j v : json_ok j -> get_checked p j = Ok v -> json_ok v.
Proof.
  revert j. induction p as [|t p IH]; intros j Hj; [by intros [= <-]|]. destruct j as [|m|l|s|b|z|z|z|]; try done.
  - intros (w & Hw & H)%get_checked_object. eapply IH; [|exact H]. apply json_ok_entries in Hj. by eapply entries_ok_find.
  - intros (i & w & _ & Hw & H)%get_checked_array. eapply IH; [|exact H]. apply json_ok_array in Hj. by eapply Forall_lookup_1.
Qed.

(** The calls of the modifiers an operation makes keep the invariant. *)
Lemma modify_result_ok f j j' :
  json_ok j -> Forall json_ok (modifier_args f) -> modify f j = (Ok (), j') -> json_ok j'.
Proof. intros Hj Ha H. pose proof (modify_ok f j Hj Ha) as Hok. by rewrite H in Hok. Qed.

Lemma add_child_ok t v x y : json_ok v -> json_ok x -> add_child t v x = Ok y -> json_ok y.
Proof.
  intros Hv Hx. assert (Ha : Forall json_ok [v]) by (by constructor). destruct x as [|m|l|s|b|z|z|z|]; cbn [add_child]; try discriminate; intros H.
  - eapply (modify_result_ok (SetKey t v) JNull); [done..|]. cbn [modify]. by rewrite H.
  - eapply (modify_result_ok (SetKey t v) (JObject m)); [done..|]. cbn [modify]. by rewrite H.
  - destruct (str_eqb t $"-").
    + eapply (modify_result_ok (PushBack v) (JArray l)); [done..|]. cbn [modify]. by rewrite H.
    + destruct (array_index t) as [i|]; [|done]. cbn [mbind res_bind] in H. destruct (_ <? i)%nat; [done|].
      eapply (modify_result_ok (Insert i [v]) (JArray l)); [done..|]. cbn [modify]. by rewrite H.
Qed.

Lemma remove_child_ok t x y : json_ok x -> remove_child t x = Ok y -> json_ok y.
Proof.
  intros Hx. destruct x as [|m|l|s|b|z|z|z|]; cbn [remove_child]; try (by intros [= <-]).
  - destruct (map_find t m); [|done]. intros [= <-]. apply json_ok_entries in Hx. by apply json_ok_entries, entries_ok_erase.
  - destruct (array_index t) as [i|]; [|done]. cbn [mbind res_bind]. intros H.
    eapply (modify_result_ok (EraseIdx i) (JArray l)); [done|constructor|]. cbn [modify]. by rewrite H.
Qed.

Lemma operation_add_ok p v j j' : json_ok v -> json_ok j -> operation_add p v j = Ok j' -> json_ok j'.
Proof.
  intros Hv Hj. destruct (decide (p = [])) as [->|Hp]; [by intros [= <-]|].
  destruct (ptr_ends p Hp) as (q & u & _ & Eb & Eo). unfold operation_add. rewrite Eb, Eo. destruct p as [|t p]; [done|].
  cbn [ptr_top mbind res_bind]. destruct (if bool_decide _ then _ else _); [|done]. cbn [mbind res_bind].
  apply at_update_ok; [|done]. intros x y. by apply add_child_ok.
Qed.

Lemma operation_remove_ok p j j' : json_ok j -> operation_remove p j = Ok j' -> json_ok j'.
Proof.
  intros Hj. destruct (decide (p = [])) as [->|Hp]; [done|].
  destruct (ptr_ends p Hp) as (q & u & _ & Eb & Eo). unfold operation_remove. rewrite Eb, Eo. cbn [mbind res_bind].
  apply at_update_ok; [|done]. intros x y. by apply remove_child_ok.
Qed.

Lemma get_value_ok es k b v : entries_ok es -> get_value es k b = Ok v -> json_ok v.
Proof.
  intros Hes. unfold get_value. destruct (map_find k es) as [w|] eqn:E; [|done]. destruct (_ && _); [done|]. intros [= <-].
  by eapply entries_ok_find.
Qed.

Lemma patch_step_ok val j : json_ok val -> json_ok j -> json_ok (patch_step val j).2.
Proof.
  intros Hval Hj. destruct val as [|es|l|s|b|z|z|z|]; try exact Hj. apply json_ok_entries in Hval as Hes. cbn [patch_step].
  destruct (op ← _; _) as [[op ptr]|]; [|exact Hj].
  destruct (get_op op); try (apply kept_ok; [done|]; unfold id; intros a).
  - destruct (get_value es _ _) as [v|] eqn:Ev; [|done]. apply get_value_ok in Ev; [|done]. by apply operation_add_ok.
  - by apply operation_remove_ok.
  - destruct (get_value es _ _) as [v|] eqn:Ev; [|done]. apply get_value_ok in Ev; [|done]. cbn [mbind res_bind].
    apply at_update_ok; [|done]. by intros x y _ [= <-].
  - destruct (member_string es _) as [from|]; [|exact Hj]. cbn [mbind res_bind]. destruct (ptr_split from) as [fp|]; [|exact Hj].
    cbn [mbind res_bind]. destruct (get_checked fp j) as [v|] eqn:Ev; [|exact Hj]. apply get_checked_ok in Ev; [|done]. cbn [mbind res_bind].
    destruct (operation_remove fp j) as [j'|] eqn:Er; [|exact Hj]. apply operation_remove_ok in Er; [|done]. cbn [mbind res_bind].
    apply kept_ok; [done|]. intros a. by apply operation_add_ok.
  - destruct (member_string es _) as [from|]; [|done]. cbn [mbind res_bind]. destruct (ptr_split from) as [fp|]; [|done].
    cbn [mbind res_bind]. destruct (get_checked fp j) as [v|] eqn:Ev; [|done]. apply get_checked_ok in Ev; [|done]. by apply operation_add_ok.
  - destruct (test_succeeds ptr es j) as [[]|]; exact Hj.
  - exact Hj.
Qed.

(** Also a patch that fails half-way leaves a value that satisfies the invariant. *)
Theorem patch_inplace_ok p j : json_ok p -> json_ok j -> json_ok (patch_inplace p j).2.
Proof.
  intros Hp Hj. destruct p as [|m|vals|s|b|z|z|z|]; try exact Hj. apply json_ok_array in Hp. cbn [patch_inplace].
  revert j Hj. induction Hp as [|val vals Hval _ IH]; intros j Hj; [done|]. cbn [patch_each].
  pose proof (patch_step_ok val j Hval Hj) as H. destruct (patch_step val j) as [[]]; [by apply IH|done].
Qed.

(** ** Merge patches *)

Lemma merge_each_find mp es m k :
  map_sorted es -> map_sorted m ->
  map_sorted (merge_each mp es m) /\
  map_find k (merge_each mp es m) =
    match map_find k es with
    | None => map_find k m
    | Some JNull => None
    | Some v => Some (mp (default JNull (map_find k m)) v)
    end.
Proof.
  revert m. induction es as [|[k0 v] es IH]; intros m Hes Hm; [done|]. cbn [merge_each].
  pose proof Hes as [Hes' Hlt]%map_sorted_cons. pose proof (map_find_lt _ _ Hlt) as Hk0. rewrite map_find_cons by done.
  assert (Hstep : forall m1 (x : option json), map_sorted m1 ->
    (forall k', map_find k' m1 = if decide (k' = k0) then x else map_find k' m) ->
    map_sorted (merge_each mp es m1) /\ map_find k (merge_each mp es m1) =
      if decide (k = k0) then x else match map_find k es with
        | None => map_find k m | Some JNull => None | Some v => Some (mp (default JNull (map_find k m)) v) end).
  { intros m1 x Hm1 Hf1. destruct (IH m1 Hes' Hm1) as [Hs Hf]. split; [done|]. rewrite Hf, !Hf1.
    destruct (decide (k = k0)) as [->|]; [|done]. by rewrite Hk0. }
  assert (Hnull : forall k', map_find k' (map_erase k0 m) = if decide (k' = k0) then None else map_find k' m).
  { intros k'. rewrite map_find_erase by done. destruct (decide (k0 = k')), (decide (k' = k0)); congruence. }
  assert (Hval : map_sorted (map_emplace k0 JNull m) /\ (forall k', map_find k' (map_assign k0 (mp (default JNull (map_find k0 (map_emplace k0 JNull m))) v)
    (map_emplace k0 JNull m)) = if decide (k' = k0) then Some (mp (default JNull (map_find k0 m)) v) else map_find k' m)).
  { pose proof (emplace_sorted k0 JNull m Hm) as He. split; [done|]. intros k'. rewrite map_find_assign by done. unfold map_emplace.
    destruct (map_find k0 m) eqn:E0; destruct (decide (k0 = k')), (decide (k' = k0)); try congruence; rewrite ?E0; try done.
    - by rewrite map_find_assign, decide_True by done.
    - by rewrite map_find_assign, decide_False by done. }
  destruct Hval as [He Hval].
  destruct v; [rewrite (proj2 (Hstep (map_erase k0 m) None (map_erase_sorted _ _ Hm) Hnull));
    split; [apply (Hstep (map_erase k0 m) None (map_erase_sorted _ _ Hm) Hnull)|by destruct (decide (k = k0)) as [->|]]|..];
    (destruct (Hstep _ _ (map_assign_sorted _ _ _ He) Hval) as [Hs Hf]; split; [exact Hs|rewrite Hf; by destruct (decide (k = k0)) as [->|]]).
Qed.

Lemma merge_patch_object this es :
  json_ok this -> map_sorted es ->
  exists m, merge_patch this (JObject es) = JObject m /\ map_sorted m /\
    forall k, map_find k m = match map_find k es with
                             | None => json_find this k
                             | Some JNull => None
                             | Some v => Some (merge_patch (default JNull (json_find this k)) v)
                             end.
Proof.
  intros Ht Hes. cbn [merge_patch]. eexists. split; [done|].
  assert (Hm : map_sorted (match this with JObject m => m | _ => [] end) /\
    forall k, map_find k (match this with JObject m => m | _ => [] end) = json_find this k).
  { destruct this; try (split; [constructor|done]). by apply json_ok_object in Ht as [? _]. }
  destruct Hm as [Hm Hf].
  split; [apply (merge_each_find merge_patch es _ []); done|]. intros k. rewrite <- Hf. by apply merge_each_find.
Qed.

Lemma merge_patch_twice this p : json_ok this -> json_ok p -> merge_patch (merge_patch this p) p = merge_patch this p.
Proof.
  revert this. induction p as [|es IH|l IH|s|x|z|z|z|] using json_induct; intros this Ht Hp; try done.
  apply json_ok_entries in Hp as Hes. pose proof Hes as [Hs _].
  destruct (merge_patch_object this es Ht Hs) as (m & -> & Hm & Hf).
  assert (E : exists m', merge_patch (JObject m) (JObject es) = JObject m' /\ map_sorted m' /\ forall k, map_find k m' =
    match map_find k es with None => map_find k m | Some JNull => None | Some v => Some (merge_patch (default JNull (map_find k m)) v) end).
  { cbn [merge_patch]. eexists. split; [done|]. split; [apply (merge_each_find merge_patch es _ []); done|]. intros k. by apply merge_each_find. }
  destruct E as (m' & -> & Hm' & Hf'). f_equal. apply sorted_ext; [done..|]. intros k. rewrite Hf', Hf.
  destruct (map_find k es) as [v|] eqn:Ek; [|done].
  assert (Hv : merge_patch (merge_patch (default JNull (json_find this k)) v) v = merge_patch (default JNull (json_find this k)) v).
  { apply map_find_elem in Ek as Hin; [|done]. rewrite Forall_forall in IH. apply (IH _ Hin); [|by eapply entries_ok_find].
    destruct (json_find this k) as [w|] eqn:Ew; [|done]. destruct this as [|m0|l|s|x|z|z|z|]; try done.
    apply json_ok_entries in Ht. exact (entries_ok_find k w m0 Ht Ew). }
  destruct v; try done; cbn [default from_option id]; by rewrite Hv.
Qed.

(** C26: [merge_patch] does what RFC 7396 says, for values that satisfy the invariant of the class: a patch that is no
    object replaces the value; a patch that is an object makes an object of it in which a key of the patch is gone if
    its value is null and has its old value (or none) merged with the new one otherwise, and the other keys keep their
    values; a patch applied twice is applied once. *)
Theorem merge_patch_rfc this p :
  json_ok this -> json_ok p ->
  match p with
  | JObject es => exists m, merge_patch this p = JObject m /\ map_sorted m /\ forall k, map_find k m =
      match map_find k es with
      | None => json_find this k
      | Some JNull => None
      | Some v => Some (merge_patch (default JNull (json_find this k)) v)
      end
  | _ => merge_patch this p = p
  end /\ merge_patch (merge_patch this p) p = merge_patch this p.
Proof.
  intros Ht Hp. split; [|by apply merge_patch_twice]. destruct p as [|es|l|s|x|z|z|z|]; try done.
  apply json_ok_object in Hp as [Hs _]. by apply merge_patch_object.
Qed.

Lemma merge_patch_rfc_witness :
  let p := JObject [($"a", JNull); ($"b", JObject [($"e", JBool true)])] in
  (exists m, merge_patch src1 p = JObject m /\ map_sorted m /\ forall k, map_find k m =
     match map_find k [($"a", JNull); ($"b", JObject [($"e", JBool true)])] with
     | None => json_find src1 k
     | Some JNull => None
     | Some v => Some (merge_patch (default JNull (json_find src1 k)) v)
     end) /\ merge_patch (merge_patch src1 p) p = merge_patch src1 p.
Proof.
  apply (merge_patch_rfc src1 (JObject [($"a", JNull); ($"b", JObject [($"e", JBool true)])]));
    repeat constructor; simpl; lia.
Defined.
