(* ===== verification/JsonBinary.v ===== *)
(** * What the binary JSON formats share (binary_writer, binary_reader)

    Numbers in network byte order, the conversions between float and double,
    the events of the SAX interface, and the handler that builds a value from
    them.  The handler is the one of the text parser; it cannot build binary
    values, which the type of JSON values leaves out. *)

From S2P Require Import Prelude StdMap JsonNumber Doubles JsonValue JsonLexer JsonParser JsonCompare.

(** ** Bytes *)

(** [write_number] of a number of [k] bytes, highest byte first; a negative
    number is in two's complement. *)
Fixpoint write_number (k : nat) (n : Z) : str :=
  match k with
  | O => []
  | S k' => chr (n / 256 ^ Z.of_nat k') :: write_number k' n
  end.

Definition byte (z : Z) : str := [chr z].

(** The number [get_number] makes of its bytes. *)
Definition be_value (s : str) : Z := fold_left (fun acc c => 256 * acc + ord c) s 0.

(** [get_number]: [None] at the end of the input. *)
Definition get_be (k : nat) (s : str) : option (Z * str) :=
  if (length s <? k)%nat then None else Some (be_value (take k s), drop k s).

(** The conversion of [k] bytes to a signed number. *)
Definition signed (k : nat) (z : Z) : Z :=
  let b := 256 ^ Z.of_nat k in if 2 * z <? b then z else z - b.

(** [get_string], [get_binary]: the next [len] bytes. *)
Definition get_bytes (len : Z) (s : str) : option (str * str) :=
  if zlen s <? len then None else Some (take (Z.to_nat len) s, drop (Z.to_nat len) s).

(** ** Floats *)

(** [static_cast<float>] of a double, as 32 bits: to nearest, ties to even; a
    NaN keeps the high bits of its payload and becomes quiet. *)
Definition float_of_double (b : Z) : Z :=
  let sign := if double_sign b then 2 ^ 31 else 0 in
  let E := double_exp b in
  let F := double_man b in
  if E =? 0x7FF then
    sign + 0xFF * 2 ^ 23 + (if F =? 0 then 0 else Z.lor (F / 2 ^ 29) (2 ^ 22))
  else
    let m := if E =? 0 then F else F + 2 ^ 52 in
    let e := (if E =? 0 then 1 else E) - 1075 in
    if m =? 0 then sign
    else
      let t := Z.max (e + Z.log2 m - 23) (-149) in
      let d := 2 ^ (t - e) in
      let q := m / d in
      let r := m mod d in
      let q := if (d <? 2 * r) || ((d =? 2 * r) && Z.odd q) then q + 1 else q in
      let '(q, t) := if q =? 2 ^ 24 then (2 ^ 23, t + 1) else (q, t) in
      sign + (if 104 <? t then 0xFF * 2 ^ 23
              else if q <? 2 ^ 23 then q else (t + 150) * 2 ^ 23 + (q - 2 ^ 23)).

(** [static_cast<double>] of a float, which is exact; a NaN becomes quiet. *)
Definition double_of_float (f : Z) : Z :=
  let sign := if 2 ^ 31 <=? f then 2 ^ 63 else 0 in
  let E := f / 2 ^ 23 mod 2 ^ 8 in
  let F := f mod 2 ^ 23 in
  sign + (if E =? 0xFF then 0x7FF * 2 ^ 52 + (if F =? 0 then 0 else Z.lor (F * 2 ^ 29) (2 ^ 51))
          else if E =? 0 then
            (if F =? 0 then 0
             else (Z.log2 F - 149 + 1023) * 2 ^ 52 + (F - 2 ^ Z.log2 F) * 2 ^ (52 - Z.log2 F))
          else (E - 127 + 1023) * 2 ^ 52 + F * 2 ^ 29).

(** The largest float, as a double. *)
Definition float_max : Z := 0x47EFFFFFE0000000.

(** The condition of [write_compact_float]: the number can be written as a
    float. *)
Definition compact_float (b : Z) : bool :=
  negb (isfinite b) ||
  ((- float_max <=? double_key b) && (double_key b <=? float_max) &&
   double_eq (double_of_float (float_of_double b)) b).

Example float_one : float_of_double 0x3FF0000000000000 = 0x3F800000 /\ double_of_float 0x3F800000 = 0x3FF0000000000000.
Proof. by_compute. Qed.
Example float_tenth : compact_float 0x3FB999999999999A = false /\ compact_float 0x3FE0000000000000 = true.
Proof. by_compute. Qed.
Example float_denormal : double_of_float 1 = 0x36A0000000000000 /\ float_of_double 0x36A0000000000000 = 1.
Proof. by_compute. Qed.
Example float_big : float_of_double 0x7FEFFFFFFFFFFFFF = 0x7F800000 /\ float_of_double float_max = 0x7F7FFFFF.
Proof. by_compute. Qed.
Example float_rounds : float_of_double 0x3FF0000010000000 = 0x3F800000 /\ float_of_double 0x3FF0000030000000 = 0x3F800002.
Proof. by_compute. Qed.

(** ** SAX events *)

(** The calls of the SAX interface; a binary value has an optional subtype. *)
Inductive sax_event :=
  | EvNull
  | EvBool (b : bool)
  | EvInteger (z : Z)
  | EvUnsigned (z : Z)
  | EvFloat (bits : Z)
  | EvString (s : str)
  | EvBinary (b : str) (subtype : option Z)
  | EvStartObject
  | EvKey (s : str)
  | EvEndObject
  | EvStartArray
  | EvEndArray.

(** What [json_sax_dom_parser] does; [None] for a binary value. *)
Definition dom_event (ev : sax_event) (s : sax) : option sax :=
  match ev with
  | EvNull => Some (handle_value JNull s)
  | EvBool b => Some (handle_value (JBool b) s)
  | EvInteger z => Some (handle_value (JInteger z) s)
  | EvUnsigned z => Some (handle_value (JUnsigned z) s)
  | EvFloat b => Some (handle_value (JFloat b) s)
  | EvString t => Some (handle_value (JString t) s)
  | EvBinary _ _ => None
  | EvStartObject => Some (start_object s)
  | EvKey k => Some (sax_key k s)
  | EvEndObject | EvEndArray => Some (end_container s)
  | EvStartArray => Some (start_array s)
  end.

Fixpoint dom_events (evs : list sax_event) (s : sax) : option sax :=
  match evs with
  | [] => Some s
  | ev :: evs' => s ← dom_event ev s; dom_events evs' s
  end.

(** The events of a value. *)
Fixpoint events_of (j : json) : list sax_event :=
  match j with
  | JNull => [EvNull]
  | JBool b => [EvBool b]
  | JInteger z => [EvInteger z]
  | JUnsigned z => [EvUnsigned z]
  | JFloat b => [EvFloat b]
  | JString s => [EvString s]
  | JArray l => EvStartArray :: flat_map events_of l ++ [EvEndArray]
  | JObject m => EvStartObject :: flat_map (fun e => EvKey e.1 :: events_of e.2) m ++ [EvEndObject]
  | JDiscarded => []
  end.

(** ** Reading *)

(** What is read, and the bytes that are left. *)
Abbreviation read A := (res (A * str)).

(** [get_number] and [get_string], which report the end of the input. *)
Definition get_num (k : nat) (s : str) : read Z :=
  match get_be k s with Some x => Ok x | None => Throw (parse_error 110) end.

Definition get_chars (len : Z) (s : str) : read str :=
  match get_bytes len s with Some x => Ok x | None => Throw (parse_error 110) end.

(** The loop over the elements of a container whose number is known; [item]
    reads an element, or a key and its value. *)
Section Items.
Context {A : Type}.
Variable item : str -> option (read (list A)).

Fixpoint read_items (fuel : nat) (n : Z) (s : str) : option (read (list A)) :=
  if n <=? 0 then Some (Ok ([], s))
  else
    match fuel with
    | O => None
    | S fuel' =>
        r ← item s;
        match r with
        | Throw e => Some (Throw e)
        | Ok (xs, s) =>
            r ← read_items fuel' (n - 1) s;
            match r with
            | Throw e => Some (Throw e)
            | Ok (xs', s) => Some (Ok (xs ++ xs', s))
            end
        end
    end.
End Items.

(** The events that are read, between others. *)
Definition wrap_events (before after : list sax_event) (r : option (read (list sax_event))) : option (read (list sax_event)) :=
  r ← r;
  match r with
  | Throw e => Some (Throw e)
  | Ok (evs, s) => Some (Ok (before ++ evs ++ after, s))
  end.

Definition map_read {A B} (f : A -> B) (r : option (read A)) : option (read B) :=
  r ← r; Some ('(x, s) ← r; Ok (f x, s)).

(** ** Lemmas: bytes *)

Lemma length_write_number k n : length (write_number k n) = k.
Proof. induction k as [|k IH]; [done|]. simpl. by rewrite IH. Qed.

Lemma be_value_snoc s c : be_value (s ++ [c]) = 256 * be_value s + ord c.
Proof. unfold be_value. by rewrite fold_left_app. Qed.

Lemma be_value_cons c s : be_value (c :: s) = ord c * 256 ^ zlen s + be_value s.
Proof.
  revert c. induction s as [|d s IH] using rev_ind; intros c; [rewrite zlen_nil; unfold be_value; simpl; lia|].
  change (c :: s ++ [d]) with ((c :: s) ++ [d]). rewrite !be_value_snoc, IH, zlen_app, zlen_cons, zlen_nil.
  rewrite Z.pow_add_r by (pose proof (zlen_nonneg s); lia). simpl (256 ^ (0 + 1)). lia.
Qed.

Lemma zlen_write_number k n : zlen (write_number k n) = Z.of_nat k.
Proof. unfold zlen. by rewrite length_write_number. Qed.

(** The bytes determine the number modulo their range. *)
Lemma be_value_bytes k n : be_value (write_number k n) = n mod 256 ^ Z.of_nat k.
Proof.
  induction k as [|k IH]; [unfold be_value; simpl; by rewrite Z.mod_1_r|]. cbn [write_number]. rewrite be_value_cons, zlen_write_number, IH, ord_chr.
  assert (H0 : 0 < 256 ^ Z.of_nat k) by (apply Z.pow_pos_nonneg; lia). rewrite Nat2Z.inj_succ, Z.pow_succ_r by lia.
  rewrite (Z.mul_comm 256), Z.rem_mul_r by lia. lia.
Qed.

Lemma signed_bytes k n : (0 < k)%nat -> - (256 ^ Z.of_nat k / 2) <= n < 256 ^ Z.of_nat k / 2 -> signed k (be_value (write_number k n)) = n.
Proof.
  intros Hk Hn. rewrite be_value_bytes. unfold signed.
  assert (Hb : exists h, 256 ^ Z.of_nat k = 2 * h /\ 0 < h).
  { destruct k as [|k]; [lia|]. exists (128 * 256 ^ Z.of_nat k). rewrite Nat2Z.inj_succ, Z.pow_succ_r by lia.
    assert (0 < 256 ^ Z.of_nat k) by (apply Z.pow_pos_nonneg; lia). lia. }
  destruct Hb as (h & Hb & Hh). rewrite Hb in *. rewrite (Z.mul_comm 2 h), Z.div_mul in Hn by lia.
  destruct (Z.neg_nonneg_cases n).
  - rewrite <- (Z.mod_add n 1) by lia. rewrite Z.mod_small by lia. destruct (Z.ltb_spec (2 * (n + 1 * (2 * h))) (2 * h)); lia.
  - rewrite Z.mod_small by lia. destruct (Z.ltb_spec (2 * n) (2 * h)); lia.
Qed.

Lemma get_be_write k n s : get_be k (write_number k n ++ s) = Some (n mod 256 ^ Z.of_nat k, s).
Proof.
  unfold get_be. rewrite length_app, length_write_number. destruct (Nat.ltb_spec (k + length s) k); [lia|].
  rewrite <- (length_write_number k n) at 1 3. rewrite take_app_length, drop_app_length. by rewrite be_value_bytes.
Qed.

Lemma get_bytes_app s rest : get_bytes (zlen s) (s ++ rest) = Some (s, rest).
Proof.
  unfold get_bytes. rewrite zlen_app. pose proof (zlen_nonneg rest). destruct (Z.ltb_spec (zlen s + zlen rest) (zlen s)); [lia|].
  unfold zlen. rewrite Nat2Z.id. by rewrite take_app_length, drop_app_length.
Qed.

(** ** Lemmas: floats *)

Lemma lor_range x y n : 0 <= n -> 0 <= x < 2 ^ n -> 0 <= y < 2 ^ n -> 0 <= Z.lor x y < 2 ^ n.
Proof.
  intros Hn Hx Hy. split; [apply Z.lor_nonneg; lia|]. destruct (Z.eq_dec x 0) as [->|]; [rewrite Z.lor_0_l; lia|].
  destruct (Z.eq_dec y 0) as [->|]; [rewrite Z.lor_0_r; lia|]. assert (0 <= Z.lor x y) by (apply Z.lor_nonneg; lia).
  destruct (Z.eq_dec (Z.lor x y) 0) as [->|]; [lia|]. apply Z.log2_lt_pow2; [lia|]. rewrite Z.log2_lor by lia.
  apply Z.max_lub_lt; apply Z.log2_lt_pow2; lia.
Qed.

(** The magnitude of the float, without its sign. *)
Lemma float_of_double_magnitude b : 0 <= b < 2 ^ 64 ->
  exists f, float_of_double b = (if double_sign b then 2 ^ 31 else 0) + f /\ 0 <= f < 2 ^ 31.
Proof.
  intros Hb. unfold float_of_double.
  assert (HE : 0 <= double_exp b < 2 ^ 11) by (unfold double_exp; change 0x7FF with (Z.ones 11); rewrite Z.land_ones by lia; apply Z.mod_pos_bound; lia).
  assert (HF : 0 <= double_man b < 2 ^ 52) by (unfold double_man; replace (2 ^ 52 - 1) with (Z.ones 52) by done; rewrite Z.land_ones by lia; apply Z.mod_pos_bound; lia).
  set (E := double_exp b) in *. set (F := double_man b) in *. set (sg := if double_sign b then 2 ^ 31 else 0).
  destruct (Z.eqb_spec E 0x7FF).
  - exists (0xFF * 2 ^ 23 + (if F =? 0 then 0 else Z.lor (F / 2 ^ 29) (2 ^ 22))). split; [lia|].
    destruct (Z.eqb_spec F 0); [lia|]. assert (0 <= F / 2 ^ 29 < 2 ^ 23) by (split; [apply Z.div_pos; lia|apply Z.div_lt_upper_bound; lia]).
    pose proof (lor_range (F / 2 ^ 29) (2 ^ 22) 23 ltac:(lia) ltac:(lia) ltac:(lia)).
    lia.
  - set (m := if E =? 0 then F else F + 2 ^ 52). set (e := (if E =? 0 then 1 else E) - 1075).
    destruct (Z.eqb_spec m 0); [exists 0; lia|].
    assert (Hm : 0 < m < 2 ^ 53) by (unfold m in *; destruct (E =? 0); lia).
    set (t := Z.max (e + Z.log2 m - 23) (-149)). set (q0 := m / 2 ^ (t - e)). set (r := m mod 2 ^ (t - e)).
    assert (Ht : e <= t).
    { unfold t, e. destruct (Z.eqb_spec E 0) as [HE0|HE0]; [lia|]. assert (52 <= Z.log2 m); [|lia].
      apply Z.log2_le_pow2; [lia|]. unfold m. lia. }
    assert (Hq0 : 0 <= q0 < 2 ^ 24).
    { assert (0 < 2 ^ (t - e)) by (apply Z.pow_pos_nonneg; lia). split; [apply Z.div_pos; lia|]. apply Z.div_lt_upper_bound; [done|].
      apply Z.lt_le_trans with (2 ^ Z.succ (Z.log2 m)); [apply Z.log2_spec; lia|]. rewrite <- Z.pow_add_r by lia. apply Z.pow_le_mono_r; lia. }
    set (q := if (2 ^ (t - e) <? 2 * r) || ((2 ^ (t - e) =? 2 * r) && Z.odd q0) then q0 + 1 else q0).
    assert (Hq : 0 <= q <= 2 ^ 24) by (unfold q; case_match; lia).
    assert (-149 <= t) by lia. destruct (Z.eqb_spec q (2 ^ 24)).
    + eexists. split; [reflexivity|]. destruct (Z.ltb_spec 104 (t + 1)); [lia|]. rewrite Z.ltb_irrefl. lia.
    + eexists. split; [reflexivity|]. destruct (Z.ltb_spec 104 t); [lia|]. destruct (Z.ltb_spec q (2 ^ 23)); lia.
Qed.

Lemma float_of_double_range b : 0 <= b < 2 ^ 64 -> 0 <= float_of_double b < 2 ^ 32.
Proof. intros Hb. destruct (float_of_double_magnitude b Hb) as (f & -> & Hf). destruct (double_sign b); lia. Qed.

(** The magnitude of the double. *)
Lemma double_of_float_magnitude f : 0 <= f < 2 ^ 32 ->
  exists d, double_of_float f = (if 2 ^ 31 <=? f then 2 ^ 63 else 0) + d /\ 0 <= d < 2 ^ 63.
Proof.
  intros Hf. unfold double_of_float. eexists. split; [reflexivity|].
  pose proof (Z.mod_pos_bound (f / 2 ^ 23) (2 ^ 8) ltac:(lia)). pose proof (Z.mod_pos_bound f (2 ^ 23) ltac:(lia)).
  set (E := f / 2 ^ 23 mod 2 ^ 8) in *. set (F := f mod 2 ^ 23) in *.
  destruct (E =? 0xFF).
  { destruct (F =? 0); [lia|]. pose proof (lor_range (F * 2 ^ 29) (2 ^ 51) 52 ltac:(lia) ltac:(lia) ltac:(lia)). lia. }
  destruct (E =? 0); [|lia]. destruct (Z.eqb_spec F 0); [lia|].
  assert (HL : 0 <= Z.log2 F < 23) by (split; [apply Z.log2_nonneg|apply Z.log2_lt_pow2; lia]).
  pose proof (Z.log2_spec F ltac:(lia)) as [Hl Hu]. rewrite Z.pow_succ_r in Hu by lia.
  assert (0 <= (F - 2 ^ Z.log2 F) * 2 ^ (52 - Z.log2 F) < 2 ^ 52).
  { assert (0 < 2 ^ (52 - Z.log2 F)) by (apply Z.pow_pos_nonneg; lia). split; [nia|].
    replace (2 ^ 52) with (2 ^ Z.log2 F * 2 ^ (52 - Z.log2 F)) by (rewrite <- Z.pow_add_r by lia; f_equal; lia). nia. }
  lia.
Qed.

Lemma double_sign_ge b : 0 <= b < 2 ^ 64 -> double_sign b = (2 ^ 63 <=? b).
Proof.
  intros Hb. unfold double_sign. rewrite Z.testbit_eqb by lia. destruct (Z.leb_spec (2 ^ 63) b) as [H|H].
  - replace (b / 2 ^ 63) with 1; [done|]. apply (Z.div_unique _ _ _ (b - 2 ^ 63)); lia.
  - by rewrite Z.div_small by lia.
Qed.

(** A finite number that is written as a float is read back bit for bit. *)
Lemma compact_float_back b :
  0 <= b < 2 ^ 64 -> isfinite b = true -> compact_float b = true -> double_of_float (float_of_double b) = b.
Proof.
  intros Hb Hfin. unfold compact_float. rewrite Hfin. cbn [negb orb]. intros [_ He]%andb_prop.
  unfold double_eq in He. apply andb_prop in He as [_ He%Z.eqb_eq].
  pose proof (float_of_double_range b Hb) as Hr. destruct (float_of_double_magnitude b Hb) as (f & Hf & Hf').
  destruct (double_of_float_magnitude _ Hr) as (d & Hd & Hd').
  assert (Hsign : (2 ^ 31 <=? float_of_double b) = double_sign b).
  { rewrite Hf. destruct (double_sign b); [apply Z.leb_le|apply Z.leb_gt]; lia. }
  rewrite Hsign in Hd. assert (Hrange : 0 <= double_of_float (float_of_double b) < 2 ^ 64) by (rewrite Hd; destruct (double_sign b); lia).
  assert (Hs2 : double_sign (double_of_float (float_of_double b)) = double_sign b).
  { rewrite (double_sign_ge _ Hrange), Hd. destruct (double_sign b); [apply Z.leb_le|apply Z.leb_gt]; lia. }
  unfold double_key in He. rewrite Hs2 in He. destruct (double_sign b); lia.
Qed.

(** The infinities. *)
Lemma inf_bits b : 0 <= b < 2 ^ 64 -> isfinite b = false -> isnan b = false -> b = 0x7FF * 2 ^ 52 \/ b = 0x7FF * 2 ^ 52 + 2 ^ 63.
Proof.
  intros Hb Hfin Hnan. unfold isfinite in Hfin. apply negb_false_iff in Hfin. unfold isnan in Hnan. rewrite Hfin in Hnan. cbn [andb] in Hnan.
  apply negb_false_iff, Z.eqb_eq in Hnan. apply Z.eqb_eq in Hfin.
  unfold double_exp in Hfin. change 0x7FF with (Z.ones 11) in Hfin. rewrite Z.land_ones, Z.shiftr_div_pow2 in Hfin by lia.
  unfold double_man in Hnan. replace (2 ^ 52 - 1) with (Z.ones 52) in Hnan by done. rewrite Z.land_ones in Hnan by lia.
  change (Z.ones 11) with 2047 in Hfin.
  pose proof (Z.div_mod b (2 ^ 52) ltac:(lia)) as E1. pose proof (Z.div_mod (b / 2 ^ 52) (2 ^ 11) ltac:(lia)) as E2.
  assert (0 <= b / 2 ^ 52 / 2 ^ 11 < 2).
  { split; [apply Z.div_pos; [apply Z.div_pos|]; lia|]. apply Z.div_lt_upper_bound; [lia|]. apply Z.div_lt_upper_bound; lia. }
  rewrite Hnan in E1. rewrite Hfin in E2. lia.
Qed.

(** They are read back too. *)
Lemma compact_inf_back b : 0 <= b < 2 ^ 64 -> isfinite b = false -> isnan b = false -> double_of_float (float_of_double b) = b.
Proof. intros Hb Hfin Hnan. destruct (inf_bits b Hb Hfin Hnan) as [-> | ->]; vm_compute; reflexivity. Qed.

(** ** Lemmas: the handler *)

Lemma dom_events_app evs evs' s : dom_events (evs ++ evs') s = (s ← dom_events evs s; dom_events evs' s).
Proof. revert s. induction evs as [|ev evs IH]; intros s; [done|]. simpl. destruct (dom_event ev s); [apply IH|done]. Qed.

Lemma sax_eta s : Sax (root s) (ref_stack s) = s.
Proof. by destruct s. Qed.

(** The events of a value hand it to the container that is being filled. *)
Lemma dom_events_of j s : json_ok j -> dom_events (events_of j) s = Some (handle_value j s).
Proof.
  revert s. induction j as [|m IH|l IH|t|b|z|z|z|] using json_induct; intros s Hj; try done.
  - apply json_ok_object in Hj as [Hs Hm]. cbn [events_of dom_events dom_event mbind option_bind]. rewrite dom_events_app.
    assert (H : forall m0 k r fs, map_sorted (m0 ++ m) ->
      exists k', dom_events (flat_map (fun e => EvKey e.1 :: events_of e.2) m) (Sax r (InObject m0 k :: fs)) = Some (Sax r (InObject (m0 ++ m) k' :: fs))).
    { clear Hs s. induction IH as [|[k0 x] m Hx _ IHm]; intros m0 k r fs Hs0; [exists k; by rewrite app_nil_r|].
      apply Forall_cons in Hm as [Hx' Hm]. cbn [flat_map]. rewrite dom_events_app. cbn [dom_events dom_event sax_key ref_stack root mbind option_bind].
      assert (Hlt : Forall (fun e => str_ltb e.1 k0 = true) m0) by (eapply sorted_app_below; exact Hs0).
      assert (Hf : map_find k0 m0 = None).
      { clear -Hlt. induction Hlt as [|[k1 y] m0 H _ IH]; [done|]. simpl in *. by rewrite H. }
      cbn [fst snd]. rewrite Hf, Hx by done. cbn [mbind option_bind]. unfold handle_value. cbn [ref_stack root].
      rewrite (map_assign_last k0 JNull m0) by done.
      assert (E : map_assign k0 x (m0 ++ [(k0, JNull)]) = m0 ++ [(k0, x)]).
      { clear -Hlt. induction Hlt as [|[k1 y] m0 H _ IH]; simpl; [by rewrite str_ltb_irrefl|]. simpl in H. by rewrite H, IH. }
      cbn [snd]. rewrite E. destruct (IHm Hm (m0 ++ [(k0, x)]) k0 r fs) as [k' Hk']; [by rewrite <- app_assoc|]. exists k'. by rewrite Hk', <- app_assoc. }
    destruct (H [] [] (root s) (ref_stack s)) as [k' Hk']; [done|]. unfold start_object. rewrite Hk'. cbn. by rewrite sax_eta.
  - apply json_ok_array in Hj. cbn [events_of dom_events dom_event mbind option_bind]. rewrite dom_events_app.
    assert (H : forall l0 r fs, dom_events (flat_map events_of l) (Sax r (InArray l0 :: fs)) = Some (Sax r (InArray (l0 ++ l) :: fs))).
    { clear s. induction IH as [|x l Hx _ IHl]; intros l0 r fs; [by rewrite app_nil_r|]. apply Forall_cons in Hj as [Hx' Hj].
      cbn [flat_map]. rewrite dom_events_app, Hx by done. cbn [mbind option_bind]. unfold handle_value. cbn [ref_stack root].
      rewrite IHl by done. by rewrite <- app_assoc. }
    unfold start_array. rewrite H. cbn. by rewrite sax_eta.
Qed.
