(* ===== verification/JsonReads.v ===== *)
(** * Lemmas on the readers and writers of binary JSON

    What the theorems on MessagePack and on CBOR share: numbers and strings are
    read back, the elements of a container too, every read leaves a part of its
    input, and the value that comes back. *)

From S2P Require Import Prelude StdMap JsonNumber Doubles JsonValue JsonLexer JsonParser JsonCompare JsonAccess JsonBinary.

(** ** The value that is read back *)

(** A value whose signed and unsigned numbers are replaced: no format keeps the
    distinction of the two for all numbers. *)
Section Norm.
Variables (fi fu : Z -> json).

Fixpoint norm (j : json) : json :=
  match j with
  | JInteger z => fi z
  | JUnsigned z => fu z
  | JArray l => JArray (map norm l)
  | JObject m => JObject (map (fun e => (e.1, norm e.2)) m)
  | _ => j
  end.
End Norm.

(** MessagePack and CBOR: a signed number that is not negative comes back as an
    unsigned one. *)
Definition mp_signed (z : Z) : json := if 0 <=? z then JUnsigned z else JInteger z.

Definition mp_norm : json -> json := norm mp_signed JUnsigned.

(** There is no NaN, and lengths are within the limits: of a string, an array
    and an object. *)
Section Limits.
Variables (max_str max_array max_object : Z).

Fixpoint within (j : json) : bool :=
  match j with
  | JFloat b => negb (isnan b)
  | JString s => zlen s <=? max_str
  | JArray l => (zlen l <=? max_array) && forallb within l
  | JObject m => (zlen m <=? max_object) && forallb (fun e => (zlen e.1 <=? max_str) && within e.2) m
  | _ => true
  end.
End Limits.

(** ** Lemmas: numbers and strings *)

Lemma ord_byte z : 0 <= z < 256 -> ord (chr z) = z.
Proof. apply ord_chr_small. Qed.

Lemma write_number_1 n : write_number 1 n = [chr n].
Proof. unfold write_number. simpl. by rewrite Z.div_1_r. Qed.

Lemma get_num_bytes k n s : 0 <= n < 256 ^ Z.of_nat k -> get_num k (write_number k n ++ s) = Ok (n, s).
Proof. intros Hn. unfold get_num. rewrite get_be_write. by rewrite Z.mod_small. Qed.

Lemma get_num_signed k n s : (0 < k)%nat -> - (256 ^ Z.of_nat k / 2) <= n < 256 ^ Z.of_nat k / 2 ->
  exists z, get_num k (write_number k n ++ s) = Ok (z, s) /\ signed k z = n.
Proof.
  intros Hk Hn. unfold get_num. rewrite get_be_write. eexists. split; [done|]. rewrite <- be_value_bytes. by apply signed_bytes.
Qed.

Lemma get_chars_app s rest : get_chars (zlen s) (s ++ rest) = Ok (s, rest).
Proof. unfold get_chars. by rewrite get_bytes_app. Qed.

(** The low bits of a control byte. *)
Lemma lor_low base N k : 0 < k -> 0 <= N < 2 ^ k -> base mod 2 ^ k = 0 -> Z.lor base N = base + N.
Proof.
  intros Hk HN Hm. assert (H : Z.land base N = 0).
  { apply Z.bits_inj'. intros i Hi. rewrite Z.land_spec, Z.bits_0. destruct (Z.lt_ge_cases i k).
    - assert (Z.testbit base i = false) as ->; [|done]. rewrite <- (Z.mod_pow2_bits_low base k i), Hm by lia. apply Z.bits_0.
    - rewrite (Z.bits_above_log2 N i), andb_false_r; [done|lia|]. destruct (Z.eq_dec N 0) as [->|]; [simpl; lia|].
      apply Z.lt_le_trans with k; [|lia]. apply Z.log2_lt_pow2; lia. }
  rewrite <- Z.lxor_lor by done. symmetry. by apply Z.add_nocarry_lxor.
Qed.

Lemma land_low base N k : 0 <= k -> 0 <= N < 2 ^ k -> base mod 2 ^ k = 0 -> Z.land (base + N) (Z.ones k) = N.
Proof.
  intros Hk HN Hm. rewrite Z.land_ones by done. assert (0 < 2 ^ k) by (apply Z.pow_pos_nonneg; lia).
  rewrite <- Z.add_mod_idemp_l by lia. rewrite Hm. by apply Z.mod_small.
Qed.

(** ** Lemmas: containers *)

Lemma flat_map_map {A B C} (f : B -> list C) (g : A -> B) l : flat_map f (map g l) = flat_map (fun x => f (g x)) l.
Proof. induction l as [|x l IH]; [done|]. simpl. by rewrite IH. Qed.

Lemma flat_map_length_elem {A B} (f : A -> list B) l x : x ∈ l -> (length (f x) <= length (flat_map f l))%nat.
Proof.
  induction l as [|y l IH]; [by intros ?%not_elem_of_nil|]. intros [->|H%IH]%elem_of_cons; cbn [flat_map]; rewrite length_app; lia.
Qed.

Lemma flat_map_length_count {A B} (f : A -> list B) l : Forall (fun x => f x <> []) l -> (length l <= length (flat_map f l))%nat.
Proof.
  induction 1 as [|x l Hx _ IH]; [done|]. cbn [flat_map]. rewrite length_app. destruct (f x); [done|]. simpl. lia.
Qed.

(** The items of a container, one after the other. *)
Lemma items_read {A} (item : str -> option (read (list sax_event))) (w : A -> str) (evs : A -> list sax_event) l fuel rest :
  Forall (fun x => forall rest, item (w x ++ rest) = Some (Ok (evs x, rest))) l -> (length l <= fuel)%nat ->
  read_items item fuel (zlen l) (flat_map w l ++ rest) = Some (Ok (flat_map evs l, rest)).
Proof.
  intros Hl. revert fuel. induction Hl as [|x l Hx _ IH]; intros fuel Hf; [by destruct fuel|].
  destruct fuel as [|fuel]; [simpl in Hf; lia|]. cbn [read_items flat_map]. rewrite zlen_cons.
  pose proof (zlen_nonneg l). destruct (Z.leb_spec (zlen l + 1) 0); [lia|]. rewrite <- app_assoc, Hx. cbn [mbind option_bind].
  replace (zlen l + 1 - 1) with (zlen l) by lia. rewrite IH by (simpl in Hf; lia). done.
Qed.

(** ** Lemmas: the value that is read back *)

(** The fields of [within] on containers. *)
Lemma within_array a b c l : within a b c (JArray l) = true -> zlen l <= b /\ Forall (fun x => within a b c x = true) l.
Proof.
  cbn [within]. intros [H1%Z.leb_le H2]%andb_prop. split; [done|]. apply Forall_forall. intros x Hx. rewrite forallb_forall in H2.
  apply H2. by apply list_elem_of_In.
Qed.

Lemma within_object a b c m : within a b c (JObject m) = true ->
  zlen m <= c /\ Forall (fun e => zlen e.1 <= a /\ within a b c e.2 = true) m.
Proof.
  cbn [within]. intros [H1%Z.leb_le H2]%andb_prop. split; [done|]. apply Forall_forall. intros e He. rewrite forallb_forall in H2.
  apply list_elem_of_In in He. specialize (H2 e He). apply andb_prop in H2 as [?%Z.leb_le ?]. done.
Qed.

(** Numbers that are replaced by equal ones. *)
Definition same_number (f : Z -> json) (mk : Z -> json) : Prop :=
  forall z, json_ok (mk z) -> json_ok (f z) /\ json_eq (f z) (mk z) = true.

Section NormLemmas.
Context (fi fu : Z -> json).
Hypotheses (Hfi : same_number fi JInteger) (Hfu : same_number fu JUnsigned).

Lemma norm_ok j : json_ok j -> json_ok (norm fi fu j).
Proof.
  induction j as [|m IH|l IH|s|b|z|z|z|] using json_induct; intros Hj; try exact Hj; [..|by apply Hfi|by apply Hfu].
  - apply json_ok_object in Hj as [Hs Hm]. cbn [norm]. apply json_ok_object. split.
    + clear -Hs. induction m as [|[k v] m IH]; [constructor|]. apply map_sorted_cons in Hs as [Hs Hf]. cbn [map fst snd].
      apply map_sorted_cons. split; [by apply IH|]. apply Forall_map. by eapply Forall_impl.
    + apply Forall_map. rewrite Forall_forall in IH, Hm |- *. intros e He. simpl. apply IH; auto.
  - apply json_ok_array in Hj. cbn [norm]. apply json_ok_array, Forall_map. rewrite Forall_forall in IH, Hj |- *. auto.
Qed.

Lemma norm_eq ms ma mo j : json_ok j -> within ms ma mo j = true -> json_eq (norm fi fu j) j = true.
Proof.
  induction j as [|m IH|l IH|s|b|z|z|z|] using json_induct; intros Hj Hm; try by apply json_eq_refl_iff.
  - apply json_ok_object in Hj as [_ Hj]. apply within_object in Hm as [_ Hm]. cbn [norm json_eq].
    induction IH as [|[k v] m Hv _ IHm]; [done|]. apply Forall_cons in Hj as [Hj1 Hj], Hm as [[_ Hm1] Hm]. cbn [map fst snd map_eq_by] in *.
    rewrite Hv, IHm by done. unfold str_eqb. by rewrite bool_decide_eq_true_2.
  - apply json_ok_array in Hj. apply within_array in Hm as [_ Hm]. cbn [norm json_eq].
    induction IH as [|x l Hx _ IHl]; [done|]. apply Forall_cons in Hj as [Hj1 Hj], Hm as [Hm1 Hm]. cbn [map vec_eq]. by rewrite Hx, IHl.
  - by apply Hfi.
  - by apply Hfu.
Qed.
End NormLemmas.

Lemma same_unsigned : same_number JUnsigned JUnsigned.
Proof. intros z Hz. split; [done|]. cbn [json_eq]. apply Z.eqb_refl. Qed.

Lemma same_mp_signed : same_number mp_signed JInteger.
Proof.
  intros z Hz. unfold mp_signed. cbn [json_ok] in Hz. destruct (Z.leb_spec 0 z); (split; [cbn [json_ok]; lia|]); cbn [json_eq]; [|apply Z.eqb_refl].
  rewrite i64_small by lia. apply Z.eqb_refl.
Qed.

Lemma mp_norm_ok j : json_ok j -> json_ok (mp_norm j).
Proof. apply norm_ok; [apply same_mp_signed|apply same_unsigned]. Qed.

Lemma mp_norm_eq ms ma mo j : json_ok j -> within ms ma mo j = true -> json_eq (mp_norm j) j = true.
Proof. apply norm_eq; [apply same_mp_signed|apply same_unsigned]. Qed.

(** ** Lemmas: what is left of the input *)

Definition read_error (e : exn) : Prop := e = parse_error 110 \/ e = parse_error 112 \/ e = parse_error 113.

(** A read leaves at most the bytes it was given, or reports one of the errors. *)
Definition sane {A} (s : str) (r : read A) : Prop :=
  match r with Ok (_, rest) => (length rest <= length s)%nat | Throw e => read_error e end.

Lemma sane_ok {A} (x : A) s rest : (length rest <= length s)%nat -> sane s (Ok (x, rest)).
Proof. done. Qed.

Lemma sane_bind {A B} (r : read A) (f : A * str -> read B) s :
  sane s r -> (forall x rest, (length rest <= length s)%nat -> sane s (f (x, rest))) -> sane s (r ≫= f).
Proof. destruct r as [[x rest]|e]; cbn; auto. Qed.

Lemma sane_num k s s0 : (length s <= length s0)%nat -> sane s0 (get_num k s).
Proof.
  intros Hs. unfold get_num, get_be. destruct (_ <? k)%nat; [by left|]. cbn. rewrite length_drop. lia.
Qed.

Lemma sane_chars n s s0 : (length s <= length s0)%nat -> sane s0 (get_chars n s).
Proof.
  intros Hs. unfold get_chars, get_bytes. destruct (_ <? n); [by left|]. cbn. rewrite length_drop. lia.
Qed.

Create HintDb reads.
#[export] Hint Resolve sane_ok sane_num sane_chars : reads.

(** Follows the structure of a reader. *)
Ltac sane_tac :=
  repeat first
    [ apply sane_bind; [auto with reads|intros ? ? ?; cbv beta iota]
    | match goal with |- sane _ (if ?b then _ else _) => destruct b end
    | match goal with |- sane _ (Throw _) => cbn; unfold read_error; auto end
    | solve [auto with reads] ].

(** A reader that ends: it leaves at most the bytes it was given, and less for
    [progress]; its errors satisfy [P]. *)
Definition ends {A} (P : exn -> Prop) (s : str) (r : option (read A)) : Prop :=
  match r with
  | None => False
  | Some (Ok (_, rest)) => (length rest <= length s)%nat
  | Some (Throw e) => P e
  end.

Definition progress {A} (P : exn -> Prop) (s : str) (r : option (read A)) : Prop :=
  match r with
  | None => False
  | Some (Ok (_, rest)) => (length rest < length s)%nat
  | Some (Throw e) => P e
  end.

Lemma items_progress {A} P (item : str -> option (read (list A))) fuel n s :
  (forall t, (length t <= length s)%nat -> progress P t (item t)) -> (length s < fuel)%nat -> ends P s (read_items item fuel n s).
Proof.
  revert n s. induction fuel as [|fuel IH]; intros n s Hi Hf; [lia|]. cbn [read_items]. destruct (n <=? 0); [cbn; lia|].
  pose proof (Hi s (le_n _)) as H. destruct (item s) as [[[evs t]|e]|]; cbn in H; [|done..]. cbn [mbind option_bind].
  assert (Hi' : forall u, (length u <= length t)%nat -> progress P u (item u)) by (intros u Hu; apply Hi; lia).
  specialize (IH (n - 1) t Hi' ltac:(lia)). destruct (read_items item fuel (n - 1) t) as [[[evs' u]|e]|]; cbn in *; [lia|done..].
Qed.

Lemma wrap_ends P before after s r : ends P s r -> ends P s (wrap_events before after r).
Proof. by destruct r as [[[evs t]|e]|]. Qed.

Lemma progress_cons {A} P c s (r : option (read A)) : ends P s r -> progress P (c :: s) r.
Proof. destruct r as [[[x t]|e]|]; cbn; [lia|done..]. Qed.

Lemma dom_events_none evs s : dom_events evs s = None -> exists b t, EvBinary b t ∈ evs.
Proof.
  revert s. induction evs as [|ev evs IH]; intros s; [done|]. cbn [dom_events]. destruct (dom_event ev s) as [s'|] eqn:E.
  - intros H. destruct (IH s' H) as (b & t & Hin). exists b, t. by right.
  - intros _. destruct ev; try done. eexists _, _. left.
Qed.


(** ** A binary format *)

(** What [parse] makes of the bytes [w] in front of others. *)
Definition reads_as (parse : nat -> str -> option (read (list sax_event))) (w : str) (evs : list sax_event) : Prop :=
  forall fuel rest, (length w <= fuel)%nat -> parse fuel (w ++ rest) = Some (Ok (evs, rest)).

(** What the writer and the reader of a format agree upon: how a container
    begins, how a key is written, and all that is not a container. *)
Class BinaryFormat (write : json -> str) (parse : nat -> str -> option (read (list sax_event))) (max_str max_array max_object : Z) := {
  write_key : str -> str;
  array_head : Z -> str;
  map_head : Z -> str;
  member : (str -> option (read (list sax_event))) -> str -> option (read (list sax_event));
  write_array l : write (JArray l) = array_head (zlen l) ++ flat_map write l;
  write_object m : write (JObject m) = map_head (zlen m) ++ flat_map (fun e => write_key e.1 ++ write e.2) m;
  write_key_nonempty k : zlen k <= max_str -> write_key k <> [];
  head_nonempty N : 0 <= N -> (N <= max_array -> array_head N <> []) /\ (N <= max_object -> map_head N <> []);
  parse_array N fuel rest : 0 <= N <= max_array ->
    parse (S fuel) (array_head N ++ rest) = wrap_events [EvStartArray] [EvEndArray] (read_items (parse fuel) fuel N rest);
  parse_object N fuel rest : 0 <= N <= max_object ->
    parse (S fuel) (map_head N ++ rest) = wrap_events [EvStartObject] [EvEndObject] (read_items (member (parse fuel)) fuel N rest);
  read_member k value rest : zlen k <= max_str -> member value (write_key k ++ rest) = wrap_events [EvKey k] [] (value rest);
  parse_empty fuel evs s : parse fuel [] <> Some (Ok (evs, s));
  read_scalar j : (forall l, j <> JArray l) -> (forall m, j <> JObject m) -> json_ok j -> within max_str max_array max_object j = true ->
    reads_as parse (write j) (events_of (mp_norm j));
}.

Section Format.
Context `{BF : BinaryFormat write parse max_str max_array max_object}.

Definition written (j : json) : Prop :=
  json_ok j -> within max_str max_array max_object j = true -> write j <> [] /\ reads_as parse (write j) (events_of (mp_norm j)).

Lemma written_array l : Forall written l -> written (JArray l).
Proof.
  intros IH Hj%json_ok_array [Hlen Hm]%within_array. pose proof (zlen_nonneg l) as H0.
  assert (Hl : Forall (fun x => write x <> [] /\ reads_as parse (write x) (events_of (mp_norm x))) l).
  { rewrite Forall_forall in IH, Hj, Hm |- *. intros x Hx. apply IH; auto. }
  assert (Hne : Forall (fun x => write x <> []) l) by (eapply Forall_impl; [exact Hl|by intros x [H _]]).
  pose proof (proj1 (head_nonempty (zlen l) H0) Hlen) as Hh. rewrite write_array. unfold mp_norm. cbn [norm events_of]. rewrite flat_map_map.
  split; [by intros [? _]%app_eq_nil|]. intros fuel rest Hf. rewrite length_app in Hf.
  destruct (array_head (zlen l)) as [|c w] eqn:E; [done|]. rewrite <- E. cbn [length] in Hf. destruct fuel as [|fuel]; [lia|].
  rewrite <- app_assoc, parse_array by lia. rewrite (items_read _ write (fun x => events_of (mp_norm x))).
  - done.
  - rewrite Forall_forall in Hl |- *. intros x Hx rest'. apply Hl; [done|]. pose proof (flat_map_length_elem write l x Hx). lia.
  - pose proof (flat_map_length_count write l Hne). lia.
Qed.

Lemma written_object m : Forall (fun e => written e.2) m -> written (JObject m).
Proof.
  intros IH [_ Hj]%json_ok_object [Hlen Hm]%within_object. pose proof (zlen_nonneg m) as H0.
  assert (Hl : Forall (fun e => zlen e.1 <= max_str /\ reads_as parse (write e.2) (events_of (mp_norm e.2))) m).
  { rewrite Forall_forall in IH, Hj, Hm |- *. intros e He. destruct (Hm e He) as [Hk Hv]. split; [done|]. apply IH; auto. }
  set (wr := fun e : str * json => write_key e.1 ++ write e.2).
  assert (Hne : Forall (fun e => wr e <> []) m).
  { eapply Forall_impl; [exact Hl|]. intros e [Hk _] [H _]%app_eq_nil. by apply (write_key_nonempty e.1 Hk). }
  pose proof (proj2 (head_nonempty (zlen m) H0) Hlen) as Hh. rewrite write_object. fold wr. unfold mp_norm. cbn [norm events_of]. rewrite flat_map_map.
  split; [by intros [? _]%app_eq_nil|]. intros fuel rest Hf. rewrite length_app in Hf.
  destruct (map_head (zlen m)) as [|c w] eqn:E; [done|]. rewrite <- E. cbn [length] in Hf. destruct fuel as [|fuel]; [lia|].
  rewrite <- app_assoc, parse_object by lia. rewrite (items_read _ wr (fun e => EvKey e.1 :: events_of (mp_norm e.2))).
  - done.
  - rewrite Forall_forall in Hl |- *. intros e He rest'. destruct (Hl e He) as [Hk Hv]. unfold wr.
    pose proof (flat_map_length_elem wr m e He) as Hle. unfold wr in Hle at 1. rewrite length_app in Hle.
    rewrite <- app_assoc, read_member, (Hv fuel) by (lia || done). cbn. by rewrite app_nil_r.
  - pose proof (flat_map_length_count wr m Hne). lia.
Qed.

Lemma written_scalar j : (forall l, j <> JArray l) -> (forall m, j <> JObject m) -> written j.
Proof.
  intros Ha Ho Hj Hw. pose proof (read_scalar j Ha Ho Hj Hw) as Hr. split; [|done]. intros E. rewrite E in Hr.
  by apply (parse_empty 0 _ _ (Hr 0%nat [] (le_n _))).
Qed.

(** What is written is read back, whatever follows it. *)
Lemma all_written j : written j.
Proof.
  induction j as [|m IH|l IH|s|b|z|z|z|] using json_induct;
    [by apply written_scalar|by apply written_object|by apply written_array|by apply written_scalar..].
Qed.
End Format.
