(* ===== verification/JsonMsgpack.v ===== *)
(** * MessagePack (write_msgpack and parse_msgpack_internal)

    The writer of class binary_writer and the reader of class binary_reader of
    include/nlohmann/json.hpp.  The reader calls the SAX interface; here it
    returns the events, and the bytes that are left.  The lengths of containers
    are below 2^32, so that the handler does not find them excessive. *)

From S2P Require Import Prelude StdMap JsonNumber Doubles JsonValue JsonLexer JsonParser JsonCompare JsonAccess JsonBinary.

(** ** Writer *)

(** The cases of [value_t::number_unsigned], which are those of a signed
    number that is not negative. *)
Definition mp_unsigned (n : Z) : str :=
  if n <? 128 then write_number 1 n
  else if n <=? 2 ^ 8 - 1 then byte 0xCC ++ write_number 1 n
  else if n <=? 2 ^ 16 - 1 then byte 0xCD ++ write_number 2 n
  else if n <=? 2 ^ 32 - 1 then byte 0xCE ++ write_number 4 n
  else byte 0xCF ++ write_number 8 n.

Definition mp_integer (n : Z) : str :=
  if 0 <=? n then mp_unsigned n
  else if -32 <=? n then write_number 1 n
  else if - 2 ^ 7 <=? n then byte 0xD0 ++ write_number 1 n
  else if - 2 ^ 15 <=? n then byte 0xD1 ++ write_number 2 n
  else if - 2 ^ 31 <=? n then byte 0xD2 ++ write_number 4 n
  else byte 0xD3 ++ write_number 8 n.

(** [write_compact_float] with the prefixes of MessagePack. *)
Definition mp_float (b : Z) : str :=
  if compact_float b then byte 0xCA ++ write_number 4 (float_of_double b) else byte 0xCB ++ write_number 8 b.

(** The control byte and the length of a string, an array, an object. *)
Definition mp_str_head (N : Z) : str :=
  if N <=? 31 then write_number 1 (Z.lor 0xA0 N)
  else if N <=? 2 ^ 8 - 1 then byte 0xD9 ++ write_number 1 N
  else if N <=? 2 ^ 16 - 1 then byte 0xDA ++ write_number 2 N
  else if N <=? 2 ^ 32 - 1 then byte 0xDB ++ write_number 4 N
  else [].

Definition mp_array_head (N : Z) : str :=
  if N <=? 15 then write_number 1 (Z.lor 0x90 N)
  else if N <=? 2 ^ 16 - 1 then byte 0xDC ++ write_number 2 N
  else if N <=? 2 ^ 32 - 1 then byte 0xDD ++ write_number 4 N
  else [].

Definition mp_map_head (N : Z) : str :=
  if N <=? 15 then write_number 1 (Z.lor 0x80 (Z.land N 0xF))
  else if N <=? 2 ^ 16 - 1 then byte 0xDE ++ write_number 2 N
  else if N <=? 2 ^ 32 - 1 then byte 0xDF ++ write_number 4 N
  else [].

Definition mp_str (s : str) : str := mp_str_head (zlen s) ++ s.

(** The case of a binary value, with its subtype: bin, or ext and fixext. *)
Definition mp_binary (b : str) (subtype : option Z) : str :=
  let N := zlen b in
  let sized bin ext k := byte (match subtype with Some _ => ext | None => bin end) ++ write_number k N in
  (if N <=? 2 ^ 8 - 1 then
     match subtype with
     | Some _ =>
         if N =? 1 then byte 0xD4
         else if N =? 2 then byte 0xD5
         else if N =? 4 then byte 0xD6
         else if N =? 8 then byte 0xD7
         else if N =? 16 then byte 0xD8
         else sized 0xC4 0xC7 1%nat
     | None => sized 0xC4 0xC7 1%nat
     end
   else if N <=? 2 ^ 16 - 1 then sized 0xC5 0xC8 2%nat
   else if N <=? 2 ^ 32 - 1 then sized 0xC6 0xC9 4%nat
   else []) ++
  match subtype with Some t => write_number 1 t | None => [] end ++ b.

(** [write_msgpack(j)] *)
Fixpoint write_msgpack (j : json) : str :=
  match j with
  | JNull => byte 0xC0
  | JBool b => byte (if b then 0xC3 else 0xC2)
  | JInteger n => mp_integer n
  | JUnsigned n => mp_unsigned n
  | JFloat b => mp_float b
  | JString s => mp_str s
  | JArray l => mp_array_head (zlen l) ++ flat_map write_msgpack l
  | JObject m => mp_map_head (zlen m) ++ flat_map (fun e => mp_str e.1 ++ write_msgpack e.2) m
  | JDiscarded => []
  end.

(** ** Reader *)

(** [get_msgpack_string] after the control byte [cur]. *)
Definition get_msgpack_string (cur : Z) (s : str) : read str :=
  if (0xA0 <=? cur) && (cur <=? 0xBF) then get_chars (Z.land cur 0x1F) s
  else if cur =? 0xD9 then '(len, s) ← get_num 1 s; get_chars len s
  else if cur =? 0xDA then '(len, s) ← get_num 2 s; get_chars len s
  else if cur =? 0xDB then '(len, s) ← get_num 4 s; get_chars len s
  else Throw (parse_error 113).

(** A byte array of an ext type, behind its subtype. *)
Definition get_ext (len : Z) (s : str) : read sax_event :=
  '(subtype, s) ← get_num 1 s;
  '(b, s) ← get_chars len s;
  Ok (EvBinary b (Some subtype), s).

(** [get_msgpack_binary] *)
Definition get_msgpack_binary (cur : Z) (s : str) : read sax_event :=
  let bin k := '(len, s) ← get_num k s; '(b, s) ← get_chars len s; Ok (EvBinary b None, s) in
  let ext k := '(len, s) ← get_num k s; get_ext len s in
  if cur =? 0xC4 then bin 1%nat
  else if cur =? 0xC5 then bin 2%nat
  else if cur =? 0xC6 then bin 4%nat
  else if cur =? 0xC7 then ext 1%nat
  else if cur =? 0xC8 then ext 2%nat
  else if cur =? 0xC9 then ext 4%nat
  else if cur =? 0xD4 then get_ext 1 s
  else if cur =? 0xD5 then get_ext 2 s
  else if cur =? 0xD6 then get_ext 4 s
  else if cur =? 0xD7 then get_ext 8 s
  else get_ext 16 s.

(** The values that are not containers: the event, and the rest. *)
Definition parse_scalar (cur : Z) (s : str) : read sax_event :=
  let number k mk := '(n, s) ← get_num k s; Ok (mk n, s) in
  if cur <=? 0x7F then Ok (EvUnsigned cur, s)
  else if ((0xA0 <=? cur) && (cur <=? 0xBF)) || ((0xD9 <=? cur) && (cur <=? 0xDB)) then
    '(t, s) ← get_msgpack_string cur s; Ok (EvString t, s)
  else if cur =? 0xC0 then Ok (EvNull, s)
  else if cur =? 0xC2 then Ok (EvBool false, s)
  else if cur =? 0xC3 then Ok (EvBool true, s)
  else if ((0xC4 <=? cur) && (cur <=? 0xC9)) || ((0xD4 <=? cur) && (cur <=? 0xD8)) then get_msgpack_binary cur s
  else if cur =? 0xCA then number 4%nat (fun n => EvFloat (double_of_float n))
  else if cur =? 0xCB then number 8%nat EvFloat
  else if cur =? 0xCC then number 1%nat EvUnsigned
  else if cur =? 0xCD then number 2%nat EvUnsigned
  else if cur =? 0xCE then number 4%nat EvUnsigned
  else if cur =? 0xCF then number 8%nat EvUnsigned
  else if cur =? 0xD0 then number 1%nat (fun n => EvInteger (signed 1 n))
  else if cur =? 0xD1 then number 2%nat (fun n => EvInteger (signed 2 n))
  else if cur =? 0xD2 then number 4%nat (fun n => EvInteger (signed 4 n))
  else if cur =? 0xD3 then number 8%nat (fun n => EvInteger (signed 8 n))
  else if 0xE0 <=? cur then Ok (EvInteger (signed 1 cur), s)
  else Throw (parse_error 112).

(** The length of a container, if the byte begins one: [true] for an object. *)
Definition container_head (cur : Z) (s : str) : option (read (bool * Z)) :=
  let sized b k := Some ('(len, s) ← get_num k s; Ok ((b, len), s)) in
  if (0x80 <=? cur) && (cur <=? 0x8F) then Some (Ok ((true, Z.land cur 0x0F), s))
  else if (0x90 <=? cur) && (cur <=? 0x9F) then Some (Ok ((false, Z.land cur 0x0F), s))
  else if cur =? 0xDC then sized false 2%nat
  else if cur =? 0xDD then sized false 4%nat
  else if cur =? 0xDE then sized true 2%nat
  else if cur =? 0xDF then sized true 4%nat
  else None.

(** The key of a member, then [value]. *)
Definition mp_member (value : str -> option (read (list sax_event))) (s : str) : option (read (list sax_event)) :=
  match s with
  | [] => Some (Throw (parse_error 110))
  | c :: s =>
      match get_msgpack_string (ord c) s with
      | Throw e => Some (Throw e)
      | Ok (k, s) =>
          r ← value s;
          match r with
          | Throw e => Some (Throw e)
          | Ok (evs, s) => Some (Ok (EvKey k :: evs, s))
          end
      end
  end.

(** [parse_msgpack_internal]; [fuel] bounds the calls and the elements, each of
    which takes a byte at least. *)
Fixpoint parse_msgpack (fuel : nat) (s : str) : option (read (list sax_event)) :=
  match fuel with
  | O => None
  | S fuel' =>
      match s with
      | [] => Some (Throw (parse_error 110))
      | c :: s =>
          match container_head (ord c) s with
          | None =>
              match parse_scalar (ord c) s with
              | Throw e => Some (Throw e)
              | Ok (ev, s) => Some (Ok ([ev], s))
              end
          | Some (Throw e) => Some (Throw e)
          | Some (Ok ((is_map, len), s)) =>
              r ← read_items (if is_map then mp_member (parse_msgpack fuel') else parse_msgpack fuel') fuel' len s;
              match r with
              | Throw e => Some (Throw e)
              | Ok (evs, s) =>
                  Some (Ok (if is_map then EvStartObject :: evs ++ [EvEndObject] else EvStartArray :: evs ++ [EvEndArray], s))
              end
          end
      end
  end.

(** [sax_parse(msgpack, sax, strict)] *)
Definition sax_msgpack (strict : bool) (input : str) : option (res (list sax_event)) :=
  r ← parse_msgpack (S (length input)) input;
  match r with
  | Throw e => Some (Throw e)
  | Ok (evs, rest) =>
      if strict && match rest with [] => false | _ => true end then Some (Throw (parse_error 110)) else Some (Ok evs)
  end.

(** [from_msgpack(input, strict)]: [None] for an input with a binary value. *)
Definition from_msgpack (strict : bool) (input : str) : option (res json) :=
  r ← sax_msgpack strict input;
  match r with
  | Throw e => Some (Throw e)
  | Ok evs => s ← dom_events evs new_sax; Some (Ok (root s))
  end.

Definition mp_doc : json :=
  JObject [($"a", JArray [JNull; JBool true; JInteger (-33); JUnsigned 300]); ($"b", JFloat 0x3FF8000000000000); ($"c", JString $"xyz")].

Example msgpack_ex : write_msgpack mp_doc =
  map chr [0x83; 0xA1; 97; 0x94; 0xC0; 0xC3; 0xD0; 0xDF; 0xCD; 1; 44; 0xA1; 98; 0xCA; 0x3F; 0xC0; 0; 0; 0xA1; 99; 0xA3; 120; 121; 122].
Proof. by_compute. Qed.
Example msgpack_back : from_msgpack true (write_msgpack mp_doc) = Some (Ok mp_doc).
Proof. by_compute. Qed.
Example msgpack_trailing : from_msgpack true (map chr [0xC0; 0]) = Some (Throw (parse_error 110)).
Proof. by_compute. Qed.
Example msgpack_key : from_msgpack true (map chr [0x81; 0xC0; 0]) = Some (Throw (parse_error 113)).
Proof. by_compute. Qed.
