(* ===== verification/JsonMsgpackSpec.v ===== *)
(** * Theorems on MessagePack

    What is written is read back, which is shown with the interface of a binary
    format, and the reader ends on every input. *)

From S2P Require Import Prelude StdMap JsonNumber Doubles JsonValue JsonLexer JsonParser JsonCompare JsonAccess JsonBinary JsonReads JsonMsgpack.

(** ** Lemmas: scalars *)

(** A byte that begins a scalar. *)
Lemma reads_scalar cur w ev :
  0 <= cur < 256 -> (forall s, container_head cur s = None) ->
  (forall rest, parse_scalar cur (w ++ rest) = Ok (ev, rest)) -> reads_as parse_msgpack (byte cur ++ w) [ev].
Proof.
  intros Hc Hh Hs [|fuel] rest Hf; [simpl in Hf; lia|]. cbn [parse_msgpack byte app]. rewrite ord_byte by done. by rewrite Hh, Hs.
Qed.

Lemma reads_number cur k n ev mk :
  0 <= cur < 256 -> (forall s, container_head cur s = None) ->
  (forall s, parse_scalar cur s = ('(n, s) ← get_num k s; Ok (mk n, s))) ->
  (forall rest, exists z, get_num k (write_number k n ++ rest) = Ok (z, rest) /\ mk z = ev) ->
  reads_as parse_msgpack (byte cur ++ write_number k n) [ev].
Proof.
  intros Hc Hh Hs Hn. apply reads_scalar; [done..|]. intros rest. rewrite Hs. destruct (Hn rest) as (z & -> & <-). done.
Qed.

Lemma reads_fix cur ev :
  0 <= cur < 256 -> (forall s, container_head cur s = None) -> (forall s, parse_scalar cur s = Ok (ev, s)) -> reads_as parse_msgpack [chr cur] [ev].
Proof. intros Hc Hh Hs. apply (reads_scalar cur [] ev Hc Hh). intros rest. apply Hs. Qed.

Lemma plain k n : 0 <= n < 256 ^ Z.of_nat k -> forall rest, exists z, get_num k (write_number k n ++ rest) = Ok (z, rest) /\ EvUnsigned z = EvUnsigned n.
Proof. intros Hn rest. exists n. by rewrite get_num_bytes. Qed.

Lemma twos k n : (0 < k)%nat -> - (256 ^ Z.of_nat k / 2) <= n < 256 ^ Z.of_nat k / 2 ->
  forall rest, exists z, get_num k (write_number k n ++ rest) = Ok (z, rest) /\ EvInteger (signed k z) = EvInteger n.
Proof. intros Hk Hn rest. destruct (get_num_signed k n rest Hk Hn) as (z & -> & <-). by exists z. Qed.

Lemma reads_unsigned n : 0 <= n < 2 ^ 64 -> reads_as parse_msgpack (mp_unsigned n) [EvUnsigned n].
Proof.
  intros Hn. unfold mp_unsigned.
  destruct (Z.ltb_spec n 128); [|destruct (Z.leb_spec n (2 ^ 8 - 1)); [|destruct (Z.leb_spec n (2 ^ 16 - 1)); [|destruct (Z.leb_spec n (2 ^ 32 - 1))]]].
  - rewrite write_number_1. apply reads_fix; [lia|..]; intros s.
    + unfold container_head. by rewrite !(proj2 (Z.leb_gt _ n)), !(proj2 (Z.eqb_neq n _)) by lia.
    + unfold parse_scalar. by rewrite (proj2 (Z.leb_le n 0x7F)) by lia.
  - apply (reads_number 0xCC 1 n _ EvUnsigned); [lia|done|done|]. apply plain. simpl. lia.
  - apply (reads_number 0xCD 2 n _ EvUnsigned); [lia|done|done|]. apply plain. simpl. lia.
  - apply (reads_number 0xCE 4 n _ EvUnsigned); [lia|done|done|]. apply plain. simpl. lia.
  - apply (reads_number 0xCF 8 n _ EvUnsigned); [lia|done|done|]. apply plain. simpl. lia.
Qed.

Lemma reads_integer n : - 2 ^ 63 <= n < 2 ^ 63 -> reads_as parse_msgpack (mp_integer n) (events_of (mp_norm (JInteger n))).
Proof.
  intros Hn. unfold mp_integer. unfold mp_norm. cbn [norm]. unfold mp_signed. destruct (Z.leb_spec 0 n); [apply reads_unsigned; lia|]. cbn [events_of].
  destruct (Z.leb_spec (-32) n); [|destruct (Z.leb_spec (- 2 ^ 7) n); [|destruct (Z.leb_spec (- 2 ^ 15) n); [|destruct (Z.leb_spec (- 2 ^ 31) n)]]].
  - rewrite write_number_1. assert (E : chr n = chr (n + 256)) by (unfold chr; do 2 f_equal; rewrite <- (Z.mod_add n 1) by lia; f_equal; lia).
    rewrite E. apply reads_fix; [lia|..]; intros s.
    + unfold container_head. rewrite !(proj2 (Z.leb_gt (n + 256) _)), !andb_false_r, !(proj2 (Z.eqb_neq (n + 256) _)) by lia. done.
    + unfold parse_scalar. rewrite !(proj2 (Z.leb_gt (n + 256) _)), !andb_false_r, !(proj2 (Z.eqb_neq (n + 256) _)), (proj2 (Z.leb_le 0xE0 (n + 256))) by lia.
      cbn [orb]. do 3 f_equal. unfold signed. change (256 ^ Z.of_nat 1) with 256. cbv zeta. destruct (Z.ltb_spec (2 * (n + 256)) 256); lia.
  - apply (reads_number 0xD0 1 n _ (fun n => EvInteger (signed 1 n))); [lia|done|done|].
    apply twos; [lia|]. change (256 ^ Z.of_nat 1 / 2) with (2 ^ 7). lia.
  - apply (reads_number 0xD1 2 n _ (fun n => EvInteger (signed 2 n))); [lia|done|done|].
    apply twos; [lia|]. change (256 ^ Z.of_nat 2 / 2) with (2 ^ 15). lia.
  - apply (reads_number 0xD2 4 n _ (fun n => EvInteger (signed 4 n))); [lia|done|done|].
    apply twos; [lia|]. change (256 ^ Z.of_nat 4 / 2) with (2 ^ 31). lia.
  - apply (reads_number 0xD3 8 n _ (fun n => EvInteger (signed 8 n))); [lia|done|done|].
    apply twos; [lia|]. change (256 ^ Z.of_nat 8 / 2) with (2 ^ 63). lia.
Qed.

Lemma reads_float b : 0 <= b < 2 ^ 64 -> isnan b = false -> reads_as parse_msgpack (mp_float b) [EvFloat b].
Proof.
  intros Hb Hn. unfold mp_float. destruct (compact_float b) eqn:Ec.
  - apply (reads_number 0xCA 4 (float_of_double b) _ (fun n => EvFloat (double_of_float n))); [lia|done|done|].
    intros rest. exists (float_of_double b). rewrite get_num_bytes by (pose proof (float_of_double_range b Hb); simpl; lia).
    split; [done|]. f_equal. destruct (isfinite b) eqn:Ef; [by apply compact_float_back|by apply compact_inf_back].
  - apply (reads_number 0xCB 8 b _ EvFloat); [lia|done|done|]. intros rest. exists b. rewrite get_num_bytes by (simpl; lia). done.
Qed.

(** ** Lemmas: strings and containers *)

(** The control byte and the length of a string, then its characters. *)
Lemma mp_str_reads t : zlen t < 2 ^ 32 ->
  exists c w, mp_str t = c :: w /\ (forall s, container_head (ord c) s = None) /\
    forall rest, get_msgpack_string (ord c) (w ++ rest) = Ok (t, rest) /\ parse_scalar (ord c) (w ++ rest) = Ok (EvString t, rest).
Proof.
  intros Hl. pose proof (zlen_nonneg t) as H0. unfold mp_str, mp_str_head.
  assert (Hsized : forall cur k, 0xD9 <= cur <= 0xDB -> zlen t < 256 ^ Z.of_nat k ->
    (forall s, get_msgpack_string cur s = ('(len, s) ← get_num k s; get_chars len s)) ->
    exists c w, (byte cur ++ write_number k (zlen t)) ++ t = c :: w /\ (forall s, container_head (ord c) s = None) /\
      forall rest, get_msgpack_string (ord c) (w ++ rest) = Ok (t, rest) /\ parse_scalar (ord c) (w ++ rest) = Ok (EvString t, rest)).
  { intros cur k Hc Hk Hg. exists (chr cur), (write_number k (zlen t) ++ t). rewrite ord_byte by lia. split; [done|]. split.
    - intros s. unfold container_head. by rewrite !(proj2 (Z.leb_gt cur _)), !andb_false_r, !(proj2 (Z.eqb_neq cur _)) by lia.
    - intros rest. assert (E : get_msgpack_string cur ((write_number k (zlen t) ++ t) ++ rest) = Ok (t, rest)).
      { rewrite Hg, <- app_assoc, get_num_bytes by lia. cbn [mbind res_bind]. apply get_chars_app. }
      split; [done|]. unfold parse_scalar.
      rewrite (proj2 (Z.leb_gt cur 0x7F)), (proj2 (Z.leb_gt cur 0xBF)), (proj2 (Z.leb_le 0xD9 cur)), (proj2 (Z.leb_le cur 0xDB)), andb_false_r by lia.
      cbn [andb orb]. by rewrite E. }
  destruct (Z.leb_spec (zlen t) 31); [|destruct (Z.leb_spec (zlen t) (2 ^ 8 - 1)); [|destruct (Z.leb_spec (zlen t) (2 ^ 16 - 1)); [|destruct (Z.leb_spec (zlen t) (2 ^ 32 - 1)); [|lia]]]].
  - rewrite write_number_1. rewrite (lor_low 0xA0 (zlen t) 5) by (reflexivity || lia). exists (chr (0xA0 + zlen t)), t. rewrite ord_byte by lia. split; [done|]. split.
    + intros s. unfold container_head. by rewrite !(proj2 (Z.leb_gt (_ + _) _)), !andb_false_r, !(proj2 (Z.eqb_neq (_ + _) _)) by lia.
    + intros rest. assert (E : get_msgpack_string (0xA0 + zlen t) (t ++ rest) = Ok (t, rest)).
      { unfold get_msgpack_string. rewrite (proj2 (Z.leb_le 0xA0 _)), (proj2 (Z.leb_le _ 0xBF)) by lia. cbn [andb].
        change 0x1F with (Z.ones 5). rewrite land_low by (reflexivity || lia). apply get_chars_app. }
      split; [done|]. unfold parse_scalar.
      rewrite (proj2 (Z.leb_gt _ 0x7F)), (proj2 (Z.leb_le 0xA0 _)), (proj2 (Z.leb_le _ 0xBF)) by lia. cbn [andb orb]. by rewrite E.
  - apply (Hsized 0xD9 1%nat); [lia|simpl; lia|done].
  - apply (Hsized 0xDA 2%nat); [lia|simpl; lia|done].
  - apply (Hsized 0xDB 4%nat); [lia|simpl; lia|done].
Qed.

Lemma reads_string t : zlen t < 2 ^ 32 -> reads_as parse_msgpack (mp_str t) [EvString t].
Proof.
  intros Hl. destruct (mp_str_reads t Hl) as (c & w & E & Hh & Hs). intros [|fuel] rest Hf; rewrite E in *; [simpl in Hf; lia|].
  cbn [parse_msgpack app]. by rewrite Hh, (proj2 (Hs rest)).
Qed.

Lemma array_head_reads N : 0 <= N < 2 ^ 32 ->
  exists c w, mp_array_head N = c :: w /\ forall rest, container_head (ord c) (w ++ rest) = Some (Ok ((false, N), rest)).
Proof.
  intros HN. unfold mp_array_head.
  destruct (Z.leb_spec N 15); [|destruct (Z.leb_spec N (2 ^ 16 - 1)); [|destruct (Z.leb_spec N (2 ^ 32 - 1)); [|lia]]].
  - rewrite write_number_1. rewrite (lor_low 0x90 N 4) by (reflexivity || lia). eexists _, []. split; [done|]. intros rest. rewrite ord_byte by lia.
    unfold container_head. rewrite (proj2 (Z.leb_gt _ 0x8F)), andb_false_r, (proj2 (Z.leb_le 0x90 _)), (proj2 (Z.leb_le _ 0x9F)) by lia.
    cbn [andb]. change 0x0F with (Z.ones 4). by rewrite land_low by (reflexivity || lia).
  - eexists _, _. split; [done|]. intros rest. rewrite ord_byte by lia.
    change (container_head 0xDC (write_number 2 N ++ rest)) with (Some ('(len, s) ← get_num 2 (write_number 2 N ++ rest); Ok ((false, len), s))).
    by rewrite get_num_bytes by (simpl; lia).
  - eexists _, _. split; [done|]. intros rest. rewrite ord_byte by lia.
    change (container_head 0xDD (write_number 4 N ++ rest)) with (Some ('(len, s) ← get_num 4 (write_number 4 N ++ rest); Ok ((false, len), s))).
    by rewrite get_num_bytes by (simpl; lia).
Qed.

Lemma map_head_reads N : 0 <= N < 2 ^ 32 ->
  exists c w, mp_map_head N = c :: w /\ forall rest, container_head (ord c) (w ++ rest) = Some (Ok ((true, N), rest)).
Proof.
  intros HN. unfold mp_map_head.
  destruct (Z.leb_spec N 15); [|destruct (Z.leb_spec N (2 ^ 16 - 1)); [|destruct (Z.leb_spec N (2 ^ 32 - 1)); [|lia]]].
  - rewrite write_number_1. change 0xF with (Z.ones 4). replace (Z.land N (Z.ones 4)) with N by (rewrite Z.land_ones, Z.mod_small by lia; done).
    rewrite (lor_low 0x80 N 4) by (reflexivity || lia). eexists _, []. split; [done|]. intros rest. rewrite ord_byte by lia.
    unfold container_head. rewrite (proj2 (Z.leb_le 0x80 _)), (proj2 (Z.leb_le _ 0x8F)) by lia.
    cbn [andb]. change 0x0F with (Z.ones 4). by rewrite land_low by (reflexivity || lia).
  - eexists _, _. split; [done|]. intros rest. rewrite ord_byte by lia.
    change (container_head 0xDE (write_number 2 N ++ rest)) with (Some ('(len, s) ← get_num 2 (write_number 2 N ++ rest); Ok ((true, len), s))).
    by rewrite get_num_bytes by (simpl; lia).
  - eexists _, _. split; [done|]. intros rest. rewrite ord_byte by lia.
    change (container_head 0xDF (write_number 4 N ++ rest)) with (Some ('(len, s) ← get_num 4 (write_number 4 N ++ rest); Ok ((true, len), s))).
    by rewrite get_num_bytes by (simpl; lia).
Qed.

(** ** The format *)

Lemma mp_str_nonempty t : zlen t < 2 ^ 32 -> mp_str t <> [].
Proof. intros Hl. destruct (mp_str_reads t Hl) as (c & w & -> & _). done. Qed.

Definition max32 : Z := 2 ^ 32 - 1.

#[export] Instance msgpack_format : BinaryFormat write_msgpack parse_msgpack max32 max32 max32.
Proof.
  refine {| write_key := mp_str; array_head := mp_array_head; map_head := mp_map_head; member := mp_member |}; try done.
  - intros k Hk. apply mp_str_nonempty. unfold max32 in Hk. lia.
  - intros N H0. unfold max32. split; intros HN.
    + destruct (array_head_reads N) as (c & w & -> & _); [lia|done].
    + destruct (map_head_reads N) as (c & w & -> & _); [lia|done].
  - unfold max32. intros N fuel rest HN. destruct (array_head_reads N) as (c & w & -> & Hh); [lia|]. cbn [app parse_msgpack]. by rewrite Hh.
  - unfold max32. intros N fuel rest HN. destruct (map_head_reads N) as (c & w & -> & Hh); [lia|]. cbn [app parse_msgpack]. by rewrite Hh.
  - unfold max32. intros k value rest Hk. destruct (mp_str_reads k) as (c & w & -> & _ & Hs); [lia|]. cbn [app mp_member]. rewrite (proj1 (Hs rest)).
    destruct (value rest) as [[[evs s]|e]|]; cbn; by rewrite ?app_nil_r.
  - by intros [|fuel].
  - intros [|m|l|s|b|z|z|z|] Ha Ho Hj Hm; cbn [write_msgpack].
    + apply (reads_fix 0xC0); [lia|done..].
    + by destruct (Ho m).
    + by destruct (Ha l).
    + apply reads_string. cbn [within] in Hm. unfold max32 in Hm. lia.
    + destruct b; [apply (reads_fix 0xC3)|apply (reads_fix 0xC2)]; (lia || done).
    + by apply reads_integer.
    + by apply reads_unsigned.
    + apply reads_float; [done|]. by apply negb_true_iff.
    + by destruct Hj.
Defined.

(** C28: A JSON value written in MessagePack is read back: [from_msgpack(to_msgpack(j))] is [j] with its non-negative
    integers unsigned, which [operator==] finds equal to [j], if all lengths fit in 32 bits and it has no NaN;
    every finite double and the infinities come back bit for bit, also those written as a float. *)
Theorem msgpack_roundtrip j :
  json_ok j -> within max32 max32 max32 j = true ->
  from_msgpack true (write_msgpack j) = Some (Ok (mp_norm j)) /\ json_eq (mp_norm j) j = true.
Proof.
  intros Hj Hm. split; [|by eapply mp_norm_eq]. destruct (all_written j Hj Hm) as [_ Hr].
  unfold from_msgpack, sax_msgpack. specialize (Hr (S (length (write_msgpack j))) [] ltac:(lia)). rewrite app_nil_r in Hr. rewrite Hr.
  cbn [mbind option_bind andb]. by rewrite dom_events_of by (by apply mp_norm_ok).
Qed.

Lemma msgpack_roundtrip_witness :
  from_msgpack true (write_msgpack mp_doc) = Some (Ok (mp_norm mp_doc)) /\ json_eq (mp_norm mp_doc) mp_doc = true.
Proof. apply msgpack_roundtrip; [|reflexivity]. repeat constructor; simpl; lia. Defined.

(** ** Binary values *)

Lemma get_ext_read t b rest : get_ext (zlen b) (write_number 1 t ++ b ++ rest) = Ok (EvBinary b (Some (t mod 256)), rest).
Proof. unfold get_ext, get_num. rewrite get_be_write. cbn [mbind res_bind]. by rewrite get_chars_app. Qed.

(** The ext types, with the length before the subtype or without it. *)
Lemma reads_fixext cur b t :
  0 <= cur < 256 -> (forall s, container_head cur s = None) -> (forall s, parse_scalar cur s = get_ext (zlen b) s) ->
  reads_as parse_msgpack (byte cur ++ write_number 1 t ++ b) [EvBinary b (Some (t mod 256))].
Proof. intros Hc Hh Hs. apply reads_scalar; [done..|]. intros rest. rewrite Hs, <- app_assoc. apply get_ext_read. Qed.

Lemma reads_ext cur k b t :
  0 <= cur < 256 -> zlen b < 256 ^ Z.of_nat k -> (forall s, container_head cur s = None) ->
  (forall s, parse_scalar cur s = ('(len, s) ← get_num k s; get_ext len s)) ->
  reads_as parse_msgpack ((byte cur ++ write_number k (zlen b)) ++ write_number 1 t ++ b) [EvBinary b (Some (t mod 256))].
Proof.
  intros Hc Hk Hh Hs. rewrite <- app_assoc. apply reads_scalar; [done..|]. intros rest. pose proof (zlen_nonneg b).
  rewrite Hs, <- !app_assoc, get_num_bytes by lia. apply get_ext_read.
Qed.

Lemma reads_bin cur k b :
  0 <= cur < 256 -> zlen b < 256 ^ Z.of_nat k -> (forall s, container_head cur s = None) ->
  (forall s, parse_scalar cur s = ('(len, s) ← get_num k s; '(x, s) ← get_chars len s; Ok (EvBinary x None, s))) ->
  reads_as parse_msgpack ((byte cur ++ write_number k (zlen b)) ++ b) [EvBinary b None].
Proof.
  intros Hc Hk Hh Hs. rewrite <- app_assoc. apply reads_scalar; [done..|]. intros rest. pose proof (zlen_nonneg b).
  rewrite Hs, <- app_assoc, get_num_bytes by lia. cbn [mbind res_bind]. by rewrite get_chars_app.
Qed.

Lemma reads_binary b subtype : zlen b <= max32 ->
  reads_as parse_msgpack (mp_binary b subtype) [EvBinary b ((fun t => t mod 256) <$> subtype)].
Proof.
  intros Hb. unfold max32 in Hb. unfold mp_binary. destruct subtype as [t|]; cbn [fmap option_fmap option_map]; [|cbn [app]].
  - destruct (Z.leb_spec (zlen b) (2 ^ 8 - 1)); [|destruct (Z.leb_spec (zlen b) (2 ^ 16 - 1)); [|destruct (Z.leb_spec (zlen b) (2 ^ 32 - 1)); [|lia]]].
    + destruct (Z.eqb_spec (zlen b) 1) as [E|_]; [apply reads_fixext; [lia|done|by rewrite E]|].
      destruct (Z.eqb_spec (zlen b) 2) as [E|_]; [apply reads_fixext; [lia|done|by rewrite E]|].
      destruct (Z.eqb_spec (zlen b) 4) as [E|_]; [apply reads_fixext; [lia|done|by rewrite E]|].
      destruct (Z.eqb_spec (zlen b) 8) as [E|_]; [apply reads_fixext; [lia|done|by rewrite E]|].
      destruct (Z.eqb_spec (zlen b) 16) as [E|_]; [apply reads_fixext; [lia|done|by rewrite E]|].
      apply reads_ext; [lia|simpl; lia|done..].
    + apply reads_ext; [lia|simpl; lia|done..].
    + apply reads_ext; [lia|simpl; lia|done..].
  - destruct (Z.leb_spec (zlen b) (2 ^ 8 - 1)); [|destruct (Z.leb_spec (zlen b) (2 ^ 16 - 1)); [|destruct (Z.leb_spec (zlen b) (2 ^ 32 - 1)); [|lia]]];
      (apply reads_bin; [lia|simpl; lia|done..]).
Qed.

(** A binary value is read back as its event, with the low byte of its
    subtype. *)
Theorem msgpack_binary b subtype :
  zlen b <= max32 ->
  sax_msgpack true (mp_binary b subtype) = Some (Ok [EvBinary b ((fun t => t mod 256) <$> subtype)]).
Proof.
  intros Hb. pose proof (reads_binary b subtype Hb (S (length (mp_binary b subtype))) [] ltac:(lia)) as H.
  rewrite app_nil_r in H. unfold sax_msgpack. by rewrite H.
Qed.

(** ** The reader ends *)

Lemma sane_string cur s s0 : (length s <= length s0)%nat -> sane s0 (get_msgpack_string cur s).
Proof. intros Hs. unfold get_msgpack_string. sane_tac. Qed.

Lemma sane_ext len s s0 : (length s <= length s0)%nat -> sane s0 (get_ext len s).
Proof. intros Hs. unfold get_ext. sane_tac. Qed.

#[export] Hint Resolve sane_string sane_ext : reads.

Lemma sane_binary cur s s0 : (length s <= length s0)%nat -> sane s0 (get_msgpack_binary cur s).
Proof. intros Hs. unfold get_msgpack_binary. sane_tac. Qed.

#[export] Hint Resolve sane_binary : reads.

Lemma sane_scalar cur s : sane s (parse_scalar cur s).
Proof. unfold parse_scalar. sane_tac. Qed.

Lemma sane_head cur s r : container_head cur s = Some r -> sane s r.
Proof.
  unfold container_head. repeat case_match; intros [= <-]; sane_tac.
Qed.

Lemma member_progress value s : (forall t, (length t < length s)%nat -> progress read_error t (value t)) -> progress read_error s (mp_member value s).
Proof.
  intros Hv. unfold mp_member. destruct s as [|c s]; [by left|]. pose proof (sane_string (ord c) s s (le_n _)) as H.
  destruct (get_msgpack_string (ord c) s) as [[k t]|e]; cbn in H; [|done]. pose proof (Hv t ltac:(simpl; lia)) as Ht.
  destruct (value t) as [[[evs u]|e]|]; cbn in *; [lia|done..].
Qed.

Lemma parse_progress fuel s : (length s < fuel)%nat -> progress read_error s (parse_msgpack fuel s).
Proof.
  revert s. induction fuel as [|fuel IH]; intros s Hf; [lia|]. destruct s as [|c s]; cbn [parse_msgpack]; [by left|]. simpl in Hf.
  destruct (container_head (ord c) s) as [[[[is_map len] t]|e]|] eqn:E.
  - apply sane_head in E. cbn in E. set (item := if is_map then mp_member (parse_msgpack fuel) else parse_msgpack fuel).
    assert (Hi : forall u, (length u <= length t)%nat -> progress read_error u (item u)).
    { intros u Hu. unfold item. destruct is_map; [apply member_progress; intros|]; apply IH; lia. }
    pose proof (items_progress read_error item fuel len t Hi ltac:(lia)) as H.
    destruct (read_items item fuel len t) as [[[evs u]|e]|]; cbn in H |- *; [lia|done..].
  - by apply sane_head in E.
  - pose proof (sane_scalar (ord c) s) as H. destruct (parse_scalar (ord c) s) as [[ev t]|e]; cbn in H |- *; [lia|done].
Qed.

(** The MessagePack reader ends on every input, with the events of a value or with one of the exceptions for the
    end of the input (110, also for bytes behind the value), an unknown byte (112) and a key that is no string (113);
    the number of elements an array announces does not matter. [from_msgpack] throws the same exceptions and builds a
    value of every other input, unless a binary value is among the events, which the model does not build. *)
Theorem msgpack_total strict input :
  exists r, sax_msgpack strict input = Some r /\
    match r with
    | Ok evs => (exists j, from_msgpack strict input = Some (Ok j)) \/ (exists b t, EvBinary b t ∈ evs)
    | Throw e =>
        from_msgpack strict input = Some (Throw e) /\ (e = parse_error 110 \/ e = parse_error 112 \/ e = parse_error 113)
    end.
Proof.
  assert (H : exists r, sax_msgpack strict input = Some r /\ match r with Ok _ => True | Throw e => read_error e end).
  { unfold sax_msgpack. pose proof (parse_progress (S (length input)) input ltac:(lia)) as H.
    destruct (parse_msgpack _ input) as [[[evs rest]|e]|]; cbn in H; [|by exists (Throw e)|done]. cbn [mbind option_bind].
    destruct (strict && _); [exists (Throw (parse_error 110)); split; [done|by left]|by exists (Ok evs)]. }
  destruct H as (r & Hr & He). exists r. split; [done|]. unfold from_msgpack. rewrite Hr. cbn [mbind option_bind].
  destruct r as [evs|e]; [|done]. destruct (dom_events evs new_sax) as [s|] eqn:E; [left; eauto|right; by apply dom_events_none in E].
Qed.
