(* ===== verification/JsonCbor.v ===== *)
(** * CBOR (write_cbor and parse_cbor_internal)

    The writer of class binary_writer and the reader of class binary_reader of
    include/nlohmann/json.hpp, with the three ways to treat tags, strings and
    containers of indefinite length, and numbers of half precision.  The reader
    returns the events of the SAX interface and the bytes that are left.  The
    handler refuses a container that is announced with more elements than
    [max_size()] of the vector or map allows: the limits depend on the standard
    library and are a parameter. *)

From S2P Require Import Prelude StdMap JsonNumber Doubles JsonValue JsonLexer JsonParser JsonCompare JsonAccess JsonBinary.

(** ** Writer *)

(** A control byte and a number: [base] is the major type. *)
Definition cb_head (base n : Z) : str :=
  if n <=? 0x17 then write_number 1 (base + n)
  else if n <=? 2 ^ 8 - 1 then byte (base + 0x18) ++ write_number 1 n
  else if n <=? 2 ^ 16 - 1 then byte (base + 0x19) ++ write_number 2 n
  else if n <=? 2 ^ 32 - 1 then byte (base + 0x1A) ++ write_number 4 n
  else byte (base + 0x1B) ++ write_number 8 n.

Definition cb_integer (n : Z) : str := if 0 <=? n then cb_head 0 n else cb_head 0x20 (-1 - n).

(** NaN and the infinities have half precision; [write_compact_float] with the
    prefixes of CBOR. *)
Definition cb_float (b : Z) : str :=
  if isnan b then map chr [0xF9; 0x7E; 0x00]
  else if negb (isfinite b) then [chr 0xF9; chr (if double_sign b then 0xFC else 0x7C); chr 0x00]
  else if compact_float b then byte 0xFA ++ write_number 4 (float_of_double b)
  else byte 0xFB ++ write_number 8 b.

Definition cb_str (s : str) : str := cb_head 0x60 (zlen s) ++ s.

(** The case of a binary value: its subtype is a tag. *)
Definition cb_binary (b : str) (subtype : option Z) : str :=
  match subtype with
  | None => []
  | Some t =>
      if t <=? 2 ^ 8 - 1 then write_number 1 0xD8 ++ write_number 1 t
      else if t <=? 2 ^ 16 - 1 then write_number 1 0xD9 ++ write_number 2 t
      else if t <=? 2 ^ 32 - 1 then write_number 1 0xDA ++ write_number 4 t
      else write_number 1 0xDB ++ write_number 8 t
  end ++ cb_head 0x40 (zlen b) ++ b.

(** [write_cbor(j)]; [write_cbor(el.first)] writes the key as a string. *)
Fixpoint write_cbor (j : json) : str :=
  match j with
  | JNull => byte 0xF6
  | JBool b => byte (if b then 0xF5 else 0xF4)
  | JInteger n => cb_integer n
  | JUnsigned n => cb_head 0 n
  | JFloat b => cb_float b
  | JString s => cb_str s
  | JArray l => cb_head 0x80 (zlen l) ++ flat_map write_cbor l
  | JObject m => cb_head 0xA0 (zlen m) ++ flat_map (fun e => cb_str e.1 ++ write_cbor e.2) m
  | JDiscarded => []
  end.

(** ** Reader *)

(** [cbor_tag_handler_t] *)
Inductive tag_handler := tag_error | tag_ignore | tag_store.

(** [detail::unknown_size()] *)
Definition unknown_size : Z := 2 ^ 64 - 1.

(** [std::ldexp(m, e)] for a result that is a normal number, or zero. *)
Definition ldexp (m e : Z) : Z :=
  if m =? 0 then 0 else (Z.log2 m + e + 1023) * 2 ^ 52 + (m - 2 ^ Z.log2 m) * 2 ^ (52 - Z.log2 m).

(** A number of half precision. *)
Definition half_to_double (half : Z) : Z :=
  let exp := Z.land (Z.shiftr half 10) 0x1F in
  let mant := Z.land half 0x3FF in
  let val :=
    if exp =? 0 then ldexp mant (-24)
    else if exp =? 31 then (if mant =? 0 then 0x7FF0000000000000 else 0x7FF8000000000000)
    else ldexp (mant + 1024) (exp - 25) in
  if negb (Z.land half 0x8000 =? 0) then Z.lxor val (2 ^ 63) else val.

(** [get_cbor_negative_integer] for a number of [k] bytes. *)
Definition get_cbor_negative_integer (k : nat) (s : str) : read sax_event :=
  '(number, s) ← get_num k s;
  if (2 ^ 63 - 1) mod 256 ^ Z.of_nat k <? number then Throw (parse_error 112)
  else Ok (EvInteger (-1 - number), s).

(** The values that are neither strings nor containers nor tagged. *)
Definition cbor_scalar (cur : Z) (s : str) : read sax_event :=
  let number k mk := '(n, s) ← get_num k s; Ok (mk n, s) in
  if cur <=? 0x17 then Ok (EvUnsigned cur, s)
  else if cur =? 0x18 then number 1%nat EvUnsigned
  else if cur =? 0x19 then number 2%nat EvUnsigned
  else if cur =? 0x1A then number 4%nat EvUnsigned
  else if cur =? 0x1B then number 8%nat EvUnsigned
  else if (0x20 <=? cur) && (cur <=? 0x37) then Ok (EvInteger (0x20 - 1 - cur), s)
  else if cur =? 0x38 then get_cbor_negative_integer 1 s
  else if cur =? 0x39 then get_cbor_negative_integer 2 s
  else if cur =? 0x3A then get_cbor_negative_integer 4 s
  else if cur =? 0x3B then get_cbor_negative_integer 8 s
  else if cur =? 0xF4 then Ok (EvBool false, s)
  else if cur =? 0xF5 then Ok (EvBool true, s)
  else if cur =? 0xF6 then Ok (EvNull, s)
  else if cur =? 0xF9 then number 2%nat (fun half => EvFloat (half_to_double half))
  else if cur =? 0xFA then number 4%nat (fun n => EvFloat (double_of_float n))
  else if cur =? 0xFB then number 8%nat EvFloat
  else Throw (parse_error 112).

(** The length behind a control byte of the major type [base], if it is
    definite. *)
Definition cbor_len (base cur : Z) (s : str) : option (read Z) :=
  if (base <=? cur) && (cur <=? base + 0x17) then Some (Ok (Z.land cur 0x1F, s))
  else if cur =? base + 0x18 then Some (get_num 1 s)
  else if cur =? base + 0x19 then Some (get_num 2 s)
  else if cur =? base + 0x1A then Some (get_num 4 s)
  else if cur =? base + 0x1B then Some (get_num 8 s)
  else None.

(** The loops [while (get() != 0xFF)]. *)
Section Until.
Context {A : Type}.
Variable item : str -> option (read (list A)).

Fixpoint until_break (fuel : nat) (s : str) : option (read (list A)) :=
  match fuel with
  | O => None
  | S fuel' =>
      let more :=
        r ← item s;
        match r with
        | Throw e => Some (Throw e)
        | Ok (xs, s) =>
            r ← until_break fuel' s;
            match r with
            | Throw e => Some (Throw e)
            | Ok (xs', s) => Some (Ok (xs ++ xs', s))
            end
        end in
      match s with
      | c :: t => if ord c =? 0xFF then Some (Ok ([], t)) else more
      | [] => more
      end
  end.
End Until.

(** [get_cbor_string] and [get_cbor_binary], which differ in the major type
    [base]; [s] begins with the control byte. *)
Fixpoint cbor_bytes (base : Z) (fuel : nat) (s : str) : option (read str) :=
  match fuel with
  | O => None
  | S fuel' =>
      match s with
      | [] => Some (Throw (parse_error 110))
      | c :: s =>
          match cbor_len base (ord c) s with
          | Some r => Some ('(len, s) ← r; get_chars len s)
          | None =>
              if ord c =? base + 0x1F then until_break (cbor_bytes base fuel') (S (length s)) s
              else Some (Throw (parse_error 113))
          end
      end
  end.

Definition get_cbor_string (s : str) : option (read str) := cbor_bytes 0x60 (S (length s)) s.

Definition get_cbor_binary (s : str) : option (read str) := cbor_bytes 0x40 (S (length s)) s.

(** The key of a member, then [value]. *)
Definition cbor_member (value : str -> option (read (list sax_event))) (s : str) : option (read (list sax_event)) :=
  r ← get_cbor_string s;
  match r with
  | Throw e => Some (Throw e)
  | Ok (k, s) => wrap_events [EvKey k] [] (value s)
  end.

(** The control bytes of strings and containers. *)
Definition major (base cur : Z) : bool := ((base <=? cur) && (cur <=? base + 0x1B)) || (cur =? base + 0x1F).

(** The length of a container, [unknown_size] if it is indefinite. *)
Definition cbor_size (base cur : Z) (s : str) : read Z :=
  match cbor_len base cur s with Some r => r | None => Ok (unknown_size, s) end.

(** Tagged items, and the size of their tag behind the control byte. *)
Definition is_tag (cur : Z) : bool := ((0xC6 <=? cur) && (cur <=? 0xD4)) || ((0xD8 <=? cur) && (cur <=? 0xDB)).

Definition tag_size (cur : Z) : option nat :=
  if cur =? 0xD8 then Some 1%nat
  else if cur =? 0xD9 then Some 2%nat
  else if cur =? 0xDA then Some 4%nat
  else if cur =? 0xDB then Some 8%nat
  else None.

Section Parse.
(** [max_size()] of an object ([true]) or an array. *)
Variable max_size : bool -> Z.
Variable tags : tag_handler.

(** [get_cbor_array] and [get_cbor_object]. *)
Definition cbor_container (item : str -> option (read (list sax_event))) (fuel : nat) (is_map : bool) (r : read Z) : option (read (list sax_event)) :=
  match r with
  | Throw e => Some (Throw e)
  | Ok (len, s) =>
      if negb (len =? unknown_size) && (max_size is_map <? len) then Some (Throw (out_of_range 408))
      else
        wrap_events [if is_map then EvStartObject else EvStartArray] [if is_map then EvEndObject else EvEndArray]
          (if len =? unknown_size then until_break item (S (length s)) s else read_items item fuel len s)
  end.

(** A tagged item; [value] reads a value. *)
Definition cbor_tagged (value : str -> option (read (list sax_event))) (cur : Z) (s : str) : option (read (list sax_event)) :=
  match tags with
  | tag_error => Some (Throw (parse_error 112))
  | tag_ignore =>
      match tag_size cur with
      | None => value s
      | Some k => match get_num k s with Throw e => Some (Throw e) | Ok (_, s) => value s end
      end
  | tag_store =>
      match tag_size cur with
      | None => value s
      | Some k =>
          match get_num k s with
          | Throw e => Some (Throw e)
          | Ok (subtype, s) => map_read (fun b => [EvBinary b (Some subtype)]) (get_cbor_binary s)
          end
      end
  end.

(** [parse_cbor_internal]; [fuel] bounds the nesting and the elements, each of
    which takes a byte at least. *)
Fixpoint parse_cbor (fuel : nat) (s : str) : option (read (list sax_event)) :=
  match fuel with
  | O => None
  | S fuel' =>
      match s with
      | [] => Some (Throw (parse_error 110))
      | c :: t =>
          let cur := ord c in
          if major 0x40 cur then map_read (fun b => [EvBinary b None]) (get_cbor_binary s)
          else if major 0x60 cur then map_read (fun x => [EvString x]) (get_cbor_string s)
          else if major 0x80 cur then cbor_container (parse_cbor fuel') fuel' false (cbor_size 0x80 cur t)
          else if major 0xA0 cur then cbor_container (cbor_member (parse_cbor fuel')) fuel' true (cbor_size 0xA0 cur t)
          else if is_tag cur then cbor_tagged (parse_cbor fuel') cur t
          else Some ('(ev, t) ← cbor_scalar cur t; Ok ([ev], t))
      end
  end.

(** [sax_parse(cbor, sax, strict, tag_handler)] *)
Definition sax_cbor (strict : bool) (input : str) : option (res (list sax_event)) :=
  r ← parse_cbor (S (length input)) input;
  match r with
  | Throw e => Some (Throw e)
  | Ok (evs, rest) =>
      if strict && match rest with [] => false | _ => true end then Some (Throw (parse_error 110)) else Some (Ok evs)
  end.

(** [from_cbor(input, strict, true, tag_handler)]: [None] for an input with a
    binary value. *)
Definition from_cbor (strict : bool) (input : str) : option (res json) :=
  r ← sax_cbor strict input;
  match r with
  | Throw e => Some (Throw e)
  | Ok evs => s ← dom_events evs new_sax; Some (Ok (root s))
  end.
End Parse.

(** ** Examples *)

Definition lim (is_map : bool) : Z := 1000.

Definition cb_doc : json :=
  JObject [($"a", JArray [JNull; JBool true; JInteger (-33); JUnsigned 300]); ($"b", JFloat 0x3FF8000000000000); ($"c", JString $"xyz")].

Example cbor_ex : write_cbor cb_doc =
  map chr [0xA3; 0x61; 97; 0x84; 0xF6; 0xF5; 0x38; 32; 0x19; 1; 44; 0x61; 98; 0xFA; 0x3F; 0xC0; 0; 0; 0x61; 99; 0x63; 120; 121; 122].
Proof. by_compute. Qed.
Example cbor_back : from_cbor lim tag_error true (write_cbor cb_doc) = Some (Ok cb_doc).
Proof. by_compute. Qed.
Example cbor_indefinite : from_cbor lim tag_error true (map chr [0x9F; 1; 0x7F; 0x61; 97; 0x62; 98; 99; 0xFF; 0xBF; 0xFF; 0xFF]) =
  Some (Ok (JArray [JUnsigned 1; JString $"abc"; JObject []])).
Proof. by_compute. Qed.
Example cbor_tags : from_cbor lim tag_error true (map chr [0xC6; 0]) = Some (Throw (parse_error 112)) /\
  from_cbor lim tag_ignore true (map chr [0xD8; 42; 0]) = Some (Ok (JUnsigned 0)).
Proof. split; by_compute. Qed.
Example cbor_negative : from_cbor lim tag_error true (map chr [0x3B; 128; 0; 0; 0; 0; 0; 0; 0]) = Some (Throw (parse_error 112)) /\
  from_cbor lim tag_error true (map chr [0x3B; 127; 255; 255; 255; 255; 255; 255; 255]) = Some (Ok (JInteger (- 2 ^ 63))).
Proof. split; by_compute. Qed.
Example half_values : map half_to_double [0x3C00; 0xC000; 0x7BFF; 1; 0x0400; 0x8000; 0x7C00; 0xFC00; 0x3555] =
  [0x3FF0000000000000; 0xC000000000000000; 0x40EFFC0000000000; 0x3E70000000000000; 0x3F10000000000000; 2 ^ 63;
   0x7FF0000000000000; 0xFFF0000000000000; 0x3FD5540000000000].
Proof. by_compute. Qed.
