(* ===== verification/JsonCborSpec.v ===== *)
(** * Theorems on CBOR

    What is written is read back, whatever the handling of tags, which is shown
    with the interface of a binary format; binary values with their tags are
    read back as events; the reader ends on every input. *)

From S2P Require Import Prelude StdMap JsonNumber Doubles JsonValue JsonLexer JsonParser JsonCompare JsonAccess JsonBinary JsonReads JsonCbor.

(** ** Lemmas: control bytes *)

(** What [cbor_len] makes of a control byte and a number. *)
Lemma cb_head_reads base n :
  0 <= base <= 0xA0 -> base mod 2 ^ 5 = 0 -> 0 <= n < 2 ^ 64 ->
  exists c w, cb_head base n = c :: w /\ base <= ord c <= base + 0x1B /\
    forall rest, cbor_len base (ord c) (w ++ rest) = Some (Ok (n, rest)).
Proof.
  intros Hb Hm Hn. unfold cb_head.
  destruct (Z.leb_spec n 0x17).
  { rewrite write_number_1. eexists _, []. split; [done|]. rewrite ord_byte by lia. split; [lia|]. intros rest. unfold cbor_len.
    rewrite (proj2 (Z.leb_le base _)), (proj2 (Z.leb_le (base + n) _)) by lia. cbn [andb]. change 0x1F with (Z.ones 5).
    by rewrite land_low by (done || lia). }
  assert (Hsized : forall i k, 0x18 <= i <= 0x1B -> n < 256 ^ Z.of_nat k ->
    (forall s, cbor_len base (base + i) s = Some (get_num k s)) ->
    exists c w, byte (base + i) ++ write_number k n = c :: w /\ base <= ord c <= base + 0x1B /\
      forall rest, cbor_len base (ord c) (w ++ rest) = Some (Ok (n, rest))).
  { intros i k Hi Hk Hg. eexists _, _. split; [done|]. rewrite ord_byte by lia. split; [lia|]. intros rest. by rewrite Hg, get_num_bytes by lia. }
  assert (Hlen : forall i s, 0x18 <= i -> cbor_len base (base + i) s =
    (if i =? 0x18 then Some (get_num 1 s) else if i =? 0x19 then Some (get_num 2 s) else if i =? 0x1A then Some (get_num 4 s)
     else if i =? 0x1B then Some (get_num 8 s) else None)).
  { intros i s Hi. unfold cbor_len. rewrite (proj2 (Z.leb_gt (base + i) _)), andb_false_r by lia.
    repeat match goal with |- context [base + i =? base + ?k] => replace (base + i =? base + k) with (i =? k) by lia end. done. }
  destruct (Z.leb_spec n (2 ^ 8 - 1)); [|destruct (Z.leb_spec n (2 ^ 16 - 1)); [|destruct (Z.leb_spec n (2 ^ 32 - 1))]].
  - apply (Hsized 0x18 1%nat); [lia|simpl; lia|]. intros s. by rewrite Hlen by lia.
  - apply (Hsized 0x19 2%nat); [lia|simpl; lia|]. intros s. by rewrite Hlen by lia.
  - apply (Hsized 0x1A 4%nat); [lia|simpl; lia|]. intros s. by rewrite Hlen by lia.
  - apply (Hsized 0x1B 8%nat); [lia|simpl; lia|]. intros s. by rewrite Hlen by lia.
Qed.

Lemma major_true base cur : base <= cur <= base + 0x1B -> major base cur = true.
Proof. intros H. unfold major. lia. Qed.

Lemma major_false base cur : cur < base \/ base + 0x1F < cur -> major base cur = false.
Proof. intros H. unfold major. lia. Qed.

Lemma is_tag_false cur : cur < 0xC6 \/ 0xDB < cur -> is_tag cur = false.
Proof. intros H. unfold is_tag. lia. Qed.

(** A string of definite length. *)
Lemma cbor_bytes_read base t fuel rest :
  0 <= base <= 0xA0 -> base mod 2 ^ 5 = 0 -> zlen t < 2 ^ 64 ->
  cbor_bytes base (S fuel) (cb_head base (zlen t) ++ t ++ rest) = Some (Ok (t, rest)).
Proof.
  intros Hb Hm Ht. destruct (cb_head_reads base (zlen t)) as (c & w & -> & Hc & Hl); [done..|pose proof (zlen_nonneg t); lia|].
  cbn [app cbor_bytes]. rewrite Hl. cbn [mbind res_bind]. by rewrite get_chars_app.
Qed.

Section Cbor.
Context (max_size : bool -> Z) (tags : tag_handler).
Hypothesis max_size_known : forall b, max_size b < unknown_size.

(** ** Lemmas: scalars *)

(** A byte that begins a scalar. *)
Lemma cbor_reads_scalar cur w ev :
  0 <= cur < 0x40 \/ 0xDB < cur < 256 -> (forall rest, cbor_scalar cur (w ++ rest) = Ok (ev, rest)) ->
  reads_as (parse_cbor max_size tags) (byte cur ++ w) [ev].
Proof.
  intros Hc Hs [|fuel] rest Hf; [simpl in Hf; lia|]. cbn [byte app parse_cbor]. rewrite ord_byte by lia. cbv zeta.
  rewrite !major_false, is_tag_false, Hs by lia. done.
Qed.

Lemma cbor_reads_number cur k n mk ev :
  0 <= cur < 0x40 \/ 0xDB < cur < 256 -> (forall s, cbor_scalar cur s = ('(n, s) ← get_num k s; Ok (mk n, s))) ->
  0 <= n < 256 ^ Z.of_nat k -> mk n = ev -> reads_as (parse_cbor max_size tags) (byte cur ++ write_number k n) [ev].
Proof.
  intros Hc Hs Hn <-. apply cbor_reads_scalar; [done|]. intros rest. by rewrite Hs, get_num_bytes.
Qed.

Lemma cbor_reads_negative cur k n :
  0 <= cur < 0x40 -> (forall s, cbor_scalar cur s = get_cbor_negative_integer k s) ->
  0 <= n <= (2 ^ 63 - 1) mod 256 ^ Z.of_nat k -> reads_as (parse_cbor max_size tags) (byte cur ++ write_number k n) [EvInteger (-1 - n)].
Proof.
  intros Hc Hs Hn. apply cbor_reads_scalar; [lia|]. intros rest. rewrite Hs. unfold get_cbor_negative_integer.
  assert (0 < 256 ^ Z.of_nat k) by (apply Z.pow_pos_nonneg; lia). pose proof (Z.mod_pos_bound (2 ^ 63 - 1) (256 ^ Z.of_nat k) ltac:(done)).
  rewrite get_num_bytes by lia. cbn [mbind res_bind]. by rewrite (proj2 (Z.ltb_ge _ _)) by lia.
Qed.

Lemma cbor_reads_unsigned n : 0 <= n < 2 ^ 64 -> reads_as (parse_cbor max_size tags) (cb_head 0 n) [EvUnsigned n].
Proof.
  intros Hn. unfold cb_head.
  destruct (Z.leb_spec n 0x17); [|destruct (Z.leb_spec n (2 ^ 8 - 1)); [|destruct (Z.leb_spec n (2 ^ 16 - 1)); [|destruct (Z.leb_spec n (2 ^ 32 - 1))]]].
  - rewrite write_number_1. apply (cbor_reads_scalar n []); [lia|]. intros rest. unfold cbor_scalar. by rewrite (proj2 (Z.leb_le n _)) by lia.
  - apply (cbor_reads_number 0x18 1 n EvUnsigned); [lia|done|simpl; lia|done].
  - apply (cbor_reads_number 0x19 2 n EvUnsigned); [lia|done|simpl; lia|done].
  - apply (cbor_reads_number 0x1A 4 n EvUnsigned); [lia|done|simpl; lia|done].
  - apply (cbor_reads_number 0x1B 8 n EvUnsigned); [lia|done|simpl; lia|done].
Qed.

Lemma cbor_reads_integer n : - 2 ^ 63 <= n < 2 ^ 63 ->
  reads_as (parse_cbor max_size tags) (cb_integer n) (events_of (mp_norm (JInteger n))).
Proof.
  intros Hn. unfold cb_integer. unfold mp_norm. cbn [norm]. unfold mp_signed. destruct (Z.leb_spec 0 n); [apply cbor_reads_unsigned; lia|]. cbn [events_of].
  replace n with (-1 - (-1 - n)) at 2 by lia. set (p := -1 - n) in *. assert (0 <= p < 2 ^ 63) by lia. unfold cb_head.
  destruct (Z.leb_spec p 0x17); [|destruct (Z.leb_spec p (2 ^ 8 - 1)); [|destruct (Z.leb_spec p (2 ^ 16 - 1)); [|destruct (Z.leb_spec p (2 ^ 32 - 1))]]].
  - rewrite write_number_1. apply (cbor_reads_scalar (0x20 + p) []); [lia|]. intros rest. unfold cbor_scalar.
    rewrite (proj2 (Z.leb_gt _ 0x17)), !(proj2 (Z.eqb_neq _ _)), (proj2 (Z.leb_le 0x20 _)), (proj2 (Z.leb_le _ 0x37)) by lia.
    cbn [andb app]. do 3 f_equal. lia.
  - apply (cbor_reads_negative 0x38 1); [lia|done|]. change ((2 ^ 63 - 1) mod 256 ^ Z.of_nat 1) with (2 ^ 8 - 1). lia.
  - apply (cbor_reads_negative 0x39 2); [lia|done|]. change ((2 ^ 63 - 1) mod 256 ^ Z.of_nat 2) with (2 ^ 16 - 1). lia.
  - apply (cbor_reads_negative 0x3A 4); [lia|done|]. change ((2 ^ 63 - 1) mod 256 ^ Z.of_nat 4) with (2 ^ 32 - 1). lia.
  - apply (cbor_reads_negative 0x3B 8); [lia|done|]. change ((2 ^ 63 - 1) mod 256 ^ Z.of_nat 8) with (2 ^ 63 - 1). lia.
Qed.

Lemma cbor_reads_float b : 0 <= b < 2 ^ 64 -> isnan b = false -> reads_as (parse_cbor max_size tags) (cb_float b) [EvFloat b].
Proof.
  intros Hb Hn. unfold cb_float. rewrite Hn. destruct (isfinite b) eqn:Hf; cbn [negb].
  - destruct (compact_float b) eqn:Hc.
    + apply (cbor_reads_number 0xFA 4 _ (fun n => EvFloat (double_of_float n))); [lia|done| |by rewrite compact_float_back].
      pose proof (float_of_double_range b Hb). simpl. lia.
    + apply (cbor_reads_number 0xFB 8 b EvFloat); [lia|done|simpl; lia|done].
  - destruct (inf_bits b Hb Hf Hn) as [-> | ->].
    + apply (cbor_reads_number 0xF9 2 0x7C00 (fun half => EvFloat (half_to_double half))); [lia|done|simpl; lia|by vm_compute].
    + apply (cbor_reads_number 0xF9 2 0xFC00 (fun half => EvFloat (half_to_double half))); [lia|done|simpl; lia|by vm_compute].
Qed.

(** ** Lemmas: strings and containers *)

Lemma cbor_reads_string t : zlen t < 2 ^ 64 -> reads_as (parse_cbor max_size tags) (cb_str t) [EvString t].
Proof.
  intros Ht [|fuel] rest Hf; pose proof (zlen_nonneg t);
    (destruct (cb_head_reads 0x60 (zlen t)) as (c & w & E & Hc & _); [lia|done|lia|]); unfold cb_str in *; rewrite E in *; [simpl in Hf; lia|].
  cbn [app parse_cbor]. rewrite major_false, major_true by lia. unfold get_cbor_string.
  change (c :: (w ++ t) ++ rest) with (((c :: w) ++ t) ++ rest). rewrite <- E, <- app_assoc, cbor_bytes_read by (done || lia). done.
Qed.

(** A container whose length is known and not excessive. *)
Lemma cbor_container_read item fuel is_map N rest :
  0 <= N <= max_size is_map ->
  cbor_container max_size item fuel is_map (Ok (N, rest)) =
  wrap_events [if is_map then EvStartObject else EvStartArray] [if is_map then EvEndObject else EvEndArray] (read_items item fuel N rest).
Proof.
  intros HN. pose proof (max_size_known is_map). unfold cbor_container.
  rewrite (proj2 (Z.eqb_neq N unknown_size)), (proj2 (Z.ltb_ge _ _)), andb_false_r by lia. done.
Qed.

#[export] Instance cbor_format : BinaryFormat write_cbor (parse_cbor max_size tags) unknown_size (max_size false) (max_size true).
Proof.
  pose proof (max_size_known false) as Ha. pose proof (max_size_known true) as Ho. unfold unknown_size in Ha, Ho.
  refine {| write_key := cb_str; array_head := cb_head 0x80; map_head := cb_head 0xA0; member := cbor_member |}; try done.
  - unfold unknown_size. intros k Hk. pose proof (zlen_nonneg k). unfold cb_str.
    by destruct (cb_head_reads 0x60 (zlen k)) as (c & w & -> & _); [lia|done|lia|].
  - intros N H0. split; intros HN.
    + by destruct (cb_head_reads 0x80 N) as (c & w & -> & _); [lia|done|lia|].
    + by destruct (cb_head_reads 0xA0 N) as (c & w & -> & _); [lia|done|lia|].
  - intros N fuel rest HN. destruct (cb_head_reads 0x80 N) as (c & w & -> & Hc & Hl); [lia|done|lia|]. cbn [app parse_cbor].
    rewrite !major_false, major_true by lia. unfold cbor_size. rewrite Hl. by apply cbor_container_read.
  - intros N fuel rest HN. destruct (cb_head_reads 0xA0 N) as (c & w & -> & Hc & Hl); [lia|done|lia|]. cbn [app parse_cbor].
    rewrite !major_false, major_true by lia. unfold cbor_size. rewrite Hl. by apply cbor_container_read.
  - unfold unknown_size. intros k value rest Hk. unfold cb_str, cbor_member, get_cbor_string. rewrite <- app_assoc. by rewrite cbor_bytes_read by (done || lia).
  - by intros [|fuel].
  - intros [|m|l|s|b|z|z|z|] Hna Hno Hj Hm; cbn [write_cbor].
    + by apply (cbor_reads_scalar 0xF6 []); [lia|].
    + by destruct (Hno m).
    + by destruct (Hna l).
    + apply cbor_reads_string. cbn [within] in Hm. unfold unknown_size in Hm. lia.
    + by destruct b; [apply (cbor_reads_scalar 0xF5 [])|apply (cbor_reads_scalar 0xF4 [])]; [lia| |lia|].
    + by apply cbor_reads_integer.
    + by apply cbor_reads_unsigned.
    + apply cbor_reads_float; [done|]. by apply negb_true_iff.
    + by destruct Hj.
Defined.
End Cbor.

(** C30: A JSON value written in CBOR is read back, whatever is done with tags: [from_cbor(to_cbor(j))] is [j] with its
    non-negative integers unsigned, which [operator==] finds equal to [j], if it has no NaN and its containers are not
    longer than the limits the handler checks, which are below the number that stands for an unknown size. *)
Theorem cbor_roundtrip max_size tags j :
  (forall b, max_size b < unknown_size) ->
  json_ok j -> within unknown_size (max_size false) (max_size true) j = true ->
  from_cbor max_size tags true (write_cbor j) = Some (Ok (mp_norm j)) /\ json_eq (mp_norm j) j = true.
Proof.
  intros Hk Hj Hm. split; [|by eapply mp_norm_eq]. pose proof (cbor_format max_size tags Hk) as BF.
  destruct (all_written (BF := BF) j Hj Hm) as [_ Hr].
  unfold from_cbor, sax_cbor. specialize (Hr (S (length (write_cbor j))) [] ltac:(lia)). rewrite app_nil_r in Hr. rewrite Hr.
  cbn [mbind option_bind andb]. by rewrite dom_events_of by (by apply mp_norm_ok).
Qed.

Lemma cbor_roundtrip_witness :
  from_cbor lim tag_store true (write_cbor cb_doc) = Some (Ok (mp_norm cb_doc)) /\ json_eq (mp_norm cb_doc) cb_doc = true.
Proof. apply cbor_roundtrip; [by intros []| |reflexivity]. repeat constructor; simpl; lia. Defined.

(** ** What else is read back *)

(** NaN is read back as a quiet NaN. *)
Lemma cbor_nan max_size tags b :
  isnan b = true -> from_cbor max_size tags true (write_cbor (JFloat b)) = Some (Ok (JFloat 0x7FF8000000000000)).
Proof. intros Hb. cbn [write_cbor]. unfold cb_float. rewrite Hb. by vm_compute. Qed.

(** A binary value is read back as its event: with its subtype if tags are
    stored, without it if they are ignored; else a subtype is an error. *)
Theorem cbor_binary max_size tags b subtype :
  zlen b < 2 ^ 64 -> match subtype with Some t => 0 <= t < 2 ^ 64 | None => True end ->
  sax_cbor max_size tags true (cb_binary b subtype) =
  Some (match subtype, tags with
        | Some _, tag_error => Throw (parse_error 112)
        | Some _, tag_ignore => Ok [EvBinary b None]
        | _, _ => Ok [EvBinary b subtype]
        end).
Proof.
  intros Hb Ht. pose proof (zlen_nonneg b) as H0.
  assert (Hbin : get_cbor_binary (cb_head 0x40 (zlen b) ++ b) = Some (Ok (b, []))).
  { unfold get_cbor_binary. rewrite <- (app_nil_r b) at 2 4. by rewrite cbor_bytes_read by (done || lia). }
  assert (Hval : forall fuel, parse_cbor max_size tags (S fuel) (cb_head 0x40 (zlen b) ++ b) = Some (Ok ([EvBinary b None], []))).
  { intros fuel. destruct (cb_head_reads 0x40 (zlen b)) as (c & w & E & Hc & _); [lia|done|lia|]. rewrite E in *. cbn [app parse_cbor] in *.
    rewrite major_true by lia. by rewrite Hbin. }
  unfold sax_cbor. destruct subtype as [t|]; cbn [cb_binary app]; [|by rewrite Hval].
  assert (Htag : forall cur k, 0xD8 <= cur <= 0xDB -> tag_size cur = Some k -> 0 <= t < 256 ^ Z.of_nat k -> forall fuel,
    parse_cbor max_size tags (S (S fuel)) ((write_number 1 cur ++ write_number k t) ++ cb_head 0x40 (zlen b) ++ b) =
    Some (match tags with tag_error => Throw (parse_error 112) | tag_ignore => Ok ([EvBinary b None], []) | tag_store => Ok ([EvBinary b (Some t)], []) end)).
  { intros cur k Hc Hk Hr fuel. rewrite write_number_1, <- app_assoc. cbn [app]. unfold parse_cbor; fold (parse_cbor max_size tags). cbv zeta. rewrite ord_byte by lia.
    rewrite !major_false by lia. replace (is_tag cur) with true by (unfold is_tag; lia). unfold cbor_tagged. rewrite Hk.
    destruct tags; [done|..]; rewrite get_num_bytes by done; [apply Hval|]. by rewrite Hbin. }
  assert (Hlen : forall cur k, exists fuel, S (length ((write_number 1 cur ++ write_number k t) ++ cb_head 0x40 (zlen b) ++ b)) = S (S fuel)).
  { intros cur k. rewrite write_number_1. by eexists. }
  unfold cb_binary.
  destruct (Z.leb_spec t (2 ^ 8 - 1)); [|destruct (Z.leb_spec t (2 ^ 16 - 1)); [|destruct (Z.leb_spec t (2 ^ 32 - 1))]].
  - destruct (Hlen 0xD8 1%nat) as [fuel ->]. rewrite Htag by (done || simpl; lia). by destruct tags.
  - destruct (Hlen 0xD9 2%nat) as [fuel ->]. rewrite Htag by (done || simpl; lia). by destruct tags.
  - destruct (Hlen 0xDA 4%nat) as [fuel ->]. rewrite Htag by (done || simpl; lia). by destruct tags.
  - destruct (Hlen 0xDB 8%nat) as [fuel ->]. rewrite Htag by (done || simpl; lia). by destruct tags.
Qed.

(** ** The reader ends *)

Definition cbor_error (e : exn) : Prop := read_error e \/ e = out_of_range 408.

Lemma until_break_ends {A} P (item : str -> option (read (list A))) fuel s :
  (forall t, (length t <= length s)%nat -> progress P t (item t)) -> (length s < fuel)%nat -> ends P s (until_break item fuel s).
Proof.
  revert s. induction fuel as [|fuel IH]; intros s Hi Hf; [lia|]. cbn [until_break].
  assert (Hmore : ends P s (r ← item s; match r with
      | Throw e => Some (Throw e)
      | Ok (xs, s0) => r0 ← until_break item fuel s0; match r0 with Throw e => Some (Throw e) | Ok (xs', s1) => Some (Ok (xs ++ xs', s1)) end
      end)).
  { pose proof (Hi s (le_n _)) as H. destruct (item s) as [[[xs t]|e]|]; cbn in H; [|done..]. cbn [mbind option_bind].
    assert (Hi' : forall u, (length u <= length t)%nat -> progress P u (item u)) by (intros u Hu; apply Hi; lia).
    specialize (IH t Hi' ltac:(lia)). destruct (until_break item fuel t) as [[[xs' u]|e]|]; cbn in *; [lia|done..]. }
  destruct s as [|c t]; [done|]. destruct (ord c =? 0xFF); [cbn; lia|done].
Qed.

Lemma sane_len base cur s r : cbor_len base cur s = Some r -> sane s r.
Proof. unfold cbor_len. repeat case_match; intros [= <-]; sane_tac. Qed.

Lemma cbor_bytes_progress base fuel s : (length s < fuel)%nat -> progress cbor_error s (cbor_bytes base fuel s).
Proof.
  revert s. induction fuel as [|fuel IH]; intros s Hf; [lia|]. destruct s as [|c s]; cbn [cbor_bytes]; [left; by left|]. simpl in Hf.
  destruct (cbor_len base (ord c) s) as [r|] eqn:E.
  - apply sane_len in E. assert (H : sane s ('(len, s) ← r; get_chars len s)) by (apply sane_bind; [done|intros; apply sane_chars; lia]).
    destruct ('(len, s) ← r; get_chars len s) as [[x t]|e]; cbn in H |- *; [lia|by left].
  - destruct (ord c =? base + 0x1F); [|left; right; by right]. apply progress_cons, until_break_ends; [|lia]. intros t Ht. apply IH. lia.
Qed.

Lemma map_read_progress {A B} P (f : A -> B) s r : progress P s r -> progress P s (map_read f r).
Proof. by destruct r as [[[x t]|e]|]. Qed.

Lemma cbor_member_progress value s : (forall t, (length t < length s)%nat -> progress cbor_error t (value t)) -> progress cbor_error s (cbor_member value s).
Proof.
  intros Hv. unfold cbor_member. pose proof (cbor_bytes_progress 0x60 (S (length s)) s ltac:(lia)) as H. fold (get_cbor_string s) in H.
  destruct (get_cbor_string s) as [[[k t]|e]|]; cbn in H; [|done..]. cbn [mbind option_bind]. specialize (Hv t H).
  destruct (value t) as [[[evs u]|e]|]; cbn in *; [lia|done..].
Qed.

Lemma sane_cbor_scalar cur s : sane s (cbor_scalar cur s).
Proof. unfold cbor_scalar, get_cbor_negative_integer. sane_tac. Qed.

Section Ends.
Context (max_size : bool -> Z) (tags : tag_handler).

Lemma cbor_container_ends item fuel is_map s r :
  (forall t, (length t <= length s)%nat -> progress cbor_error t (item t)) -> (length s < fuel)%nat -> sane s r ->
  ends cbor_error s (cbor_container max_size item fuel is_map r).
Proof.
  intros Hi Hf Hr. destruct r as [[len t]|e]; cbn in Hr |- *; [|by left]. destruct (_ && _); [by right|]. apply wrap_ends.
  assert (Hi' : forall u, (length u <= length t)%nat -> progress cbor_error u (item u)) by (intros u Hu; apply Hi; lia).
  assert (H : ends cbor_error t (if len =? unknown_size then until_break item (S (length t)) t else read_items item fuel len t)).
  { destruct (len =? unknown_size); [apply until_break_ends|apply items_progress]; auto; lia. }
  destruct (if len =? unknown_size then _ else _) as [[[x u]|e]|]; cbn in H |- *; [lia|done..].
Qed.

Lemma cbor_tagged_ends value cur s :
  (forall t, (length t <= length s)%nat -> progress cbor_error t (value t)) -> ends cbor_error s (cbor_tagged tags value cur s).
Proof.
  intros Hv.
  assert (Hw : forall {A} t (r : option (read A)), (length t <= length s)%nat -> progress cbor_error t r -> ends cbor_error s r).
  { intros A t [[[x u]|e]|] Ht; cbn; [lia|done..]. }
  unfold cbor_tagged. destruct tags; [left; right; by left|..]; (destruct (tag_size cur) as [k|]; [|by apply (Hw _ s), Hv]);
    pose proof (sane_num k s s (le_n _)) as H; destruct (get_num k s) as [[n t]|e]; cbn in H; [|by left| |by left].
  - by apply (Hw _ t), Hv.
  - apply (Hw _ t); [done|]. apply map_read_progress, cbor_bytes_progress. lia.
Qed.

Lemma parse_cbor_progress fuel s : (length s < fuel)%nat -> progress cbor_error s (parse_cbor max_size tags fuel s).
Proof.
  revert s. induction fuel as [|fuel IH]; intros s Hf; [lia|]. destruct s as [|c s]; cbn [parse_cbor]; [left; by left|]. simpl in Hf.
  assert (Hsize : forall base, sane s (cbor_size base (ord c) s)).
  { intros base. unfold cbor_size. destruct (cbor_len base (ord c) s) as [r|] eqn:E; [by apply sane_len in E|by apply sane_ok]. }
  assert (Hv : forall t, (length t <= length s)%nat -> progress cbor_error t (parse_cbor max_size tags fuel t)) by (intros t Ht; apply IH; lia).
  destruct (major 0x40 (ord c)); [apply map_read_progress, cbor_bytes_progress; lia|].
  destruct (major 0x60 (ord c)); [apply map_read_progress, cbor_bytes_progress; lia|].
  destruct (major 0x80 (ord c)); [apply progress_cons, cbor_container_ends; auto; lia|].
  destruct (major 0xA0 (ord c)).
  { apply progress_cons, cbor_container_ends; auto; [|lia]. intros t Ht. apply cbor_member_progress. intros u Hu. apply Hv. lia. }
  destruct (is_tag (ord c)); [by apply progress_cons, cbor_tagged_ends|].
  apply progress_cons. pose proof (sane_cbor_scalar (ord c) s) as H. destruct (cbor_scalar (ord c) s) as [[ev t]|e]; cbn in H |- *; [done|by left].
Qed.
End Ends.

(** C31: The CBOR reader ends on every input, whatever lengths it announces and whatever is done with tags: with the
    events of a value, or with one of the exceptions for the end of the input (110), a byte or number that is not allowed
    (112), a key that is no string (113) and an excessive length (408). [from_cbor] throws the same exceptions, and
    builds a value of every other input unless a binary value is among the events, which the model does not build. *)
Theorem cbor_total max_size tags strict input :
  exists r, sax_cbor max_size tags strict input = Some r /\
    match r with
    | Ok evs => (exists j, from_cbor max_size tags strict input = Some (Ok j)) \/ (exists b t, EvBinary b t ∈ evs)
    | Throw e =>
        from_cbor max_size tags strict input = Some (Throw e) /\
        ((e = parse_error 110 \/ e = parse_error 112 \/ e = parse_error 113) \/ e = out_of_range 408)
    end.
Proof.
  assert (H : exists r, sax_cbor max_size tags strict input = Some r /\ match r with Ok _ => True | Throw e => cbor_error e end).
  { unfold sax_cbor. pose proof (parse_cbor_progress max_size tags (S (length input)) input ltac:(lia)) as H.
    destruct (parse_cbor _ _ _ input) as [[[evs rest]|e]|]; cbn in H; [|by exists (Throw e)|done]. cbn [mbind option_bind].
    destruct (strict && _); [exists (Throw (parse_error 110)); split; [done|left; by left]|by exists (Ok evs)]. }
  destruct H as (r & Hr & He). exists r. split; [done|]. unfold from_cbor. rewrite Hr. cbn [mbind option_bind].
  destruct r as [evs|e]; [|done]. destruct (dom_events evs new_sax) as [s|] eqn:E; [left; eauto|right; by apply dom_events_none in E].
Qed.

(** An array or object whose length is written in full and is 2^64 - 1 is taken
    for one of indefinite length: it ends at the break byte. *)
Theorem cbor_length_is_unknown max_size tags :
  from_cbor max_size tags true (map chr [0x9B; 0xFF; 0xFF; 0xFF; 0xFF; 0xFF; 0xFF; 0xFF; 0xFF; 1; 0xFF]) = Some (Ok (JArray [JUnsigned 1])).
Proof. by vm_compute. Qed.
