(* ===== verification/JsonBson.v ===== *)
(** * BSON (write_bson and parse_bson_internal)

    The writer of class binary_writer and the reader of class binary_reader of
    include/nlohmann/json.hpp.  A document begins with its size, which the
    writer computes beforehand; that pass also finds the keys that cannot be
    written.  Sizes are far below 2^64; they are written with 32 bits.

    The reader can also give up without an exception: the result is then a
    discarded value. *)

From S2P Require Import Prelude StdMap JsonNumber Doubles JsonValue JsonLexer JsonParser JsonCompare JsonAccess JsonPointer JsonBinary.

(** ** Numbers in little-endian order *)

Definition write_le (k : nat) (n : Z) : str := rev (write_number k n).

Definition get_le (k : nat) (s : str) : read Z :=
  if (length s <? k)%nat then Throw (parse_error 110) else Ok (be_value (rev (take k s)), drop k s).

(** ** Sizes *)

Definition NUL : ascii := chr 0.

Definition calc_bson_entry_header_size (name : str) : res Z :=
  if existsb (fun c => bool_decide (c = NUL)) name then Throw (out_of_range 409) else Ok (1 + zlen name + 1).

Definition calc_bson_string_size (value : str) : Z := 4 + zlen value + 1.

Definition fits_i32 (z : Z) : bool := (- 2 ^ 31 <=? z) && (z <=? 2 ^ 31 - 1).

Definition calc_bson_integer_size (value : Z) : Z := if fits_i32 value then 4 else 8.

Definition calc_bson_unsigned_size (value : Z) : Z := if value <=? 2 ^ 31 - 1 then 4 else 8.

Definition calc_bson_binary_size (value : str) : Z := 4 + zlen value + 1.

(** The sums over the elements of an array, counting them, and over the
    entries of an object. *)
Section Sizes.
Variable calc : str -> json -> res Z.

Fixpoint items_size (i : nat) (l : list json) (result : Z) : res Z :=
  match l with
  | [] => Ok result
  | el :: l' => n ← calc (idx_str i) el; items_size (S i) l' (result + n)
  end.

Fixpoint entries_size (m : list (str * json)) (result : Z) : res Z :=
  match m with
  | [] => Ok result
  | (k, el) :: m' => n ← calc k el; entries_size m' (result + n)
  end.
End Sizes.

(** [calc_bson_element_size], with [calc_bson_array_size] and
    [calc_bson_object_size]. *)
Fixpoint calc_bson_element_size (name : str) (j : json) {struct j} : res Z :=
  header_size ← calc_bson_entry_header_size name;
  match j with
  | JObject m => n ← entries_size calc_bson_element_size m 0; Ok (header_size + (4 + n + 1))
  | JArray l => n ← items_size calc_bson_element_size 0 l 0; Ok (header_size + (4 + n + 1))
  | JBool _ => Ok (header_size + 1)
  | JFloat _ => Ok (header_size + 8)
  | JInteger z => Ok (header_size + calc_bson_integer_size z)
  | JUnsigned z => Ok (header_size + calc_bson_unsigned_size z)
  | JString s => Ok (header_size + calc_bson_string_size s)
  | JNull => Ok (header_size + 0)
  | JDiscarded => Ok 0
  end.

Definition calc_bson_array_size (l : list json) : res Z :=
  n ← items_size calc_bson_element_size 0 l 0; Ok (4 + n + 1).

Definition calc_bson_object_size (m : list (str * json)) : res Z :=
  n ← entries_size calc_bson_element_size m 0; Ok (4 + n + 1).

(** ** Writer *)

Definition write_bson_entry_header (name : str) (element_type : Z) : str := chr element_type :: name ++ [NUL].

Definition write_bson_string (name value : str) : str :=
  write_bson_entry_header name 0x02 ++ write_le 4 (zlen value + 1) ++ value ++ [NUL].

Definition write_bson_integer (name : str) (value : Z) : str :=
  if fits_i32 value then write_bson_entry_header name 0x10 ++ write_le 4 value
  else write_bson_entry_header name 0x12 ++ write_le 8 value.

Definition write_bson_unsigned (name : str) (value : Z) : str :=
  if value <=? 2 ^ 31 - 1 then write_bson_entry_header name 0x10 ++ write_le 4 value
  else if value <=? 2 ^ 63 - 1 then write_bson_entry_header name 0x12 ++ write_le 8 value
  else write_bson_entry_header name 0x11 ++ write_le 8 value.

(** The case of a binary value; without a subtype, zero is written. *)
Definition write_bson_binary (name value : str) (subtype : option Z) : str :=
  write_bson_entry_header name 0x05 ++ write_le 4 (zlen value) ++
  write_number 1 (match subtype with Some t => t | None => 0 end) ++ value.

(** The loops over elements and entries. *)
Section WriteEach.
Variable wr : str -> json -> res str.

Fixpoint write_bson_items (i : nat) (l : list json) : res str :=
  match l with
  | [] => Ok []
  | el :: l' => w ← wr (idx_str i) el; ws ← write_bson_items (S i) l'; Ok (w ++ ws)
  end.

Fixpoint write_bson_entries (m : list (str * json)) : res str :=
  match m with
  | [] => Ok []
  | (k, el) :: m' => w ← wr k el; ws ← write_bson_entries m'; Ok (w ++ ws)
  end.
End WriteEach.

(** [write_bson_element], with [write_bson_array] and [write_bson_object_entry]. *)
Fixpoint write_bson_element (name : str) (j : json) {struct j} : res str :=
  match j with
  | JObject m =>
      n ← calc_bson_object_size m;
      ws ← write_bson_entries write_bson_element m;
      Ok (write_bson_entry_header name 0x03 ++ write_le 4 n ++ ws ++ [NUL])
  | JArray l =>
      n ← calc_bson_array_size l;
      ws ← write_bson_items write_bson_element 0 l;
      Ok (write_bson_entry_header name 0x04 ++ write_le 4 n ++ ws ++ [NUL])
  | JBool b => Ok (write_bson_entry_header name 0x08 ++ [chr (if b then 1 else 0)])
  | JFloat b => Ok (write_bson_entry_header name 0x01 ++ write_le 8 b)
  | JInteger z => Ok (write_bson_integer name z)
  | JUnsigned z => Ok (write_bson_unsigned name z)
  | JString s => Ok (write_bson_string name s)
  | JNull => Ok (write_bson_entry_header name 0x0A)
  | JDiscarded => Ok []
  end.

Definition write_bson_object (m : list (str * json)) : res str :=
  n ← calc_bson_object_size m;
  ws ← write_bson_entries write_bson_element m;
  Ok (write_le 4 n ++ ws ++ [NUL]).

(** [write_bson(j)] *)
Definition write_bson (j : json) : res str :=
  match j with
  | JObject m => write_bson_object m
  | _ => Throw (type_error 317)
  end.

(** ** Reader *)

(** A read that also may fail without an exception. *)
Inductive bread (A : Type) :=
  | Got (x : A) (rest : str)
  | Raised (e : exn)
  | Refused.
Arguments Got {A} _ _.
Arguments Raised {A} _.
Arguments Refused {A}.

Definition bbind {A B} (r : bread A) (f : A -> str -> bread B) : bread B :=
  match r with
  | Got x rest => f x rest
  | Raised e => Raised e
  | Refused => Refused
  end.

Definition of_read {A} (r : read A) : bread A :=
  match r with Ok (x, rest) => Got x rest | Throw e => Raised e end.

(** [get_bson_cstr] *)
Fixpoint get_bson_cstr (s : str) : bread str :=
  match s with
  | [] => Raised (parse_error 110)
  | c :: s' => if bool_decide (c = NUL) then Got [] s' else bbind (get_bson_cstr s') (fun t rest => Got (c :: t) rest)
  end.

(** [get_bson_string]: the terminator is read, whatever it is; at the end of the
    input the function returns [false] without an exception. *)
Definition get_bson_string (len : Z) (s : str) : bread str :=
  if len <? 1 then Raised (parse_error 112)
  else bbind (of_read (get_chars (len - 1) s)) (fun t s =>
    match s with
    | [] => Refused
    | _ :: s' => Got t s'
    end).

(** [get_bson_binary] *)
Definition get_bson_binary (len : Z) (s : str) : bread sax_event :=
  if len <? 0 then Raised (parse_error 112)
  else bbind (of_read (get_num 1 s)) (fun subtype s =>
    bbind (of_read (get_chars len s)) (fun b s => Got (EvBinary b (Some subtype)) s)).

(** [parse_bson_element_internal]; [doc] reads an embedded object, or an array
    ([true]). *)
Definition parse_bson_element_internal (doc : bool -> str -> option (bread (list sax_event))) (element_type : Z) (s : str) : option (bread (list sax_event)) :=
  let number k mk := Some (bbind (of_read (get_le k s)) (fun n s => Got [mk n] s)) in
  if element_type =? 0x01 then number 8%nat EvFloat
  else if element_type =? 0x02 then
    Some (bbind (of_read (get_le 4 s)) (fun len s =>
      bbind (get_bson_string (signed 4 len) s) (fun t s => Got [EvString t] s)))
  else if element_type =? 0x03 then doc false s
  else if element_type =? 0x04 then doc true s
  else if element_type =? 0x05 then
    Some (bbind (of_read (get_le 4 s)) (fun len s =>
      bbind (get_bson_binary (signed 4 len) s) (fun ev s => Got [ev] s)))
  else if element_type =? 0x08 then
    match s with
    | [] => Some (Got [EvBool true] [])
    | c :: s' => Some (Got [EvBool (negb (ord c =? 0))] s')
    end
  else if element_type =? 0x0A then Some (Got [EvNull] s)
  else if element_type =? 0x10 then number 4%nat (fun n => EvInteger (signed 4 n))
  else if element_type =? 0x12 then number 8%nat (fun n => EvInteger (signed 8 n))
  else if element_type =? 0x11 then number 8%nat EvUnsigned
  else Some (Raised (parse_error 114)).

(** [parse_bson_internal] and [parse_bson_array], with the size, which is not
    used; [elements] reads the elements. *)
Definition parse_bson_doc (elements : bool -> str -> option (bread (list sax_event))) (is_array : bool) (s : str) : option (bread (list sax_event)) :=
  match get_le 4 s with
  | Throw e => Some (Raised e)
  | Ok (_, s) =>
      r ← elements is_array s;
      Some (bbind r (fun evs s =>
        Got (if is_array then EvStartArray :: evs ++ [EvEndArray] else EvStartObject :: evs ++ [EvEndObject]) s))
  end.

(** [parse_bson_element_list]; [fuel] bounds the elements and their nesting,
    each of which takes a byte at least. *)
Fixpoint parse_bson_element_list (fuel : nat) (is_array : bool) (s : str) : option (bread (list sax_event)) :=
  match fuel with
  | O => None
  | S fuel' =>
      match s with
      | [] => Some (Raised (parse_error 110))
      | c :: s =>
          if ord c =? 0 then Some (Got [] s)
          else
            match get_bson_cstr s with
            | Raised e => Some (Raised e)
            | Refused => Some Refused
            | Got key s =>
                r ← parse_bson_element_internal (parse_bson_doc (parse_bson_element_list fuel')) (ord c) s;
                match r with
                | Raised e => Some (Raised e)
                | Refused => Some Refused
                | Got evs s =>
                    r ← parse_bson_element_list fuel' is_array s;
                    Some (bbind r (fun evs' s => Got ((if is_array then [] else [EvKey key]) ++ evs ++ evs') s))
                end
            end
      end
  end.

(** [sax_parse(bson, sax, strict)] *)
Definition sax_bson (strict : bool) (input : str) : option (bread (list sax_event)) :=
  r ← parse_bson_doc (parse_bson_element_list (S (length input))) false input;
  Some (bbind r (fun evs rest =>
    if strict && match rest with [] => false | _ => true end then Raised (parse_error 110) else Got evs rest)).

(** [from_bson(input, strict)]: [None] for an input with a binary value. *)
Definition from_bson (strict : bool) (input : str) : option (res json) :=
  r ← sax_bson strict input;
  match r with
  | Raised e => Some (Throw e)
  | Refused => Some (Ok JDiscarded)
  | Got evs _ => s ← dom_events evs new_sax; Some (Ok (root s))
  end.

(** ** Examples *)

Definition bson_doc : json :=
  JObject [($"a", JArray [JNull; JBool true; JInteger (-33); JInteger 3000000000]); ($"b", JFloat 0x3FF8000000000000); ($"c", JString $"xyz"); ($"d", JObject [])].

Example bson_ex : write_bson (JObject [($"a", JArray [JNull]); ($"s", JString $"x")]) =
  Ok (map chr [25; 0; 0; 0; 4; 97; 0; 8; 0; 0; 0; 10; 48; 0; 0; 2; 115; 0; 2; 0; 0; 0; 120; 0; 0]).
Proof. by_compute. Qed.
Example bson_back : match write_bson bson_doc with Ok w => from_bson true w | Throw e => None end = Some (Ok bson_doc).
Proof. by_compute. Qed.
Example bson_top : write_bson (JArray []) = Throw (type_error 317).
Proof. done. Qed.
Example bson_nul : write_bson (JObject [([chr 0], JNull)]) = Throw (out_of_range 409).
Proof. by_compute. Qed.
