(* ===== verification/JsonBsonSpec.v ===== *)
(** * Theorems on BSON

    The size in front of a document is the number of its bytes; what is written
    is read back; the reader ends on every input.  One way to fail is reported
    as a discarded value instead of an exception. *)

From S2P Require Import Prelude StdMap JsonNumber Doubles JsonValue JsonLexer JsonParser JsonCompare JsonAccess JsonPointer JsonBinary JsonReads JsonBson.

(** ** Lemmas: numbers *)

Lemma length_write_le k n : length (write_le k n) = k.
Proof. unfold write_le. by rewrite length_rev, length_write_number. Qed.

Lemma zlen_write_le k n : zlen (write_le k n) = Z.of_nat k.
Proof. unfold zlen. by rewrite length_write_le. Qed.

Lemma get_le_write k n s : get_le k (write_le k n ++ s) = Ok (n mod 256 ^ Z.of_nat k, s).
Proof.
  unfold get_le. rewrite length_app, length_write_le. destruct (Nat.ltb_spec (k + length s) k); [lia|].
  rewrite <- (length_write_le k n) at 1 3. rewrite take_app_length, drop_app_length. unfold write_le. by rewrite rev_involutive, be_value_bytes.
Qed.

(** ** The computed sizes *)

(** The size of an element is the number of bytes that are written for it; the
    only error is a key with a zero byte, and the writer does not find others. *)
Definition size_spec (j : json) : Prop := forall name,
  match calc_bson_element_size name j with
  | Ok n => exists w, write_bson_element name j = Ok w /\ zlen w = n
  | Throw e => e = out_of_range 409
  end.

Lemma header_size name ty :
  match calc_bson_entry_header_size name with
  | Ok n => zlen (write_bson_entry_header name ty) = n
  | Throw e => e = out_of_range 409
  end.
Proof.
  unfold calc_bson_entry_header_size. destruct (existsb _ name); [done|]. unfold write_bson_entry_header.
  rewrite zlen_cons, zlen_app, zlen_cons, zlen_nil. lia.
Qed.

Lemma entries_size_spec m acc : Forall (fun e => size_spec e.2) m ->
  match entries_size calc_bson_element_size m acc with
  | Ok n => exists ws, write_bson_entries write_bson_element m = Ok ws /\ n = acc + zlen ws
  | Throw e => e = out_of_range 409
  end.
Proof.
  intros H. revert acc. induction H as [|[k x] m Hx _ IH]; intros acc; cbn [entries_size write_bson_entries]; [exists []; rewrite zlen_nil; split; [done|lia]|].
  specialize (Hx k). cbn [snd] in Hx. destruct (calc_bson_element_size k x) as [n|e]; [|done]. destruct Hx as (w & -> & Hw). cbn [mbind res_bind].
  specialize (IH (acc + n)). destruct (entries_size _ m (acc + n)) as [n'|e]; [|done]. destruct IH as (ws & -> & ->). cbn [mbind res_bind].
  eexists. split; [done|]. rewrite zlen_app. lia.
Qed.

Lemma items_size_spec l i acc : Forall size_spec l ->
  match items_size calc_bson_element_size i l acc with
  | Ok n => exists ws, write_bson_items write_bson_element i l = Ok ws /\ n = acc + zlen ws
  | Throw e => e = out_of_range 409
  end.
Proof.
  intros H. revert i acc. induction H as [|x l Hx _ IH]; intros i acc; cbn [items_size write_bson_items]; [exists []; rewrite zlen_nil; split; [done|lia]|].
  specialize (Hx (idx_str i)). destruct (calc_bson_element_size (idx_str i) x) as [n|e]; [|done]. destruct Hx as (w & -> & Hw). cbn [mbind res_bind].
  specialize (IH (S i) (acc + n)). destruct (items_size _ (S i) l (acc + n)) as [n'|e]; [|done]. destruct IH as (ws & -> & ->). cbn [mbind res_bind].
  eexists. split; [done|]. rewrite zlen_app. lia.
Qed.

(** A header and the bytes that follow it. *)
Ltac sized ty :=
  match goal with |- context [calc_bson_entry_header_size ?name] =>
    pose proof (header_size name ty); destruct (calc_bson_entry_header_size name); [|done]
  end; cbn [mbind res_bind].

Ltac count := eexists; split; [reflexivity|]; rewrite ?zlen_app, ?zlen_write_le, ?zlen_cons, ?zlen_nil; lia.

Lemma all_sizes j : size_spec j.
Proof.
  induction j as [|m IH|l IH|s|b|z|z|z|] using json_induct; intros name; cbn [calc_bson_element_size write_bson_element].
  - sized 0x0A. count.
  - sized 0x03. unfold calc_bson_object_size. pose proof (entries_size_spec m 0 IH) as H1. destruct (entries_size _ m 0) as [n|e]; [|done].
    destruct H1 as (ws & -> & ->). cbn [mbind res_bind]. count.
  - sized 0x04. unfold calc_bson_array_size. pose proof (items_size_spec l 0 0 IH) as H1. destruct (items_size _ 0 l 0) as [n|e]; [|done].
    destruct H1 as (ws & -> & ->). cbn [mbind res_bind]. count.
  - sized 0x02. unfold write_bson_string, calc_bson_string_size. count.
  - sized 0x08. count.
  - unfold write_bson_integer, calc_bson_integer_size. destruct (fits_i32 z); [sized 0x10|sized 0x12]; count.
  - unfold write_bson_unsigned, calc_bson_unsigned_size. destruct (z <=? 2 ^ 31 - 1); [sized 0x10; count|].
    destruct (z <=? 2 ^ 63 - 1); [sized 0x12|sized 0x11]; count.
  - sized 0x01. count.
  - sized 0x00. count.
Qed.

(** [write_bson] writes an object unless a key has a zero byte; the document
    begins with its size, in 32 bits. *)
Theorem bson_size_exact m :
  match write_bson (JObject m) with
  | Ok w => calc_bson_object_size m = Ok (zlen w) /\ take 4 w = write_le 4 (zlen w)
  | Throw e => e = out_of_range 409
  end.
Proof.
  cbn [write_bson]. unfold write_bson_object, calc_bson_object_size.
  assert (Hall : Forall (fun e : str * json => size_spec e.2) m) by (apply Forall_forall; intros e _; apply all_sizes).
  pose proof (entries_size_spec m 0 Hall) as H. destruct (entries_size _ m 0) as [n|e]; [|done]. destruct H as (ws & -> & ->). cbn [mbind res_bind].
  set (n := 4 + (0 + zlen ws) + 1). assert (E : zlen (write_le 4 n ++ ws ++ [NUL]) = n).
  { rewrite !zlen_app, zlen_write_le, zlen_cons, zlen_nil. lia. }
  rewrite E. split; [done|]. rewrite <- (length_write_le 4 n) at 1. by rewrite take_app_length.
Qed.

(** ** What is written is read back *)

(** A number of up to 63 bits comes back signed. *)
Definition bson_unsigned (z : Z) : json := if z <=? 2 ^ 63 - 1 then JInteger z else JUnsigned z.

Definition bson_norm : json -> json := norm JInteger bson_unsigned.

Lemma same_integer : same_number JInteger JInteger.
Proof. intros z Hz. split; [done|]. cbn [json_eq]. apply Z.eqb_refl. Qed.

Lemma same_bson_unsigned : same_number bson_unsigned JUnsigned.
Proof.
  intros z Hz. unfold bson_unsigned. cbn [json_ok] in Hz. destruct (Z.leb_spec z (2 ^ 63 - 1)); (split; [cbn [json_ok]; lia|]); cbn [json_eq]; [|apply Z.eqb_refl].
  rewrite i64_small by lia. apply Z.eqb_refl.
Qed.

Lemma cstr_read name rest : existsb (fun c => bool_decide (c = NUL)) name = false -> get_bson_cstr (name ++ NUL :: rest) = Got name rest.
Proof.
  induction name as [|c name IH]; intros H; cbn [app get_bson_cstr]; [by rewrite bool_decide_eq_true_2|].
  cbn [existsb] in H. apply orb_false_iff in H as [-> H]. by rewrite (IH H).
Qed.

Lemma ok_inj {A} (x y : A) : Ok x = Ok y -> x = y.
Proof. by intros [=]. Qed.

(** An element: its type, its name and a body that is read back. *)
Definition element_reads (j : json) : Prop := forall name n, calc_bson_element_size name j = Ok n ->
  exists ty body, write_bson_element name j = Ok (write_bson_entry_header name ty ++ body) /\ 0 < ty < 256 /\
    existsb (fun c => bool_decide (c = NUL)) name = false /\
    forall fuel rest, (length body <= fuel)%nat ->
      parse_bson_element_internal (parse_bson_doc (parse_bson_element_list fuel)) ty (body ++ rest) = Some (Got (events_of (bson_norm j)) rest).

Lemma list_step fuel is_array ty name body evs rest :
  0 < ty < 256 -> existsb (fun c => bool_decide (c = NUL)) name = false ->
  parse_bson_element_internal (parse_bson_doc (parse_bson_element_list fuel)) ty (body ++ rest) = Some (Got evs rest) ->
  parse_bson_element_list (S fuel) is_array ((write_bson_entry_header name ty ++ body) ++ rest) =
  (r ← parse_bson_element_list fuel is_array rest; Some (bbind r (fun evs' s => Got ((if is_array then [] else [EvKey name]) ++ evs ++ evs') s))).
Proof.
  intros Ht Hn He. unfold write_bson_entry_header. rewrite <- app_assoc. cbn [app parse_bson_element_list]. rewrite ord_byte by lia.
  rewrite (proj2 (Z.eqb_neq ty 0)) by lia. rewrite <- app_assoc. cbn [app]. by rewrite cstr_read, He.
Qed.

Lemma entries_read m acc n ws fuel rest :
  Forall (fun e => element_reads e.2) m -> entries_size calc_bson_element_size m acc = Ok n ->
  write_bson_entries write_bson_element m = Ok ws -> (length ws < fuel)%nat ->
  parse_bson_element_list fuel false (ws ++ NUL :: rest) = Some (Got (flat_map (fun e => EvKey e.1 :: events_of (bson_norm e.2)) m) rest).
Proof.
  intros H. revert acc ws fuel. induction H as [|[k x] m Hx _ IH]; intros acc ws fuel; cbn [entries_size write_bson_entries flat_map].
  { intros _ [= <-] Hf. destruct fuel; [simpl in Hf; lia|]. done. }
  destruct (calc_bson_element_size k x) as [n0|] eqn:En; [|done]. cbn [mbind res_bind]. intros Hs.
  cbn [snd] in Hx. destruct (Hx k n0 En) as (ty & body & -> & Ht & Hk & Hr). cbn [mbind res_bind].
  destruct (write_bson_entries write_bson_element m) as [ws'|] eqn:Ew; [|done]. intros <-%ok_inj Hf. destruct fuel as [|fuel]; [lia|].
  rewrite !length_app in Hf. assert (0 < length (write_bson_entry_header k ty))%nat by (simpl; lia).
  rewrite <- app_assoc. rewrite (list_step fuel false ty k body (events_of (bson_norm x))) by (done || (apply Hr; lia)).
  rewrite (IH _ ws' fuel Hs eq_refl ltac:(lia)). done.
Qed.

Lemma items_reads l i acc n ws fuel rest :
  Forall element_reads l -> items_size calc_bson_element_size i l acc = Ok n ->
  write_bson_items write_bson_element i l = Ok ws -> (length ws < fuel)%nat ->
  parse_bson_element_list fuel true (ws ++ NUL :: rest) = Some (Got (flat_map (fun x => events_of (bson_norm x)) l) rest).
Proof.
  intros H. revert i acc ws fuel. induction H as [|x l Hx _ IH]; intros i acc ws fuel; cbn [items_size write_bson_items flat_map].
  { intros _ [= <-] Hf. destruct fuel; [simpl in Hf; lia|]. done. }
  destruct (calc_bson_element_size (idx_str i) x) as [n0|] eqn:En; [|done]. cbn [mbind res_bind]. intros Hs.
  destruct (Hx (idx_str i) n0 En) as (ty & body & -> & Ht & Hk & Hr). cbn [mbind res_bind].
  destruct (write_bson_items write_bson_element (S i) l) as [ws'|] eqn:Ew; [|done]. intros <-%ok_inj Hf. destruct fuel as [|fuel]; [lia|].
  rewrite !length_app in Hf. assert (0 < length (write_bson_entry_header (idx_str i) ty))%nat by (simpl; lia).
  rewrite <- app_assoc. rewrite (list_step fuel true ty (idx_str i) body (events_of (bson_norm x))) by (done || (apply Hr; lia)).
  rewrite (IH _ _ ws' fuel Hs Ew ltac:(lia)). done.
Qed.

Lemma element_name name j n : calc_bson_element_size name j = Ok n -> existsb (fun c => bool_decide (c = NUL)) name = false.
Proof. destruct j; cbn [calc_bson_element_size]; unfold calc_bson_entry_header_size; by destruct (existsb _ name). Qed.

Lemma get_le_signed k n s : (0 < k)%nat -> - (256 ^ Z.of_nat k / 2) <= n < 256 ^ Z.of_nat k / 2 ->
  exists z, get_le k (write_le k n ++ s) = Ok (z, s) /\ signed k z = n.
Proof.
  intros Hk Hn. rewrite get_le_write. eexists. split; [done|]. rewrite <- be_value_bytes. by apply signed_bytes.
Qed.

Definition max_bson : Z := 2 ^ 31 - 2.

Lemma read_int32 doc z rest : fits_i32 z = true -> parse_bson_element_internal doc 0x10 (write_le 4 z ++ rest) = Some (Got [EvInteger z] rest).
Proof.
  unfold fits_i32. intros H. destruct (get_le_signed 4 z rest ltac:(lia)) as (x & E & Hx).
  - change (256 ^ Z.of_nat 4 / 2) with (2 ^ 31). lia.
  - unfold parse_bson_element_internal. cbn -[write_le get_le signed]. rewrite E. cbn -[signed]. by rewrite Hx.
Qed.

Lemma read_int64 doc z rest : - 2 ^ 63 <= z < 2 ^ 63 -> parse_bson_element_internal doc 0x12 (write_le 8 z ++ rest) = Some (Got [EvInteger z] rest).
Proof.
  intros H. destruct (get_le_signed 8 z rest ltac:(lia)) as (x & E & Hx).
  - change (256 ^ Z.of_nat 8 / 2) with (2 ^ 63). lia.
  - unfold parse_bson_element_internal. cbn -[write_le get_le signed]. rewrite E. cbn -[signed]. by rewrite Hx.
Qed.

Lemma read_bson_string doc t rest : zlen t <= max_bson ->
  parse_bson_element_internal doc 0x02 ((write_le 4 (zlen t + 1) ++ t ++ [NUL]) ++ rest) = Some (Got [EvString t] rest).
Proof.
  unfold max_bson. intros Ht. pose proof (zlen_nonneg t). rewrite <- !app_assoc.
  destruct (get_le_signed 4 (zlen t + 1) (t ++ [NUL] ++ rest) ltac:(lia)) as (x & E & Hx).
  - change (256 ^ Z.of_nat 4 / 2) with (2 ^ 31). lia.
  - unfold parse_bson_element_internal. cbn -[write_le get_le signed get_bson_string]. cbn [app] in E. rewrite E. cbn -[signed get_bson_string]. rewrite Hx.
    unfold get_bson_string. rewrite (proj2 (Z.ltb_ge _ 1)) by lia. replace (zlen t + 1 - 1) with (zlen t) by lia. by rewrite get_chars_app.
Qed.

(** A document inside another one. *)
Lemma read_doc fuel is_array n ws evs rest :
  (length (write_le 4 n ++ ws ++ [NUL]) <= fuel)%nat ->
  (forall f, (length ws < f)%nat -> parse_bson_element_list f is_array (ws ++ NUL :: rest) = Some (Got evs rest)) ->
  parse_bson_doc (parse_bson_element_list fuel) is_array ((write_le 4 n ++ ws ++ [NUL]) ++ rest) =
  Some (Got (if is_array then EvStartArray :: evs ++ [EvEndArray] else EvStartObject :: evs ++ [EvEndObject]) rest).
Proof.
  intros Hf H. rewrite !length_app in Hf. cbn [length] in Hf. unfold parse_bson_doc. rewrite <- !app_assoc, get_le_write. cbn [app].
  by rewrite H by lia.
Qed.

Lemma all_elements ma mo j : json_ok j -> within max_bson ma mo j = true -> element_reads j.
Proof.
  induction j as [|m IH|l IH|s|b|z|z|z|] using json_induct; intros Hj Hm name n Hn; pose proof (element_name _ _ _ Hn) as Hname;
    unfold bson_norm; cbn [norm events_of write_bson_element].
  - exists 0x0A, []. rewrite app_nil_r. split; [done|]. split; [lia|]. split; [done|]. intros fuel rest _. done.
  - apply json_ok_object in Hj as [_ Hj]. apply within_object in Hm as [_ Hm].
    assert (He : Forall (fun e => element_reads e.2) m) by (rewrite Forall_forall in IH, Hj, Hm |- *; intros e He; apply IH; [done|auto|by apply Hm]).
    cbn [calc_bson_element_size] in Hn. destruct (calc_bson_entry_header_size name); [|done]. cbn [mbind res_bind] in Hn. unfold calc_bson_object_size.
    assert (Hall : Forall (fun e : str * json => size_spec e.2) m) by (apply Forall_forall; intros e _; apply all_sizes).
    pose proof (entries_size_spec m 0 Hall) as Hs. destruct (entries_size _ m 0) as [k|] eqn:Ek; [|done]. destruct Hs as (ws & Ew & _). rewrite Ew. cbn [mbind res_bind].
    eexists 0x03, _. split; [done|]. split; [lia|]. split; [done|]. intros fuel rest Hf. rewrite flat_map_map.
    apply (read_doc fuel false); [done|]. intros f Hlt. by apply (entries_read m 0 k).
  - apply json_ok_array in Hj. apply within_array in Hm as [_ Hm].
    assert (He : Forall element_reads l) by (rewrite Forall_forall in IH, Hj, Hm |- *; intros e He; apply IH; auto).
    cbn [calc_bson_element_size] in Hn. destruct (calc_bson_entry_header_size name); [|done]. cbn [mbind res_bind] in Hn. unfold calc_bson_array_size.
    assert (Hall : Forall size_spec l) by (apply Forall_forall; intros e _; apply all_sizes).
    pose proof (items_size_spec l 0 0 Hall) as Hs. destruct (items_size _ 0 l 0) as [k|] eqn:Ek; [|done]. destruct Hs as (ws & Ew & _). rewrite Ew. cbn [mbind res_bind].
    eexists 0x04, _. split; [done|]. split; [lia|]. split; [done|]. intros fuel rest Hf. rewrite flat_map_map.
    apply (read_doc fuel true); [done|]. intros f Hlt. by apply (items_reads l 0 0 k).
  - exists 0x02. eexists. split; [done|]. split; [lia|]. split; [done|]. intros fuel rest _. apply read_bson_string. cbn [within] in Hm. lia.
  - exists 0x08. eexists. split; [done|]. split; [lia|]. split; [done|]. intros fuel rest _. by destruct b.
  - unfold write_bson_integer. destruct (fits_i32 z) eqn:Hz; [exists 0x10|exists 0x12]; (eexists; split; [done|]; split; [lia|]; split; [done|]; intros fuel rest _).
    + by apply read_int32.
    + by apply read_int64.
  - unfold write_bson_unsigned, bson_unsigned. cbn [json_ok] in Hj.
    destruct (Z.leb_spec z (2 ^ 31 - 1)); [exists 0x10|destruct (Z.leb_spec z (2 ^ 63 - 1)); [exists 0x12|exists 0x11]];
      (eexists; split; [done|]; split; [lia|]; split; [done|]; intros fuel rest _).
    + rewrite (proj2 (Z.leb_le z (2 ^ 63 - 1))) by lia. apply read_int32. unfold fits_i32. lia.
    + apply read_int64. lia.
    + unfold parse_bson_element_internal. cbn -[write_le get_le]. rewrite get_le_write. cbn [of_read bbind]. by rewrite Z.mod_small by (simpl; lia).
  - exists 0x01. eexists. split; [done|]. split; [lia|]. split; [done|]. intros fuel rest _.
    unfold parse_bson_element_internal. cbn -[write_le get_le]. rewrite get_le_write. cbn [of_read bbind]. cbn [json_ok] in Hj. by rewrite Z.mod_small by (simpl; lia).
  - by destruct Hj.
Qed.

(** C29: An object that is written in BSON is read back: when [to_bson(j)] does not throw, [from_bson] of its bytes is [j]
    with the unsigned numbers of up to 63 bits signed, which [operator==] finds equal to [j], if its strings and keys
    have at most 2^31 - 2 bytes and it has no NaN; the numbers of elements are bounded by any [ma] and [mo]. *)
Theorem bson_roundtrip ma mo j w :
  json_ok j -> within max_bson ma mo j = true -> write_bson j = Ok w ->
  from_bson true w = Some (Ok (bson_norm j)) /\ json_eq (bson_norm j) j = true.
Proof.
  intros Hj Hm Hw. split; [|eapply norm_eq; eauto using same_integer, same_bson_unsigned]. destruct j as [|m|l|s|b|z|z|z|]; try done. cbn [write_bson] in Hw.
  assert (Hall : Forall (fun e : str * json => size_spec e.2) m) by (apply Forall_forall; intros e _; apply all_sizes).
  assert (He : Forall (fun e => element_reads e.2) m).
  { apply json_ok_object in Hj as [_ Hj]. apply within_object in Hm as [_ Hm]. rewrite Forall_forall in Hj, Hm |- *. intros e He.
    apply (all_elements ma mo); [by apply Hj|by apply Hm]. }
  unfold write_bson_object, calc_bson_object_size in Hw. pose proof (entries_size_spec m 0 Hall) as Hs.
  destruct (entries_size _ m 0) as [k|] eqn:Ek; [|done]. destruct Hs as (ws & Ew & _). rewrite Ew in Hw. cbn [mbind res_bind] in Hw. apply ok_inj in Hw as <-.
  unfold from_bson, sax_bson. set (n := 4 + k + 1).
  pose proof (read_doc (S (length (write_le 4 n ++ ws ++ [NUL]))) false n ws (flat_map (fun e => EvKey e.1 :: events_of (bson_norm e.2)) m) [] ltac:(lia)) as H.
  rewrite app_nil_r in H. rewrite H by (intros f Hlt; by apply (entries_read m 0 k)). cbn [mbind option_bind bbind andb].
  pose proof (dom_events_of (bson_norm (JObject m)) new_sax) as Hd. unfold bson_norm in Hd at 2. cbn [norm events_of] in Hd. rewrite flat_map_map in Hd.
  cbn [fst snd] in Hd. unfold bson_norm at 1. rewrite Hd by (apply norm_ok; auto using same_integer, same_bson_unsigned). done.
Qed.

Lemma bson_roundtrip_witness :
  exists w, write_bson bson_doc = Ok w /\ from_bson true w = Some (Ok (bson_norm bson_doc)) /\ json_eq (bson_norm bson_doc) bson_doc = true.
Proof.
  destruct (write_bson bson_doc) as [w|] eqn:E; [|vm_compute in E; discriminate]. exists w. split; [reflexivity|].
  apply (bson_roundtrip 10 10 bson_doc w); [|reflexivity|exact E]. repeat constructor; simpl; lia.
Defined.

(** A binary value has the computed size and is read back as its event, always
    with a subtype. *)
Theorem bson_binary doc name b subtype rest :
  zlen b <= max_bson -> exists body,
    write_bson_binary name b subtype = write_bson_entry_header name 0x05 ++ body /\ zlen body = calc_bson_binary_size b /\
    parse_bson_element_internal doc 0x05 (body ++ rest) = Some (Got [EvBinary b (Some (match subtype with Some t => t mod 256 | None => 0 end))] rest).
Proof.
  unfold max_bson. intros Hb. pose proof (zlen_nonneg b). eexists. split; [done|]. split.
  { unfold calc_bson_binary_size. rewrite !zlen_app, zlen_write_le, zlen_write_number. lia. }
  set (t := match subtype with Some t => t | None => 0 end). rewrite <- !app_assoc.
  destruct (get_le_signed 4 (zlen b) (write_number 1 t ++ b ++ rest) ltac:(lia)) as (x & E & Hx); [change (256 ^ Z.of_nat 4 / 2) with (2 ^ 31); lia|].
  unfold parse_bson_element_internal. cbn -[write_le get_le signed get_bson_binary write_number]. rewrite E. cbn [of_read bbind]. rewrite Hx.
  unfold get_bson_binary. rewrite (proj2 (Z.ltb_ge _ 0)) by lia. unfold get_num. rewrite get_be_write. cbn [of_read bbind]. rewrite get_chars_app.
  cbn [of_read bbind]. do 5 f_equal. by destruct subtype.
Qed.

(** ** Failures *)

(** A document that ends in a string without its terminator is not refused with
    an exception: [from_bson] returns a discarded value. *)
Theorem bson_silent_failure strict size name t :
  existsb (fun c => bool_decide (c = NUL)) name = false -> zlen t <= max_bson ->
  from_bson strict (write_le 4 size ++ write_bson_entry_header name 0x02 ++ write_le 4 (zlen t + 1) ++ t) = Some (Ok JDiscarded).
Proof.
  unfold max_bson. intros Hn Ht. pose proof (zlen_nonneg t). unfold from_bson, sax_bson, parse_bson_doc. rewrite get_le_write.
  destruct (get_le_signed 4 (zlen t + 1) t ltac:(lia)) as (x & E & Hx); [change (256 ^ Z.of_nat 4 / 2) with (2 ^ 31); lia|].
  unfold write_bson_entry_header. cbn [app parse_bson_element_list]. rewrite ord_byte by lia. cbn [Z.eqb]. rewrite <- app_assoc. cbn [app].
  rewrite cstr_read by done. unfold parse_bson_element_internal. cbn -[write_le get_le signed get_bson_string length]. rewrite E. cbn -[signed get_bson_string]. rewrite Hx.
  unfold get_bson_string. rewrite (proj2 (Z.ltb_ge _ 1)) by lia. replace (zlen t + 1 - 1) with (zlen t) by lia.
  rewrite <- (app_nil_r t) at 2. by rewrite get_chars_app.
Qed.

Definition bson_error (e : exn) : Prop := e = parse_error 110 \/ e = parse_error 112 \/ e = parse_error 114.

(** A read that leaves at most the bytes it was given, or [d] less. *)
Definition leaves_less {A} (d : nat) (s : str) (r : bread A) : Prop :=
  match r with
  | Got _ rest => (length rest + d <= length s)%nat
  | Raised e => bson_error e
  | Refused => True
  end.

Lemma leaves_bind {A B} d s (r : bread A) (f : A -> str -> bread B) :
  leaves_less d s r -> (forall x rest, (length rest + d <= length s)%nat -> leaves_less d s (f x rest)) -> leaves_less d s (bbind r f).
Proof. destruct r as [x rest|e|]; cbn; auto. Qed.

Lemma leaves_le k s s0 : (length s <= length s0)%nat -> leaves_less 0 s0 (of_read (get_le k s)).
Proof. intros Hs. unfold get_le. destruct (_ <? k)%nat; cbn; [by left|]. rewrite length_drop. lia. Qed.

Lemma leaves_num k s s0 : (length s <= length s0)%nat -> leaves_less 0 s0 (of_read (get_num k s)).
Proof. intros Hs. unfold get_num, get_be. destruct (_ <? k)%nat; cbn; [by left|]. rewrite length_drop. lia. Qed.

Lemma leaves_chars n s s0 : (length s <= length s0)%nat -> leaves_less 0 s0 (of_read (get_chars n s)).
Proof. intros Hs. unfold get_chars, get_bytes. destruct (_ <? n); cbn; [by left|]. rewrite length_drop. lia. Qed.

Lemma leaves_string n s s0 : (length s <= length s0)%nat -> leaves_less 0 s0 (get_bson_string n s).
Proof.
  intros Hs. unfold get_bson_string. destruct (n <? 1); [right; by left|]. apply leaves_bind; [by apply leaves_chars|].
  intros t [|c rest] Hr; cbn in *; [done|lia].
Qed.

Lemma leaves_binary n s s0 : (length s <= length s0)%nat -> leaves_less 0 s0 (get_bson_binary n s).
Proof.
  intros Hs. unfold get_bson_binary. destruct (n <? 0); [right; by left|]. apply leaves_bind; [by apply leaves_num|]. intros t s1 H1.
  apply leaves_bind; [apply leaves_chars; lia|]. done.
Qed.

Lemma leaves_cstr s : leaves_less 1 s (get_bson_cstr s).
Proof.
  induction s as [|c s IH]; cbn [get_bson_cstr]; [by left|]. destruct (bool_decide (c = NUL)); [cbn; lia|].
  destruct (get_bson_cstr s) as [t rest|e|]; cbn in *; [lia|done..].
Qed.

Definition bends {A} (s : str) (r : option (bread A)) : Prop := match r with None => False | Some r => leaves_less 0 s r end.

Lemma element_ends doc ty s : (forall is_array, bends s (doc is_array s)) -> bends s (parse_bson_element_internal doc ty s).
Proof.
  intros Hd. unfold parse_bson_element_internal.
  assert (Hnum : forall k (mk : Z -> sax_event), bends s (Some (bbind (of_read (get_le k s)) (fun n s => Got [mk n] s)))).
  { intros k mk. apply leaves_bind; [by apply leaves_le|]. done. }
  repeat match goal with |- context [if ?b then _ else _] => destruct b end; try apply Hnum; try apply Hd.
  - apply leaves_bind; [by apply leaves_le|]. intros len s1 H1. apply leaves_bind; [apply leaves_string; lia|]. done.
  - apply leaves_bind; [by apply leaves_le|]. intros len s1 H1. apply leaves_bind; [apply leaves_binary; lia|]. done.
  - destruct s as [|c s]; cbn; lia.
  - cbn. lia.
  - right. by right.
Qed.

Lemma doc_ends elements is_array s : (forall t, (length t <= length s)%nat -> bends t (elements is_array t)) -> bends s (parse_bson_doc elements is_array s).
Proof.
  intros He. unfold parse_bson_doc. pose proof (leaves_le 4 s s (le_n _)) as H. destruct (get_le 4 s) as [[n t]|e]; [|done]. cbn in H.
  specialize (He t ltac:(lia)). destruct (elements is_array t) as [r|]; [|done]. cbn [mbind option_bind]. destruct r as [evs rest|e|]; cbn in *; [lia|done..].
Qed.

Lemma list_ends fuel is_array s : (length s < fuel)%nat -> bends s (parse_bson_element_list fuel is_array s).
Proof.
  revert is_array s. induction fuel as [|fuel IH]; intros is_array s Hf; [lia|]. destruct s as [|c s]; cbn [parse_bson_element_list]; [by left|]. simpl in Hf.
  destruct (ord c =? 0); [cbn; lia|]. pose proof (leaves_cstr s) as Hc. destruct (get_bson_cstr s) as [key t|e|]; [|done..]. cbn in Hc.
  assert (He : bends t (parse_bson_element_internal (parse_bson_doc (parse_bson_element_list fuel)) (ord c) t)).
  { apply element_ends. intros b. apply doc_ends. intros u Hu. apply IH. lia. }
  destruct (parse_bson_element_internal _ (ord c) t) as [[evs u|e|]|]; cbn in He; [|done..]. cbn [mbind option_bind].
  specialize (IH is_array u ltac:(lia)). destruct (parse_bson_element_list fuel is_array u) as [[evs' v|e|]|]; cbn in *; [lia|done..].
Qed.

(** The BSON reader ends on every input: with the events of a value, without
    success, or with one of the exceptions for the end of the input (110), a
    length that is too small (112) and an unknown type (114). *)
Theorem bson_total strict input :
  exists r, sax_bson strict input = Some r /\ match r with Raised e => bson_error e | _ => True end.
Proof.
  unfold sax_bson.
  pose proof (doc_ends (parse_bson_element_list (S (length input))) false input ltac:(intros t Ht; apply list_ends; lia)) as H.
  destruct (parse_bson_doc _ false input) as [[evs rest|e|]|]; cbn in H |- *; [|by eexists..|done].
  destruct (strict && _); eexists; (split; [done|]); [by left|done].
Qed.
