(* ===== verification/JsonUbjson.v ===== *)
(** * UBJSON (write_ubjson and get_ubjson_value)

    The writer of class binary_writer and the reader of class binary_reader of
    include/nlohmann/json.hpp, for the format UBJSON; the branches for BJData are
    not modelled.  Containers can be written with their number of elements
    ([use_count]) and with a type for all of them ([use_type]).  The reader
    returns the events of the SAX interface and the bytes that are left.  The
    loops over a given number of elements are bounded by this number: elements
    of a typed container may take no bytes at all. *)

From S2P Require Import Prelude StdMap JsonNumber Doubles JsonValue JsonLexer JsonParser JsonSerializer JsonCompare JsonAccess JsonBinary.

(** ** Writer *)

(** [write_number_with_ubjson_prefix] for an unsigned number of up to 63 bits:
    the prefix and the bytes behind it. *)
Definition ub_fix (n : Z) : ascii * str :=
  if n <=? 2 ^ 7 - 1 then ("i"%char, write_number 1 n)
  else if n <=? 2 ^ 8 - 1 then ("U"%char, write_number 1 n)
  else if n <=? 2 ^ 15 - 1 then ("I"%char, write_number 2 n)
  else if n <=? 2 ^ 31 - 1 then ("l"%char, write_number 4 n)
  else ("L"%char, write_number 8 n).

(** A larger one is written as its text, with the length of the text, which is
    at most 20. *)
Definition ub_unsigned (n : Z) : ascii * str :=
  if n <=? 2 ^ 63 - 1 then ub_fix n
  else
    let number := dump_integer n in
    let '(p, size) := ub_fix (zlen number) in
    ("H"%char, p :: size ++ number).

(** The same for a signed number. *)
Definition ub_integer (n : Z) : ascii * str :=
  if (- 2 ^ 7 <=? n) && (n <=? 2 ^ 7 - 1) then ("i"%char, write_number 1 n)
  else if (0 <=? n) && (n <=? 2 ^ 8 - 1) then ("U"%char, write_number 1 n)
  else if (- 2 ^ 15 <=? n) && (n <=? 2 ^ 15 - 1) then ("I"%char, write_number 2 n)
  else if (- 2 ^ 31 <=? n) && (n <=? 2 ^ 31 - 1) then ("l"%char, write_number 4 n)
  else ("L"%char, write_number 8 n).

Definition with_prefix (add_prefix : bool) (p : ascii * str) : str := if add_prefix then p.1 :: p.2 else p.2.

(** A length or count, which always has its prefix. *)
Definition ub_len (n : Z) : str := with_prefix true (ub_unsigned n).

(** [ubjson_prefix] *)
Definition ubjson_prefix (j : json) : ascii :=
  match j with
  | JNull => "Z"%char
  | JBool b => if b then "T"%char else "F"%char
  | JInteger n =>
      if (- 2 ^ 7 <=? n) && (n <=? 2 ^ 7 - 1) then "i"%char
      else if (0 <=? n) && (n <=? 2 ^ 8 - 1) then "U"%char
      else if (- 2 ^ 15 <=? n) && (n <=? 2 ^ 15 - 1) then "I"%char
      else if (- 2 ^ 31 <=? n) && (n <=? 2 ^ 31 - 1) then "l"%char
      else "L"%char
  | JUnsigned n =>
      if n <=? 2 ^ 7 - 1 then "i"%char
      else if n <=? 2 ^ 8 - 1 then "U"%char
      else if n <=? 2 ^ 15 - 1 then "I"%char
      else if n <=? 2 ^ 31 - 1 then "l"%char
      else if n <=? 2 ^ 63 - 1 then "L"%char
      else "H"%char
  | JFloat _ => "D"%char
  | JString _ => "S"%char
  | JArray _ => "["%char
  | JObject _ => "{"%char
  | JDiscarded => "N"%char
  end.

(** The prefix all elements have, if there is one. *)
Definition same_prefix (vs : list json) : option ascii :=
  match vs with
  | [] => None
  | v :: vs' =>
      if forallb (fun w => Ascii.eqb (ubjson_prefix w) (ubjson_prefix v)) vs' then Some (ubjson_prefix v) else None
  end.

Section Write.
Variables (use_count use_type : bool).

(** The type of a container, before its elements. *)
Definition common_type (vs : list json) : option ascii := if use_type then same_prefix vs else None.

Definition type_mark (t : option ascii) : str := match t with Some c => ["$"%char; c] | None => [] end.

Definition count_mark (n : Z) : str := if use_count then "#"%char :: ub_len n else [].

Definition close_mark (c : ascii) : str := if use_count then [] else [c].

Definition required (t : option ascii) : bool := match t with Some _ => false | None => true end.

(** [write_ubjson(j, use_count, use_type, add_prefix)] *)
Fixpoint write_ubjson (add_prefix : bool) (j : json) {struct j} : str :=
  match j with
  | JNull => if add_prefix then ["Z"%char] else []
  | JBool b => if add_prefix then [if b then "T"%char else "F"%char] else []
  | JInteger n => with_prefix add_prefix (ub_integer n)
  | JUnsigned n => with_prefix add_prefix (ub_unsigned n)
  | JFloat b => with_prefix add_prefix ("D"%char, write_number 8 b)
  | JString s => (if add_prefix then ["S"%char] else []) ++ ub_len (zlen s) ++ s
  | JArray l =>
      let t := common_type l in
      (if add_prefix then ["["%char] else []) ++ type_mark t ++ count_mark (zlen l) ++
      flat_map (write_ubjson (required t)) l ++ close_mark "]"%char
  | JObject m =>
      let t := common_type (map snd m) in
      (if add_prefix then ["{"%char] else []) ++ type_mark t ++ count_mark (zlen m) ++
      flat_map (fun e => (ub_len (zlen e.1) ++ e.1) ++ write_ubjson (required t) e.2) m ++ close_mark "}"%char
  | JDiscarded => []
  end.

(** The case of a binary value: an array of bytes. *)
Definition ub_binary (add_prefix : bool) (b : str) : str :=
  (if add_prefix then ["["%char] else []) ++
  (if use_type && negb (match b with [] => true | _ => false end) then ["$"%char; "U"%char] else []) ++
  count_mark (zlen b) ++
  (if use_type then b else flat_map (fun c => ["U"%char; c]) b) ++
  close_mark "]"%char.
End Write.

(** ** Reader *)

(** [get_ignore_noop]: what is left, from the next byte that is not a no-op. *)
Fixpoint skip_noop (s : str) : str :=
  match s with
  | c :: s' => if Ascii.eqb c "N"%char then skip_noop s' else s
  | [] => []
  end.

(** The number behind a prefix for lengths; [None] for other prefixes. *)
Definition get_length (c : ascii) (s : str) : option (read Z) :=
  let sint k := Some ('(n, s) ← get_num k s; Ok (signed k n, s)) in
  if Ascii.eqb c "U"%char then Some (get_num 1 s)
  else if Ascii.eqb c "i"%char then sint 1%nat
  else if Ascii.eqb c "I"%char then sint 2%nat
  else if Ascii.eqb c "l"%char then sint 4%nat
  else if Ascii.eqb c "L"%char then sint 8%nat
  else None.

(** [get_ubjson_string]; a negative length gives the empty string. *)
Definition get_ubjson_string (s : str) : read str :=
  match s with
  | [] => Throw (parse_error 110)
  | c :: s =>
      match get_length c s with
      | Some r => '(len, s) ← r; get_chars len s
      | None => Throw (parse_error 113)
      end
  end.

(** [get_ubjson_size_value] *)
Definition get_ubjson_size_value (s : str) : read Z :=
  match skip_noop s with
  | [] => Throw (parse_error 113)
  | c :: s =>
      match get_length c s with
      | Some r => '(n, s) ← r; if n <? 0 then Throw (parse_error 113) else Ok (n, s)
      | None => Throw (parse_error 113)
      end
  end.

Definition no_type : ascii := chr 0.

(** [get_ubjson_size_type]: the size if there is one, and the type; without a
    size, the byte that was looked at is still there. *)
Definition get_ubjson_size_type (s : str) : read (option Z * ascii) :=
  match skip_noop s with
  | [] => Ok ((None, no_type), [])
  | c :: s1 =>
      if Ascii.eqb c "$"%char then
        match s1 with
        | [] => Throw (parse_error 110)
        | ty :: s2 =>
            match skip_noop s2 with
            | [] => Throw (parse_error 110)
            | h :: s3 =>
                if Ascii.eqb h "#"%char then '(n, s4) ← get_ubjson_size_value s3; Ok ((Some n, ty), s4)
                else Throw (parse_error 112)
            end
        end
      else if Ascii.eqb c "#"%char then '(n, s2) ← get_ubjson_size_value s1; Ok ((Some n, no_type), s2)
      else Ok ((None, no_type), c :: s1)
  end.

(** [get_ubjson_high_precision_number]: the text is scanned with the lexer; the
    value is read from the lexer after the scan that finds the end. *)
Definition get_ubjson_high_precision_number (s : str) : option (read sax_event) :=
  match ('(n, s) ← get_ubjson_size_value s; get_chars n s) with
  | Throw e => Some (Throw e)
  | Ok (text, s) =>
      '(result_number, l) ← lex_scan (new_lexer text);
      '(result_remainder, l) ← lex_scan l;
      Some (if bool_decide (result_remainder <> end_of_input) then Throw (parse_error 115)
            else
              match result_number with
              | value_integer => Ok (EvInteger (get_number_integer l), s)
              | value_unsigned => Ok (EvUnsigned (get_number_unsigned l), s)
              | value_float => Ok (EvFloat (get_number_float l), s)
              | _ => Throw (parse_error 115)
              end)
  end.

(** The values that are not containers. *)
Definition ub_scalar (c : ascii) (s : str) : option (read sax_event) :=
  let number k mk := Some ('(n, s) ← get_num k s; Ok (mk n, s)) in
  if Ascii.eqb c "T"%char then Some (Ok (EvBool true, s))
  else if Ascii.eqb c "F"%char then Some (Ok (EvBool false, s))
  else if Ascii.eqb c "Z"%char then Some (Ok (EvNull, s))
  else if Ascii.eqb c "U"%char then number 1%nat EvUnsigned
  else if Ascii.eqb c "i"%char then number 1%nat (fun n => EvInteger (signed 1 n))
  else if Ascii.eqb c "I"%char then number 2%nat (fun n => EvInteger (signed 2 n))
  else if Ascii.eqb c "l"%char then number 4%nat (fun n => EvInteger (signed 4 n))
  else if Ascii.eqb c "L"%char then number 8%nat (fun n => EvInteger (signed 8 n))
  else if Ascii.eqb c "d"%char then number 4%nat (fun n => EvFloat (double_of_float n))
  else if Ascii.eqb c "D"%char then number 8%nat EvFloat
  else if Ascii.eqb c "H"%char then get_ubjson_high_precision_number s
  else if Ascii.eqb c "C"%char then
    match s with
    | [] => Some (Throw (parse_error 110))
    | x :: s' => if 127 <? ord x then Some (Throw (parse_error 113)) else Some (Ok (EvString [x], s'))
    end
  else if Ascii.eqb c "S"%char then Some ('(t, s) ← get_ubjson_string s; Ok (EvString t, s))
  else Some (Throw (parse_error 112)).

(** The loops [while (current != close)]. *)
Section Until.
Variables (close : ascii) (item : str -> option (read (list sax_event))).

Fixpoint until_close (fuel : nat) (s : str) : option (read (list sax_event)) :=
  match fuel with
  | O => None
  | S fuel' =>
      let more :=
        r ← item (skip_noop s);
        match r with
        | Throw e => Some (Throw e)
        | Ok (evs, s) => wrap_events evs [] (until_close fuel' s)
        end in
      match skip_noop s with
      | c :: t => if Ascii.eqb c close then Some (Ok ([], t)) else more
      | [] => more
      end
  end.
End Until.

(** A key, then [value]. *)
Definition ub_member (value : str -> option (read (list sax_event))) (s : str) : option (read (list sax_event)) :=
  match get_ubjson_string s with
  | Throw e => Some (Throw e)
  | Ok (k, s) => wrap_events [EvKey k] [] (value s)
  end.

Section Parse.
(** [max_size()] of an object ([true]) or an array. *)
Variable max_size : bool -> Z.

(** [get_ubjson_array] and [get_ubjson_object]: [value] reads a value behind its
    prefix, [internal] one with its prefix. *)
Definition ub_container (value : ascii -> str -> option (read (list sax_event))) (internal : str -> option (read (list sax_event))) (is_map : bool) (s : str) : option (read (list sax_event)) :=
  let item v := if is_map then ub_member v else v in
  match get_ubjson_size_type s with
  | Throw e => Some (Throw e)
  | Ok ((Some n, ty), s) =>
      if max_size is_map <? n then Some (Throw (out_of_range 408))
      else
        wrap_events [if is_map then EvStartObject else EvStartArray] [if is_map then EvEndObject else EvEndArray]
          (if Ascii.eqb ty no_type then read_items (item internal) (Z.to_nat n) n s
           else if negb is_map && Ascii.eqb ty "N"%char then Some (Ok ([], s))
           else read_items (item (value ty)) (Z.to_nat n) n s)
  | Ok ((None, _), s) =>
      wrap_events [if is_map then EvStartObject else EvStartArray] [if is_map then EvEndObject else EvEndArray]
        (until_close (if is_map then "}"%char else "]"%char) (item internal) (S (length s)) s)
  end.

(** [parse_ubjson_internal] *)
Definition ub_internal (value : ascii -> str -> option (read (list sax_event))) (s : str) : option (read (list sax_event)) :=
  match skip_noop s with
  | [] => Some (Throw (parse_error 110))
  | c :: s => value c s
  end.

(** [get_ubjson_value(prefix)]; [fuel] bounds the nesting, each level of which
    takes a byte at least. *)
Fixpoint get_ubjson_value (fuel : nat) (prefix : ascii) (s : str) : option (read (list sax_event)) :=
  match fuel with
  | O => None
  | S fuel' =>
      let container := ub_container (get_ubjson_value fuel') (ub_internal (get_ubjson_value fuel')) in
      if Ascii.eqb prefix "["%char then container false s
      else if Ascii.eqb prefix "{"%char then container true s
      else map_read (fun ev => [ev]) (ub_scalar prefix s)
  end.

(** [sax_parse(ubjson, sax, strict)]; no-ops may follow the value. *)
Definition sax_ubjson (strict : bool) (input : str) : option (res (list sax_event)) :=
  r ← ub_internal (get_ubjson_value (S (length input))) input;
  match r with
  | Throw e => Some (Throw e)
  | Ok (evs, rest) =>
      if strict && match skip_noop rest with [] => false | _ => true end then Some (Throw (parse_error 110)) else Some (Ok evs)
  end.

(** [from_ubjson(input, strict)] *)
Definition from_ubjson (strict : bool) (input : str) : option (res json) :=
  r ← sax_ubjson strict input;
  match r with
  | Throw e => Some (Throw e)
  | Ok evs => s ← dom_events evs new_sax; Some (Ok (root s))
  end.
End Parse.

(** ** Examples *)

Definition ub_lim (is_map : bool) : Z := 1000.

Definition ub_doc : json :=
  JObject [($"a", JArray [JInteger 1; JInteger (-2); JUnsigned 3]); ($"b", JArray [JNull; JNull]); ($"c", JObject [($"x", JString $"yz")]); ($"h", JUnsigned (2 ^ 63))].

Example ubjson_ex : write_ubjson true true true (JArray [JInteger 1; JInteger 2]) = $"[$i#i" ++ map chr [2; 1; 2].
Proof. by_compute. Qed.
Example ubjson_nulls : write_ubjson true true true (JArray [JNull; JNull]) = $"[$Z#i" ++ [chr 2].
Proof. by_compute. Qed.
Example ubjson_big : write_ubjson false false true (JUnsigned (2 ^ 63)) = $"Hi" ++ chr 19 :: $"9223372036854775808".
Proof. by_compute. Qed.
Example ubjson_back :
  map (fun f => from_ubjson ub_lim true (write_ubjson f.1 f.2 true ub_doc)) [(false, false); (true, false); (true, true)] =
  replicate 3 (Some (Ok (JObject [($"a", JArray [JInteger 1; JInteger (-2); JInteger 3]); ($"b", JArray [JNull; JNull]); ($"c", JObject [($"x", JString $"yz")]); ($"h", JUnsigned (2 ^ 63))]))).
Proof. by_compute. Qed.
Example ubjson_noop : from_ubjson ub_lim true $"NN[NTNNFN]NN" = Some (Ok (JArray [JBool true; JBool false])).
Proof. by_compute. Qed.
Example ubjson_high : from_ubjson ub_lim true ($"Hi" ++ chr 3 :: $"1 2") = Some (Throw (parse_error 115)).
Proof. by_compute. Qed.
Example ubjson_negative_string : from_ubjson ub_lim true ($"Si" ++ [chr 255]) = Some (Ok (JString [])).
Proof. by_compute. Qed.
