(* ===== verification/JsonUbjsonSpec.v ===== *)
(** * Theorems on UBJSON

    What is written is read back, with every choice of counts and types; the
    reader ends on every input, although a few bytes can announce any number of
    values. *)

From S2P Require Import Prelude StdMap JsonNumber Doubles JsonValue JsonLexer JsonParser JsonSerializer JsonIntegers JsonTokens JsonTotal.
From S2P Require Import JsonCompare JsonAccess JsonBinary JsonReads JsonUbjson.

(** ** Lemmas: numbers *)

(** A length, count or number of up to 63 bits. *)
Lemma ub_fix_reads n rest : 0 <= n < 2 ^ 63 ->
  get_length (ub_fix n).1 ((ub_fix n).2 ++ rest) = Some (Ok (n, rest)) /\ (ub_fix n).1 <> "N"%char.
Proof.
  intros Hn. unfold ub_fix.
  assert (Hs : forall k, (0 < k)%nat -> n < 256 ^ Z.of_nat k / 2 ->
    ('(m, s) ← get_num k (write_number k n ++ rest); Ok (signed k m, s)) = Ok (n, rest) :> read Z).
  { intros k Hk Hlt. destruct (get_num_signed k n rest Hk) as (z & -> & <-); [|done]. split; [|done].
    apply Z.le_trans with 0; [|lia]. assert (0 <= 256 ^ Z.of_nat k / 2) by (apply Z.div_pos; [apply Z.pow_nonneg|]; lia). lia. }
  destruct (Z.leb_spec n (2 ^ 7 - 1)); [|destruct (Z.leb_spec n (2 ^ 8 - 1)); [|destruct (Z.leb_spec n (2 ^ 15 - 1)); [|destruct (Z.leb_spec n (2 ^ 31 - 1))]]];
    cbn [fst snd get_length]; (split; [|done]).
  - change (Some ('(m, s) ← get_num 1 (write_number 1 n ++ rest); Ok (signed 1 m, s)) = Some (Ok (n, rest)) :> option (read Z)).
    rewrite Hs; [done|lia|]. change (256 ^ Z.of_nat 1 / 2) with (2 ^ 7). lia.
  - change (Some (get_num 1 (write_number 1 n ++ rest)) = Some (Ok (n, rest)) :> option (read Z)). by rewrite get_num_bytes by (simpl; lia).
  - change (Some ('(m, s) ← get_num 2 (write_number 2 n ++ rest); Ok (signed 2 m, s)) = Some (Ok (n, rest)) :> option (read Z)).
    rewrite Hs; [done|lia|]. change (256 ^ Z.of_nat 2 / 2) with (2 ^ 15). lia.
  - change (Some ('(m, s) ← get_num 4 (write_number 4 n ++ rest); Ok (signed 4 m, s)) = Some (Ok (n, rest)) :> option (read Z)).
    rewrite Hs; [done|lia|]. change (256 ^ Z.of_nat 4 / 2) with (2 ^ 31). lia.
  - change (Some ('(m, s) ← get_num 8 (write_number 8 n ++ rest); Ok (signed 8 m, s)) = Some (Ok (n, rest)) :> option (read Z)).
    rewrite Hs; [done|lia|]. change (256 ^ Z.of_nat 8 / 2) with (2 ^ 63). lia.
Qed.

Lemma skip_noop_other c s : c <> "N"%char -> skip_noop (c :: s) = c :: s.
Proof. intros Hc. cbn [skip_noop]. by destruct (Ascii.eqb_spec c "N"). Qed.

Lemma ub_len_fix n : 0 <= n < 2 ^ 63 -> ub_len n = (ub_fix n).1 :: (ub_fix n).2.
Proof. intros Hn. unfold ub_len, with_prefix, ub_unsigned. by rewrite (proj2 (Z.leb_le n (2 ^ 63 - 1))) by lia. Qed.

Lemma size_value_reads n rest : 0 <= n < 2 ^ 63 -> get_ubjson_size_value (ub_len n ++ rest) = Ok (n, rest).
Proof.
  intros Hn. rewrite ub_len_fix by done. destruct (ub_fix_reads n rest Hn) as [Hl Hc]. unfold get_ubjson_size_value. cbn [app].
  rewrite skip_noop_other by done. rewrite Hl. cbn [mbind res_bind]. by rewrite (proj2 (Z.ltb_ge n 0)) by lia.
Qed.

Lemma ub_string_reads t rest : zlen t < 2 ^ 63 -> get_ubjson_string (ub_len (zlen t) ++ t ++ rest) = Ok (t, rest).
Proof.
  intros Ht. pose proof (zlen_nonneg t). rewrite ub_len_fix by lia. destruct (ub_fix_reads (zlen t) (t ++ rest) ltac:(lia)) as [Hl _].
  unfold get_ubjson_string. cbn [app]. rewrite Hl. cbn [mbind res_bind]. apply get_chars_app.
Qed.

(** ** Lemmas: numbers written as text *)

Lemma skip_whitespace_keeps fuel s s' : skip_whitespace_loop fuel s = Some (tt, s') -> lex_unsigned s' = lex_unsigned s.
Proof.
  revert s. induction fuel as [|fuel IH]; intros s; [done|]. cbn [skip_whitespace_loop].
  assert (Hg : exists c s1, get s = Some (c, s1) /\ lex_unsigned s1 = lex_unsigned s).
  { unfold get. destruct (next_unget s); [by eexists _, _|]. destruct (ia s); by eexists _, _. }
  destruct Hg as (c & s1 & E & Hu). erewrite lex_bind_step by exact E. destruct (is_space c); [|by intros [= <-]].
  intros H%IH. congruence.
Qed.

Lemma lex_scan_end_keeps s :
  at_rest s [] -> 0 < chars_read_total (position s) ->
  exists s', lex_scan s = Some (end_of_input, s') /\ lex_unsigned s' = lex_unsigned s.
Proof.
  intros H Hp. unfold lex_scan, with_state. rewrite (proj2 (Z.eqb_neq _ 0)) by lia.
  destruct (skip_whitespace_eof s H) as (s1 & E & H1 & Hc). erewrite lex_bind_step by exact E.
  unfold scan_token. erewrite (lex_bind_step get_current) by done. rewrite Hc. exists s1. split; [done|].
  by apply (skip_whitespace_keeps _ s s1 E).
Qed.

Lemma high_precision_reads n rest : 2 ^ 63 <= n < 2 ^ 64 ->
  get_ubjson_high_precision_number ((ub_unsigned n).2 ++ rest) = Some (Ok (EvUnsigned n, rest)).
Proof.
  intros Hn. unfold ub_unsigned. rewrite (proj2 (Z.leb_gt n (2 ^ 63 - 1))) by lia. rewrite dump_integer_nonneg by lia.
  pose proof (dec_str_len1 n 19) as H19. pose proof (dec_str_len1 n 20) as H20.
  assert (Hlen : 0 <= zlen (dec_str n) < 2 ^ 63).
  { split; [apply zlen_nonneg|]. destruct (Z.lt_ge_cases n (10 ^ 19)); [rewrite H19 by lia|rewrite H20 by lia]; lia. }
  pose proof (ub_len_fix (zlen (dec_str n)) Hlen) as E. destruct (ub_fix (zlen (dec_str n))) as [p size]. cbn [fst snd] in *.
  unfold get_ubjson_high_precision_number. change (p :: size ++ dec_str n) with ((p :: size) ++ dec_str n). rewrite <- E, <- app_assoc.
  rewrite size_value_reads by done. cbn [mbind res_bind]. rewrite get_chars_app.
  destruct (dec_str_head n) as (c & cs & Ec & Hc); [lia|].
  destruct (lexes_unsigned n ltac:(lia) (new_lexer (dec_str n)) []) as (s1 & E1 & Hr & Hp & Hv); [|done|].
  { rewrite app_nil_r. split; [done|]. right. split; [done|]. rewrite Ec. cbn. intros [=]. lia. }
  rewrite E1. cbn [mbind option_bind]. destruct (lex_scan_end_keeps s1 Hr Hp) as (s2 & E2 & Hk). rewrite E2. cbn [mbind option_bind].
  rewrite bool_decide_eq_false_2 by (by intros []). unfold get_number_unsigned in *. by rewrite Hk, Hv.
Qed.

(** ** The value that is read back *)

Definition ub_signed_number (z : Z) : json := if (2 ^ 7 <=? z) && (z <=? 2 ^ 8 - 1) then JUnsigned z else JInteger z.

Definition ub_unsigned_number (z : Z) : json :=
  if ((2 ^ 7 <=? z) && (z <=? 2 ^ 8 - 1)) || (2 ^ 63 <=? z) then JUnsigned z else JInteger z.

Definition ub_norm : json -> json := norm ub_signed_number ub_unsigned_number.

Lemma same_ub_signed : same_number ub_signed_number JInteger.
Proof.
  intros z Hz. unfold ub_signed_number. cbn [json_ok] in Hz. destruct (_ && _) eqn:E; (split; [cbn [json_ok]; lia|]); cbn [json_eq]; [|apply Z.eqb_refl].
  rewrite i64_small by lia. apply Z.eqb_refl.
Qed.

Lemma same_ub_unsigned : same_number ub_unsigned_number JUnsigned.
Proof.
  intros z Hz. unfold ub_unsigned_number. cbn [json_ok] in Hz. destruct (_ || _) eqn:E; (split; [cbn [json_ok]; lia|]); cbn [json_eq]; [apply Z.eqb_refl|].
  rewrite i64_small by lia. apply Z.eqb_refl.
Qed.

(** ** Lemmas: prefixes *)

Definition value_prefixes : list ascii := ["Z"; "T"; "F"; "i"; "U"; "I"; "l"; "L"; "H"; "D"; "S"; "["; "{"]%char.

Lemma prefix_in j : json_ok j -> ubjson_prefix j ∈ value_prefixes.
Proof.
  intros Hj. destruct j as [|m|l|s|[]|z|z|b|]; [..|by destruct Hj]; cbn [ubjson_prefix]; repeat case_match; unfold value_prefixes; set_solver.
Qed.

(** A byte that begins a value or a key is no mark. *)
Definition plain_byte (close c : ascii) : Prop := c <> "N"%char /\ c <> "$"%char /\ c <> "#"%char /\ c <> close.

Lemma prefix_plain close c : c ∈ value_prefixes -> close = "]"%char \/ close = "}"%char -> plain_byte close c /\ c <> no_type.
Proof.
  intros Hc Hcl. unfold value_prefixes in Hc. rewrite !elem_of_cons in Hc.
  destruct Hcl as [-> | ->]; repeat (destruct Hc as [-> |Hc]; [by repeat split|]); by apply elem_of_nil in Hc.
Qed.

Lemma ub_fix_in n : (ub_fix n).1 ∈ value_prefixes.
Proof. unfold ub_fix, value_prefixes. repeat case_match; cbn [fst]; set_solver. Qed.

Lemma ub_integer_prefix n : (ub_integer n).1 = ubjson_prefix (JInteger n).
Proof. unfold ub_integer. cbn [ubjson_prefix]. by repeat case_match. Qed.

Lemma ub_unsigned_prefix n : (ub_unsigned n).1 = ubjson_prefix (JUnsigned n).
Proof.
  unfold ub_unsigned. cbn [ubjson_prefix]. destruct (Z.leb_spec n (2 ^ 63 - 1)).
  - unfold ub_fix. by repeat case_match.
  - rewrite !(proj2 (Z.leb_gt n _)) by lia. by destruct (ub_fix _).
Qed.

Lemma same_prefix_all vs c : same_prefix vs = Some c -> Forall (fun v => ubjson_prefix v = c) vs.
Proof.
  destruct vs as [|v vs]; [done|]. cbn [same_prefix]. destruct (forallb _ vs) eqn:E; [|done]. intros [= <-]. constructor; [done|].
  apply Forall_forall. intros w Hw. rewrite forallb_forall in E. apply list_elem_of_In in Hw. by apply Ascii.eqb_eq, E.
Qed.

(** ** Lemmas: containers *)

Section Ubjson.
Context (max_size : bool -> Z) (use_count use_type : bool).
Hypothesis type_needs_count : use_type = true -> use_count = true.

Abbreviation ub_write := (write_ubjson use_count use_type).

Lemma write_prefix j : json_ok j -> ub_write true j = ubjson_prefix j :: ub_write false j.
Proof.
  intros Hj. destruct j as [|m|l|s|b|z|z|b|]; [done..| | |done|by destruct Hj]; cbn [write_ubjson]; unfold with_prefix.
  - by rewrite ub_integer_prefix.
  - by rewrite ub_unsigned_prefix.
Qed.

(** The elements up to the closing mark. *)
Lemma until_read {A} close (item : str -> option (read (list sax_event))) (w : A -> str) (evs : A -> list sax_event) l fuel rest :
  close <> "N"%char ->
  Forall (fun x => (exists c s, w x = c :: s /\ plain_byte close c) /\ forall rest, item (w x ++ rest) = Some (Ok (evs x, rest))) l ->
  (length l < fuel)%nat -> until_close close item fuel (flat_map w l ++ close :: rest) = Some (Ok (flat_map evs l, rest)).
Proof.
  intros Hcl Hl. revert fuel. induction Hl as [|x l [(c & s & E & Hn & _ & _ & Hx) Hi] _ IH]; intros [|fuel] Hf; simpl in Hf; try lia; cbn [until_close flat_map].
  - cbn [app]. rewrite skip_noop_other by done. by rewrite Ascii.eqb_refl.
  - rewrite <- app_assoc. pose proof (Hi (flat_map w l ++ close :: rest)) as H. rewrite E in *. cbn [app] in *. rewrite skip_noop_other by done.
    destruct (Ascii.eqb_spec c close); [done|]. rewrite H. cbn [mbind option_bind]. rewrite IH by lia. cbn. by rewrite app_nil_r.
Qed.

(** The marks of a container are read. *)
Lemma size_type_counted t n rest :
  0 <= n < 2 ^ 63 ->
  get_ubjson_size_type (type_mark t ++ ("#"%char :: ub_len n) ++ rest) =
  Ok ((Some n, match t with Some c => c | None => no_type end), rest).
Proof.
  intros Hn. unfold get_ubjson_size_type. destruct t as [c|]; cbn [type_mark app].
  - rewrite skip_noop_other by done. cbn [Ascii.eqb Bool.eqb]. rewrite skip_noop_other by done. cbn [Ascii.eqb Bool.eqb]. by rewrite size_value_reads.
  - rewrite skip_noop_other by done. cbn [Ascii.eqb Bool.eqb]. by rewrite size_value_reads.
Qed.

Lemma size_type_none close c s : plain_byte close c -> get_ubjson_size_type (c :: s) = Ok ((None, no_type), c :: s).
Proof.
  intros (Hn & Hd & Hh & _). unfold get_ubjson_size_type. rewrite skip_noop_other by done.
  by destruct (Ascii.eqb_spec c "$"), (Ascii.eqb_spec c "#").
Qed.

Definition closing (is_map : bool) : ascii := if is_map then "}"%char else "]"%char.

Lemma container_reads {A} is_map (l : list A) (t : option ascii) (w : A -> str) (evs : A -> list sax_event) value internal rest :
  match t with Some c => c ∈ value_prefixes /\ use_count = true | None => True end ->
  zlen l <= max_size is_map -> zlen l < 2 ^ 63 ->
  (use_count = false -> Forall (fun x => exists c s, w x = c :: s /\ plain_byte (closing is_map) c) l) ->
  Forall (fun x => forall rest, (if is_map then ub_member else id) (match t with Some c => value c | None => internal end) (w x ++ rest) =
    Some (Ok (evs x, rest))) l ->
  ub_container max_size value internal is_map
    (type_mark t ++ count_mark use_count (zlen l) ++ flat_map w l ++ close_mark use_count (closing is_map) ++ rest) =
  Some (Ok ([if is_map then EvStartObject else EvStartArray] ++ flat_map evs l ++ [if is_map then EvEndObject else EvEndArray], rest)).
Proof.
  intros Ht Hm Hl Hne Hi. pose proof (zlen_nonneg l) as H0. unfold ub_container, count_mark, close_mark. destruct use_count.
  - rewrite size_type_counted by lia. rewrite (proj2 (Z.ltb_ge _ _)) by lia. cbn [app].
    assert (E : read_items ((if is_map then ub_member else id) (match t with Some c => value c | None => internal end)) (Z.to_nat (zlen l)) (zlen l) (flat_map w l ++ rest) =
      Some (Ok (flat_map evs l, rest))).
    { apply (items_read _ w evs); [done|]. unfold zlen. lia. }
    destruct t as [c|].
    + destruct Ht as [Hc _]. destruct (prefix_plain "]" c Hc) as [(Hn & _) Hz]; [by left|]. destruct (Ascii.eqb_spec c no_type); [done|].
      destruct (Ascii.eqb_spec c "N"); [done|]. rewrite andb_false_r. by destruct is_map; cbn [id] in E; rewrite E.
    + rewrite Ascii.eqb_refl. by destruct is_map; cbn [id] in E; rewrite E.
  - destruct t as [c|]; [by destruct Ht|]. cbn [type_mark app]. specialize (Hne eq_refl).
    assert (Hst : get_ubjson_size_type (flat_map w l ++ closing is_map :: rest) = Ok ((None, no_type), flat_map w l ++ closing is_map :: rest)).
    { destruct Hne as [|x l' (c & s & E & Hc) _]; cbn [flat_map app]; [|rewrite E; by apply (size_type_none (closing is_map))].
      apply (size_type_none "a"%char). by destruct is_map. }
    rewrite Hst. assert (E : until_close (closing is_map) ((if is_map then ub_member else id) internal) (S (length (flat_map w l ++ closing is_map :: rest)))
      (flat_map w l ++ closing is_map :: rest) = Some (Ok (flat_map evs l, rest))).
    { apply until_read; [by destruct is_map| |].
      - rewrite Forall_forall in Hne, Hi |- *. intros x Hx. split; [by apply Hne|by apply Hi].
      - rewrite length_app. assert (length l <= length (flat_map w l))%nat; [|lia]. apply flat_map_length_count.
        eapply Forall_impl; [exact Hne|]. intros x (c & s & -> & _). done. }
    unfold closing in E at 1. by destruct is_map; cbn [id] in E; rewrite E.
Qed.

(** ** What is written is read *)

Abbreviation value := (get_ubjson_value max_size).

Definition ub_reads (j : json) : Prop := forall fuel rest, (length (ub_write false j) < fuel)%nat ->
  value fuel (ubjson_prefix j) (ub_write false j ++ rest) = Some (Ok (events_of (ub_norm j), rest)).

Lemma internal_reads j fuel rest : json_ok j -> ub_reads j -> (length (ub_write true j) <= fuel)%nat ->
  ub_internal (value fuel) (ub_write true j ++ rest) = Some (Ok (events_of (ub_norm j), rest)).
Proof.
  intros Hj Hr. rewrite write_prefix by done. cbn [length app]. intros Hf. unfold ub_internal.
  destruct (prefix_plain "]" _ (prefix_in j Hj)) as [(Hn & _) _]; [by left|]. rewrite skip_noop_other by done. apply Hr. lia.
Qed.

(** An element of a container of the common type [t]. *)
Lemma element_reads_as j t fuel rest : json_ok j -> ub_reads j ->
  match t with Some c => ubjson_prefix j = c | None => True end -> (length (ub_write (required t) j) < fuel)%nat ->
  match t with Some c => value fuel c | None => ub_internal (value fuel) end (ub_write (required t) j ++ rest) =
  Some (Ok (events_of (ub_norm j), rest)).
Proof. intros Hj Hr Ht Hf. destruct t as [c|]; cbn [required] in *; [subst c; by apply Hr|]. apply internal_reads; [done..|lia]. Qed.

Lemma common_type_ok vs : Forall json_ok vs ->
  match common_type use_type vs with
  | Some c => (c ∈ value_prefixes /\ use_count = true) /\ Forall (fun v => ubjson_prefix v = c) vs
  | None => True
  end.
Proof.
  intros Hv. unfold common_type. destruct use_type; [|done]. destruct (same_prefix vs) as [c|] eqn:E; [|done]. pose proof (same_prefix_all vs c E) as H.
  split; [|done]. split; [|by apply type_needs_count]. destruct Hv as [|v vs Hv _]; [done|]. apply Forall_cons in H as [<- _]. by apply prefix_in.
Qed.

Abbreviation small := (within (2 ^ 63 - 1) (Z.min (max_size false) (2 ^ 63 - 1)) (Z.min (max_size true) (2 ^ 63 - 1))).

Lemma array_reads l : Forall (fun x => json_ok x -> small x = true -> ub_reads x) l -> json_ok (JArray l) -> small (JArray l) = true -> ub_reads (JArray l).
Proof.
  intros IH Hj%json_ok_array [Hlen Hm]%within_array.
  assert (Hr : Forall (fun x => json_ok x /\ ub_reads x) l) by (rewrite Forall_forall in IH, Hj, Hm |- *; intros x Hx; split; auto).
  intros [|fuel] rest Hf; [lia|]. unfold ub_norm. cbn [norm events_of ubjson_prefix]. rewrite flat_map_map.
  cbn [write_ubjson app] in Hf |- *. pose proof (common_type_ok l Hj) as Ht. set (t := common_type use_type l) in *. rewrite !length_app in Hf. rewrite <- !app_assoc.
  change (value (S fuel) "["%char) with (ub_container max_size (value fuel) (ub_internal (value fuel)) false).
  apply (container_reads false l t (ub_write (required t))); [by destruct t as [c|]; [destruct Ht|]|lia|lia|..].
  - intros Hu. destruct t as [c|]; [destruct Ht as [[_ Hc] _]; congruence|]. eapply Forall_impl; [exact Hr|]. intros x [Hx _]. cbn [required].
    rewrite write_prefix by done. eexists _, _. split; [done|]. apply prefix_plain; [by apply prefix_in|by left].
  - rewrite Forall_forall in Hr |- *. intros x Hx rest'. destruct (Hr x Hx) as [Hx1 Hx2]. cbn [id]. apply element_reads_as; [done..| |].
    + destruct t as [c|]; [|done]. destruct Ht as [_ Ht]. rewrite Forall_forall in Ht. by apply Ht.
    + pose proof (flat_map_length_elem (ub_write (required t)) l x Hx). unfold count_mark, close_mark in Hf. destruct use_count; simpl in Hf; lia.
Qed.

Lemma object_reads m : Forall (fun e : str * json => json_ok e.2 -> small e.2 = true -> ub_reads e.2) m ->
  json_ok (JObject m) -> small (JObject m) = true -> ub_reads (JObject m).
Proof.
  intros IH [_ Hj]%json_ok_object [Hlen Hm]%within_object.
  assert (Hr : Forall (fun e => zlen e.1 < 2 ^ 63 /\ json_ok e.2 /\ ub_reads e.2) m).
  { rewrite Forall_forall in IH, Hj, Hm |- *. intros e He. destruct (Hm e He). split_and!; [lia|auto..]. }
  intros [|fuel] rest Hf; [lia|]. unfold ub_norm. cbn [norm events_of ubjson_prefix]. rewrite flat_map_map.
  cbn [write_ubjson app] in Hf |- *. pose proof (common_type_ok (map snd m)) as Ht. rewrite Forall_map in Ht. specialize (Ht Hj).
  set (t := common_type use_type (map snd m)) in *. rewrite !length_app in Hf. rewrite <- !app_assoc.
  change (value (S fuel) "{"%char) with (ub_container max_size (value fuel) (ub_internal (value fuel)) true).
  set (w := fun e : str * json => (ub_len (zlen e.1) ++ e.1) ++ ub_write (required t) e.2) in *.
  apply (container_reads true m t w (fun e => EvKey e.1 :: events_of (ub_norm e.2))); [by destruct t as [c|]; [destruct Ht|]|lia|lia|..].
  - intros _. eapply Forall_impl; [exact Hr|]. intros e (Hk & _). unfold w. pose proof (zlen_nonneg e.1). rewrite ub_len_fix by lia.
    eexists _, _. split; [done|]. apply prefix_plain; [apply ub_fix_in|by right].
  - rewrite Forall_forall in Hr |- *. intros e He rest'. destruct (Hr e He) as (Hk & He1 & He2). unfold w, ub_member. rewrite <- !app_assoc, ub_string_reads by done.
    rewrite element_reads_as; [cbn; by rewrite app_nil_r|done..| |].
    + destruct t as [c|]; [|done]. destruct Ht as [_ Ht]. rewrite Forall_map, Forall_forall in Ht. by apply Ht.
    + pose proof (flat_map_length_elem w m e He) as Hl. unfold w in Hl at 1. rewrite !length_app in Hl. unfold count_mark, close_mark in Hf. destruct use_count; simpl in Hf; lia.
Qed.

(** A number behind its prefix. *)
Lemma number_reads p k n ev mk :
  (forall s, ub_scalar p s = Some ('(n, s) ← get_num k s; Ok (mk n, s))) ->
  (forall rest, exists z, get_num k (write_number k n ++ rest) = Ok (z, rest) /\ mk z = ev) ->
  Ascii.eqb p "["%char = false -> Ascii.eqb p "{"%char = false ->
  forall fuel rest, value (S fuel) p (write_number k n ++ rest) = Some (Ok ([ev], rest)).
Proof.
  intros Hs Hn H1 H2 fuel rest. cbn [get_ubjson_value]. rewrite H1, H2, Hs. destruct (Hn rest) as (z & -> & <-). done.
Qed.

Lemma number_signed k n : (0 < k)%nat -> - (256 ^ Z.of_nat k / 2) <= n < 256 ^ Z.of_nat k / 2 ->
  forall rest, exists z, get_num k (write_number k n ++ rest) = Ok (z, rest) /\ EvInteger (signed k z) = EvInteger n.
Proof. intros Hk Hn rest. destruct (get_num_signed k n rest Hk Hn) as (z & -> & <-). by exists z. Qed.

Lemma number_unsigned n : 0 <= n < 256 -> forall rest, exists z, get_num 1 (write_number 1 n ++ rest) = Ok (z, rest) /\ EvUnsigned z = EvUnsigned n.
Proof. intros Hn rest. exists n. by rewrite get_num_bytes by (simpl; lia). Qed.

Lemma integer_reads z : - 2 ^ 63 <= z < 2 ^ 63 -> ub_reads (JInteger z).
Proof.
  intros Hz [|fuel] rest Hf; [lia|]. unfold ub_norm. cbn [norm write_ubjson with_prefix ubjson_prefix]. unfold ub_signed_number, ub_integer. clear Hf.
  destruct ((- 2 ^ 7 <=? z) && (z <=? 2 ^ 7 - 1)) eqn:E1; [|destruct ((0 <=? z) && (z <=? 2 ^ 8 - 1)) eqn:E2; [|destruct ((- 2 ^ 15 <=? z) && (z <=? 2 ^ 15 - 1)) eqn:E3; [|destruct ((- 2 ^ 31 <=? z) && (z <=? 2 ^ 31 - 1)) eqn:E4]]].
  - replace ((2 ^ 7 <=? z) && (z <=? 2 ^ 8 - 1)) with false by lia.
    apply (number_reads "i" 1 z _ (fun n => EvInteger (signed 1 n))); [done| |done..]. apply number_signed; [lia|]. change (256 ^ Z.of_nat 1 / 2) with (2 ^ 7). lia.
  - replace ((2 ^ 7 <=? z) && (z <=? 2 ^ 8 - 1)) with true by lia.
    apply (number_reads "U" 1 z _ EvUnsigned); [done| |done..]. apply number_unsigned. lia.
  - replace ((2 ^ 7 <=? z) && (z <=? 2 ^ 8 - 1)) with false by lia.
    apply (number_reads "I" 2 z _ (fun n => EvInteger (signed 2 n))); [done| |done..]. apply number_signed; [lia|]. change (256 ^ Z.of_nat 2 / 2) with (2 ^ 15). lia.
  - replace ((2 ^ 7 <=? z) && (z <=? 2 ^ 8 - 1)) with false by lia.
    apply (number_reads "l" 4 z _ (fun n => EvInteger (signed 4 n))); [done| |done..]. apply number_signed; [lia|]. change (256 ^ Z.of_nat 4 / 2) with (2 ^ 31). lia.
  - replace ((2 ^ 7 <=? z) && (z <=? 2 ^ 8 - 1)) with false by lia.
    apply (number_reads "L" 8 z _ (fun n => EvInteger (signed 8 n))); [done| |done..]. apply number_signed; [lia|]. change (256 ^ Z.of_nat 8 / 2) with (2 ^ 63). lia.
Qed.

(** An unsigned number of up to 63 bits is written as the signed one is. *)
Lemma fix_is_integer n : 0 <= n < 2 ^ 63 -> ub_unsigned n = ub_integer n.
Proof.
  intros Hn. unfold ub_unsigned, ub_fix, ub_integer. rewrite (proj2 (Z.leb_le n (2 ^ 63 - 1))) by lia.
  rewrite !(proj2 (Z.leb_le _ n)) by lia. done.
Qed.

Lemma unsigned_reads n : 0 <= n < 2 ^ 64 -> ub_reads (JUnsigned n).
Proof.
  intros Hn. destruct (Z.lt_ge_cases n (2 ^ 63)) as [Hlt|Hge].
  - intros fuel rest Hf. rewrite <- ub_unsigned_prefix. cbn [write_ubjson] in Hf |- *. rewrite (fix_is_integer n) in Hf |- * by lia.
    pose proof (integer_reads n ltac:(lia) fuel rest Hf) as H. rewrite <- ub_integer_prefix in H. cbn [write_ubjson] in H. rewrite H.
    unfold ub_norm. cbn [norm]. unfold ub_signed_number, ub_unsigned_number. rewrite (proj2 (Z.leb_gt (2 ^ 63) n)) by lia. by rewrite orb_false_r.
  - intros [|fuel] rest Hf; [lia|]. unfold ub_norm. cbn [norm]. unfold ub_unsigned_number. rewrite (proj2 (Z.leb_le (2 ^ 63) n)), orb_true_r by lia.
    rewrite <- ub_unsigned_prefix. cbn [write_ubjson with_prefix]. assert (E : (ub_unsigned n).1 = "H"%char).
    { unfold ub_unsigned. rewrite (proj2 (Z.leb_gt n (2 ^ 63 - 1))) by lia. by destruct (ub_fix _). }
    rewrite E. cbn [get_ubjson_value]. change (ub_scalar "H"%char) with get_ubjson_high_precision_number. cbn [Ascii.eqb Bool.eqb].
    rewrite high_precision_reads by lia. done.
Qed.

Lemma all_read j : json_ok j -> small j = true -> ub_reads j.
Proof.
  induction j as [|m IH|l IH|s|b|z|z|z|] using json_induct; intros Hj Hm; [|by apply object_reads|by apply array_reads|..].
  - by intros [|fuel] rest Hf; [lia|].
  - intros [|fuel] rest Hf; [lia|]. cbn [within] in Hm. cbn [write_ubjson app ubjson_prefix]. rewrite <- app_assoc.
    change (value (S fuel) "S"%char) with (fun s => map_read (fun ev : sax_event => [ev]) (Some ('(t, s) ← get_ubjson_string s; Ok (EvString t, s)))). cbv beta.
    by rewrite ub_string_reads by lia.
  - by intros [|fuel] rest Hf; [lia|]; destruct b.
  - by apply integer_reads.
  - by apply unsigned_reads.
  - intros [|fuel] rest Hf; [lia|]. apply (number_reads "D" 8 z _ EvFloat); [done| |done..]. intros rest'. exists z. cbn [json_ok] in Hj. by rewrite get_num_bytes by (simpl; lia).
  - by destruct Hj.
Qed.
End Ubjson.

(** C32: A JSON value written in UBJSON is read back, whether counts are written or not, and types or not (types need
    counts): [from_ubjson(to_ubjson(j))] is [j] with some of its numbers signed instead of unsigned or the other way
    round, which [operator==] finds equal to [j], if it has no NaN and its lengths are within 63 bits and the limits the
    handler checks; numbers of 64 bits travel as text. *)
Theorem ubjson_roundtrip max_size use_count use_type j :
  (use_type = true -> use_count = true) -> json_ok j ->
  within (2 ^ 63 - 1) (Z.min (max_size false) (2 ^ 63 - 1)) (Z.min (max_size true) (2 ^ 63 - 1)) j = true ->
  from_ubjson max_size true (write_ubjson use_count use_type true j) = Some (Ok (ub_norm j)) /\ json_eq (ub_norm j) j = true.
Proof.
  intros Hut Hj Hm. split; [|eapply norm_eq; eauto using same_ub_signed, same_ub_unsigned].
  unfold from_ubjson, sax_ubjson. pose proof (all_read max_size use_count use_type Hut j Hj Hm) as Hr.
  pose proof (internal_reads max_size use_count use_type j (S (length (write_ubjson use_count use_type true j))) [] Hj Hr ltac:(lia)) as H.
  rewrite app_nil_r in H. rewrite H. cbn [mbind option_bind skip_noop andb].
  by rewrite dom_events_of by (apply norm_ok; eauto using same_ub_signed, same_ub_unsigned).
Qed.

Lemma ubjson_roundtrip_witness :
  from_ubjson ub_lim true (write_ubjson true true true ub_doc) = Some (Ok (ub_norm ub_doc)) /\ json_eq (ub_norm ub_doc) ub_doc = true.
Proof. apply ubjson_roundtrip; [done| |reflexivity]. repeat constructor; simpl; lia. Defined.

(** ** The reader ends *)

Definition ub_error (e : exn) : Prop := read_error e \/ e = parse_error 115 \/ e = out_of_range 408.

Definition no_binary (ev : sax_event) : Prop := match ev with EvBinary _ _ => False | _ => True end.

(** A reader that ends and gives no binary values; at least [d] bytes are used. *)
Definition ub_ends (d : nat) (s : str) (r : option (read (list sax_event))) : Prop :=
  match r with
  | None => False
  | Some (Ok (evs, rest)) => (length rest + d <= length s)%nat /\ Forall no_binary evs
  | Some (Throw e) => ub_error e
  end.

Lemma ub_ends_weaken d d' s s' r : ub_ends d s r -> (d' + length s <= d + length s')%nat -> ub_ends d' s' r.
Proof. destruct r as [[[evs rest]|e]|]; cbn; [intros [? ?] ?; split; [lia|done]|done..]. Qed.

Lemma length_skip_noop s : (length (skip_noop s) <= length s)%nat.
Proof. induction s as [|c s IH]; [done|]. cbn [skip_noop]. destruct (Ascii.eqb c "N"%char); simpl; lia. Qed.

Lemma sane_length c s r : get_length c s = Some r -> sane s r.
Proof. unfold get_length. repeat case_match; intros [= <-]; sane_tac. Qed.

Lemma sane_ub_string s s0 : (length s <= length s0)%nat -> sane s0 (get_ubjson_string s).
Proof.
  intros Hs. destruct s as [|c s]; [by left|]. cbn [get_ubjson_string]. destruct (get_length c s) as [r|] eqn:E; [|right; by right].
  apply sane_length in E. simpl in Hs. apply sane_bind.
  - destruct r as [[n t]|e]; cbn in *; [lia|done].
  - intros n t Ht. apply sane_chars. lia.
Qed.

Lemma sane_size_value s s0 : (length s <= length s0)%nat -> sane s0 (get_ubjson_size_value s).
Proof.
  intros Hs. unfold get_ubjson_size_value. pose proof (length_skip_noop s) as Hn. destruct (skip_noop s) as [|c t]; [right; by right|].
  destruct (get_length c t) as [r|] eqn:E; [|right; by right]. apply sane_length in E. simpl in Hn. apply sane_bind.
  - destruct r as [[n u]|e]; cbn in *; [lia|done].
  - intros n u Hu. destruct (n <? 0); [right; by right|done].
Qed.

(** Behind a size there is less input. *)
Lemma size_type_ends s :
  match get_ubjson_size_type s with
  | Ok ((Some _, _), t) => (length t < length s)%nat
  | Ok ((None, _), t) => (length t <= length s)%nat
  | Throw e => read_error e
  end.
Proof.
  unfold get_ubjson_size_type. pose proof (length_skip_noop s) as H1. destruct (skip_noop s) as [|c s1]; [simpl; lia|]. simpl in H1.
  destruct (Ascii.eqb c "$"%char).
  - destruct s1 as [|ty s2]; [by left|]. pose proof (length_skip_noop s2) as H2. destruct (skip_noop s2) as [|h s3]; [by left|]. simpl in H1, H2.
    destruct (Ascii.eqb h "#"%char); [|right; by left]. pose proof (sane_size_value s3 s3 (le_n _)) as H3.
    destruct (get_ubjson_size_value s3) as [[n t]|e]; cbn in *; [lia|done].
  - destruct (Ascii.eqb c "#"%char); [|simpl; lia]. pose proof (sane_size_value s1 s1 (le_n _)) as H3.
    destruct (get_ubjson_size_value s1) as [[n t]|e]; cbn in *; [lia|done].
Qed.

(** The text of a number is scanned to its end, or refused. *)
Lemma high_precision_ends s : ub_ends 0 s (map_read (fun ev => [ev]) (get_ubjson_high_precision_number s)).
Proof.
  unfold get_ubjson_high_precision_number.
  assert (H : sane s ('(n, s) ← get_ubjson_size_value s; get_chars n s)).
  { apply sane_bind; [by apply sane_size_value|]. intros n t Ht. apply sane_chars. lia. }
  destruct ('(n, s) ← get_ubjson_size_value s; get_chars n s) as [[text t]|e]; [|by left]. cbn in H.
  destruct (wp_lex_scan (new_lexer text)) as (tok & l & -> & Hl & _); [by left|]. cbn [mbind option_bind].
  destruct (wp_lex_scan l Hl) as (tok' & l' & -> & _). cbn [mbind option_bind].
  case_bool_decide; [right; by left|]. destruct tok; cbn; try (right; by left); (split; [lia|by repeat constructor]).
Qed.

Lemma scalar_ends c s : ub_ends 0 s (map_read (fun ev => [ev]) (ub_scalar c s)).
Proof.
  unfold ub_scalar.
  assert (Hnum : forall k mk, (forall n, no_binary (mk n)) -> ub_ends 0 s (map_read (fun ev => [ev]) (Some ('(n, s) ← get_num k s; Ok (mk n, s))))).
  { intros k mk Hmk. pose proof (sane_num k s s (le_n _)) as H. destruct (get_num k s) as [[n t]|e]; cbn in *; [split; [lia|by repeat constructor]|by left]. }
  assert (Hone : forall ev, no_binary ev -> ub_ends 0 s (map_read (fun ev => [ev]) (Some (Ok (ev, s))))).
  { intros ev Hev. cbn. split; [lia|by repeat constructor]. }
  repeat match goal with |- context [if Ascii.eqb c ?x then _ else _] => destruct (Ascii.eqb c x); [first [by apply Hone|by apply Hnum|apply high_precision_ends|idtac]|] end.
  - destruct s as [|x s]; [left; by left|]. destruct (127 <? ord x); [left; right; by right|]. cbn. split; [lia|by repeat constructor].
  - pose proof (sane_ub_string s s (le_n _)) as H. destruct (get_ubjson_string s) as [[t u]|e]; cbn in *; [split; [lia|by repeat constructor]|by left].
  - left. right. by left.
Qed.

Lemma wrap_ub_ends d s before after r : Forall no_binary before -> Forall no_binary after -> ub_ends d s r -> ub_ends d s (wrap_events before after r).
Proof. intros Hb Ha. destruct r as [[[evs t]|e]|]; cbn; [|done..]. intros [? ?]. split; [done|]. by rewrite !Forall_app. Qed.

Lemma member_ends value s : (forall t, (length t <= length s)%nat -> ub_ends 0 t (value t)) -> ub_ends 0 s (ub_member value s).
Proof.
  intros Hv. unfold ub_member. pose proof (sane_ub_string s s (le_n _)) as H. destruct (get_ubjson_string s) as [[k t]|e]; [|by left]. cbn in H.
  apply wrap_ub_ends; [by repeat constructor|done|]. apply (ub_ends_weaken 0 _ t); [by apply Hv|lia].
Qed.

(** A key takes a byte at least. *)
Lemma member_progress_ub value s : (forall t, (length t <= length s)%nat -> ub_ends 0 t (value t)) -> ub_ends 1 s (ub_member value s).
Proof.
  intros Hv. unfold ub_member. destruct s as [|c s]; [left; by left|]. cbn [get_ubjson_string]. destruct (get_length c s) as [r|] eqn:E; [|left; right; by right].
  apply sane_length in E. assert (H : sane s ('(len, s) ← r; get_chars len s)) by (apply sane_bind; [done|intros; apply sane_chars; lia]).
  destruct ('(len, s) ← r; get_chars len s) as [[k t]|e]; [|by left]. cbn in H. apply wrap_ub_ends; [by repeat constructor|done|].
  apply (ub_ends_weaken 0 _ t); [apply Hv; simpl; lia|simpl; lia].
Qed.

Lemma counted_ends item n k s : (forall t, (length t <= length s)%nat -> ub_ends 0 t (item t)) -> (Z.to_nat n <= k)%nat -> ub_ends 0 s (read_items item k n s).
Proof.
  revert n s. induction k as [|k IH]; intros n s Hi Hk; cbn [read_items]; destruct (Z.leb_spec n 0); [cbn; split; [lia|done]|lia|cbn; split; [lia|done]|].
  pose proof (Hi s (le_n _)) as H1. destruct (item s) as [[[evs t]|e]|]; cbn in H1; [|done..]. destruct H1 as [H1 Hev]. cbn [mbind option_bind].
  assert (Hi' : forall u, (length u <= length t)%nat -> ub_ends 0 u (item u)) by (intros u Hu; apply Hi; lia).
  specialize (IH (n - 1) t Hi' ltac:(lia)). destruct (read_items item k (n - 1) t) as [[[evs' u]|e]|]; cbn in *; [|done..].
  destruct IH. split; [lia|by rewrite Forall_app].
Qed.

Lemma until_close_ends close item fuel s : (forall t, (length t <= length s)%nat -> ub_ends 1 t (item t)) -> (length s < fuel)%nat -> ub_ends 0 s (until_close close item fuel s).
Proof.
  revert s. induction fuel as [|fuel IH]; intros s Hi Hf; [lia|]. cbn [until_close]. pose proof (length_skip_noop s) as Hn.
  assert (Hmore : ub_ends 0 s (r ← item (skip_noop s); match r with Throw e => Some (Throw e) | Ok (evs, s0) => wrap_events evs [] (until_close close item fuel s0) end)).
  { pose proof (Hi (skip_noop s) Hn) as H. destruct (item (skip_noop s)) as [[[evs t]|e]|]; cbn in H; [|done..]. destruct H as [H Hev]. cbn [mbind option_bind].
    apply wrap_ub_ends; [done|done|]. apply (ub_ends_weaken 0 _ t); [|lia]. apply IH; [intros u Hu; apply Hi|]; lia. }
  destruct (skip_noop s) as [|c t] eqn:E; [exact Hmore|]. destruct (Ascii.eqb c close); [|exact Hmore]. cbn in *. split; [lia|done].
Qed.

Section Ends.
Context (max_size : bool -> Z).

Lemma internal_ends value s : (forall c t, (length t < length s)%nat -> ub_ends 0 t (value c t)) -> ub_ends 1 s (ub_internal value s).
Proof.
  intros Hv. unfold ub_internal. pose proof (length_skip_noop s) as H. destruct (skip_noop s) as [|c t]; [left; by left|]. simpl in H.
  apply (ub_ends_weaken 0 _ t); [apply Hv|]; lia.
Qed.

Lemma container_ends value is_map s :
  (forall c t, (length t < length s)%nat -> ub_ends 0 t (value c t)) ->
  ub_ends 0 s (ub_container max_size value (ub_internal value) is_map s).
Proof.
  intros Hv. unfold ub_container. pose proof (size_type_ends s) as H. destruct (get_ubjson_size_type s) as [[[[n|] ty] t]|e]; [..|by left].
  - destruct (max_size is_map <? n); [right; by right|]. apply wrap_ub_ends; [by destruct is_map; repeat constructor..|]. apply (ub_ends_weaken 0 _ t); [|lia].
    assert (Hint : forall u, (length u <= length t)%nat -> ub_ends 0 u (ub_internal value u)).
    { intros u Hu. apply (ub_ends_weaken 1 _ u); [|lia]. apply internal_ends. intros c w Hw. apply Hv. lia. }
    destruct (Ascii.eqb ty no_type); [|destruct (negb is_map && Ascii.eqb ty "N"%char); [cbn; split; [lia|done]|]];
      (apply counted_ends; [|done]); intros u Hu; (destruct is_map; [apply member_ends; intros w Hw|]); try (apply Hint; lia); apply Hv; lia.
  - apply wrap_ub_ends; [by destruct is_map; repeat constructor..|]. apply (ub_ends_weaken 0 _ t); [|lia]. apply until_close_ends; [|lia].
    intros u Hu. destruct is_map; [apply member_progress_ub; intros w Hw; apply (ub_ends_weaken 1 _ w); [|lia]|]; apply internal_ends; intros c x Hx; apply Hv; lia.
Qed.

Lemma value_ends fuel c s : (length s < fuel)%nat -> ub_ends 0 s (get_ubjson_value max_size fuel c s).
Proof.
  revert c s. induction fuel as [|fuel IH]; intros c s Hf; [lia|]. cbn [get_ubjson_value].
  destruct (Ascii.eqb c "["%char); [apply container_ends; intros; apply IH; lia|].
  destruct (Ascii.eqb c "{"%char); [apply container_ends; intros; apply IH; lia|]. apply scalar_ends.
Qed.
End Ends.

(** The UBJSON reader ends on every input: with a value, or with one of the
    exceptions for the end of the input (110), a byte that is not allowed (112),
    a length or character that is not (113), a number whose text is not one
    (115) and an excessive number of elements (408). *)
Theorem ubjson_total max_size strict input :
  exists r, from_ubjson max_size strict input = Some r /\
    match r with
    | Ok _ => True
    | Throw e => e = parse_error 110 \/ e = parse_error 112 \/ e = parse_error 113 \/ e = parse_error 115 \/ e = out_of_range 408
    end.
Proof.
  unfold from_ubjson, sax_ubjson.
  pose proof (internal_ends (get_ubjson_value max_size (S (length input))) input) as H. ospecialize (H _); [intros c t Ht; apply value_ends; lia|].
  destruct (ub_internal _ input) as [[[evs rest]|e]|]; cbn in H; [..|done].
  - destruct H as [_ Hev]. cbn [mbind option_bind]. destruct (strict && _); [eexists; split; [done|by left]|]. cbn [mbind option_bind].
    destruct (dom_events evs new_sax) as [s|] eqn:E; [by eexists|]. apply dom_events_none in E as (b & t & Hin). rewrite Forall_forall in Hev. by apply Hev in Hin.
  - eexists. split; [done|]. unfold ub_error, read_error in H. tauto.
Qed.

(** A few bytes announce any number of values that the limits allow: the type
    says that each of them is null, and none of them takes a byte. *)
Theorem ubjson_amplifies max_size n :
  0 <= n < 2 ^ 63 -> n <= max_size false ->
  from_ubjson max_size true ($"[$Z#L" ++ write_number 8 n) = Some (Ok (JArray (replicate (Z.to_nat n) JNull))).
Proof.
  intros Hn Hm. assert (Hnull : forall v, (forall s, v s = Some (Ok ([EvNull], s))) -> forall k,
    read_items v k (Z.of_nat k) [] = Some (Ok (flat_map events_of (replicate k JNull), []))).
  { intros v Hv. induction k as [|k IH]; [done|]. cbn [read_items replicate flat_map]. destruct (Z.leb_spec (Z.of_nat (S k)) 0); [lia|].
    rewrite Hv. cbn [mbind option_bind]. replace (Z.of_nat (S k) - 1) with (Z.of_nat k) by lia. by rewrite IH. }
  unfold from_ubjson, sax_ubjson.
  assert (E : forall fuel, ub_internal (get_ubjson_value max_size (S (S fuel))) ($"[$Z#L" ++ write_number 8 n) =
    Some (Ok (events_of (JArray (replicate (Z.to_nat n) JNull)), []))).
  { intros fuel. change (ub_internal (get_ubjson_value max_size (S (S fuel))) ($"[$Z#L" ++ write_number 8 n)) with
      (ub_container max_size (get_ubjson_value max_size (S fuel)) (ub_internal (get_ubjson_value max_size (S fuel))) false ($"$Z#L" ++ write_number 8 n)).
    unfold ub_container.
    assert (Hst : get_ubjson_size_type ($"$Z#L" ++ write_number 8 n) = Ok ((Some n, "Z"%char), [])).
    { change (get_ubjson_size_type ($"$Z#L" ++ write_number 8 n)) with
        ('(n, s4) ← ('(n, s) ← ('(m, s) ← get_num 8 (write_number 8 n); Ok (signed 8 m, s)); if n <? 0 then Throw (parse_error 113) else Ok (n, s)); Ok ((Some n, "Z"%char), s4) : read (option Z * ascii)).
      rewrite <- (app_nil_r (write_number 8 n)). destruct (get_num_signed 8 n [] ltac:(lia)) as (z & -> & Hz); [change (256 ^ Z.of_nat 8 / 2) with (2 ^ 63); lia|].
      cbn [mbind res_bind]. rewrite Hz. by rewrite (proj2 (Z.ltb_ge n 0)) by lia. }
    rewrite Hst. rewrite (proj2 (Z.ltb_ge _ _)) by lia. cbn [Ascii.eqb Bool.eqb negb andb].
    pose proof (Hnull (get_ubjson_value max_size (S fuel) "Z"%char) ltac:(done) (Z.to_nat n)) as H. rewrite Z2Nat.id in H by lia.
    change (Ascii.eqb "Z"%char no_type) with false. cbv iota. rewrite H. done. }
  assert (Hl : exists fuel, S (length ($"[$Z#L" ++ write_number 8 n)) = S (S fuel)) by (by eexists). destruct Hl as [fuel ->]. rewrite E.
  cbn [mbind option_bind skip_noop andb]. rewrite dom_events_of; [done|]. apply json_ok_array. by apply Forall_replicate.
Qed.

(** ** Binary values *)

(** A binary value comes back as an array of numbers. *)
Theorem ubjson_binary max_size use_count use_type b :
  (use_type = true -> use_count = true) -> zlen b <= max_size false -> zlen b < 2 ^ 63 ->
  from_ubjson max_size true (ub_binary use_count use_type true b) = Some (Ok (JArray (map (fun c => JUnsigned (ord c)) b))).
Proof.
  intros Hut Hm Hl. set (t := if use_type && negb (match b with [] => true | _ => false end) then Some "U"%char else None).
  set (w := fun c : ascii => if use_type then [c] else ["U"%char; c]).
  assert (Ew : flat_map w b = if use_type then b else flat_map (fun c => ["U"%char; c]) b).
  { unfold w. destruct use_type; [|done]. clear. induction b as [|c b IH]; [done|]. cbn [flat_map app]. by rewrite IH. }
  assert (Hbyte : forall fuel c rest, get_ubjson_value max_size (S fuel) "U"%char (c :: rest) = Some (Ok ([EvUnsigned (ord c)], rest))).
  { intros fuel c rest. change (get_ubjson_value max_size (S fuel) "U"%char (c :: rest)) with
      (map_read (fun ev : sax_event => [ev]) (Some ('(n, s) ← get_num 1 (c :: rest); Ok (EvUnsigned n, s)))).
    unfold get_num, get_be. cbn [length take drop Nat.ltb Nat.leb mbind option_bind res_bind map_read]. unfold be_value. cbn. by rewrite Z.add_0_l || done. }
  assert (E : forall fuel, ub_internal (get_ubjson_value max_size (S (S fuel))) (ub_binary use_count use_type true b) =
    Some (Ok (events_of (JArray (map (fun c => JUnsigned (ord c)) b)), []))).
  { intros fuel. unfold ub_binary. cbn [events_of]. rewrite flat_map_map. cbn [events_of].
    rewrite <- Ew. pose proof (container_reads max_size use_count use_type Hut false b t w (fun c => [EvUnsigned (ord c)]) (get_ubjson_value max_size (S fuel))
      (ub_internal (get_ubjson_value max_size (S fuel))) []) as H. rewrite app_nil_r in H. cbn [closing] in H.
    transitivity (ub_container max_size (get_ubjson_value max_size (S fuel)) (ub_internal (get_ubjson_value max_size (S fuel))) false
      (type_mark t ++ count_mark use_count (zlen b) ++ flat_map w b ++ close_mark use_count "]"%char)).
    { unfold t, ub_internal. cbn [app skip_noop]. by destruct (use_type && _). }
    rewrite H; [done|..|done|done| |].
    - unfold t. destruct use_type; [|done]. destruct b; [done|]. split; [unfold value_prefixes; set_solver|auto].
    - intros Hu. apply Forall_forall. intros c _. unfold w. destruct use_type; [by rewrite Hut in Hu|]. by eexists _, _.
    - apply Forall_forall. intros c Hc rest. unfold w, t. destruct use_type; [|by apply Hbyte]. destruct b; [by apply elem_of_nil in Hc|]. apply Hbyte. }
  unfold from_ubjson, sax_ubjson. assert (Hlen : exists fuel, S (length (ub_binary use_count use_type true b)) = S (S fuel)) by (by eexists).
  destruct Hlen as [fuel ->]. rewrite E. cbn [mbind option_bind skip_noop andb]. rewrite dom_events_of; [done|]. apply json_ok_array, Forall_map, Forall_forall.
  intros c _. cbn. pose proof (ord_range c). lia.
Qed.
