(* ===== verification/JsonCallback.v ===== *)
(** * Parsing with a callback (class json_sax_dom_callback_parser)

    The SAX handler of include/nlohmann/json.hpp that asks a callback which
    values to keep.  [ref_stack] is a stack of pointers into the value being
    built, null for containers that are not built; here a pointer is the path
    from the root to what it points to, and a store through a path that leads
    nowhere is an error of the model ([None]), as is a failing assertion.  The
    callback is a function without effects.  The parser for text passes no sizes
    of containers, so that their limits are not checked. *)

From S2P Require Import Prelude StdMap JsonNumber JsonValue JsonLexer JsonParser JsonSerializer JsonCompare JsonAccess JsonBinary.

(** ** Pointers *)

Inductive seg :=
  | SIdx (i : nat)
  | SKey (k : str).

Abbreviation path := (list seg).

Fixpoint ptr_deref (p : path) (j : json) : option json :=
  match p with
  | [] => Some j
  | SIdx i :: p' => match j with JArray l => x ← l !! i; ptr_deref p' x | _ => None end
  | SKey k :: p' => match j with JObject m => x ← map_find k m; ptr_deref p' x | _ => None end
  end.

Fixpoint ptr_store (p : path) (v : json) (j : json) : option json :=
  match p with
  | [] => Some v
  | SIdx i :: p' =>
      match j with
      | JArray l => x ← l !! i; x ← ptr_store p' v x; Some (JArray (<[i:=x]> l))
      | _ => None
      end
  | SKey k :: p' =>
      match j with
      | JObject m => x ← map_find k m; x ← ptr_store p' v x; Some (JObject (map_assign k x m))
      | _ => None
      end
  end.

(** ** The handler *)

Inductive parse_event_t :=
  | object_start_event
  | object_end_event
  | array_start_event
  | array_end_event
  | key_event
  | value_event.

(** [object_element] is dropped where elements move or are erased, so that it is
    never a dangling pointer; its last use must have been before. *)
Record cbp := Cbp {
  cb_root : json;
  cb_refs : list (option path);     (* the back of ref_stack is the head *)
  cb_keep : list bool;
  cb_key_keep : list bool;
  cb_element : option path
}.

(** The constructor, with a result that is null. *)
Definition new_cbp : cbp := Cbp JNull [] [true] [] None.

(** The loop that erases the first element that is discarded. *)
Fixpoint erase_first {A} (f : A -> bool) (l : list A) : list A :=
  match l with
  | [] => []
  | x :: l' => if f x then l' else x :: erase_first f l'
  end.

Definition discarded_entry (e : str * json) : bool := is_discarded e.2.

Section Callback.
Variable callback : Z -> parse_event_t -> json -> bool.

(** [handle_value(v, skip_callback)]: the pointer to the value, if it is kept. *)
Definition cb_handle_value (v : json) (skip_callback : bool) (s : cbp) : option (cbp * option path) :=
  match cb_keep s with
  | [] => None
  | false :: _ => Some (s, None)
  | true :: _ =>
      if skip_callback || callback (zlen (cb_refs s)) value_event v then
        match cb_refs s with
        | [] => Some (Cbp v [] (cb_keep s) (cb_key_keep s) (cb_element s), Some [])
        | None :: _ => Some (s, None)
        | Some p :: _ =>
            c ← ptr_deref p (cb_root s);
            match c with
            | JArray l =>
                r ← ptr_store p (JArray (l ++ [v])) (cb_root s);
                Some (Cbp r (cb_refs s) (cb_keep s) (cb_key_keep s) None, Some (p ++ [SIdx (length l)]))
            | JObject _ =>
                match cb_key_keep s with
                | [] => None
                | store_element :: kk =>
                    if negb store_element then Some (Cbp (cb_root s) (cb_refs s) (cb_keep s) kk (cb_element s), None)
                    else
                      q ← cb_element s;
                      r ← ptr_store q v (cb_root s);
                      Some (Cbp r (cb_refs s) (cb_keep s) kk (cb_element s), Some q)
                end
            | _ => None
            end
        end
      else Some (s, None)
  end.

(** [null()], [boolean(val)], ..., [string(val)] *)
Definition cb_scalar (v : json) (s : cbp) : option cbp := '(s, _) ← cb_handle_value v false s; Some s.

(** [start_object(len)] and [start_array(len)], with the empty container. *)
Definition cb_start (ev : parse_event_t) (empty : json) (s : cbp) : option cbp :=
  let keep := callback (zlen (cb_refs s)) ev JDiscarded in
  '(s, q) ← cb_handle_value empty true (Cbp (cb_root s) (cb_refs s) (keep :: cb_keep s) (cb_key_keep s) (cb_element s));
  Some (Cbp (cb_root s) (q :: cb_refs s) (cb_keep s) (cb_key_keep s) (cb_element s)).

(** [key(val)] *)
Definition cb_key (k : str) (s : cbp) : option cbp :=
  let keep := callback (zlen (cb_refs s)) key_event (JString k) in
  match cb_refs s with
  | [] => None
  | Some p :: _ =>
      if keep then
        c ← ptr_deref p (cb_root s);
        match c with
        | JObject m =>
            r ← ptr_store p (JObject (map_assign k JDiscarded m)) (cb_root s);
            Some (Cbp r (cb_refs s) (cb_keep s) (keep :: cb_key_keep s) (Some (p ++ [SKey k])))
        | _ => None
        end
      else Some (Cbp (cb_root s) (cb_refs s) (cb_keep s) (keep :: cb_key_keep s) (cb_element s))
  | None :: _ => Some (Cbp (cb_root s) (cb_refs s) (cb_keep s) (keep :: cb_key_keep s) (cb_element s))
  end.

(** The first part of [end_object()] and [end_array()]: whether the container is
    kept, and the root in which it is discarded if not. *)
Definition cb_close (ev : parse_event_t) (top : option path) (depth : Z) (r : json) : option (bool * json) :=
  match top with
  | None => Some (true, r)
  | Some p =>
      c ← ptr_deref p r;
      if callback depth ev c then Some (true, r) else r ← ptr_store p JDiscarded r; Some (false, r)
  end.

(** [end_object()] *)
Definition cb_end_object (s : cbp) : option cbp :=
  match cb_refs s, cb_keep s with
  | top :: fs, _ :: ks =>
      '(_, r) ← cb_close object_end_event top (zlen fs) (cb_root s);
      match fs with
      | Some p :: _ =>
          c ← ptr_deref p r;
          r ← match c with
              | JArray l => ptr_store p (JArray (erase_first is_discarded l)) r
              | JObject m => ptr_store p (JObject (erase_first discarded_entry m)) r
              | _ => Some r
              end;
          Some (Cbp r fs ks (cb_key_keep s) None)
      | _ => Some (Cbp r fs ks (cb_key_keep s) None)
      end
  | _, _ => None
  end.

(** [end_array()] *)
Definition cb_end_array (s : cbp) : option cbp :=
  match cb_refs s, cb_keep s with
  | top :: fs, _ :: ks =>
      '(keep, r) ← cb_close array_end_event top (zlen fs) (cb_root s);
      match keep, fs with
      | false, Some p :: _ =>
          c ← ptr_deref p r;
          match c with
          | JArray [] => None
          | JArray l => r ← ptr_store p (JArray (removelast l)) r; Some (Cbp r fs ks (cb_key_keep s) None)
          | _ => Some (Cbp r fs ks (cb_key_keep s) None)
          end
      | false, None :: _ => None
      | _, _ => Some (Cbp r fs ks (cb_key_keep s) None)
      end
  | _, _ => None
  end.

Definition cb_event (ev : sax_event) (s : cbp) : option cbp :=
  match ev with
  | EvNull => cb_scalar JNull s
  | EvBool b => cb_scalar (JBool b) s
  | EvInteger z => cb_scalar (JInteger z) s
  | EvUnsigned z => cb_scalar (JUnsigned z) s
  | EvFloat b => cb_scalar (JFloat b) s
  | EvString t => cb_scalar (JString t) s
  | EvBinary _ _ => None
  | EvStartObject => cb_start object_start_event (JObject []) s
  | EvKey k => cb_key k s
  | EvEndObject => cb_end_object s
  | EvStartArray => cb_start array_start_event (JArray []) s
  | EvEndArray => cb_end_array s
  end.

Fixpoint cb_events (evs : list sax_event) (s : cbp) : option cbp :=
  match evs with
  | [] => Some s
  | ev :: evs' => s ← cb_event ev s; cb_events evs' s
  end.

(** [parser::parse] with a callback, for the events of a text without errors. *)
Definition parse_callback (evs : list sax_event) : option json :=
  s ← cb_events evs new_cbp;
  Some (if is_discarded (cb_root s) then JNull else cb_root s).
End Callback.

(** ** Examples *)

Definition filter_doc : json :=
  JObject [($"bar", JObject [($"baz", JUnsigned 1)]); ($"baz", JArray [JUnsigned 2; JUnsigned 3; JArray []]); ($"foo", JUnsigned 2)].

(** Drops every number 2. *)
Definition drop_two (d : Z) (ev : parse_event_t) (j : json) : bool :=
  match ev, j with value_event, JUnsigned 2 => false | _, _ => true end.

Example callback_keeps_all : parse_callback (fun _ _ _ => true) (events_of filter_doc) = Some filter_doc.
Proof. by_compute. Qed.
Example callback_drops_all : parse_callback (fun _ _ _ => false) (events_of filter_doc) = Some JNull.
Proof. by_compute. Qed.
Example callback_drops_two :
  parse_callback drop_two (events_of filter_doc) =
  Some (JObject [($"bar", JObject [($"baz", JUnsigned 1)]); ($"baz", JArray [JUnsigned 3; JArray []]); ($"foo", JDiscarded)]).
Proof. by_compute. Qed.
