(* ===== verification/JsonCallbackSpec.v ===== *)
(** * Theorems on parsing with a callback

    The handler, which works with pointers into the value it builds, does what a
    recursive function on the document does: no pointer is used that does not
    point to a value, no assertion fails.  But for members of the type discarded
    that it leaves in objects, the result is the document without the parts the
    callback rejects. *)

From S2P Require Import Prelude StdMap JsonNumber JsonValue JsonLexer JsonParser JsonSerializer JsonCompare JsonAccess JsonBinary JsonCallback.

(** ** What the handler computes *)

(** A document of the parser: no part of it is discarded. *)
Fixpoint parsed (j : json) : bool :=
  match j with
  | JArray l => forallb parsed l
  | JObject m => forallb (fun e => parsed e.2) m
  | JDiscarded => false
  | _ => true
  end.

Definition option_list {A} (o : option A) : list A := match o with Some x => [x] | None => [] end.

(** The members of an object after one more: a kept key whose value is not kept
    has a discarded value; the end of an object erases one of those. *)
Definition cb_member (kept isobj : bool) (k : str) (res : option json) (m : list (str * json)) : list (str * json) :=
  let m := if kept then map_assign k (default JDiscarded res) m else m in
  if isobj then erase_first discarded_entry m else m.

Section Filter.
Variable callback : Z -> parse_event_t -> json -> bool.

(** The end of a container. *)
Definition at_end (ev : parse_event_t) (d : Z) (c : json) : option json := if callback d ev c then Some c else None.

(** What is kept of a value at depth [d]. *)
Fixpoint filtered (d : Z) (j : json) : option json :=
  match j with
  | JArray l =>
      if callback d array_start_event JDiscarded
      then at_end array_end_event d (JArray (flat_map (fun x => option_list (filtered (d + 1) x)) l)) else None
  | JObject m =>
      if callback d object_start_event JDiscarded
      then at_end object_end_event d
             (JObject (fold_left (fun acc e =>
                cb_member (callback (d + 1) key_event (JString e.1)) (is_object e.2) e.1 (filtered (d + 1) e.2) acc) m []))
      else None
  | _ => if callback d value_event j then Some j else None
  end.

(** The same without members that stay discarded. *)
Fixpoint pruned (d : Z) (j : json) : option json :=
  match j with
  | JArray l =>
      if callback d array_start_event JDiscarded
      then at_end array_end_event d (JArray (flat_map (fun x => option_list (pruned (d + 1) x)) l)) else None
  | JObject m =>
      if callback d object_start_event JDiscarded
      then at_end object_end_event d
             (JObject (flat_map (fun e =>
                if callback (d + 1) key_event (JString e.1) then option_list (pair e.1 <$> pruned (d + 1) e.2) else []) m))
      else None
  | _ => if callback d value_event j then Some j else None
  end.
End Filter.

(** A value without its members that are discarded. *)
Fixpoint strip (j : json) : json :=
  match j with
  | JArray l => JArray (map strip l)
  | JObject m => JObject (flat_map (fun e => if is_discarded e.2 then [] else [(e.1, strip e.2)]) m)
  | _ => j
  end.

(** ** Lemmas: pointers *)

Lemma ptr_deref_app p q j : ptr_deref (p ++ q) j = (x ← ptr_deref p j; ptr_deref q x).
Proof.
  revert j. induction p as [|[i|k] p IH]; intros j; [done|destruct j; try done; simpl..].
  - destruct (_ !! i); simpl; [apply IH|done].
  - destruct (map_find k _); simpl; [apply IH|done].
Qed.

Lemma ptr_store_app p q v j : ptr_store (p ++ q) v j = (x ← ptr_deref p j; x ← ptr_store q v x; ptr_store p x j).
Proof.
  revert j. induction p as [|[i|k] p IH]; intros j; [simpl; by destruct (ptr_store q v j)|destruct j; try done; simpl..].
  - destruct (_ !! i) as [x|]; simpl; [rewrite IH|done]. destruct (ptr_deref p x) as [y|]; [simpl|done]. by destruct (ptr_store q v y).
  - destruct (map_find k _) as [x|]; simpl; [rewrite IH|done]. destruct (ptr_deref p x) as [y|]; [simpl|done]. by destruct (ptr_store q v y).
Qed.

(** A store where there is something: it is found, and a second store hides it. *)
Lemma ptr_store_spec p c v j : ptr_deref p j = Some c ->
  exists j', ptr_store p v j = Some j' /\ ptr_deref p j' = Some v /\ forall w, ptr_store p w j' = ptr_store p w j.
Proof.
  revert j. induction p as [|[i|k] p IH]; intros j; [eauto|destruct j as [|m|l| | | | | |]; try done; simpl..].
  - destruct (l !! i) as [x|] eqn:E; [simpl|done]. intros (x' & -> & Hd & Hw)%IH. simpl. eexists. split; [done|]. simpl.
    assert (Hi : (i < length l)%nat) by by apply lookup_lt_Some in E. rewrite list_lookup_insert_eq by done. simpl. split; [done|].
    intros w. rewrite Hw. destruct (ptr_store p w x); [simpl|done]. by rewrite list_insert_insert_eq.
  - destruct (map_find k m) as [x|] eqn:E; [simpl|done]. intros (x' & -> & Hd & Hw)%IH. simpl. eexists. split; [done|]. simpl.
    rewrite map_find_assigned. simpl. split; [done|]. intros w. rewrite Hw. destruct (ptr_store p w x); [simpl|done]. by rewrite map_assign_twice.
Qed.

Lemma ptr_store_found p v j j' : ptr_store p v j = Some j' -> ptr_deref p j' = Some v /\ forall w, ptr_store p w j' = ptr_store p w j.
Proof.
  intros H. assert (Hc : exists c, ptr_deref p j = Some c).
  { revert j j' H. induction p as [|[i|k] p IH]; intros j j'; [eauto|destruct j as [|m|l| | | | | |]; try done; simpl..].
    - destruct (l !! i) as [x|]; [simpl|done]. destruct (ptr_store p v x) eqn:E; [eauto|done].
    - destruct (map_find k m) as [x|]; [simpl|done]. destruct (ptr_store p v x) eqn:E; [eauto|done]. }
  destruct Hc as [c Hc]. destruct (ptr_store_spec p c v j Hc) as (j2 & E & Hd & Hw). rewrite H in E. injection E as <-. by split.
Qed.

Lemma ptr_store_same p c j : ptr_deref p j = Some c -> ptr_store p c j = Some j.
Proof.
  revert j. induction p as [|[i|k] p IH]; intros j; [by intros [= ->]|destruct j as [|m|l| | | | | |]; try done; simpl..].
  - destruct (l !! i) as [x|] eqn:E; [simpl|done]. intros ->%IH. simpl. by rewrite list_insert_id.
  - destruct (map_find k m) as [x|] eqn:E; [simpl|done]. intros ->%IH. simpl. by rewrite map_assign_same.
Qed.

(** ** Lemmas: containers that are not built *)

Section Runs.
Variable callback : Z -> parse_event_t -> json -> bool.

Lemma cb_events_app evs evs' s : cb_events callback (evs ++ evs') s = (s ← cb_events callback evs s; cb_events callback evs' s).
Proof. revert s. induction evs as [|ev evs IH]; intros s; [done|]. simpl. destruct (cb_event callback ev s); [apply IH|done]. Qed.

(** The root and the stacks of containers are the same. *)
Definition same_but_keys (s s' : cbp) : Prop := cb_root s' = cb_root s /\ cb_refs s' = cb_refs s /\ cb_keep s' = cb_keep s.

(** Inside a container that is not built. *)
Definition in_null (s : cbp) : Prop := exists fs b ks, cb_refs s = None :: fs /\ cb_keep s = b :: ks.

Lemma in_null_same s s' : in_null s -> same_but_keys s s' -> in_null s'.
Proof. intros (fs & b & ks & Hr & Hk) (_ & Hr' & Hk'). exists fs, b, ks. by rewrite Hr', Hk'. Qed.

Lemma null_value v skip s : in_null s -> cb_handle_value callback v skip s = Some (s, None).
Proof.
  intros (fs & b & ks & Hr & Hk). unfold cb_handle_value. rewrite Hk, Hr. destruct b; [|done]. by destruct (skip || _).
Qed.

Definition null_runs (evs : list sax_event) : Prop :=
  forall s, in_null s -> exists s', cb_events callback evs s = Some s' /\ same_but_keys s s'.

Lemma null_runs_app evs evs' : null_runs evs -> null_runs evs' -> null_runs (evs ++ evs').
Proof.
  intros H H' s Hs. rewrite cb_events_app. destruct (H s Hs) as (s1 & -> & E1). destruct (H' s1) as (s2 & E & E2); [by eapply in_null_same|].
  exists s2. simpl. split; [done|]. unfold same_but_keys in *. intuition congruence.
Qed.

Lemma null_start ev empty s : in_null s ->
  exists b, cb_start callback ev empty s = Some (Cbp (cb_root s) (None :: cb_refs s) (b :: cb_keep s) (cb_key_keep s) (cb_element s)).
Proof.
  intros (fs & b & ks & Hr & Hk). unfold cb_start. rewrite null_value; [by eexists|]. simpl. eexists fs, _, _. by rewrite Hr.
Qed.

(** A container whose body is run between its events. *)
Lemma null_container body ev ev' empty stop :
  (forall s, cb_event callback ev s = cb_start callback ev' empty s) ->
  (stop = EvEndObject \/ stop = EvEndArray) -> null_runs body -> null_runs (ev :: body ++ [stop]).
Proof.
  intros Hev Hstop Hb s Hs. simpl. rewrite Hev. destruct (null_start ev' empty s Hs) as [b ->]. simpl. rewrite cb_events_app.
  destruct (Hb (Cbp (cb_root s) (None :: cb_refs s) (b :: cb_keep s) (cb_key_keep s) (cb_element s))) as ([r rf kp kk el] & -> & Hr & Hf & Hk); [by eexists _, _, _|].
  simpl in Hr, Hf, Hk. subst. simpl. destruct Hs as (fs & b' & ks & Hr & Hk).
  destruct Hstop as [->| ->]; simpl; unfold cb_end_object, cb_end_array; simpl; rewrite Hr; simpl; (eexists; split; [done|]; by rewrite Hr || by split).
Qed.

Lemma null_member k evs : null_runs evs -> null_runs (EvKey k :: evs).
Proof.
  intros He s Hs. simpl. pose proof Hs as (fs & b & ks & Hr & Hk). unfold cb_key. rewrite Hr. simpl. rewrite <- Hr.
  match goal with |- context [cb_events _ _ ?s1] => destruct (He s1) as (s' & E & Hsame) end; [by exists fs, b, ks|]. by exists s'.
Qed.

Lemma null_runs_of v : null_runs (events_of v).
Proof.
  induction v as [|m IH|l IH|t|b|z|z|z|] using json_induct;
    try (intros s Hs; simpl; unfold cb_scalar; rewrite null_value by done; simpl; by eexists).
  - apply (null_container _ _ object_start_event (JObject [])); [done|by left|]. induction IH as [|[k x] m Hx _ IHm]; [by eexists|].
    cbn [flat_map]. apply null_runs_app; [by apply null_member|done].
  - apply (null_container _ _ array_start_event (JArray [])); [done|by right|]. induction IH as [|x l Hx _ IHl]; [by eexists|].
    cbn [flat_map]. by apply null_runs_app.
  - by eexists.
Qed.

(** ** Lemmas: where a value goes *)

(** The container a value is an element of, if there is one. *)
Inductive ctx :=
  | CRoot
  | CArray (l : list json)
  | CObject (m : list (str * json)) (kept : bool) (k : str).

Definition ctx_refs (c : ctx) (p : path) (rs : list (option path)) : list (option path) :=
  match c with CRoot => [] | _ => Some p :: rs end.

Definition no_discarded (l : list json) : Prop := Forall (fun x => is_discarded x = false) l.

(** It is at [p]; in an object the key was handled before. *)
Definition ctx_ok (c : ctx) (p : path) (kk : list bool) (el : option path) (r : json) : Prop :=
  match c with
  | CRoot => p = []
  | CArray l => ptr_deref p r = Some (JArray l) /\ no_discarded l
  | CObject m kept k =>
      ptr_deref p r = Some (JObject m) /\ (exists kk0, kk = kept :: kk0) /\
      (kept = true -> el = Some (p ++ [SKey k]) /\ map_find k m = Some JDiscarded)
  end.

Definition ctx_builds (c : ctx) : bool := match c with CObject _ kept _ => kept | _ => true end.

Definition ctx_put (c : ctx) (x : json) : json :=
  match c with
  | CRoot => x
  | CArray l => JArray (l ++ [x])
  | CObject m _ k => JObject (map_assign k x m)
  end.

(** The root when the value was handled and [res] was kept of it. *)
Definition ctx_outcome (c : ctx) (p : path) (r : json) (res : option json) (isobj : bool) (r' : json) : Prop :=
  match c with
  | CRoot => match res with Some x => r' = x | None => r' = r \/ r' = JDiscarded end
  | CArray l => ptr_store p (JArray (l ++ option_list res)) r = Some r'
  | CObject m kept k => ptr_store p (JObject (cb_member kept isobj k res m)) r = Some r'
  end.

Lemma place x skip c p rs ks kk el r :
  ctx_ok c p kk el r -> skip || callback (zlen (ctx_refs c p rs)) value_event x = true ->
  if ctx_builds c then
    exists q r1 kk1 el1,
      cb_handle_value callback x skip (Cbp r (ctx_refs c p rs) (true :: ks) kk el) = Some (Cbp r1 (ctx_refs c p rs) (true :: ks) kk1 el1, Some q) /\
      ptr_deref q r1 = Some x /\ (forall y, ptr_store q y r1 = ptr_store p (ctx_put c y) r) /\ ptr_store p (ctx_put c x) r = Some r1
  else exists kk1, cb_handle_value callback x skip (Cbp r (ctx_refs c p rs) (true :: ks) kk el) = Some (Cbp r (ctx_refs c p rs) (true :: ks) kk1 el, None).
Proof.
  intros Hc Hcb. unfold cb_handle_value. cbn [cb_keep cb_refs]. rewrite Hcb. destruct c as [|l|m kept k]; cbn [ctx_refs ctx_builds cb_root cb_key_keep cb_element ctx_put].
  - simpl in Hc. subst p. by eexists [], _, _, _.
  - destruct Hc as [Hd _]. rewrite Hd. cbn [mbind option_bind]. destruct (ptr_store_spec p _ (JArray (l ++ [x])) r Hd) as (r1 & E & Hd1 & Hw). rewrite E. cbn [mbind option_bind].
    eexists _, r1, _, _. split; [done|]. rewrite ptr_deref_app, Hd1. simpl. rewrite list_lookup_middle by done. split; [done|]. split; [|done].
    intros y. rewrite ptr_store_app, Hd1. simpl. rewrite list_lookup_middle by done. simpl. rewrite Hw. do 2 f_equal. rewrite insert_app_r_alt by done. by rewrite Nat.sub_diag.
  - destruct Hc as (Hd & [kk0 ->] & Hk). rewrite Hd. cbn [mbind option_bind]. destruct kept; cbn [negb]; [|by eexists].
    destruct (Hk eq_refl) as [-> Hf]. cbn [mbind option_bind].
    assert (Hst : forall y, ptr_store (p ++ [SKey k]) y r = ptr_store p (JObject (map_assign k y m)) r).
    { intros y. rewrite ptr_store_app, Hd. simpl. by rewrite Hf. }
    rewrite Hst. destruct (ptr_store_spec p _ (JObject (map_assign k x m)) r Hd) as (r1 & E & Hd1 & Hw). rewrite E. cbn [mbind option_bind].
    eexists _, r1, _, _. split; [done|]. rewrite ptr_deref_app, Hd1. simpl. rewrite map_find_assigned. split; [done|]. split; [|done].
    intros y. rewrite ptr_store_app, Hd1. simpl. rewrite map_find_assigned. simpl. by rewrite Hw, map_assign_twice.
Qed.

(** Nothing is kept. *)
Lemma outcome_none c p kk el r : ctx_ok c p kk el r -> ctx_outcome c p r None false r.
Proof.
  destruct c as [|l|m kept k]; simpl; [by left|intros [Hd _]; rewrite app_nil_r; by apply ptr_store_same|].
  intros (Hd & _ & Hk). unfold cb_member. apply ptr_store_same. destruct kept; [|done]. destruct (Hk eq_refl) as [_ Hf]. simpl. by rewrite map_assign_same.
Qed.

Lemma outcome_unbuilt c p r res res' isobj r' : ctx_builds c = false -> ctx_outcome c p r res isobj r' -> ctx_outcome c p r res' isobj r'.
Proof. destruct c as [|l|m kept k]; try done. simpl. by intros ->. Qed.

Lemma outcome_put c p r x r' : ctx_builds c = true -> ptr_store p (ctx_put c x) r = Some r' -> (c = CRoot -> p = []) -> ctx_outcome c p r (Some x) false r'.
Proof.
  destruct c as [|l|m kept k]; simpl; try done; [intros _ H E; rewrite E in H by done; simpl in H; congruence|]. by intros ->.
Qed.

(** ** Lemmas: the ends of containers *)

Lemma erase_first_none {A} (f : A -> bool) l : Forall (fun x => f x = false) l -> erase_first f l = l.
Proof. induction 1 as [|x l Hx _ IH]; simpl; [done|]. by rewrite Hx, IH. Qed.

Lemma erase_first_last {A} (f : A -> bool) l x : Forall (fun x => f x = false) l -> f x = true -> erase_first f (l ++ [x]) = l.
Proof. induction 1 as [|y l Hy _ IH]; simpl; intros Hx; [by rewrite Hx|]. by rewrite Hy, IH. Qed.

(** A container at [q] whose place in the context is known. *)
Definition placed_at (c : ctx) (p q : path) (r a r2 : json) : Prop :=
  ptr_deref q r2 = Some a /\ (forall y, ptr_store q y r2 = ptr_store p (ctx_put c y) r) /\ ptr_store p (ctx_put c a) r = Some r2.

(** The root after the container is kept or discarded. *)
Lemma close_placed ev c p q kk el r a r2 d :
  ctx_ok c p kk el r -> placed_at c p q r a r2 ->
  exists x r3, cb_close callback ev (Some q) d r2 = Some (callback d ev a, r3) /\ ptr_store p (ctx_put c x) r = Some r3 /\
    x = if callback d ev a then a else JDiscarded.
Proof.
  intros Hc (Hd & Hst & Ha). unfold cb_close. rewrite Hd. cbn [mbind option_bind]. destruct (callback d ev a); [by exists a, r2|].
  assert (exists r3, ptr_store q JDiscarded r2 = Some r3) as [r3 E] by (destruct (ptr_store_spec q a JDiscarded r2 Hd) as (? & ? & _); eauto).
  rewrite E. cbn [mbind option_bind]. exists JDiscarded, r3. by rewrite <- Hst.
Qed.

Lemma end_array_placed c p q rs b ks kk kk0 el el0 r a r2 :
  ctx_ok c p kk0 el0 r -> ctx_builds c = true -> placed_at c p q r a r2 ->
  exists r', cb_end_array callback (Cbp r2 (Some q :: ctx_refs c p rs) (b :: true :: ks) kk el) = Some (Cbp r' (ctx_refs c p rs) (true :: ks) kk None) /\
    ctx_outcome c p r (at_end callback array_end_event (zlen (ctx_refs c p rs)) a) false r'.
Proof.
  intros Hc Hb Hpl. unfold cb_end_array. cbn [cb_refs cb_keep cb_root cb_key_keep].
  destruct (close_placed array_end_event c p q kk0 el0 r a r2 (zlen (ctx_refs c p rs)) Hc Hpl) as (x & r3 & -> & Hx & ->). cbn [mbind option_bind].
  unfold at_end. destruct (callback (zlen (ctx_refs c p rs)) array_end_event a).
  { exists r3. split; [done|]. apply outcome_put; [done..|]. by intros ->. }
  destruct c as [|l|m kept k]; cbn [ctx_refs].
  - exists r3. split; [done|]. right. simpl in Hc. subst p. simpl in Hx. congruence.
  - destruct (ptr_store_found _ _ _ _ Hx) as [Hd Hw]. rewrite Hd. cbn [mbind option_bind ctx_put]. simpl in Hc. destruct Hc as [Hl _].
    destruct (ptr_store_spec p _ (JArray l) r Hl) as (r4 & E & _). exists r4. simpl. rewrite app_nil_r. split; [|done].
    assert (Hr : removelast (l ++ [JDiscarded]) = l) by (rewrite removelast_app by done; apply app_nil_r).
    destruct (l ++ [JDiscarded]) as [|y l'] eqn:El; [by destruct l|]. by rewrite Hr, Hw, E.
  - destruct (ptr_store_found _ _ _ _ Hx) as [Hd _]. rewrite Hd. cbn [mbind option_bind ctx_put]. exists r3. split; [done|]. simpl in Hb |- *. by subst kept.
Qed.

(** The erasure at the end of an object. *)
Lemma erase_in_parent c p kk el r x r3 :
  ctx_ok c p kk el r -> c <> CRoot -> ctx_builds c = true -> is_discarded x = false \/ x = JDiscarded -> ptr_store p (ctx_put c x) r = Some r3 ->
  exists r', (c ← ptr_deref p r3;
    match c with
    | JArray l => ptr_store p (JArray (erase_first is_discarded l)) r3
    | JObject m => ptr_store p (JObject (erase_first discarded_entry m)) r3
    | _ => Some r3
    end) = Some r' /\ ctx_outcome c p r (if is_discarded x then None else Some x) true r'.
Proof.
  intros Hc Hr Hb Hx Hst. destruct (ptr_store_found _ _ _ _ Hst) as [-> Hw]. cbn [mbind option_bind].
  destruct c as [|l|m kept k]; [done|..]; cbn [ctx_put ctx_outcome].
  - destruct Hc as [Hd Hl]. rewrite Hw.
    assert (E : erase_first is_discarded (l ++ [x]) = l ++ option_list (if is_discarded x then None else Some x)).
    { destruct Hx as [Hx| ->]; [rewrite Hx; apply erase_first_none, Forall_app; by repeat constructor|]. rewrite erase_first_last by done. by rewrite app_nil_r. }
    rewrite E. destruct (ptr_store_spec p _ (JArray (l ++ option_list (if is_discarded x then None else Some x))) r Hd) as (r' & -> & _). eauto.
  - destruct Hc as (Hd & _ & _). rewrite Hw. simpl in Hb. subst kept. unfold cb_member.
    assert (E : default JDiscarded (if is_discarded x then None else Some x) = x) by (destruct Hx as [Hx| ->]; [by rewrite Hx|done]).
    rewrite E. destruct (ptr_store_spec p _ (JObject (erase_first discarded_entry (map_assign k x m))) r Hd) as (r' & -> & _). eauto.
Qed.

Lemma end_object_placed c p q rs b ks kk kk0 el el0 r a r2 :
  ctx_ok c p kk0 el0 r -> ctx_builds c = true -> is_discarded a = false -> placed_at c p q r a r2 ->
  exists r', cb_end_object callback (Cbp r2 (Some q :: ctx_refs c p rs) (b :: true :: ks) kk el) = Some (Cbp r' (ctx_refs c p rs) (true :: ks) kk None) /\
    ctx_outcome c p r (at_end callback object_end_event (zlen (ctx_refs c p rs)) a) true r'.
Proof.
  intros Hc Hb Ha Hpl. unfold cb_end_object. cbn [cb_refs cb_keep cb_root cb_key_keep].
  destruct (close_placed object_end_event c p q kk0 el0 r a r2 (zlen (ctx_refs c p rs)) Hc Hpl) as (x & r3 & -> & Hx & Ex). cbn [mbind option_bind].
  assert (Eres : at_end callback object_end_event (zlen (ctx_refs c p rs)) a = if is_discarded x then None else Some x).
  { unfold at_end. subst x. destruct (callback _ _ a); [by rewrite Ha|done]. }
  assert (Hxd : is_discarded x = false \/ x = JDiscarded) by (subst x; destruct (callback _ _ a); auto).
  rewrite Eres. clear Ex Eres.
  assert (c = CRoot \/ c <> CRoot) as [->|Hn] by (destruct c; [by left|by right..]).
  { cbn [ctx_refs]. exists r3. split; [done|]. simpl in Hc, Hx |- *. subst p. simpl in Hx. injection Hx as <-. destruct Hxd as [-> | ->]; [done|by right]. }
  destruct (erase_in_parent c p kk0 el0 r x r3 Hc Hn Hb Hxd Hx) as (r' & E & Ho). exists r'. split; [|done].
  destruct c as [|l|m kept k]; [done|..]; cbn [ctx_refs]; destruct (ptr_deref p r3) as [y|]; try done; cbn [mbind option_bind] in *; by rewrite E.
Qed.

(** The end of an object that was not built erases a member as well. *)
Lemma end_object_null c p rs b ks kk kk0 el el0 r res :
  ctx_ok c p kk0 el0 r -> res = None \/ ctx_builds c = false ->
  exists r', cb_end_object callback (Cbp r (None :: ctx_refs c p rs) (b :: true :: ks) kk el) = Some (Cbp r' (ctx_refs c p rs) (true :: ks) kk None) /\
    ctx_outcome c p r res true r'.
Proof.
  intros Hc Hres. unfold cb_end_object. cbn [cb_refs cb_keep cb_root cb_key_keep cb_close mbind option_bind].
  destruct c as [|l|m kept k]; cbn [ctx_refs].
  - exists r. split; [done|]. destruct Hres as [->|]; [by left|done].
  - destruct Hc as [Hd Hl]. rewrite Hd. cbn [mbind option_bind]. rewrite erase_first_none by done. rewrite (ptr_store_same p (JArray l)) by done.
    exists r. split; [done|]. destruct Hres as [->|]; [simpl; rewrite app_nil_r; by apply ptr_store_same|done].
  - destruct Hc as (Hd & _ & Hk). rewrite Hd. cbn [mbind option_bind].
    destruct (ptr_store_spec p _ (JObject (erase_first discarded_entry m)) r Hd) as (r' & E & _). rewrite E. cbn [mbind option_bind]. exists r'. split; [done|].
    cbn [ctx_outcome]. unfold cb_member. destruct kept; [|done]. destruct Hres as [->|]; [|done]. destruct (Hk eq_refl) as [_ Hf]. simpl.
    by rewrite map_assign_same.
Qed.

Lemma end_array_null c p rs b ks kk el r :
  cb_end_array callback (Cbp r (None :: ctx_refs c p rs) (b :: true :: ks) kk el) = Some (Cbp r (ctx_refs c p rs) (true :: ks) kk None).
Proof. done. Qed.

(** ** Lemmas: values *)

Definition value_runs (v : json) : Prop :=
  forall c p rs ks kk el r, ctx_ok c p kk el r ->
  exists kk' el' r',
    cb_events callback (events_of v) (Cbp r (ctx_refs c p rs) (true :: ks) kk el) = Some (Cbp r' (ctx_refs c p rs) (true :: ks) kk' el') /\
    ctx_outcome c p r (filtered callback (zlen (ctx_refs c p rs)) v) (is_object v) r'.

Lemma filtered_kept d v x : parsed v = true -> filtered callback d v = Some x -> is_discarded x = false.
Proof.
  unfold at_end. destruct v; simpl; unfold at_end; try done; intros _;
    repeat match goal with |- context [callback ?a ?b ?c] => destruct (callback a b c) end; by intros [= <-].
Qed.

(** A body at [q], from the container [c0] to [c1]. *)
Definition body_runs (evs : list sax_event) (q : path) (rs : list (option path)) (c0 c1 : json) : Prop :=
  forall ks kk el r, ptr_deref q r = Some c0 ->
  exists kk' el' r',
    cb_events callback evs (Cbp r (Some q :: rs) (true :: ks) kk el) = Some (Cbp r' (Some q :: rs) (true :: ks) kk' el') /\ ptr_store q c1 r = Some r'.

Lemma body_runs_trans evs evs' q rs c0 c1 c2 : body_runs evs q rs c0 c1 -> body_runs evs' q rs c1 c2 -> body_runs (evs ++ evs') q rs c0 c2.
Proof.
  intros H1 H2 ks kk el r Hd. destruct (H1 ks kk el r Hd) as (kk1 & el1 & r1 & E1 & S1). destruct (ptr_store_found _ _ _ _ S1) as [Hd1 Hw].
  destruct (H2 ks kk1 el1 r1 Hd1) as (kk2 & el2 & r2 & E2 & S2). exists kk2, el2, r2. rewrite cb_events_app, E1. simpl. split; [done|]. by rewrite <- Hw.
Qed.

Lemma body_runs_nil q rs c : body_runs [] q rs c c.
Proof. intros ks kk el r Hd. exists kk, el, r. split; [done|]. by apply ptr_store_same. Qed.

Lemma array_body vs q rs l :
  Forall (fun v => parsed v = true -> value_runs v) vs -> forallb parsed vs = true -> no_discarded l ->
  body_runs (flat_map events_of vs) q rs (JArray l) (JArray (l ++ flat_map (fun x => option_list (filtered callback (zlen (Some q :: rs)) x)) vs)).
Proof.
  intros Hvs. revert l. induction Hvs as [|v vs Hv _ IH]; intros l Hp Hl; [rewrite app_nil_r; apply body_runs_nil|].
  simpl in Hp. apply andb_prop in Hp as [Hpv Hp]. cbn [flat_map]. rewrite app_assoc.
  apply body_runs_trans with (JArray (l ++ option_list (filtered callback (zlen (Some q :: rs)) v))).
  - intros ks kk el r Hd. apply (Hv Hpv (CArray l) q rs ks kk el r). by split.
  - apply IH; [done|]. apply Forall_app. split; [done|]. destruct (filtered callback _ v) eqn:E; repeat constructor. by apply filtered_kept in E.
Qed.

Lemma object_body es q rs m :
  Forall (fun e => parsed e.2 = true -> value_runs e.2) es -> forallb (fun e => parsed e.2) es = true ->
  body_runs (flat_map (fun e => EvKey e.1 :: events_of e.2) es) q rs (JObject m)
    (JObject (fold_left (fun acc e => cb_member (callback (zlen (Some q :: rs)) key_event (JString e.1)) (is_object e.2) e.1
       (filtered callback (zlen (Some q :: rs)) e.2) acc) es m)).
Proof.
  intros Hes. revert m. induction Hes as [|[k v] es Hv _ IH]; intros m Hp; [apply body_runs_nil|].
  simpl in Hp. apply andb_prop in Hp as [Hpv Hp]. cbn [flat_map fold_left]. eapply body_runs_trans; [|by apply IH]. clear IH Hp es.
  intros ks kk el r Hd. cbn [cb_events cb_event fst snd]. unfold cb_key. cbn [cb_refs cb_root cb_keep cb_key_keep cb_element].
  set (d := zlen (Some q :: rs)). destruct (callback d key_event (JString k)).
  - rewrite Hd. cbn [mbind option_bind]. destruct (ptr_store_spec q _ (JObject (map_assign k JDiscarded m)) r Hd) as (r1 & E & Hd1 & Hw). rewrite E. cbn [mbind option_bind].
    destruct (Hv Hpv (CObject (map_assign k JDiscarded m) true k) q rs ks (true :: kk) (Some (q ++ [SKey k])) r1) as (kk' & el' & r' & Er & Ho).
    { simpl. split; [done|]. split; [by eexists|]. intros _. split; [done|]. apply map_find_assigned. }
    exists kk', el', r'. split; [done|]. simpl in Ho. unfold cb_member in *. rewrite map_assign_twice in Ho. by rewrite <- Hw.
  - destruct (Hv Hpv (CObject m false k) q rs ks (false :: kk) el r) as (kk' & el' & r' & Er & Ho); [simpl; split; [done|split; [by eexists|done]]|].
    exists kk', el', r'. done.
Qed.

(** What the two events that end a container have in common. *)
Definition ends_with (stop : sax_event) (pe : parse_event_t) (isobj : bool) : Prop :=
  (forall c p q rs b ks kk kk0 el el0 r a r2,
     ctx_ok c p kk0 el0 r -> ctx_builds c = true -> is_discarded a = false -> placed_at c p q r a r2 ->
     exists r', cb_event callback stop (Cbp r2 (Some q :: ctx_refs c p rs) (b :: true :: ks) kk el) = Some (Cbp r' (ctx_refs c p rs) (true :: ks) kk None) /\
       ctx_outcome c p r (at_end callback pe (zlen (ctx_refs c p rs)) a) isobj r') /\
  (forall c p rs b ks kk kk0 el el0 r res,
     ctx_ok c p kk0 el0 r -> res = None \/ ctx_builds c = false ->
     exists r', cb_event callback stop (Cbp r (None :: ctx_refs c p rs) (b :: true :: ks) kk el) = Some (Cbp r' (ctx_refs c p rs) (true :: ks) kk None) /\
       ctx_outcome c p r res isobj r').

Lemma object_ends : ends_with EvEndObject object_end_event true.
Proof. split; intros; [by eapply end_object_placed|by eapply end_object_null]. Qed.

Lemma array_ends : ends_with EvEndArray array_end_event false.
Proof.
  split; intros; [by eapply end_array_placed|]. simpl. rewrite end_array_null. eexists. split; [done|].
  match goal with H : ctx_ok _ _ _ _ _ |- _ => pose proof (outcome_none _ _ _ _ _ H) end.
  match goal with H : _ \/ _ |- _ => destruct H as [->|] end; [done|]. by eapply outcome_unbuilt.
Qed.

Lemma container_runs v ev pe pe' empty body stop content :
  events_of v = ev :: body ++ [stop] -> (forall s, cb_event callback ev s = cb_start callback pe empty s) ->
  null_runs body -> (forall q rs, body_runs body q rs empty (content (zlen (Some q :: rs)))) ->
  ends_with stop pe' (is_object v) -> (forall d, is_discarded (content d) = false) ->
  (forall d, filtered callback d v = if callback d pe JDiscarded then at_end callback pe' d (content (d + 1)) else None) ->
  value_runs v.
Proof.
  intros Hev Hst Hnull Hbody [Hend Hend0] Hcont Hres c p rs ks kk el r Hc. rewrite Hev, Hres. cbn [cb_events]. rewrite Hst.
  unfold cb_start. cbn [cb_root cb_refs cb_keep cb_key_keep cb_element]. set (d := zlen (ctx_refs c p rs)).
  (* a body that is not built *)
  assert (H0 : forall res b kk1, res = None \/ ctx_builds c = false -> exists kk' el' r',
    cb_events callback (body ++ [stop]) (Cbp r (None :: ctx_refs c p rs) (b :: true :: ks) kk1 el) = Some (Cbp r' (ctx_refs c p rs) (true :: ks) kk' el') /\
    ctx_outcome c p r res (is_object v) r').
  { intros res b kk1 Hn. rewrite cb_events_app.
    destruct (Hnull (Cbp r (None :: ctx_refs c p rs) (b :: true :: ks) kk1 el)) as ([r1 rf kp kk2 el2] & -> & Er & Ef & Ek); [by eexists _, _, _|].
    simpl in Er, Ef, Ek. subst. cbn [mbind option_bind cb_events]. destruct (Hend0 c p rs b ks kk2 kk el2 el r res Hc Hn) as (r' & -> & Ho).
    by eexists _, _, r'. }
  destruct (callback d pe JDiscarded) eqn:Ecb.
  2:{ cbn [cb_handle_value cb_keep mbind option_bind]. apply H0. by left. }
  assert (Hpl := place empty true c p rs (true :: ks) kk el r Hc eq_refl).
  destruct (ctx_builds c) eqn:Eb; [destruct Hpl as (q & r1 & kk1 & el1 & -> & Hd1 & Hw1 & Hs1)|destruct Hpl as (kk1 & ->); apply H0; by right].
  cbn [mbind option_bind cb_root cb_refs cb_keep cb_key_keep cb_element]. rewrite cb_events_app.
  destruct (Hbody q (ctx_refs c p rs) (true :: ks) kk1 el1 r1 Hd1) as (kk2 & el2 & r2 & -> & Hs2). cbn [mbind option_bind cb_events].
  destruct (ptr_store_found _ _ _ _ Hs2) as [Hd2 Hw2].
  destruct (Hend c p q rs true ks kk2 kk el2 el r (content (zlen (Some q :: ctx_refs c p rs))) r2 Hc Eb) as (r' & E & Ho); [apply Hcont| |].
  { split; [done|]. split; [intros y; by rewrite Hw2|]. by rewrite <- Hw1. }
  rewrite E. eexists _, _, r'. split; [done|]. by rewrite zlen_cons in Ho.
Qed.

Lemma scalar_runs v : parsed v = true -> is_object v = false -> (forall d, filtered callback d v = if callback d value_event v then Some v else None) ->
  (forall s, cb_events callback (events_of v) s = cb_scalar callback v s) -> value_runs v.
Proof.
  intros Hp Ho Hf He c p rs ks kk el r Hc. rewrite He, Hf, Ho. unfold cb_scalar. destruct (callback (zlen (ctx_refs c p rs)) value_event v) eqn:Ecb.
  - pose proof (place v false c p rs ks kk el r Hc Ecb) as Hpl. destruct (ctx_builds c) eqn:Eb.
    + destruct Hpl as (q & r1 & kk1 & el1 & -> & _ & _ & Hs). eexists _, _, r1. split; [done|]. apply outcome_put; [done..|]. by intros ->.
    + destruct Hpl as (kk1 & ->). eexists _, _, r. split; [done|]. eapply outcome_unbuilt; [done|]. by eapply outcome_none.
  - unfold cb_handle_value. cbn [cb_keep cb_refs orb]. rewrite Ecb. eexists _, _, r. split; [done|]. by eapply outcome_none.
Qed.

Lemma all_values_run v : parsed v = true -> value_runs v.
Proof.
  induction v as [|m IH|l IH|t|b|z|z|z|] using json_induct; intros Hp; try done;
    try (apply scalar_runs; [done|done|done|intros s; simpl; by destruct (cb_scalar callback _ s)]).
  - eapply (container_runs _ _ object_start_event object_end_event (JObject []) _ _
      (fun d => JObject (fold_left (fun acc e => cb_member (callback d key_event (JString e.1)) (is_object e.2) e.1 (filtered callback d e.2) acc) m [])));
      [done|done| | |apply object_ends|done|done].
    + clear. induction m as [|[k x] m IHm]; [intros s Hs; by eexists|]. cbn [flat_map]. apply null_runs_app; [apply null_member, null_runs_of|done].
    + intros q rs. by apply object_body.
  - eapply (container_runs _ _ array_start_event array_end_event (JArray []) _ _
      (fun d => JArray (flat_map (fun x => option_list (filtered callback d x)) l))); [done|done| | |apply array_ends|done|done].
    + clear. induction l as [|x l IHl]; [intros s Hs; by eexists|]. cbn [flat_map]. apply null_runs_app; [apply null_runs_of|done].
    + intros q rs. apply (array_body l q rs []); [done..|constructor].
Qed.
End Runs.

(** ** Lemmas: members that stay discarded *)

Lemma json_ok_parsed j : json_ok j -> parsed j = true.
Proof.
  induction j as [|m IH|l IH|t|b|z|z|z|] using json_induct; try done.
  - intros [_ Hm]%json_ok_object. simpl. apply forallb_forall. intros e He. rewrite Forall_forall in IH, Hm. apply list_elem_of_In in He. auto.
  - intros Hl%json_ok_array. simpl. apply forallb_forall. intros x Hx. rewrite Forall_forall in IH, Hl. apply list_elem_of_In in Hx. auto.
Qed.

(** The members of an object that are not discarded. *)
Definition visible_members (m : list (str * json)) : list (str * json) :=
  flat_map (fun e => if is_discarded e.2 then [] else [(e.1, strip e.2)]) m.

Lemma visible_erase m : visible_members (erase_first discarded_entry m) = visible_members m.
Proof.
  unfold visible_members, discarded_entry. induction m as [|e m IH]; [done|]. cbn [erase_first]. destruct (is_discarded e.2) eqn:E; cbn [flat_map]; rewrite E; [done|].
  by rewrite IH.
Qed.

Lemma erase_first_forall {A} (P : A -> Prop) f l : Forall P l -> Forall P (erase_first f l).
Proof. induction 1 as [|x l Hx H IH]; simpl; [done|]. destruct (f x); [done|by constructor]. Qed.

(** A new last member. *)
Lemma cb_member_visible kept isobj k res m :
  Forall (fun e => str_ltb e.1 k = true) m -> (forall x, res = Some x -> is_discarded x = false) ->
  visible_members (cb_member kept isobj k res m) = visible_members m ++ (if kept then option_list (pair k <$> (strip <$> res)) else []).
Proof.
  intros Hm Hres. unfold cb_member. assert (E : forall m', visible_members (if isobj then erase_first discarded_entry m' else m') = visible_members m').
  { intros m'. destruct isobj; [apply visible_erase|done]. }
  rewrite E. destruct kept; [|by rewrite app_nil_r]. rewrite map_assign_last by done. unfold visible_members at 1. rewrite flat_map_app. f_equal. simpl.
  destruct res as [x|]; [|done]. simpl. by rewrite Hres.
Qed.

Lemma cb_member_below kept isobj k k' res m :
  Forall (fun e => str_ltb e.1 k = true) m -> str_ltb k k' = true -> Forall (fun e => str_ltb e.1 k' = true) m ->
  Forall (fun e => str_ltb e.1 k' = true) (cb_member kept isobj k res m).
Proof.
  intros Hm Hk Hm'. unfold cb_member. assert (H : Forall (fun e => str_ltb e.1 k' = true) (if kept then map_assign k (default JDiscarded res) m else m)).
  { destruct kept; [|done]. rewrite map_assign_last by done. apply Forall_app. by repeat constructor. }
  destruct isobj; [by apply erase_first_forall|done].
Qed.

Section Prune.
Variable callback : Z -> parse_event_t -> json -> bool.

(** The callback does not look at members that are discarded. *)
Hypothesis callback_strip : forall d ev x, callback d ev (strip x) = callback d ev x.

Lemma at_end_strip ev d c : strip <$> at_end callback ev d c = at_end callback ev d (strip c).
Proof. unfold at_end. rewrite callback_strip. by destruct (callback d ev c). Qed.

(** The members of an object, from those before. *)
Lemma fold_visible d m acc :
  Forall (fun e => parsed e.2 = true /\ strip <$> filtered callback d e.2 = pruned callback d e.2) m -> map_sorted m ->
  Forall (fun e => Forall (fun e' => str_ltb e'.1 e.1 = true) acc) m ->
  visible_members (fold_left (fun acc e => cb_member (callback d key_event (JString e.1)) (is_object e.2) e.1 (filtered callback d e.2) acc) m acc) =
  visible_members acc ++ flat_map (fun e => if callback d key_event (JString e.1) then option_list (pair e.1 <$> pruned callback d e.2) else []) m.
Proof.
  intros Hm. revert acc. induction Hm as [|[k v] m [Hp Hv] _ IH]; intros acc Hs Ha; [by rewrite app_nil_r|].
  apply map_sorted_cons in Hs as [Hs Hlt]. apply Forall_cons in Ha as [Hk Ha]. cbn [fold_left flat_map fst snd] in *. rewrite IH.
  - rewrite cb_member_visible; [|done|intros x; by apply filtered_kept]. by rewrite <- app_assoc, Hv.
  - done.
  - rewrite Forall_forall in Hlt, Ha |- *. intros e He. apply cb_member_below; [done|by apply Hlt|by apply Ha].
Qed.

Lemma filtered_strip j d : json_ok j -> strip <$> filtered callback d j = pruned callback d j.
Proof.
  revert d. induction j as [|m IH|l IH|t|b|z|z|z|] using json_induct; intros d Hj; try (simpl; by case_match).
  - apply json_ok_object in Hj as [Hs Hm]. cbn [filtered pruned]. destruct (callback d object_start_event JDiscarded); [|done].
    rewrite at_end_strip. cbn [strip]. f_equal. f_equal. apply (fold_visible (d + 1) m []); [|done|].
    + rewrite Forall_forall in IH, Hm |- *. intros e He. split; [apply json_ok_parsed|]; auto.
    + apply Forall_forall. intros e _. constructor.
  - apply json_ok_array in Hj. cbn [filtered pruned]. destruct (callback d array_start_event JDiscarded); [|done].
    rewrite at_end_strip. cbn [strip]. f_equal. f_equal. induction IH as [|x l Hx _ IHl]; [done|]. apply Forall_cons in Hj as [Hxj Hj].
    cbn [flat_map]. rewrite map_app, IHl by done. f_equal. rewrite <- (Hx (d + 1)) by done. by destruct (filtered callback (d + 1) x).
Qed.
End Prune.

(** ** Properties *)

(** For every callback and every document, keys in any order and more than once: the handler with its stacks of
    pointers computes what the recursive function [filtered] does. It follows that it never uses a pointer that is null
    or points to no value, and that none of its assertions fails. *)
Theorem callback_refines callback j :
  parsed j = true -> parse_callback callback (events_of j) = Some (default JNull (filtered callback 0 j)).
Proof.
  intros Hp. destruct (all_values_run callback j Hp CRoot [] [] [] [] None JNull) as (kk & el & r & E & Ho); [done|].
  unfold parse_callback, new_cbp. cbn [ctx_refs] in E. rewrite E. cbn [mbind option_bind cb_root]. f_equal. cbn [ctx_outcome ctx_refs] in Ho.
  change (zlen []) with 0 in Ho. destruct (filtered callback 0 j) as [x|] eqn:Ef; [|by destruct Ho as [->| ->]].
  subst r. simpl. by rewrite (filtered_kept callback 0 j x).
Qed.

(** C33: Parsing with a callback, for every document and every callback that does not look at discarded members. The
    handler, which stores through pointers into the value it builds, never uses a pointer that does not point to a
    value. But for object members of the type discarded that stay in it, the result is the document without what the
    callback rejects: values, elements and members, containers at their start or their end, members by their key; it
    is null when everything is rejected. *)
Theorem callback_prunes callback j :
  json_ok j -> (forall d ev x, callback d ev (strip x) = callback d ev x) ->
  exists r, parse_callback callback (events_of j) = Some r /\ strip r = default JNull (pruned callback 0 j).
Proof.
  intros Hj Hcb. rewrite callback_refines by by apply json_ok_parsed. eexists. split; [done|].
  rewrite <- filtered_strip by done. by destruct (filtered callback 0 j).
Qed.

Lemma callback_prunes_witness :
  exists r, parse_callback drop_two (events_of filter_doc) = Some r /\
    strip r = JObject [($"bar", JObject [($"baz", JUnsigned 1)]); ($"baz", JArray [JUnsigned 3; JArray []])].
Proof. apply (callback_prunes drop_two filter_doc); [simpl; split_and!; try done; try lia; repeat constructor|]. intros d [] []; reflexivity. Defined.

(** A callback that accepts everything changes nothing: the two handlers of the parser agree. *)
Theorem callback_accepting j s :
  json_ok j -> dom_events (events_of j) new_sax = Some s -> parse_callback (fun _ _ _ => true) (events_of j) = Some (root s).
Proof.
  intros Hj. rewrite dom_events_of by done. intros [= <-]. rewrite callback_refines by by apply json_ok_parsed. f_equal.
  assert (H : forall d, filtered (fun _ _ _ => true) d j = Some j); [|by rewrite H].
  induction j as [|m IH|l IH|t|b|z|z|z|] using json_induct; try done; intros d; cbn [filtered at_end].
  - apply json_ok_object in Hj as [Hs Hm]. unfold at_end. do 2 f_equal.
    enough (H : forall acc, map_sorted (acc ++ m) -> Forall (fun e => discarded_entry e = false) acc ->
      fold_left (fun acc e => cb_member true (is_object e.2) e.1 (filtered (fun _ _ _ => true) (d + 1) e.2) acc) m acc = acc ++ m) by by apply (H []).
    clear Hs. induction IH as [|[k v] m Hv _ IHm]; intros acc Hs Ha; [by rewrite app_nil_r|]. apply Forall_cons in Hm as [Hvj Hm]. cbn [fold_left fst snd].
    rewrite Hv by done. assert (Hlt : Forall (fun e => str_ltb e.1 k = true) acc) by (eapply sorted_app_below; exact Hs).
    assert (Ha' : Forall (fun e => discarded_entry e = false) (acc ++ [(k, v)])).
    { apply Forall_app. split; [done|]. constructor; [|done]. by destruct v. }
    assert (E : cb_member true (is_object v) k (Some v) acc = acc ++ [(k, v)]).
    { unfold cb_member. simpl. rewrite map_assign_last by done. destruct (is_object v); [by apply erase_first_none|done]. }
    cbn [snd]. rewrite E, IHm; [by rewrite <- app_assoc|done|by rewrite <- app_assoc|done].
  - apply json_ok_array in Hj. unfold at_end. do 2 f_equal. induction IH as [|x l Hx _ IHl]; [done|]. apply Forall_cons in Hj as [Hxj Hj].
    cbn [flat_map]. by rewrite Hx, IHl.
Qed.

(** The value of a member is rejected: a discarded value stays in the object, which breaks the invariant of the class. *)
Theorem callback_leaves_discarded callback k n :
  callback 0 object_start_event JDiscarded = true -> callback 1 key_event (JString k) = true -> callback 1 value_event (JUnsigned n) = false ->
  callback 0 object_end_event (JObject [(k, JDiscarded)]) = true ->
  exists r, parse_callback callback (events_of (JObject [(k, JUnsigned n)])) = Some r /\ r = JObject [(k, JDiscarded)] /\ ~ json_ok r.
Proof.
  intros H1 H2 H3 H4. rewrite callback_refines by done. eexists. split; [done|].
  cbn [filtered fold_left fst snd]. change (0 + 1) with 1. rewrite H1, H2, H3. unfold at_end. cbn [cb_member default map_assign is_object]. rewrite H4. split; [done|].
  simpl. by intros [_ [[] _]].
Qed.

(** Its text is not JSON; an object that follows lets one such member disappear, not two. *)
Example callback_text :
  let t := map chr [123; 34; 97; 34; 58] ++ $"<discarded>}" in
  (json_dump <$> parse_callback drop_two (events_of (JObject [($"a", JUnsigned 2)]))) = Some (Done t) /\ json_parse t = Some (Throw (parse_error 101)).
Proof. split; by_compute. Qed.

Example callback_erases_one :
  parse_callback drop_two (events_of (JObject [($"a", JUnsigned 2); ($"b", JUnsigned 2); ($"c", JObject [])])) =
  Some (JObject [($"b", JDiscarded); ($"c", JObject [])]).
Proof. by_compute. Qed.
