(* ===== verification/Daemon.v ===== *)
(** * The daemon (src/src/backend/cpp/src/main.cpp)

    The handler of the coordinator's messages, the IPC worker thread, the
    callback of the file watcher and the command line.  Threads meet in the
    IPC client and in the file system only; a transfer the handler starts in a
    detached thread is an element of [d_spawned].  The client is any
    implementation of the interface [IpcChannel]. *)

From S2P Require Import Prelude Posix StdMap FileSys Sha256 FileTransfer Watcher.
From S2P Require Import JsonNumber JsonValue JsonLexer JsonParser JsonSerializer JsonIntegers.
From S2P Require Import IpcClient IpcInterface.

Section Daemon.
Context {E : EVP} {C : Type} {CH : IpcChannel C}.

Definition normalize_path (path : str) : str :=
  (fun ch => if Ascii.eqb ch (chr 92) then chr 47 else ch) <$> path.

(** ** handle_ipc_message *)

(** The arguments of the [handle_file_transfer] call of a detached thread. *)
Record transfer_req := TransferReq {
  q_path : str;
  q_port : Z;
  q_direction : str;
  q_expected_size : Z;
  q_expected_hash : str;
  q_mode : Z
}.

(** The body of the detached thread. *)
Definition run_transfer (os : tr_os) (watch_path : str) (q : transfer_req) (f : fsys) : tr_result :=
  handle_file_transfer os watch_path (q_path q) (q_port q) (q_direction q) (q_expected_size q) (q_expected_hash q)
    (q_mode q) f.

(** [msg.value(key, default)] with a string default. *)
Definition str_value (j : json) (key default : str) : res str := json_value get_str j key default.

(** [!msg_repo_id.empty() && msg_repo_id != my_repo_id] *)
Definition other_repo (msg_repo_id my_repo_id : str) : bool :=
  negb (str_eqb msg_repo_id []) && negb (str_eqb msg_repo_id my_repo_id).

Definition prepare_file_transfer (msg : json) (my_repo_id : str) : res (option transfer_req) :=
  payload ← json_at msg $"payload";
  msg_repo_id ← str_value payload $"repo_id" [];
  if other_repo msg_repo_id my_repo_id then Ok None
  else
    _ ← str_value payload $"transfer_id" [];
    p ← str_value payload $"path" [];
    let path := normalize_path p in
    _ ← str_value payload $"peer_id" [];
    transfer_port ← json_value (get_number i32) payload $"transfer_port" 0;
    expected_hash ← str_value payload $"expected_hash" [];
    expected_size ← json_value (get_number i64) payload $"expected_size" 0;
    direction ← str_value payload $"direction" $"download";
    mode ← json_value (get_number i32) payload $"mode" 0;
    Ok (Some (TransferReq path transfer_port direction expected_size expected_hash (u32 mode))).

(** [sync_from_peer]: an exception of the removal is caught. *)
Definition sync_from_peer (msg : json) (my_repo_id watch_path : str) (f : fsys) : res fsys :=
  payload ← json_at msg $"payload";
  msg_repo_id ← str_value payload $"repo_id" [];
  if other_repo msg_repo_id my_repo_id then Ok f
  else
    p ← str_value payload $"path" [];
    let path := normalize_path p in
    is_delete ← json_value get_bool payload $"is_delete" false;
    if is_delete : bool then
      let target_path := path_append watch_path path in
      if fs_exists f target_path then
        match fs_remove f target_path with Ok f' => Ok f' | Throw _ => Ok f end
      else Ok f
    else Ok f.

Definition handle_body (msg : json) (my_repo_id watch_path : str) (f : fsys)
  : res (fsys * option transfer_req) :=
  msg_type ← str_value msg $"type" [];
  if str_eqb msg_type $"prepare_file_transfer" then
    r ← prepare_file_transfer msg my_repo_id; Ok (f, r)
  else if str_eqb msg_type $"sync_from_peer" then
    f' ← sync_from_peer msg my_repo_id watch_path f; Ok (f', None)
  else Ok (f, None).

(** The whole handler: an exception is logged. *)
Definition handle_ipc_message (msg : json) (my_repo_id watch_path : str) (f : fsys)
  : fsys * option transfer_req :=
  match handle_body msg my_repo_id watch_path f with
  | Ok r => r
  | Throw _ => (f, None)
  end.

(** ** The IPC worker thread *)

Record daemon := Daemon {
  d_client : C;
  g_shutdown : bool;
  d_fs : fsys;
  d_spawned : list transfer_req
}.

Definition set_client (c : C) (d : daemon) : daemon :=
  Daemon c (g_shutdown d) (d_fs d) (d_spawned d).

Record config := Config {
  repo_id : str;
  watch_path : str;
  ipc_socket : str;
  poll_interval_ms : Z
}.

(** [try { msg = parse(raw); handle_ipc_message(...); } catch (...) {}] *)
Definition handle_raw (cfg : config) (raw : str) (d : daemon) : daemon :=
  match json_parse raw with
  | Some (Ok msg) =>
      let '(f, r) := handle_ipc_message msg (repo_id cfg) (watch_path cfg) (d_fs d) in
      Daemon (d_client d) (g_shutdown d) f (d_spawned d ++ option_list r)
  | _ => d
  end.

(** One round of the worker's loops: a connection attempt when the client is
    not connected, a call of [receive] when it is.  [env] and [os] are what
    the environment answers in this round. *)
Definition worker_step (cfg : config) (env : option str) (os : chan_os) (d : daemon) : daemon :=
  if g_shutdown d then d
  else if chan_connected (d_client d) then
    let '(r, c) := chan_receive (d_client d) in
    match r with
    | Some raw => handle_raw cfg raw (set_client c d)
    | None => set_client c d
    end
  else set_client (chan_connect env os (ipc_socket cfg) (d_client d)).2 d.

Fixpoint worker (cfg : config) (answers : list (option str * chan_os)) (d : daemon) : daemon :=
  match answers with
  | [] => d
  | (env, os) :: rest => worker cfg rest (worker_step cfg env os d)
  end.

(** ** The end of the program *)

Definition signal_handler (d : daemon) : daemon := Daemon (d_client d) true (d_fs d) (d_spawned d).

(** [ipc_client->disconnect()], once the worker has been joined. *)
Definition main_exit (d : daemon) : daemon := set_client (chan_disconnect (d_client d)) d.

(** ** The callback of the watcher *)

(** The clock readings of one call, from [system_clock::now()]. *)
Record clock := Clock { now_s : Z; now_ns : Z; now_ms : Z }.

Definition action_of (t : WatchEventType) : str :=
  match t with
  | Created => $"created"
  | Modified => $"modified"
  | Deleted => $"deleted"
  | Moved => $"moved"
  end.

(** The two tests on the name alone. *)
Definition hidden (p : str) : bool :=
  match p with c :: _ => Ascii.eqb c "."%char | [] => false end || contains $"/." p.

Definition is_tmp (p : str) : bool :=
  (4 <=? zlen p) && str_eqb (drop (length p - 4) p) $".tmp".

(** The early returns before the metadata is read; [path] is normalised. *)
Definition ignored (f : fsys) (cfg : config) (p : str) : bool :=
  str_eqb p [] || hidden p || is_tmp p || fs_is_directory f (path_append (watch_path cfg) p).

(** [size], [hash], [modified_time] and [mode]. *)
Record metadata := Metadata { md_size : Z; md_hash : str; md_mtime : Z; md_mode : Z }.

(** The metadata of a file that exists and was not deleted.  The file system does
    not change during the callback, so that the calls after [fs::exists] find the
    file and none of them throws; a file that cannot be hashed has no hash. *)
Definition read_metadata (ctx_ok : bool) (f : fsys) (cfg : config) (t : WatchEventType) (p : str)
    (now : Z) : metadata :=
  let none := Metadata 0 [] now 0 in
  match t with
  | Deleted => none
  | _ =>
      let abs_path := path_append (watch_path cfg) p in
      match file_at f abs_path with
      | Some x =>
          Metadata (i64 (zlen (f_content x)))
            (match sha256_file ctx_ok f abs_path with Some h => h | None => [] end)
            (Z.quot (f_mtime x) 1000000000) (u32 (f_mode x))
      | None => none
      end
  end.

(** [std::to_string(n)] *)
Definition to_string (n : Z) : str := if n <? 0 then $"-" ++ dec_str (- n) else dec_str n.

Definition payload_json (cfg : config) (t : WatchEventType) (p : str) (md : metadata) : res json :=
  j ← json_set JNull $"repo_id" (JString (repo_id cfg));
  j ← json_set j $"action" (JString (action_of t));
  j ← json_set j $"path" (JString p);
  j ← json_set j $"hash" (JString (md_hash md));
  j ← json_set j $"size" (JInteger (md_size md));
  j ← json_set j $"modified_time" (JInteger (md_mtime md));
  json_set j $"mode" (JUnsigned (md_mode md)).

Definition message_json (cfg : config) (clk : clock) (payload : json) : res json :=
  j ← json_set JNull $"version" (JString $"1.0");
  j ← json_set j $"type" (JString $"file_changed");
  j ← json_set j $"id" (JString ($"msg_cpp_" ++ to_string (now_ns clk)));
  j ← json_set j $"timestamp" (JInteger (now_ms clk));
  j ← json_set j $"source" (JString $"cpp");
  json_set j $"payload" payload.

Definition of_res {A} (r : res A) : ser_result A :=
  match r with Ok a => Done a | Throw e => Thrown e end.

(** The callback: the client after it, or the exception that leaves it. *)
Definition on_event (cfg : config) (ctx_ok : bool) (clk : clock) (f : fsys) (ev : WatchEvent) (c : C)
  : ser_result C :=
  let normPath := normalize_path (we_path ev) in
  if ignored f cfg normPath then Done c
  else
    let md := read_metadata ctx_ok f cfg (we_type ev) normPath (now_s clk) in
    payload ← of_res (payload_json cfg (we_type ev) normPath md);
    message ← of_res (message_json cfg clk payload);
    if chan_connected c then
      text ← json_dump message;
      Done (chan_send text c).2
    else Done c.

(** ** The command line *)

Inductive startup :=
  | Usage                       (* exit status 1, the usage text *)
  | BadWatchPath                (* exit status 1 *)
  | NotADirectory               (* exit status 1 *)
  | Run (cfg : config).

(** [while (i < argc) ...] on the remaining arguments. *)
Fixpoint parse_options (args : list str) (socket : str) (interval : Z) : str * Z :=
  match args with
  | [] => (socket, interval)
  | [a] => (a, interval)
  | a :: ((b :: rest) as tl) =>
      if str_eqb a $"--poll-interval" then
        let p := atoi b in parse_options rest socket (if p <=? 0 then 1000 else p)
      else parse_options tl a interval
  end.

(** [args] is [argv[1..]]; [env_ipc] is [getenv("IPC_SOCKET")]. *)
Definition start_up (args : list str) (env_ipc : option str) (f : fsys) : startup :=
  match args with
  | [] => Usage
  | r :: rest =>
      let '(w, rest) := match rest with [] => ([], []) | w :: rest => (w, rest) end in
      let '(socket, interval) := parse_options rest $"/tmp/p2p_sync.sock" 1000 in
      let socket := match env_ipc with Some s => s | None => socket end in
      if negb (fs_exists f w) then BadWatchPath
      else if negb (fs_is_directory f w) then NotADirectory
      else Run (Config r w socket interval)
  end.
End Daemon.

Arguments daemon : clear implicits.
Arguments Daemon {C}.
Arguments d_client {C}.
Arguments g_shutdown {C}.
Arguments d_fs {C}.
Arguments d_spawned {C}.
