(* ===== verification/DaemonSpec.v ===== *)
(** * Properties of the daemon

    What a message of the coordinator can do, the messages handled by the
    worker thread, and what the watcher's callback sends. *)

From Stdlib Require Import Sorting.Sorted.
From S2P Require Import Prelude Posix StdMap FileSys Sha256 FileTransfer Watcher.
From S2P Require Import JsonNumber JsonValue JsonLexer JsonParser JsonSerializer JsonStrings JsonIntegers.
From S2P Require Import JsonTokens JsonRoundtrip JsonTotal IpcClient IpcInterface WinIpc Daemon.

(** ** Messages of the coordinator *)

(** A message in the format of the coordinator. *)
Definition peer_message (type : str) (payload : list (str * json)) : json :=
  JObject [($"payload", JObject payload); ($"type", JString type)].

Definition delete_payload (repo path : str) : list (str * json) :=
  [($"is_delete", JBool true); ($"path", JString path); ($"repo_id", JString repo)].

(** A member with a string or a number; [value(key, default)] takes the default
    where there is none. *)
Definition text_member (m : list (str * json)) (k default s : str) : Prop :=
  map_find k m = Some (JString s) \/ (map_find k m = None /\ s = default).

Definition number_member (m : list (str * json)) (k : str) (z : Z) : Prop :=
  map_find k m = Some (JUnsigned z) \/ map_find k m = Some (JInteger z) \/ (map_find k m = None /\ z = 0).

(** A message that asks for a transfer of this repository, whatever other
    members it has ([StartDownload] and [StartUpload] of the coordinator). *)
Definition asks_transfer (repo : str) (j : json) (q : transfer_req) : Prop :=
  exists m p msg_repo id peer,
    j = JObject m /\ map_find $"type" m = Some (JString $"prepare_file_transfer") /\ map_find $"payload" m = Some (JObject p) /\
    text_member p $"repo_id" [] msg_repo /\ (msg_repo = [] \/ msg_repo = repo) /\
    text_member p $"transfer_id" [] id /\ text_member p $"peer_id" [] peer /\
    text_member p $"path" [] (q_path q) /\ text_member p $"expected_hash" [] (q_expected_hash q) /\
    text_member p $"direction" $"download" (q_direction q) /\
    number_member p $"transfer_port" (q_port q) /\ number_member p $"expected_size" (q_expected_size q) /\
    number_member p $"mode" (q_mode q).

(** The numbers fit the types of the handler. *)
Definition req_ok (q : transfer_req) : Prop :=
  - 2 ^ 31 <= q_port q < 2 ^ 31 /\ - 2 ^ 63 <= q_expected_size q < 2 ^ 63 /\ 0 <= q_mode q < 2 ^ 32.

Lemma sorted_keys {V} (m : list (str * V)) :
  forallb (fun '(e, e') => str_ltb e.1 e'.1) (zip m (tail m)) = true -> map_sorted m.
Proof.
  unfold map_sorted. induction m as [|e m IH]; intros H; [constructor|].
  destruct m as [|e' m]; [by repeat constructor|]. simpl in H. bool_hyps.
  specialize (IH ltac:(done)). constructor; [done|]. apply Forall_cons. split; [done|].
  apply StronglySorted_inv in IH as [_ IH]. eapply Forall_impl; [exact IH|].
  intros x Hx. unfold key_lt in *. by eapply str_ltb_trans.
Qed.

(** Looks a member of a concrete object up. *)
Ltac read_field :=
  match goal with
  | |- context [str_value ?j ?k ?d] =>
      let v := eval lazy -[repo_id q_path q_port q_direction q_expected_size q_expected_hash q_mode] in (json_value (fun x => Ok x) j k (JString d)) in
      lazymatch v with Ok (JString ?s) => change (str_value j k d) with (@Ok str s) end
  | |- context [json_at ?j ?k] =>
      let v := eval lazy -[repo_id q_path q_port q_direction q_expected_size q_expected_hash q_mode] in (json_at j k) in change (json_at j k) with v
  | |- context [json_value get_bool ?j ?k ?d] =>
      let v := eval lazy -[repo_id q_path q_port q_direction q_expected_size q_expected_hash q_mode] in (json_value get_bool j k d) in change (json_value get_bool j k d) with v
  | |- context [json_value (get_number ?c) ?j ?k ?d] =>
      let v := eval lazy -[repo_id q_path q_port q_direction q_expected_size q_expected_hash q_mode] in (json_value (fun x => Ok x) j k JNull) in
      lazymatch v with Ok (JUnsigned ?z) => change (json_value (get_number c) j k d) with (Ok (c z)) end
  end.

Ltac read_fields := repeat (read_field; cbn [mbind res_bind]).

(** Decides the comparisons of concrete strings. *)
Ltac eval_bool :=
  repeat match goal with
  | |- context [str_eqb ?a ?b] =>
      let v := eval vm_compute in (str_eqb a b) in
      lazymatch v with true => idtac | false => idtac end; change (str_eqb a b) with v
  end; cbv iota.

Section Facts.
Context {E : EVP} {C : Type} {CH : IpcChannel C} {CL : IpcChannelLaws C}.

(** What the text of a message makes the worker do. *)
Lemma handle_raw_text cfg j (d : daemon C) f r :
  json_ok j -> json_utf8 j -> norm j = j ->
  handle_ipc_message j (repo_id cfg) (watch_path cfg) (d_fs d) = (f, r) ->
  handle_raw cfg (text j) d = Daemon (d_client d) (g_shutdown d) f (d_spawned d ++ option_list r).
Proof.
  intros Hok Hu Hn H. unfold handle_raw. rewrite text_parse by done. by rewrite Hn, H.
Qed.

Lemma utf8_lit s : forallb (fun c => ord c <? 0x80) s = true -> utf8 s.
Proof.
  induction s as [|c s IH]; simpl; intros H; [constructor|]. bool_hyps. apply utf8_ascii; [lia|auto].
Qed.

Lemma delete_message_ok repo path :
  utf8 repo -> utf8 path ->
  let j := peer_message $"sync_from_peer" (delete_payload repo path) in
  json_ok j /\ json_utf8 j /\ norm j = j.
Proof.
  intros Hr Hp j. split_and!; [| |done..].
  - apply json_ok_object. split; [by apply sorted_keys|]. repeat (apply Forall_cons; split); [|done|by apply Forall_nil].
    apply json_ok_object. split; [by apply sorted_keys|].
    repeat (apply Forall_cons; split); [done..|by apply Forall_nil].
  - simpl. split_and!; try done; by apply utf8_lit.
Qed.

(** The removal of [sync_from_peer] in the file system. *)
Lemma fs_remove_nodes f p f' :
  fs_remove f p = Ok f' -> f' = f \/ exists l, resolve f p = Some l /\ f' = set_nodes (delete l (fs_nodes f)) f.
Proof.
  unfold fs_remove. destruct (resolve f p) as [l|]; [|case_match; [done|]; intros [= <-]; by left].
  intros H. repeat case_match; simplify_eq; try (by left); right; by exists l.
Qed.

(** ** The worker *)

Lemma handle_raw_client cfg raw (d : daemon C) : d_client (handle_raw cfg raw d) = d_client d /\ g_shutdown (handle_raw cfg raw d) = g_shutdown d.
Proof. unfold handle_raw. repeat case_match; done. Qed.

Lemma handle_raw_set_client cfg raw c (d : daemon C) :
  handle_raw cfg raw (set_client c d) = set_client c (handle_raw cfg raw d).
Proof. unfold handle_raw. simpl. repeat case_match; done. Qed.

Lemma handle_all_set_client cfg raws c (d : daemon C) :
  fold_left (fun d raw => handle_raw cfg raw d) raws (set_client c d) =
  set_client c (fold_left (fun d raw => handle_raw cfg raw d) raws d).
Proof.
  revert d. induction raws as [|r raws IH]; intros d; [done|]. cbn [fold_left]. by rewrite handle_raw_set_client, IH.
Qed.

Lemma worker_frames cfg raws answers (d : daemon C) t :
  g_shutdown d = false -> chan_connected (d_client d) = true -> Forall sendable raws ->
  toks (chan_rx (d_client d)) = (TByte <$> concat (frame <$> raws)) ++ t -> length answers = length raws ->
  exists c, worker cfg answers d = set_client c (fold_left (fun d raw => handle_raw cfg raw d) raws d) /\
    chan_connected c = true /\ toks (chan_rx c) = t.
Proof.
  revert answers d. induction raws as [|m raws IH]; intros answers d Hsd Hc Hms Ht Hlen.
  - destruct answers; [|done]. exists (d_client d). split; [|done]. by destruct d.
  - destruct answers as [|[env os] answers]; [done|]. apply Forall_cons in Hms as [Hm Hms].
    rewrite fmap_cons in Ht. simpl in Ht. rewrite fmap_app, <- app_assoc in Ht.
    destruct (chan_receive_frame m (d_client d) _ Hc Hm Ht) as (c & Er & Hc1 & Hs). cbn [worker fold_left].
    unfold worker_step at 1. rewrite Hsd, Hc, Er.
    destruct (IH answers (handle_raw cfg m (set_client c d))) as (c' & Ew & Hc' & Hs').
    + by rewrite (proj2 (handle_raw_client _ _ _)).
    + by rewrite (proj1 (handle_raw_client _ _ _)).
    + done.
    + by rewrite (proj1 (handle_raw_client _ _ _)).
    + simpl in Hlen. lia.
    + exists c'. split; [|done]. by rewrite Ew, handle_raw_set_client, handle_all_set_client.
Qed.
End Facts.

(** ** The effects of a message *)

Section Effects.
Context {E : EVP} {C : Type} {CH : IpcChannel C} {CL : IpcChannelLaws C}.

Lemma other_repo_false repo my_repo : other_repo repo my_repo = false -> repo = [] \/ repo = my_repo.
Proof.
  intros Eo. unfold other_repo, str_eqb in Eo. destruct (decide (repo = [])); [by left|].
  destruct (decide (repo = my_repo)); [by right|]. exfalso.
  rewrite (bool_decide_false (repo = [])), (bool_decide_false (repo = my_repo)) in Eo by done. discriminate.
Qed.

Lemma other_repo_own repo my_repo : repo = [] \/ repo = my_repo -> other_repo repo my_repo = false.
Proof.
  unfold other_repo, str_eqb. intros [->| ->]; [done|]. rewrite (bool_decide_true (my_repo = my_repo)) by done. apply andb_false_r.
Qed.

Lemma delete_effect msg my_repo watch f f' r :
  handle_ipc_message msg my_repo watch f = (f', r) -> f' <> f ->
  exists payload repo p l,
    str_value msg $"type" [] = Ok $"sync_from_peer" /\ json_at msg $"payload" = Ok payload /\
    str_value payload $"repo_id" [] = Ok repo /\ (repo = [] \/ repo = my_repo) /\
    str_value payload $"path" [] = Ok p /\ json_value get_bool payload $"is_delete" false = Ok true /\
    resolve f (path_append watch (normalize_path p)) = Some l /\
    f' = set_nodes (delete l (fs_nodes f)) f /\ r = None /\
    (forall lw, confined (normalize_path p) -> resolve f watch = Some lw -> lw `prefix_of` l).
Proof.
  intros H Hne. unfold handle_ipc_message, handle_body in H.
  destruct (str_value msg $"type" []) as [ty|] eqn:Ety; [|simplify_eq/=]. cbn [mbind res_bind] in H.
  destruct (str_eqb ty $"prepare_file_transfer") eqn:E1.
  { destruct (prepare_file_transfer msg my_repo); simplify_eq/=. }
  destruct (str_eqb ty $"sync_from_peer") eqn:E2; [|simplify_eq/=].
  unfold str_eqb in E2. bool_hyps. subst ty. unfold sync_from_peer in H.
  destruct (json_at msg $"payload") as [payload|] eqn:Epay; [|simplify_eq/=]. cbn [mbind res_bind] in H.
  destruct (str_value payload $"repo_id" []) as [repo|] eqn:Erepo; [|simplify_eq/=]. cbn [mbind res_bind] in H.
  destruct (other_repo repo my_repo) eqn:Eo; [simplify_eq/=|].
  destruct (str_value payload $"path" []) as [p|] eqn:Ep; [|simplify_eq/=]. cbn [mbind res_bind] in H.
  destruct (json_value get_bool payload $"is_delete" false) as [b|] eqn:Ed; [|simplify_eq/=]. cbn [mbind res_bind] in H.
  destruct b; [|simplify_eq/=]. destruct (fs_exists f _) eqn:Ex; [|simplify_eq/=].
  destruct (fs_remove f _) as [f1|] eqn:Er; simplify_eq/=.
  destruct (fs_remove_nodes _ _ _ Er) as [?|(l & Hl & ->)]; [done|].
  exists payload, repo, p, l. split_and!; try done; [by apply other_repo_false|].
  intros lw Hc Hw. by eapply resolve_inside.
Qed.

Lemma transfer_effect msg my_repo watch f f' q :
  handle_ipc_message msg my_repo watch f = (f', Some q) ->
  f' = f /\ exists payload repo p,
    str_value msg $"type" [] = Ok $"prepare_file_transfer" /\ json_at msg $"payload" = Ok payload /\
    str_value payload $"repo_id" [] = Ok repo /\ (repo = [] \/ repo = my_repo) /\
    str_value payload $"path" [] = Ok p /\ q_path q = normalize_path p.
Proof.
  intros H. unfold handle_ipc_message, handle_body in H.
  destruct (str_value msg $"type" []) as [ty|] eqn:Ety; [|simplify_eq/=]. cbn [mbind res_bind] in H.
  destruct (str_eqb ty $"prepare_file_transfer") eqn:E1.
  2: { destruct (str_eqb ty $"sync_from_peer"); [destruct (sync_from_peer msg my_repo watch f); by simplify_eq/=|by simplify_eq/=]. }
  unfold str_eqb in E1. bool_hyps. subst ty.
  destruct (prepare_file_transfer msg my_repo) as [o|] eqn:Eprep; [|by simplify_eq/=]. injection H as <- ->. split; [done|].
  unfold prepare_file_transfer in Eprep.
  destruct (json_at msg $"payload") as [payload|] eqn:Epay; [|done]. cbn [mbind res_bind] in Eprep.
  destruct (str_value payload $"repo_id" []) as [repo|] eqn:Erepo; [|done]. cbn [mbind res_bind] in Eprep.
  destruct (other_repo repo my_repo) eqn:Eo; [done|].
  destruct (str_value payload $"transfer_id" []); [|done]. cbn [mbind res_bind] in Eprep.
  destruct (str_value payload $"path" []) as [p|] eqn:Ep; [|done]. cbn [mbind res_bind] in Eprep. cbv zeta in Eprep.
  repeat match type of Eprep with mbind _ ?x = _ => destruct x; cbn [mbind res_bind] in Eprep; [|done] end.
  injection Eprep as <-. exists payload, repo, p. split_and!; try done. by apply other_repo_false.
Qed.

(** Reading members. *)
Lemma str_value_member m k d s : text_member m k d s -> str_value (JObject m) k d = Ok s.
Proof. unfold str_value. intros [H|[H ->]]; simpl; by rewrite H. Qed.

Lemma number_value_member conv m k z : number_member m k z -> conv 0 = 0 -> json_value (get_number conv) (JObject m) k 0 = Ok (conv z).
Proof. intros [H|[H|[H ->]]] H0; simpl; rewrite H; [done|done|by rewrite H0]. Qed.

(** A request, however its text is written, starts its transfer. *)
Lemma transfer_asked cfg (d : daemon C) raw j q :
  json_parse raw = Some (Ok j) -> asks_transfer (repo_id cfg) j q -> req_ok q ->
  handle_raw cfg raw d =
  Daemon (d_client d) (g_shutdown d) (d_fs d)
    (d_spawned d ++ [TransferReq (normalize_path (q_path q)) (q_port q) (q_direction q) (q_expected_size q)
                       (q_expected_hash q) (q_mode q)]).
Proof.
  intros Hp (m & p & msg_repo & id & peer & -> & Hty & Hpay & Hr & Hown & Hid & Hpe & Hpath & Hh & Hd & Hport & Hsize & Hmode) (Bp & Bs & Bm).
  assert (Eh : handle_ipc_message (JObject m) (repo_id cfg) (watch_path cfg) (d_fs d) =
    (d_fs d, Some (TransferReq (normalize_path (q_path q)) (q_port q) (q_direction q) (q_expected_size q) (q_expected_hash q) (q_mode q)))).
  { unfold handle_ipc_message, handle_body. rewrite (str_value_member m $"type" [] $"prepare_file_transfer") by by left. cbn [mbind res_bind].
    unfold str_eqb at 1. rewrite bool_decide_true by done. unfold prepare_file_transfer. unfold json_at. rewrite Hpay. cbn [mbind res_bind].
    rewrite (str_value_member p _ _ _ Hr). cbn [mbind res_bind]. rewrite other_repo_own by done.
    rewrite (str_value_member p _ _ _ Hid), (str_value_member p _ _ _ Hpath), (str_value_member p _ _ _ Hpe). cbn [mbind res_bind].
    rewrite (number_value_member i32 p _ _ Hport), (str_value_member p _ _ _ Hh) by done. cbn [mbind res_bind].
    rewrite (number_value_member i64 p _ _ Hsize), (str_value_member p _ _ _ Hd) by done. cbn [mbind res_bind].
    rewrite (number_value_member i32 p _ _ Hmode) by done. cbn [mbind res_bind].
    rewrite i32_small, i64_small by done. do 4 f_equal. unfold u32, i32. Z.div_mod_to_equations. lia. }
  unfold handle_raw. by rewrite Hp, Eh.
Qed.
End Effects.

(** ** Theorems: the coordinator's messages *)

Section MessageTheorems.
Context {E : EVP} {C : Type} {CH : IpcChannel C} {CL : IpcChannelLaws C}.

(** C16: what a message of the coordinator can do, to the file system in the handler itself and by the transfer it
    starts. If the handler changes the file system it removes one node: the one named by the normalised path of a
    [sync_from_peer] delete addressed to this repository or to none; with a path that is relative and free of dot-dot
    components the node is inside the watched directory. If it starts a transfer, the message is a
    [prepare_file_transfer] addressed to this repository or to none, the transfer is of its normalised path, and the
    handler leaves the file system as it is. *)
Theorem handle_message_effect msg my_repo watch f f' r :
  handle_ipc_message msg my_repo watch f = (f', r) ->
  (f' <> f ->
   exists payload repo p l,
     str_value msg $"type" [] = Ok $"sync_from_peer" /\ json_at msg $"payload" = Ok payload /\
     str_value payload $"repo_id" [] = Ok repo /\ (repo = [] \/ repo = my_repo) /\
     str_value payload $"path" [] = Ok p /\ json_value get_bool payload $"is_delete" false = Ok true /\
     resolve f (path_append watch (normalize_path p)) = Some l /\
     f' = set_nodes (delete l (fs_nodes f)) f /\ r = None /\
     (forall lw, confined (normalize_path p) -> resolve f watch = Some lw -> lw `prefix_of` l)) /\
  (forall q, r = Some q ->
   f' = f /\ exists payload repo p,
     str_value msg $"type" [] = Ok $"prepare_file_transfer" /\ json_at msg $"payload" = Ok payload /\
     str_value payload $"repo_id" [] = Ok repo /\ (repo = [] \/ repo = my_repo) /\
     str_value payload $"path" [] = Ok p /\ q_path q = normalize_path p).
Proof.
  intros H. split; [intros Hne; by eapply delete_effect|intros q ->; by eapply transfer_effect].
Qed.

(** A message for another repository does nothing: neither the file system nor the transfers change. *)
Theorem other_repo_ignored msg payload repo my_repo watch f :
  json_at msg $"payload" = Ok payload -> str_value payload $"repo_id" [] = Ok repo ->
  repo <> [] -> repo <> my_repo -> handle_ipc_message msg my_repo watch f = (f, None).
Proof.
  intros Hp Hr Hne Hmy. unfold handle_ipc_message, handle_body, prepare_file_transfer, sync_from_peer.
  rewrite Hp. cbn [mbind res_bind]. rewrite Hr. cbn [mbind res_bind].
  assert (other_repo repo my_repo = true) as ->.
  { unfold other_repo, str_eqb. by rewrite (bool_decide_false (repo = [])), (bool_decide_false (repo = my_repo)) by done. }
  destruct (str_value msg $"type" []) as [ty|]; [|done]. cbn [mbind res_bind]. destruct (str_eqb ty _); [done|]. by destruct (str_eqb ty _).
Qed.

(** The text of a delete message for this repository removes the regular file its path names, once the
    backslashes are slashes, and nothing else; the socket and the transfers are as before. *)
Theorem delete_message_removes cfg (d : daemon C) path l x :
  utf8 (repo_id cfg) -> utf8 path ->
  resolve (d_fs d) (path_append (watch_path cfg) (normalize_path path)) = Some l ->
  fs_nodes (d_fs d) !! l = Some (NFile x) -> l <> [] ->
  handle_raw cfg (text (peer_message $"sync_from_peer" (delete_payload (repo_id cfg) path))) d =
  Daemon (d_client d) (g_shutdown d) (set_nodes (delete l (fs_nodes (d_fs d))) (d_fs d)) (d_spawned d).
Proof.
  intros Hr Hp Hl Hx Hne. destruct (delete_message_ok _ _ Hr Hp) as (Hok & Hu & Hn).
  rewrite (handle_raw_text cfg _ d (set_nodes (delete l (fs_nodes (d_fs d))) (d_fs d)) None Hok Hu Hn);
    [simpl; by rewrite app_nil_r|].
  unfold handle_ipc_message, handle_body.
  assert (Hnode : node_at (d_fs d) (path_append (watch_path cfg) (normalize_path path)) = Some (NFile x)).
  { unfold node_at. rewrite Hl. simpl. by destruct l. }
  assert (Hno : other_repo (repo_id cfg) (repo_id cfg) = false).
  { unfold other_repo, str_eqb. by rewrite (bool_decide_true (repo_id cfg = repo_id cfg)), andb_false_r. }
  read_field. cbn [mbind res_bind]. eval_bool. unfold sync_from_peer. read_fields. rewrite Hno. read_fields. cbv iota.
  unfold fs_exists, fs_remove. by rewrite Hnode, Hl.
Qed.

(** C15: a [prepare_file_transfer] message starts one transfer. For every text that parses to an object with this type
    and a payload for this repository or for none, in any format and with any other members, the worker starts exactly
    one transfer: of the path the payload carries, backslashes turned into slashes, with its port, direction, size,
    hash and mode, or the defaults (0, download, the empty hash) where one is missing; this holds for ports of 32 bits
    and sizes of 64 bits with sign, and modes of 32 bits without. Nothing else changes. *)
Theorem transfer_message_starts cfg (d : daemon C) raw j q :
  json_parse raw = Some (Ok j) -> asks_transfer (repo_id cfg) j q -> req_ok q ->
  handle_raw cfg raw d =
  Daemon (d_client d) (g_shutdown d) (d_fs d)
    (d_spawned d ++ [TransferReq (normalize_path (q_path q)) (q_port q) (q_direction q) (q_expected_size q)
                       (q_expected_hash q) (q_mode q)]).
Proof. exact (transfer_asked cfg d raw j q). Qed.

End MessageTheorems.

(** ** Which events are ignored *)

Definition dotted (w : str) : bool := match w with c :: _ => Ascii.eqb c "."%char | [] => false end.

Lemma split_slash_dotted p :
  existsb dotted (tail (split_slash p)) = contains $"/." p /\
  dotted (default [] (head (split_slash p))) = dotted p.
Proof.
  induction p as [|c p [IH1 IH2]]; [done|]. pose proof (split_slash_nonempty p) as Hne.
  cbn [split_slash contains]. destruct (Ascii.eqb_spec c slash) as [-> |Hc].
  - split; [|done]. destruct (split_slash p) as [|w ws]; [done|]. cbn [tail existsb] in *.
    change (dotted w = dotted p) in IH2. rewrite IH1, IH2. f_equal. destruct p as [|d p]; [done|].
    change (Ascii.eqb d "." = Ascii.eqb "/" slash && (Ascii.eqb "." d && true)).
    change (Ascii.eqb "/" slash) with true. by rewrite andb_true_r, Ascii.eqb_sym.
  - destruct (split_slash p) as [|w ws]; [done|]. cbn [tail] in *. split; [|done].
    change (starts_with $"/." (c :: p)) with (Ascii.eqb "/" c && starts_with $"." p).
    destruct (Ascii.eqb_spec "/" c) as [Hc' |_]; [by destruct Hc|done].
Qed.

Lemma hidden_components p : hidden p = existsb dotted (split_slash p).
Proof.
  destruct (split_slash_dotted p) as [H1 H2]. pose proof (split_slash_nonempty p).
  destruct (split_slash p) as [|w ws]; [done|]. simpl in *. by rewrite H1, H2.
Qed.

Lemma is_tmp_iff p : is_tmp p = true <-> exists q, p = tmp_of q.
Proof.
  unfold is_tmp, tmp_of, str_eqb, zlen. split.
  - intros H. bool_hyps. exists (take (length p - 4) p).
    match goal with H : drop _ _ = _ |- _ => rewrite <- H end. by rewrite take_drop.
  - intros [q ->]. rewrite length_app. simpl.
    replace (length q + 4 - 4)%nat with (length q) by lia. rewrite drop_app_length.
    rewrite (proj2 (Z.leb_le _ _)) by lia. by apply bool_decide_true.
Qed.

Section CallbackFacts.
Context {E : EVP} {C : Type} {CH : IpcChannel C}.

Definition int64 (z : Z) : Prop := - 2 ^ 63 <= z < 2 ^ 63.

(** The clock and the time stamps are 64-bit counts. *)
Definition clock_ok (clk : clock) : Prop := int64 (now_s clk) /\ int64 (now_ns clk) /\ int64 (now_ms clk).

(** The message built for an event. *)
Definition file_payload (cfg : config) (t : WatchEventType) (p : str) (md : metadata) : json :=
  JObject [($"action", JString (action_of t)); ($"hash", JString (md_hash md)); ($"mode", JUnsigned (md_mode md));
           ($"modified_time", JInteger (md_mtime md)); ($"path", JString p);
           ($"repo_id", JString (repo_id cfg)); ($"size", JInteger (md_size md))].

Definition file_message (cfg : config) (clk : clock) (payload : json) : json :=
  JObject [($"id", JString ($"msg_cpp_" ++ to_string (now_ns clk))); ($"payload", payload);
           ($"source", JString $"cpp"); ($"timestamp", JInteger (now_ms clk));
           ($"type", JString $"file_changed"); ($"version", JString $"1.0")].

Lemma payload_json_ok cfg t p md : payload_json cfg t p md = Ok (file_payload cfg t p md).
Proof. reflexivity. Qed.

Lemma message_json_ok cfg clk payload : message_json cfg clk payload = Ok (file_message cfg clk payload).
Proof. reflexivity. Qed.

Lemma on_event_message cfg ctx clk f ev (c : C) :
  let p := normalize_path (we_path ev) in
  ignored f cfg p = false -> chan_connected c = true ->
  on_event cfg ctx clk f ev c =
  (t ← json_dump (file_message cfg clk
     (file_payload cfg (we_type ev) p (read_metadata ctx f cfg (we_type ev) p (now_s clk))));
   Done (chan_send t c).2).
Proof.
  intros p Hi Hc. unfold on_event. fold p. rewrite Hi, payload_json_ok. cbn [of_res mbind ser_bind].
  rewrite message_json_ok. cbn [of_res mbind ser_bind]. by rewrite Hc.
Qed.

Lemma utf8_digits s : all_digits s -> utf8 s.
Proof. induction 1 as [|c s Hc _ IH]; [constructor|]. apply utf8_ascii; [lia|done]. Qed.

Lemma utf8_to_string n : int64 n -> utf8 (to_string n).
Proof.
  unfold int64, to_string. intros Hn. destruct (Z.ltb_spec n 0).
  - apply (utf8_app $"-"); [by apply utf8_lit|]. apply utf8_digits, dec_str_digits. lia.
  - apply utf8_digits, dec_str_digits. lia.
Qed.

Lemma utf8_to_hex d : utf8 (to_hex d).
Proof.
  induction d as [|c d IH]; [constructor|]. rewrite to_hex_cons. apply utf8_app; [|done]. apply utf8_lit.
  revert c. apply (bytes_forallb (fun c => forallb (fun c => ord c <? 0x80) (pad_zero 2 (hex_int (ord c))))).
  by vm_compute.
Qed.

Lemma utf8_metadata ctx f cfg t p now : utf8 (md_hash (read_metadata ctx f cfg t p now)).
Proof.
  unfold read_metadata, sha256_file. repeat case_match; simpl; try constructor; simplify_eq; apply utf8_to_hex.
Qed.

(** The message can be written exactly when the two strings from outside are
    UTF-8. *)
Lemma file_message_utf8 ctx f cfg clk t p now :
  clock_ok clk ->
  json_utf8 (file_message cfg clk (file_payload cfg t p (read_metadata ctx f cfg t p now))) <->
  utf8 p /\ utf8 (repo_id cfg).
Proof.
  intros (_ & Hns & _). unfold file_message, file_payload. cbn [json_utf8]. pose proof (utf8_metadata ctx f cfg t p now).
  assert (utf8 (action_of t)) by (destruct t; by apply utf8_lit).
  assert (utf8 ($"msg_cpp_" ++ to_string (now_ns clk)))
    by (apply utf8_app; [by apply utf8_lit|by apply utf8_to_string]).
  assert (Hlit : forall s : str, forallb (fun c => ord c <? 0x80) s = true -> utf8 s <-> True)
    by (intros; split; [done|intros; by apply utf8_lit]).
  split; [intros; intuition done|]. intros [? ?]. split_and!; try done; by apply utf8_lit.
Qed.

Definition metadata_ok (md : metadata) : Prop :=
  int64 (md_size md) /\ int64 (md_mtime md) /\ 0 <= md_mode md < 2 ^ 32.

Lemma file_message_ok cfg clk t p md :
  clock_ok clk -> metadata_ok md -> json_ok (file_message cfg clk (file_payload cfg t p md)).
Proof.
  intros (_ & _ & Hms) (Hs & Hm & Hmode). unfold int64 in *. apply json_ok_object. split; [by apply sorted_keys|].
  repeat (apply Forall_cons; split); first [by apply Forall_nil|done|by simpl; lia|idtac].
  apply json_ok_object. split; [by apply sorted_keys|].
  repeat (apply Forall_cons; split); first [by apply Forall_nil|done|simpl; lia].
Qed.

(** A number of the payload as the receiver reads it. *)
Lemma get_number_norm conv z : get_number conv (norm (JInteger z)) = Ok (conv z).
Proof. simpl. by destruct (0 <=? z). Qed.

Lemma payload_numbers cfg t p md conv d :
  json_value (get_number conv) (norm (file_payload cfg t p md)) $"size" d = Ok (conv (md_size md)) /\
  json_value (get_number conv) (norm (file_payload cfg t p md)) $"modified_time" d = Ok (conv (md_mtime md)) /\
  json_value (get_number conv) (norm (file_payload cfg t p md)) $"mode" d = Ok (conv (md_mode md)).
Proof.
  split_and!; [rewrite <- (get_number_norm conv (md_size md))|rewrite <- (get_number_norm conv (md_mtime md))|]; reflexivity.
Qed.

Lemma read_metadata_file f cfg t p now x :
  t <> Deleted -> file_at f (path_append (watch_path cfg) p) = Some x -> zlen (f_content x) < 2 ^ 63 ->
  int64 (f_mtime x) -> 0 <= f_mode x < 2 ^ 32 -> EVPLaws E ->
  read_metadata true f cfg t p now =
  Metadata (zlen (f_content x)) (sha256 true (f_content x)) (Z.quot (f_mtime x) 1000000000) (f_mode x).
Proof.
  intros Ht Hx Hl _ Hm L. unfold read_metadata. rewrite Hx. pose proof (zlen_nonneg (f_content x)).
  rewrite (sha256_file_whole f _ (f_content x)).
  - rewrite i64_small, u32_small by lia. by destruct t.
  - unfold file_at in Hx. unfold ifstream_open. by repeat case_match; simplify_eq.
Qed.
End CallbackFacts.

Lemma parse_options_pos n rest s i : (length rest <= n)%nat -> 0 < i -> 0 < (parse_options rest s i).2.
Proof.
  revert rest s i. induction n as [|n IH]; intros rest s i Hn Hi; (destruct rest as [|a [|b rest]]; [done|done|]);
    simpl in Hn; [lia|].
  change (parse_options (a :: b :: rest) s i) with
    (if str_eqb a $"--poll-interval" then parse_options rest s (if atoi b <=? 0 then 1000 else atoi b)
     else parse_options (b :: rest) a i).
  destruct (str_eqb a _); apply IH; simpl; try lia. destruct (Z.leb_spec (atoi b) 0); lia.
Qed.

(** ** Theorems: the watcher's callback *)

Section CallbackTheorems.
Context {E : EVP} {L : EVPLaws E} {C : Type} {CH : IpcChannel C} {CL : IpcChannelLaws C}.

Lemma on_event_reports cfg clk f ev (c : C) x c' :
  let p := normalize_path (we_path ev) in
  clock_ok clk -> utf8 p -> utf8 (repo_id cfg) -> chan_connected c = true -> ignored f cfg p = false ->
  we_type ev <> Deleted -> file_at f (path_append (watch_path cfg) p) = Some x ->
  zlen (f_content x) < 2 ^ 63 -> int64 (f_mtime x) -> 0 <= f_mode x < 2 ^ 32 ->
  on_event cfg true clk f ev c = Done c' ->
  exists t j payload,
    c' = (chan_send t c).2 /\ ((chan_send t c).1 = true -> w_sent (chan_tx c') = w_sent (chan_tx c) ++ frame t) /\
    json_parse t = Some (Ok j) /\ str_value j $"type" [] = Ok $"file_changed" /\ json_at j $"payload" = Ok payload /\
    str_value payload $"path" [] = Ok p /\ str_value payload $"repo_id" [] = Ok (repo_id cfg) /\
    str_value payload $"action" [] = Ok (action_of (we_type ev)) /\
    str_value payload $"hash" [] = Ok (sha256 true (f_content x)) /\
    json_value (get_number i64) payload $"size" 0 = Ok (zlen (f_content x)) /\
    json_value (get_number i64) payload $"modified_time" 0 = Ok (Z.quot (f_mtime x) 1000000000) /\
    json_value (get_number u32) payload $"mode" 0 = Ok (f_mode x).
Proof.
  intros p Hclk Hu Hr Hc Hi Ht Hx Hl Hm Hmode Hev.
  rewrite (on_event_message cfg true clk f ev c Hi Hc) in Hev. fold p in Hev.
  pose proof (file_message_utf8 true f cfg clk (we_type ev) p (now_s clk) Hclk) as Hutf.
  rewrite (read_metadata_file f cfg (we_type ev) p (now_s clk) x Ht Hx Hl Hm Hmode L) in *.
  set (md := Metadata _ _ _ _) in *. pose proof (zlen_nonneg (f_content x)).
  assert (Hmd : metadata_ok md).
  { unfold metadata_ok, md, int64 in *. simpl. split_and!; try lia; Z.to_euclidean_division_equations; lia. }
  destruct (json_dump_text (file_message cfg clk (file_payload cfg (we_type ev) p md))) as [[Hju Ed]|[Hno _]].
  2: { exfalso. apply Hno, Hutf. exact (conj Hu Hr). }
  rewrite Ed in Hev. cbn [mbind ser_bind] in Hev. injection Hev as <-.
  exists (text (file_message cfg clk (file_payload cfg (we_type ev) p md))),
    (norm (file_message cfg clk (file_payload cfg (we_type ev) p md))), (norm (file_payload cfg (we_type ev) p md)).
  destruct (payload_numbers cfg (we_type ev) p md i64 0) as (-> & -> & _).
  destruct (payload_numbers cfg (we_type ev) p md u32 0) as (_ & _ & ->). clear Ed.
  pose proof Hmd as (Hsz & Hmt & Hmo).
  rewrite !i64_small, u32_small by done.
  split_and!; try reflexivity.
  - intros Hs. destruct (chan_send _ c) as [ok c1] eqn:Es. simpl in *. subst ok. by apply chan_send_frame in Es.
  - apply text_parse; [apply file_message_ok; assumption|exact Hju].
Qed.

(** C6: a created or changed file is reported with its true metadata. For an event, other than a deletion, on a regular
    file whose name is not ignored (empty, hidden or ending in .tmp), with a connected client, a working digest context,
    and a path and repository id in UTF-8, when the callback returns it has made one call of [send], which on success
    puts one frame on the wire; the receiver that parses its message finds the normalised path, the repository, the
    action, the size of the file, the SHA-256 of its content, its modification time in seconds and its permission bits.
    The clock and the size, time and mode of the file are in the range of their types. *)
Theorem callback_reports_file cfg clk f ev (c : C) x c' :
  let p := normalize_path (we_path ev) in
  clock_ok clk -> utf8 p -> utf8 (repo_id cfg) -> chan_connected c = true -> ignored f cfg p = false ->
  we_type ev <> Deleted -> file_at f (path_append (watch_path cfg) p) = Some x ->
  zlen (f_content x) < 2 ^ 63 -> int64 (f_mtime x) -> 0 <= f_mode x < 2 ^ 32 ->
  on_event cfg true clk f ev c = Done c' ->
  exists t j payload,
    c' = (chan_send t c).2 /\ ((chan_send t c).1 = true -> w_sent (chan_tx c') = w_sent (chan_tx c) ++ frame t) /\
    json_parse t = Some (Ok j) /\ str_value j $"type" [] = Ok $"file_changed" /\ json_at j $"payload" = Ok payload /\
    str_value payload $"path" [] = Ok p /\ str_value payload $"repo_id" [] = Ok (repo_id cfg) /\
    str_value payload $"action" [] = Ok (action_of (we_type ev)) /\
    str_value payload $"hash" [] = Ok (sha256 true (f_content x)) /\
    json_value (get_number i64) payload $"size" 0 = Ok (zlen (f_content x)) /\
    json_value (get_number i64) payload $"modified_time" 0 = Ok (Z.quot (f_mtime x) 1000000000) /\
    json_value (get_number u32) payload $"mode" 0 = Ok (f_mode x).
Proof. exact (on_event_reports cfg clk f ev c x c'). Qed.

(** The callback reports nothing for names with a component that starts with a dot, for the temporary files of
    transfers, and for directories. *)
Theorem callback_silent cfg ctx clk f ev (c : C) :
  let p := normalize_path (we_path ev) in
  p = [] \/ (exists w, w ∈ split_slash p /\ head w = Some "."%char) \/ (exists q, p = tmp_of q) \/
  fs_is_directory f (path_append (watch_path cfg) p) = true ->
  on_event cfg ctx clk f ev c = Done c.
Proof.
  intros p Hp. unfold on_event. fold p.
  assert (ignored f cfg p = true) as ->; [|done]. unfold ignored.
  destruct Hp as [Hp|[(w & Hw & Hd)|[[q Hq]|Hp]]].
  - by rewrite Hp.
  - assert (hidden p = true) as ->; [|by rewrite orb_true_r]. rewrite hidden_components.
    apply existsb_exists. exists w. split; [by apply list_elem_of_In|]. destruct w; simpl in *; by simplify_eq.
  - assert (is_tmp p = true) as ->; [by apply is_tmp_iff; exists q|]. by rewrite orb_true_r.
  - by rewrite Hp, orb_true_r.
Qed.

(** C40: a file name (or repository id) that is not UTF-8 makes the callback throw: for an event that is not ignored,
    on a connected client, [message.dump()] throws [type_error] 316 out of the callback exactly when the
    path or the repository id is not well-formed UTF-8. *)
Theorem callback_throws_iff_not_utf8 cfg ctx clk f ev (c : C) :
  let p := normalize_path (we_path ev) in
  clock_ok clk -> chan_connected c = true -> ignored f cfg p = false ->
  (utf8 p /\ utf8 (repo_id cfg) /\ exists c', on_event cfg ctx clk f ev c = Done c') \/
  (~ (utf8 p /\ utf8 (repo_id cfg)) /\ on_event cfg ctx clk f ev c = Thrown (type_error 316)).
Proof.
  intros p Hclk Hc Hi. rewrite (on_event_message cfg ctx clk f ev c Hi Hc). fold p.
  pose proof (file_message_utf8 ctx f cfg clk (we_type ev) p (now_s clk) Hclk) as Hutf.
  destruct (json_dump_text (file_message cfg clk (file_payload cfg (we_type ev) p
    (read_metadata ctx f cfg (we_type ev) p (now_s clk))))) as [[Hu ->]|[Hu ->]]; cbn [mbind ser_bind].
  - left. apply Hutf in Hu as [? ?]. split_and!; [done..|]. by eexists.
  - right. split; [|done]. intros H. by apply Hu, Hutf.
Qed.

(** A daemon that starts watches an existing directory and polls with a positive interval. *)
Theorem start_up_ok args env f cfg :
  start_up args env f = Run cfg ->
  fs_is_directory f (watch_path cfg) = true /\ 0 < poll_interval_ms cfg /\
  (forall s, env = Some s -> ipc_socket cfg = s) /\ head args = Some (repo_id cfg).
Proof.
  unfold start_up. destruct args as [|r rest]; [done|].
  destruct (match rest with [] => ([], []) | w :: rest => (w, rest) end) as [w rest'].
  pose proof (parse_options_pos (length rest') rest' $"/tmp/p2p_sync.sock" 1000 ltac:(lia) ltac:(lia)) as Hi.
  destruct (parse_options rest' _ _) as [socket interval]. simpl in Hi.
  destruct (fs_exists f w); [|done]. destruct (fs_is_directory f w) eqn:Ed; [|done]. simpl.
  intros [= <-]. simpl. split_and!; [done|lia|by intros s ->|done].
Qed.
End CallbackTheorems.

(** ** Witnesses *)

Module DaemonDemo.
#[local] Existing Instances RealSha256.evp RealSha256.evp_laws.

Definition cfg : config := Config $"alpha" $"/w" $"/tmp/s" 1000.

Definition fs1 : fsys :=
  FS {[ [ $"w" ] := NDir 493; [ $"w"; $"d" ] := NDir 493;
        [ $"w"; $"d"; $"a.txt" ] := NFile (File $"abc" 420 1700000000000000000) ]} [] 9.

(** A connected client on which the coordinator's bytes arrive in pieces. *)
Definition conn (s : list read_ev) : client := Client 3 {[3]} false None 3 s (WSock (replicate 800 (WAccept 1)) []).

Definition d1 (s : list read_ev) : daemon client := Daemon (conn s) false fs1 [].

Definition clk : clock := Clock 1700000000 1700000000000000000 1700000000000.

Definition delete_msg (repo path : str) : json := peer_message $"sync_from_peer" (delete_payload repo path).

Definition removed_fs : fsys := set_nodes (delete [ $"w"; $"d"; $"a.txt" ] (fs_nodes fs1)) fs1.

Lemma handle_message_effect_witness :
  exists payload repo p l,
    str_value (delete_msg $"alpha" $"d\a.txt") $"type" [] = Ok $"sync_from_peer" /\
    json_at (delete_msg $"alpha" $"d\a.txt") $"payload" = Ok payload /\
    str_value payload $"repo_id" [] = Ok repo /\ (repo = [] \/ repo = $"alpha") /\
    str_value payload $"path" [] = Ok p /\ json_value get_bool payload $"is_delete" false = Ok true /\
    resolve fs1 (path_append $"/w" (normalize_path p)) = Some l /\
    removed_fs = set_nodes (delete l (fs_nodes fs1)) fs1 /\ None = (None : option transfer_req) /\
    (forall lw, confined (normalize_path p) -> resolve fs1 $"/w" = Some lw -> lw `prefix_of` l).
Proof.
  apply (handle_message_effect (delete_msg $"alpha" $"d\a.txt") $"alpha" $"/w" fs1).
  - vm_compute. reflexivity.
  - intros H. apply (f_equal (fun f => fs_nodes f !! [ $"w"; $"d"; $"a.txt" ])) in H. vm_compute in H. discriminate.
Defined.

Lemma other_repo_ignored_witness :
  handle_ipc_message (delete_msg $"beta" $"d/a.txt") $"alpha" $"/w" fs1 = (fs1, None).
Proof.
  apply (other_repo_ignored _ (JObject (delete_payload $"beta" $"d/a.txt")) $"beta");
    [reflexivity|reflexivity|discriminate|discriminate].
Defined.

Lemma delete_message_removes_witness :
  handle_raw cfg (text (delete_msg $"alpha" $"d\a.txt")) (d1 []) =
  Daemon (conn []) false (set_nodes (delete [ $"w"; $"d"; $"a.txt" ] (fs_nodes fs1)) fs1) [].
Proof.
  apply (delete_message_removes cfg (d1 []) $"d\a.txt" [ $"w"; $"d"; $"a.txt" ] (File $"abc" 420 1700000000000000000));
    [by apply utf8_lit|by apply utf8_lit|vm_compute; reflexivity|vm_compute; reflexivity|discriminate].
Defined.

Definition req1 : transfer_req := TransferReq $"d\b.txt" 9000 $"download" 5 $"00ff" 420.

(** The text of a JSON document, written with single quotes. *)
Definition quoted (s : str) : str := map (fun c => if Ascii.eqb c "'"%char then chr 34 else c) s.

(** A request as the coordinator writes it, and the one for an upload, which has no mode. *)
Definition transfer_text : str := quoted
  $"{'version':'1.0','type':'prepare_file_transfer','id':'','timestamp':1753000000000,'source':'go','payload':{'direction':'download','expected_hash':'00ff','expected_size':5,'mode':420,'path':'d\\b.txt','peer_id':'p1','repo_id':'alpha','transfer_id':'t1','transfer_port':9000}}".

Definition upload_text : str := quoted
  $"{'version':'1.0','type':'prepare_file_transfer','id':'','timestamp':1753000000000,'source':'go','payload':{'direction':'upload','expected_hash':'00ff','expected_size':5,'path':'d/a.txt','peer_id':'p1','repo_id':'alpha','transfer_id':'t2','transfer_port':9001}}".

Definition envelope (payload : list (str * json)) : json :=
  JObject [($"id", JString []); ($"payload", JObject payload); ($"source", JString $"go"); ($"timestamp", JUnsigned 1753000000000);
           ($"type", JString $"prepare_file_transfer"); ($"version", JString $"1.0")].

Definition transfer_json : json := envelope
  [($"direction", JString $"download"); ($"expected_hash", JString $"00ff"); ($"expected_size", JUnsigned 5); ($"mode", JUnsigned 420);
   ($"path", JString $"d\b.txt"); ($"peer_id", JString $"p1"); ($"repo_id", JString $"alpha"); ($"transfer_id", JString $"t1");
   ($"transfer_port", JUnsigned 9000)].

Definition upload_json : json := envelope
  [($"direction", JString $"upload"); ($"expected_hash", JString $"00ff"); ($"expected_size", JUnsigned 5);
   ($"path", JString $"d/a.txt"); ($"peer_id", JString $"p1"); ($"repo_id", JString $"alpha"); ($"transfer_id", JString $"t2");
   ($"transfer_port", JUnsigned 9001)].

Lemma transfer_message_starts_witness :
  handle_raw cfg transfer_text (d1 []) = Daemon (conn []) false fs1 [TransferReq $"d/b.txt" 9000 $"download" 5 $"00ff" 420] /\
  handle_raw cfg upload_text (d1 []) = Daemon (conn []) false fs1 [TransferReq $"d/a.txt" 9001 $"upload" 5 $"00ff" 0].
Proof.
  split.
  - apply (transfer_message_starts cfg (d1 []) transfer_text transfer_json req1); [by_compute| |unfold req_ok; simpl; lia].
    do 5 eexists. split; [reflexivity|]. split; [reflexivity|]. split; [reflexivity|]. split; [left; reflexivity|]. split; [right; reflexivity|].
    repeat (split; [left; reflexivity|]). left. reflexivity.
  - apply (transfer_message_starts cfg (d1 []) upload_text upload_json (TransferReq $"d/a.txt" 9001 $"upload" 5 $"00ff" 0));
      [by_compute| |unfold req_ok; simpl; lia].
    do 5 eexists. split; [reflexivity|]. split; [reflexivity|]. split; [reflexivity|]. split; [left; reflexivity|]. split; [right; reflexivity|].
    repeat (split; [left; reflexivity|]). right. right. split; reflexivity.
Defined.

Definition stream : list read_ev :=
  [RData (take 7 (frame transfer_text)); RData (drop 7 (frame transfer_text) ++ frame $"x"); RTimeout].

(** The worker on a Windows client. *)
Definition win_conn : win_client := WinClient 388 {[388]} 1 false None 3000 stream (WSock [] []) false.

Definition d2 : daemon win_client := Daemon win_conn false fs1 [].


Definition ev1 : WatchEvent := WEvent Modified $"d\a.txt" [].

Definition sent1 : ser_result client := on_event cfg true clk fs1 ev1 (conn []).

Lemma callback_reports_file_witness :
  exists c', sent1 = Done c' /\ exists t j payload,
    c' = (chan_send t (conn [])).2 /\
    ((chan_send t (conn [])).1 = true -> w_sent (chan_tx c') = w_sent (chan_tx (conn [])) ++ frame t) /\
    json_parse t = Some (Ok j) /\ str_value j $"type" [] = Ok $"file_changed" /\ json_at j $"payload" = Ok payload /\
    str_value payload $"path" [] = Ok $"d/a.txt" /\ str_value payload $"repo_id" [] = Ok $"alpha" /\
    str_value payload $"action" [] = Ok $"modified" /\
    str_value payload $"hash" [] = Ok (sha256 true $"abc") /\
    json_value (get_number i64) payload $"size" 0 = Ok 3 /\
    json_value (get_number i64) payload $"modified_time" 0 = Ok 1700000000 /\
    json_value (get_number u32) payload $"mode" 0 = Ok 420.
Proof.
  destruct sent1 as [c'| |] eqn:E; [|vm_compute in E; discriminate..]. exists c'. split; [reflexivity|].
  apply (callback_reports_file cfg clk fs1 ev1 (conn []) (File $"abc" 420 1700000000000000000) c');
    [|by apply utf8_lit|by apply utf8_lit|reflexivity|vm_compute; reflexivity|discriminate|vm_compute; reflexivity
     |vm_compute; reflexivity|by_compute|by_compute|exact E].
  unfold clock_ok, int64. simpl. lia.
Defined.

Lemma callback_silent_witness :
  on_event cfg true clk fs1 (WEvent Created $"d/a.txt.tmp" []) (conn []) = Done (conn []).
Proof. apply callback_silent. right. right. left. by exists $"d/a.txt". Defined.

(** A Latin-1 file name. *)
Definition ev2 : WatchEvent := WEvent Created (chr 0xE9 :: $".txt") [].

Lemma callback_throws_iff_not_utf8_witness :
  on_event cfg true clk fs1 ev2 (conn []) = Thrown (type_error 316) /\
  ((utf8 (normalize_path (we_path ev2)) /\ utf8 $"alpha" /\
      exists c', on_event cfg true clk fs1 ev2 (conn []) = Done c') \/
   (~ (utf8 (normalize_path (we_path ev2)) /\ utf8 $"alpha") /\
      on_event cfg true clk fs1 ev2 (conn []) = Thrown (type_error 316))).
Proof.
  split; [vm_compute; reflexivity|].
  apply (callback_throws_iff_not_utf8 cfg true clk fs1 ev2 (conn [])); [|reflexivity|vm_compute; reflexivity].
  unfold clock_ok, int64. simpl. lia.
Defined.

Lemma start_up_ok_witness :
  start_up [ $"alpha"; $"/w"; $"--poll-interval"; $"-5" ] (Some $"/tmp/s") fs1 = Run cfg /\
  fs_is_directory fs1 $"/w" = true /\ 0 < 1000 /\
  (forall s, Some $"/tmp/s" = Some s -> $"/tmp/s" = s) /\ Some $"alpha" = Some $"alpha".
Proof.
  assert (E : start_up [ $"alpha"; $"/w"; $"--poll-interval"; $"-5" ] (Some $"/tmp/s") fs1 = Run cfg)
    by (vm_compute; reflexivity).
  split; [exact E|]. exact (start_up_ok _ _ _ _ E).
Defined.

(** ** A path that leaves the watched directory *)

(** The coordinator's test of a path from a peer (pkg/sync/coordinator.go and
    [FileRequestPayload.Validate] of pkg/protocol/messages.go), on a POSIX
    system: relative, without dot-dot. *)
Definition coordinator_accepts (path : str) : bool :=
  negb (match path with c :: _ => Ascii.eqb c slash | [] => false end) && negb (contains $".." path).

Definition os1 : tr_os := TrOs true true (fun _ => true) [RData $"hello"] [] good_disk true.

Definition escape_text : str := quoted
  $"{'version':'1.0','type':'prepare_file_transfer','id':'','timestamp':1753000000000,'source':'go','payload':{'direction':'download','expected_size':5,'path':'\\secret','repo_id':'alpha','transfer_port':9000}}".

(** A path that starts with a backslash passes the coordinator's test for
    relative paths, and the daemon turns it into an absolute one, to which the
    watched directory is not prepended.  The transfer below writes the file
    /secret although /w is watched. *)
Theorem backslash_path_escapes :
  (forall watch rest,
     path_append watch (normalize_path (chr 92 :: rest)) = slash :: normalize_path rest) /\
  coordinator_accepts $"\secret" = true /\
  exists r,
    d_spawned (handle_raw cfg escape_text (d1 [])) = [r] /\
    let out := run_transfer os1 $"/w" r fs1 in
    r_out out = DownloadComplete /\
    fs_nodes (r_fs out) !! [ $"secret" ] = Some (NFile (File $"hello" 420 9)).
Proof.
  split_and!.
  - intros watch rest. reflexivity.
  - vm_compute. reflexivity.
  - exists (TransferReq $"/secret" 9000 $"download" 5 [] 0). split; vm_compute; [reflexivity|done].
Qed.
End DaemonDemo.
