(* ===== verification/Announce.v ===== *)
(** * From a change of the directory to the coordinator (main.cpp)

    [main] creates a watcher with its callback and starts it.  Here the
    callback is called for all the events a watcher finds in one piece of
    input of the system, for any implementation of the interface of the
    watchers and any implementation of the interface of the IPC clients. *)

From S2P Require Import Prelude Posix StdMap FileSys Sha256 FileTransfer Watcher WatchInterface.
From S2P Require Import JsonNumber JsonValue JsonLexer JsonParser JsonSerializer JsonStrings JsonIntegers.
From S2P Require Import JsonTokens JsonRoundtrip JsonTotal IpcClient IpcInterface Daemon DaemonSpec.

(** What a call of the callback finds: the clock, the file system, and whether
    a digest context can be allocated. *)
Record moment := Moment { mo_clk : clock; mo_fs : fsys; mo_ctx : bool }.

Abbreviation call := (moment * WatchEvent)%type.

(** The path of an event as the callback uses it. *)
Definition norm_path (x : call) : str := normalize_path (we_path x.2).

Section Announce.
Context {E : EVP} {L : EVPLaws E}.
Context {C : Type} {CH : IpcChannel C} {CL : IpcChannelLaws C}.

(** The calls of the callback one after the other. *)
Fixpoint report_all (cfg : config) (calls : list call) (c : C) : ser_result C :=
  match calls with
  | [] => Done c
  | (m, ev) :: rest => c' ← on_event cfg (mo_ctx m) (mo_clk m) (mo_fs m) ev c; report_all cfg rest c'
  end.

(** ** The start and the end of the program *)

(** [if (!watcher || !watcher->start()) g_shutdown = true;] *)
Definition main_start {W} `{FileSystemWatcher W} (os : fsw_os) (w : W) (d : daemon C) : W * daemon C :=
  let '(ok, w') := fsw_start os w in (w', if ok then d else signal_handler d).

(** After the loop: the watcher is stopped, the worker joined, the client
    disconnected. *)
Definition main_end {W} `{FileSystemWatcher W} (w : W) (d : daemon C) : W * daemon C :=
  (fsw_stop w, main_exit d).

(** ** What is sent *)

Definition event_text (cfg : config) (x : call) : str :=
  text (file_message cfg (mo_clk x.1) (file_payload cfg (we_type x.2) (norm_path x)
    (read_metadata (mo_ctx x.1) (mo_fs x.1) cfg (we_type x.2) (norm_path x) (now_s (mo_clk x.1))))).

Definition reported (cfg : config) (calls : list call) : list call :=
  List.filter (fun x => negb (ignored (mo_fs x.1) cfg (norm_path x))) calls.

Fixpoint send_each (ms : list str) (c : C) : C :=
  match ms with
  | [] => c
  | m :: ms' => send_each ms' (chan_send m c).2
  end.

(** A call with a UTF-8 path, at a time and with time stamps of 64 bits. *)
Definition call_ok (cfg : config) (x : call) : Prop :=
  clock_ok (mo_clk x.1) /\ utf8 (norm_path x) /\
  forall y, file_at (mo_fs x.1) (path_append (watch_path cfg) (norm_path x)) = Some y -> int64 (f_mtime y).

(** What the coordinator reads in the message for a call. *)
Definition announced_as (cfg : config) (x : call) (t : str) : Prop :=
  exists j payload, json_parse t = Some (Ok j) /\ str_value j $"type" [] = Ok $"file_changed" /\
    json_at j $"payload" = Ok payload /\ str_value payload $"path" [] = Ok (norm_path x) /\
    str_value payload $"repo_id" [] = Ok (repo_id cfg) /\
    str_value payload $"action" [] = Ok (action_of (we_type x.2)).

(** ** Lemmas *)

Lemma i64_int64 z : int64 (i64 z).
Proof. unfold int64, i64. pose proof (Z.mod_pos_bound (z + 2 ^ 63) (2 ^ 64)). lia. Qed.

Lemma quot_int64 z : int64 z -> int64 (Z.quot z 1000000000).
Proof. unfold int64. intros H. Z.to_euclidean_division_equations. lia. Qed.

Lemma metadata_call_ok cfg x : call_ok cfg x ->
  metadata_ok (read_metadata (mo_ctx x.1) (mo_fs x.1) cfg (we_type x.2) (norm_path x) (now_s (mo_clk x.1))).
Proof.
  intros ((Hs & _) & _ & Hx). unfold read_metadata.
  assert (H0 : metadata_ok (Metadata 0 [] (now_s (mo_clk x.1)) 0)) by (unfold metadata_ok, int64 in *; simpl; lia).
  assert (H1 : metadata_ok match file_at (mo_fs x.1) (path_append (watch_path cfg) (norm_path x)) with
    | Some y => Metadata (i64 (zlen (f_content y)))
        (match sha256_file (mo_ctx x.1) (mo_fs x.1) (path_append (watch_path cfg) (norm_path x)) with Some h => h | None => [] end)
        (Z.quot (f_mtime y) 1000000000) (u32 (f_mode y))
    | None => Metadata 0 [] (now_s (mo_clk x.1)) 0 end).
  { destruct (file_at _ _) as [y|]; [|done]. unfold metadata_ok. simpl. split_and!;
      [apply i64_range|apply quot_int64; by apply Hx|apply Z.mod_pos_bound; lia..]. }
  by destruct (we_type x.2).
Qed.

Lemma event_text_announced cfg x : call_ok cfg x -> utf8 (repo_id cfg) -> announced_as cfg x (event_text cfg x).
Proof.
  intros Hx Hr. pose proof (metadata_call_ok cfg x Hx) as Hmd. pose proof Hx as (Hclk & Hp & _).
  pose proof (file_message_utf8 (mo_ctx x.1) (mo_fs x.1) cfg (mo_clk x.1) (we_type x.2) (norm_path x) (now_s (mo_clk x.1)) Hclk) as Hu.
  unfold announced_as, event_text in *. set (md := read_metadata _ _ _ _ _ _) in *. clearbody md.
  exists (norm (file_message cfg (mo_clk x.1) (file_payload cfg (we_type x.2) (norm_path x) md))),
    (norm (file_payload cfg (we_type x.2) (norm_path x) md)).
  split_and!; try reflexivity. apply text_parse; [by apply file_message_ok|]. by apply Hu.
Qed.

Lemma on_event_call cfg x (c : C) :
  chan_connected c = true -> call_ok cfg x -> utf8 (repo_id cfg) ->
  on_event cfg (mo_ctx x.1) (mo_clk x.1) (mo_fs x.1) x.2 c =
    Done (if ignored (mo_fs x.1) cfg (norm_path x) then c else (chan_send (event_text cfg x) c).2).
Proof.
  intros Hc (Hclk & Hp & _) Hr. destruct (ignored (mo_fs x.1) cfg (norm_path x)) eqn:Hi.
  - unfold on_event. fold (norm_path x). by rewrite Hi.
  - rewrite on_event_message by done. fold (norm_path x).
    pose proof (file_message_utf8 (mo_ctx x.1) (mo_fs x.1) cfg (mo_clk x.1) (we_type x.2) (norm_path x) (now_s (mo_clk x.1)) Hclk) as Hu.
    fold (event_text cfg x). unfold event_text.
    destruct (json_dump_text (file_message cfg (mo_clk x.1) (file_payload cfg (we_type x.2) (norm_path x)
      (read_metadata (mo_ctx x.1) (mo_fs x.1) cfg (we_type x.2) (norm_path x) (now_s (mo_clk x.1)))))) as [[_ ->]|[Hno _]].
    + done.
    + exfalso. apply Hno, Hu. done.
Qed.

Lemma report_all_sends cfg calls (c : C) :
  chan_connected c = true -> Forall (call_ok cfg) calls -> utf8 (repo_id cfg) ->
  report_all cfg calls c = Done (send_each (event_text cfg <$> reported cfg calls) c).
Proof.
  intros Hc Hf Hr. revert c Hc. induction Hf as [|x calls Hx Hf IH]; intros c Hc; [done|].
  destruct x as [m ev]. cbn [report_all]. rewrite (on_event_call cfg (m, ev)) by done. cbn [mbind ser_bind].
  unfold reported. cbn [List.filter fst]. destruct (ignored (mo_fs m) cfg (norm_path (m, ev))); simpl negb; cbv iota.
  - by apply IH.
  - rewrite fmap_cons. cbn [send_each]. apply IH. by rewrite chan_send_connected.
Qed.

Lemma send_each_all ms (c c' : C) : chan_send_all ms c = (true, c') -> send_each ms c = c'.
Proof.
  revert c. induction ms as [|m ms IH]; intros c; simpl; [by intros [= ->]|].
  destruct (chan_send m c) as [[] c1]; [|done]. apply IH.
Qed.
End Announce.

(** ** Theorems *)

Section Theorems.
Context {E : EVP} {L : EVPLaws E}.
Context {C : Type} {CH : IpcChannel C} {CL : IpcChannelLaws C}.
Context {B : Type} {BH : IpcChannel B} {BL : IpcChannelLaws B}.
Context {W : Type} {FW : FileSystemWatcher W} {FL : FileSystemWatcherLaws W}.

(** [cb] is the callback of the daemon at these calls: it returns exactly when
    no exception leaves it. *)
Definition agrees (cb : Callback) (cfg : config) (calls : list call) (c : C) : Prop :=
  forall k m ev c', calls !! k = Some (m, ev) -> report_all cfg (take k calls) c = Done c' ->
    cb ev = match on_event cfg (mo_ctx m) (mo_clk m) (mo_fs m) ev c' with Done _ => true | _ => false end.

Lemma report_all_take cfg calls (c : C) k :
  chan_connected c = true -> Forall (call_ok cfg) calls -> utf8 (repo_id cfg) ->
  exists c', report_all cfg (take k calls) c = Done c' /\ chan_connected c' = true.
Proof.
  intros Hc Hf Hr. rewrite report_all_sends by (done || by apply Forall_take). eexists. split; [done|].
  generalize (event_text cfg <$> reported cfg (take k calls)). intros ms. revert c Hc.
  induction ms as [|m ms IH]; intros c Hc; [done|]. simpl. apply IH. by rewrite chan_send_connected.
Qed.

Lemma agrees_returns cb cfg calls (c : C) :
  chan_connected c = true -> Forall (call_ok cfg) calls -> utf8 (repo_id cfg) -> agrees cb cfg calls c ->
  Forall (fun e => cb e = true) (snd <$> calls).
Proof.
  intros Hc Hf Hr Ha. apply Forall_forall. intros e He.
  apply list_elem_of_fmap in He as [[m ev] [-> Hin]]. apply list_elem_of_lookup in Hin as [k Hk].
  destruct (report_all_take cfg calls c k Hc Hf Hr) as (c' & Ec & Hc'). simpl. rewrite (Ha k m ev c' Hk Ec).
  rewrite (on_event_call cfg (m, ev)); [done|done| |done]. by eapply Forall_lookup_1.
Qed.

(** C7: every change a watcher finds reaches the coordinator.  Take any of the
    watchers, running with the daemon's callback, on a connected client, and
    UTF-8 names.  The callback throws for none of the events, so the watcher
    reports all that it finds and survives; the callback sends one message for
    each event that is not on a hidden, temporary or directory path, in the
    order of the events; and when the sends succeed, the other end, of
    whichever implementation, receives exactly these messages in this order,
    each with the path, the action and the repository of its event. *)
Theorem watcher_to_coordinator cfg i (w w' : W) evs calls cb (c c' : C) (b : B) t :
  fsw_deliver (fun _ => true) i w = Some (true, evs, w') -> snd <$> calls = evs ->
  chan_connected c = true -> Forall (call_ok cfg) calls -> utf8 (repo_id cfg) -> agrees cb cfg calls c ->
  let ms := event_text cfg <$> reported cfg calls in
  fsw_deliver cb i w = Some (true, evs, w') /\
  report_all cfg calls c = Done (send_each ms c) /\
  Forall2 (announced_as cfg) (reported cfg calls) ms /\
  (chan_send_all ms c = (true, c') -> Forall sendable ms -> chan_connected b = true ->
   toks (chan_rx b) = (TByte <$> drop (length (w_sent (chan_tx c))) (w_sent (chan_tx c'))) ++ t ->
   exists b', chan_receive_n (length ms) b = (Some <$> ms, b') /\ chan_connected b' = true /\ toks (chan_rx b') = t).
Proof.
  intros Hd Hcalls Hc Hf Hr Ha ms. split_and!.
  - apply fsw_transparent; [done|]. subst evs. by eapply agrees_returns.
  - exact (report_all_sends cfg calls c Hc Hf Hr).
  - unfold ms. assert (Hrep : Forall (call_ok cfg) (reported cfg calls)).
    { apply Forall_forall. intros x Hx. unfold reported in Hx. apply list_elem_of_In, filter_In in Hx as [Hx _].
      rewrite Forall_forall in Hf. apply Hf. by apply list_elem_of_In. }
    clear -Hrep Hr L. induction Hrep as [|x l Hx Hl IH]; [constructor|]. rewrite fmap_cons. constructor; [|exact IH].
    exact (event_text_announced cfg x Hx Hr).
  - intros Hs Hms Hb Ht. rewrite (chan_send_all_sent _ _ _ Hs), drop_app_length in Ht. by apply chan_receive_n_frames.
Qed.

(** The program ends with the watcher stopped and the client disconnected. *)
Theorem main_end_clean (w : W) (d : daemon C) :
  fsw_isRunning (main_end w d).1 = false /\ chan_connected (d_client (main_end w d).2) = false.
Proof. split; [apply fsw_stop_stops|]. apply chan_disconnect_closed. Qed.
End Theorems.

(** ** Witnesses *)

Module AnnounceDemo.
Import DaemonDemo.

#[local] Existing Instances RealSha256.evp RealSha256.evp_laws.

(** The polling watcher finds the file of [fs1]. *)
Definition w1 : polling := Polling (WatcherSt true 1) [].

Definition scan1 : bool * list iter_step :=
  (true, [IterEntry (DirEnt [ $"d"; $"a.txt" ] false true (FInfo 1700000000 3))]).

Definition call1 : call := (Moment clk fs1 true, WEvent Created $"d/a.txt" []).

Lemma call1_ok : call_ok cfg call1.
Proof.
  split_and!; [unfold clock_ok, int64; simpl; lia|by apply utf8_lit|].
  intros y Hy. vm_compute in Hy. injection Hy as <-. unfold int64. simpl. lia.
Qed.

Lemma watcher_to_coordinator_witness :
  report_all cfg [call1] (conn []) = Done (send_each [event_text cfg call1] (conn [])) /\
  announced_as cfg call1 (event_text cfg call1).
Proof.
  assert (Hu : utf8 (repo_id cfg)) by by apply utf8_lit.
  assert (Hr : reported cfg [call1] = [call1]) by (vm_compute; reflexivity).
  assert (Ha : agrees returning cfg [call1] (conn [])).
  { intros [|k] m ev c' Hk Hc'; [|discriminate Hk]. assert (Ex : call1 = (m, ev)) by exact (inj Some _ _ Hk). cbn [take report_all] in Hc'. injection Hc' as <-.
    pose proof (on_event_call cfg call1 (conn []) eq_refl call1_ok Hu) as He. rewrite Ex in He. cbn [fst snd] in He.
    rewrite He. reflexivity. }
  destruct (watcher_to_coordinator (FW := polling_fsw) (B := client) cfg scan1 w1 (Polling (WatcherSt true 1) [( $"d/a.txt", FInfo 1700000000 3)])
    [WEvent Created $"d/a.txt" []] [call1] returning (conn []) (conn []) (conn []) []) as (_ & H1 & H2 & _).
  - vm_compute. reflexivity.
  - reflexivity.
  - reflexivity.
  - apply Forall_singleton, call1_ok.
  - by apply utf8_lit.
  - exact Ha.
  - rewrite Hr in H1, H2. apply Forall2_cons in H2 as [H2 _]. exact (conj H1 H2).
Defined.
End AnnounceDemo.
