(* ===== verification/Replication.v ===== *)
(** * One file from daemon to daemon

    The path of a change through the components: the watcher's callback of one
    daemon announces the file (main.cpp, sha256.cpp, json.hpp, ipc_client.cpp),
    the coordinators hand the announced values to another daemon in a
    [prepare_file_transfer] message, its worker starts the transfer, and
    file_transfer.cpp writes the file.  The coordinators are not part of this
    library: that they copy the fields of the announcement and relay the bytes
    of the upload are hypotheses.  The daemon that downloads is the POSIX one,
    the one that sets permissions; the other one may have any client. *)

From S2P Require Import Prelude Posix StdMap FileSys Sha256 FileTransfer Watcher.
From S2P Require Import JsonNumber JsonValue JsonLexer JsonParser JsonSerializer JsonStrings JsonIntegers.
From S2P Require Import JsonTokens JsonRoundtrip JsonTotal IpcClient IpcInterface Daemon DaemonSpec.

(** ** The coordinators *)

(** The request carries the fields of the announcement. *)
Definition announces (payload : json) (q : transfer_req) : Prop :=
  str_value payload $"path" [] = Ok (q_path q) /\
  json_value (get_number i64) payload $"size" 0 = Ok (q_expected_size q) /\
  str_value payload $"hash" [] = Ok (q_expected_hash q) /\
  json_value (get_number u32) payload $"mode" 0 = Ok (q_mode q).

(** A request for a download the daemon finds at the head of its stream: any
    text that parses to one. *)
Definition requested {C} `{IpcChannel C} (cfg : config) (d : daemon C) (raw : str) (q : transfer_req) (rest : list tok) : Prop :=
  g_shutdown d = false /\ chan_connected (d_client d) = true /\
  q_direction q = $"download" /\ 0 <= q_port q < 2 ^ 16 /\
  (exists j, json_parse raw = Some (Ok j) /\ asks_transfer (repo_id cfg) j q) /\ sendable raw /\
  toks (chan_rx (d_client d)) = (TByte <$> frame raw) ++ rest.

(** ** The announcement *)

(** An event on a regular file that the callback reports. *)
Definition file_event {C} `{IpcChannel C} (cfg : config) (clk : clock) (f : fsys) (ev : WatchEvent) (c : C)
    (x : file) : Prop :=
  let p := normalize_path (we_path ev) in
  clock_ok clk /\ utf8 p /\ utf8 (repo_id cfg) /\ chan_connected c = true /\ ignored f cfg p = false /\
  we_type ev <> Deleted /\ file_at f (path_append (watch_path cfg) p) = Some x /\
  zlen (f_content x) < 2 ^ 63 /\ int64 (f_mtime x) /\ 0 <= f_mode x < 2 ^ 31.

(** ** Lemmas *)

Lemma normalize_path_idem p : normalize_path (normalize_path p) = normalize_path p.
Proof.
  unfold normalize_path. rewrite <- list_fmap_compose. apply list_fmap_ext. intros _ c _. simpl.
  destruct (Ascii.eqb c (chr 92)) eqn:E; [done|by rewrite E].
Qed.

Section Replication.
Context {E : EVP} {L : EVPLaws E}.
Context {A : Type} {CA : IpcChannel A} {LA : IpcChannelLaws A}.

Lemma sha256_not_empty s : sha256 true s <> [].
Proof.
  intros H. apply (f_equal length) in H. unfold sha256 in H. cbn [negb] in H.
  by rewrite length_to_hex, evp_final_length in H.
Qed.

(** The request for a file. *)
Definition file_request (ev : WatchEvent) (x : file) (port : Z) : transfer_req :=
  TransferReq (normalize_path (we_path ev)) port $"download" (zlen (f_content x)) (sha256 true (f_content x)) (f_mode x).

(** What the announcement of the file says. *)
Lemma announced cfg clk f ev (c : A) x c' :
  file_event cfg clk f ev c x -> on_event cfg true clk f ev c = Done c' ->
  exists t j payload, c' = (chan_send t c).2 /\ json_parse t = Some (Ok j) /\ json_at j $"payload" = Ok payload /\
    (forall port, announces payload (file_request ev x port)) /\
    forall q, announces payload q ->
      q_path q = normalize_path (we_path ev) /\ q_expected_size q = zlen (f_content x) /\
      q_expected_hash q = sha256 true (f_content x) /\ q_mode q = f_mode x.
Proof.
  intros (Hclk & Hu & Hr & Hc & Hi & Ht & Hx & Hl & Hm & Hmode) Hev.
  destruct (on_event_reports cfg clk f ev c x c') as (t & j & payload & E1 & _ & Ep & _ & Ej & E2 & _ & _ & E3 & E4 & _ & E5);
    try done; [lia|].
  exists t, j, payload. split_and!; try done. intros q (Q1 & Q2 & Q3 & Q4). split_and!; congruence.
Qed.

(** The worker starts exactly the transfer of the request. *)
Lemma request_starts cfg (d : daemon client) raw q rest env os :
  requested cfg d raw q rest -> req_ok q -> normalize_path (q_path q) = q_path q ->
  exists c, worker_step cfg env os d = Daemon c false (d_fs d) (d_spawned d ++ [q]) /\
    chan_connected c = true /\ toks (chan_rx c) = rest.
Proof.
  intros (Hs & Hc & Hd & Hport & (j & Hj & Hq) & Hsend & Ht) Hok Hn.
  destruct (chan_receive_frame _ (d_client d) rest Hc Hsend Ht) as (c & Er & Hc' & Hrest).
  exists c. split_and!; [|done|done]. unfold worker_step. rewrite Hs, Hc, Er.
  rewrite (transfer_asked cfg (set_client c d) raw j q Hj Hq Hok). simpl. rewrite Hs, Hn. by destruct q.
Qed.

Lemma req_ok_file cfg clk f ev (c : A) x (q : transfer_req) :
  file_event cfg clk f ev c x -> 0 <= q_port q < 2 ^ 16 ->
  q_path q = normalize_path (we_path ev) /\ q_expected_size q = zlen (f_content x) /\
  q_expected_hash q = sha256 true (f_content x) /\ q_mode q = f_mode x -> req_ok q.
Proof.
  intros (Hclk & Hu & Hr & Hc & Hi & Ht & Hx & Hl & Hm & Hmode) Hport (E1 & E2 & E3 & E4).
  unfold req_ok. rewrite E2, E4. pose proof (zlen_nonneg (f_content x)). split_and!; lia.
Qed.

(** ** Theorems *)

(** C1: a file that was announced is what the other daemon ends up with. When the callback of one daemon announces a
    file and the coordinators hand the announced path, size, hash and mode to a daemon on a POSIX system, in whatever
    format they write the request, its worker starts one transfer, of that path; if that transfer completes, its digest
    context works and the last flush of its file loses nothing, then the file below the other watched directory has the
    size and the SHA-256 of the original, and the permission bits of the original if these are not all clear. (Without
    a digest context a download is accepted unverified.) *)
Theorem replication_integrity cfgA clk fA ev (cA : A) x cA' :
  file_event cfgA clk fA ev cA x -> on_event cfgA true clk fA ev cA = Done cA' ->
  exists t j payload, cA' = (chan_send t cA).2 /\ json_parse t = Some (Ok j) /\ json_at j $"payload" = Ok payload /\
  (forall port, announces payload (file_request ev x port)) /\
  forall q cfgB (dB : daemon client) raw rest env os,
    announces payload q -> requested cfgB dB raw q rest ->
    (exists c, worker_step cfgB env os dB = Daemon c false (d_fs dB) (d_spawned dB ++ [q]) /\
       chan_connected c = true /\ toks (chan_rx c) = rest) /\
    forall tos f, let r := run_transfer tos (watch_path cfgB) q f in
      r_out r = DownloadComplete -> tr_ctx tos = true -> disk_lost (tr_disk tos) = 0%nat ->
      exists y, file_at (r_fs r) (path_append (watch_path cfgB) (normalize_path (we_path ev))) = Some y /\
        zlen (f_content y) = zlen (f_content x) /\ sha256 true (f_content y) = sha256 true (f_content x) /\
        (0 < f_mode x -> f_mode y = Z.land (f_mode x) 4095).
Proof.
  intros Hfe Hev. destruct (announced cfgA clk fA ev cA x cA' Hfe Hev) as (t & j & payload & E1 & E2 & E3 & E4 & Hq).
  exists t, j, payload. split_and!; try done. intros q cfgB dB raw rest env os Ha Hreq.
  pose proof (Hq q Ha) as Hqx. pose proof Hreq as (_ & _ & Hd & Hport & _).
  pose proof (req_ok_file cfgA clk fA ev cA x q Hfe Hport Hqx) as Hok. destruct Hqx as (Q1 & Q2 & Q3 & Q4). split.
  - apply (request_starts cfgB dB raw q rest env os Hreq Hok). rewrite Q1. apply normalize_path_idem.
  - intros tos f. cbv zeta. unfold run_transfer. rewrite Hd, Q1, Q2, Q3, Q4. intros Ho Hctx Hlost.
    destruct (download_complete_file tos (watch_path cfgB) (normalize_path (we_path ev)) (q_port q) (zlen (f_content x))
      (sha256 true (f_content x)) (f_mode x) f _ eq_refl Ho) as (bs & u & y & lt & _ & Hlen & Hy & Hcont & Hmode & Hh & _).
    exists y. split_and!; [done| |apply Hh; [apply sha256_not_empty|done]|done].
    rewrite Hcont, Hlost, Nat.sub_0_r, take_ge by lia. done.
Qed.

(** C17: the replication succeeds when nothing is in the way.  When moreover
    the bytes the other daemon's transfer receives are those the first
    daemon's upload of the same file sent, to a peer that takes everything,
    and the destination can be written, the transfer completes and the file
    below the other watched directory has exactly the content of the
    original. *)
Theorem replication_succeeds cfgA clk fA ev (cA : A) x cA' :
  file_event cfgA clk fA ev cA x -> on_event cfgA true clk fA ev cA = Done cA' ->
  exists t j payload, cA' = (chan_send t cA).2 /\ json_parse t = Some (Ok j) /\ json_at j $"payload" = Ok payload /\
  (forall port, announces payload (file_request ev x port)) /\
  forall q, announces payload q -> q_direction q = $"download" ->
  forall up portA hashA modeA, let p := normalize_path (we_path ev) in
    tr_socket up = true -> tr_pton up = true -> tr_connect up (portA mod 2 ^ 16) = true ->
    accepting (tr_tx up) -> (length (f_content x) <= length (tr_tx up))%nat ->
    let sent := r_sent (handle_file_transfer up (watch_path cfgA) p portA $"upload" (q_expected_size q) hashA modeA fA) in
  forall down watchB f f1 lt f2 ld u,
    tr_socket down = true -> tr_pton down = true -> tr_connect down (q_port q mod 2 ^ 16) = true ->
    create_directories f (parent_path (path_append watchB p)) = (true, f1) ->
    open_trunc f1 (tmp_of (path_append watchB p)) = Some (lt, f2) ->
    resolve f1 (path_append watchB p) = Some ld -> is_dir_at f1 ld = false ->
    toks (tr_rx down) = (TByte <$> sent) ++ u -> tr_disk down = good_disk -> tr_ctx down = true ->
    let r := run_transfer down watchB q f in
    r_out r = DownloadComplete /\
    exists y, file_at (r_fs r) (path_append watchB p) = Some y /\ f_content y = f_content x.
Proof.
  intros Hfe Hev. destruct (announced cfgA clk fA ev cA x cA' Hfe Hev) as (t & j & payload & E1 & E2 & E3 & E4 & Hq).
  exists t, j, payload. split_and!; try done. intros q Ha Hd up portA hashA modeA p Us Up Uc Ua Ul sent.
  destruct (Hq q Ha) as (Q1 & Q2 & Q3 & Q4).
  destruct Hfe as (_ & _ & _ & _ & _ & _ & Hx & _). fold p in Hx.
  assert (Hsent : sent = f_content x).
  { assert (Hif : ifstream_open fA (path_append (watch_path cfgA) p) = Some (f_content x)).
    { unfold file_at in Hx. unfold ifstream_open. destruct (node_at fA _) as [[]|]; [done| |done]. by simplify_eq. }
    destruct (upload_sends up (watch_path cfgA) p portA (q_expected_size q) hashA modeA fA (f_content x))
      as (_ & _ & _ & Hall); try done; [rewrite Q2; apply zlen_nonneg|].
    destruct (Hall Ua Ul) as [Hs _]. unfold sent. rewrite Hs, Q2. apply take_ge. unfold zlen. lia. }
  intros down watchB f f1 lt f2 ld u Ds Dp Dc Hcd Hop Hrd Hdd Ht Hdisk Hctx r. rewrite Hsent in Ht.
  unfold r, run_transfer. rewrite Hd, Q1, Q2, Q3. fold p.
  destruct (download_completes down watchB p (q_port q) (f_content x) u (sha256 true (f_content x)) (q_mode q)
    f f1 lt f2 ld) as (Ho & _ & Hy); try done. by right.
Qed.
End Replication.

Module ReplicationDemo.
Import DaemonDemo.

#[local] Existing Instances RealSha256.evp RealSha256.evp_laws.

Definition x1 : file := File $"abc" 420 1700000000000000000.

Definition q1 : transfer_req := file_request ev1 x1 9000.

(** The other daemon watches /w of an empty tree; the coordinator's request. *)
Definition fs2 : fsys := FS {[ [ $"w" ] := NDir 493 ]} [] 9.

Definition request1 : str := quoted
  $"{'version':'1.0','type':'prepare_file_transfer','id':'','timestamp':1753000000000,'source':'go','payload':{'direction':'download','expected_hash':'ba7816bf8f01cfea414140de5dae2223b00361a396177a9cb410ff61f20015ad','expected_size':3,'mode':420,'path':'d/a.txt','peer_id':'p1','repo_id':'alpha','transfer_id':'t1','transfer_port':9000}}".

Definition request1_json : json := envelope
  [($"direction", JString $"download"); ($"expected_hash", JString $"ba7816bf8f01cfea414140de5dae2223b00361a396177a9cb410ff61f20015ad");
   ($"expected_size", JUnsigned 3); ($"mode", JUnsigned 420); ($"path", JString $"d/a.txt"); ($"peer_id", JString $"p1");
   ($"repo_id", JString $"alpha"); ($"transfer_id", JString $"t1"); ($"transfer_port", JUnsigned 9000)].

Definition dB : daemon client := d1 [RData (take 100 (frame request1)); RData (drop 100 (frame request1))].

Lemma event1 : file_event cfg clk fs1 ev1 (conn []) x1.
Proof.
  split_and!; try (by apply utf8_lit); try (vm_compute; reflexivity); try done.
  all: unfold clock_ok, int64; simpl; lia.
Qed.

Lemma requested1 : requested cfg dB request1 q1 [].
Proof.
  unfold requested. split; [reflexivity|]. split; [reflexivity|]. split; [reflexivity|].
  split; [vm_compute; split; [discriminate|reflexivity]|]. split; [|split; [vm_compute; split; discriminate|vm_compute; reflexivity]].
  exists request1_json. split; [by_compute|].
  do 5 eexists. split; [reflexivity|]. split; [reflexivity|]. split; [reflexivity|]. split; [left; reflexivity|]. split; [right; reflexivity|].
  split; [left; reflexivity|]. split; [left; reflexivity|]. split; [left; vm_compute; reflexivity|]. split; [left; vm_compute; reflexivity|].
  split; [left; reflexivity|]. split; [left; reflexivity|]. split; left; vm_compute; reflexivity.
Qed.

Lemma announced1 : exists c', on_event cfg true clk fs1 ev1 (conn []) = Done c'.
Proof.
  destruct (on_event cfg true clk fs1 ev1 (conn [])) as [c'| |] eqn:E; [by exists c'|vm_compute in E; discriminate..].
Qed.

Definition down1 : tr_os := TrOs true true (fun _ => true) [RData $"a"; RData $"bc"] [] good_disk true.

Lemma replication_integrity_witness :
  (exists c, worker_step cfg None (NetOs (fun _ => 3) (fun _ => false) [] []) dB = Daemon c false fs1 [q1]) /\
  exists y, file_at (r_fs (run_transfer down1 $"/w" q1 fs2)) $"/w/d/a.txt" = Some y /\
    zlen (f_content y) = 3 /\ sha256 true (f_content y) = sha256 true $"abc" /\ (0 < 420 -> f_mode y = 420).
Proof.
  destruct announced1 as [c' E].
  destruct (replication_integrity cfg clk fs1 ev1 (conn []) x1 c' event1 E) as (t & j & payload & _ & _ & _ & Ha & Hall).
  destruct (Hall q1 cfg dB request1 [] None (NetOs (fun _ => 3) (fun _ => false) [] []) (Ha 9000) requested1) as [(c & Ec & _) Hr].
  split; [exists c; exact Ec|].
  apply (Hr down1 fs2); vm_compute; reflexivity.
Defined.

Definition up1 : tr_os := TrOs true true (fun _ => true) [] [WAccept 2; WAccept 2; WAccept 2] good_disk true.

(** The tree with /w/d created, and with the open temporary file. *)
Definition f1 : fsys := (create_directories fs2 $"/w/d").2.

Definition opened1 : option (loc * fsys) := open_trunc f1 (tmp_of $"/w/d/a.txt").

Lemma replication_succeeds_witness :
  exists y, file_at (r_fs (run_transfer down1 $"/w" q1 fs2)) $"/w/d/a.txt" = Some y /\ f_content y = $"abc".
Proof.
  destruct announced1 as [c' E].
  destruct (replication_succeeds cfg clk fs1 ev1 (conn []) x1 c' event1 E) as (t & j & payload & _ & _ & _ & Ha & Hall).
  assert (Hacc : accepting (tr_tx up1)) by (repeat constructor; by eexists).
  assert (Hlen : (length (f_content x1) <= length (tr_tx up1))%nat) by (vm_compute; lia).
  specialize (Hall q1 (Ha 9000) eq_refl up1 9001 [] 0 eq_refl eq_refl eq_refl Hacc Hlen down1 $"/w" fs2 f1).
  destruct (Hall [ $"w"; $"d"; $"a.txt.tmp" ] (default f1 (snd <$> opened1)) [ $"w"; $"d"; $"a.txt" ] [])
    as [_ Hy]; [by_compute..|exact Hy].
Defined.
End ReplicationDemo.
